(* ===== verification/_CoqProject ===== *)
-Q . S2P
Prelude.v
Doubles.v
DArray.v
Heap.v
Refinement.v
Stack.v
Queue.v
LinkedList.v
ShellSort.v
ContainerDemo.v
Cache.v
LruCache.v
LastUsedCache.v
Posix.v
Text.v
Options.v
Engine.v
SelectEngine.v
PollEngine.v
AsyncPoll.v
AsyncSystem.v
EpollEngine.v
Server.v
Socket.v
HttpClient.v
Libevent.v
Asio.v
AsioServer.v
Singleton.v
Ownership.v
Patterns.v
Lifetimes.v
SmallServers.v
Simplest.v
Vectors.v
Namespaces.v
Problems.v
Dispatch.v
Members.v
Skia.v
