(* ===== verification/Prelude.v ===== *)
(** * Verification of the programs of the Technopark C++ course

    The repository holds small, independent C++ programs: containers with their
    tests (cmake_make_gtest_cppunit/), network servers and clients (net/) and
    language examples (examples/, skia_sdl_example/). This library models them
    function by function, and proves what each promises, or what it does
    instead. All source names below are relative to src/.

    ** How the code is modelled

    A function is a program of the error and state monad [M] of this file: it
    ends normally, in an exception (the state at the throw is kept), by [exit],
    in undefined behaviour ([ub]), or out of the fuel of a loop. Integers are Z
    with their wrap-around ([u64], [u16], [s32]) or their overflow
    ([int_arith]); memory is blocks of cells that remember how they were
    allocated and may be indeterminate; doubles are the Standard Library's IEEE
    values (Doubles.v). Dynamic objects that can be aliased live in a store.
    Whether an allocation succeeds is a parameter ([Allocator]). "Never
    undefined" is therefore a theorem, and so is "undefined exactly when".
    [triple] is total correctness, [keeps] an invariant of every outcome.

    The network programs run against the kernel of Posix.v: an unknown function
    from the history of system calls to the reply of the next one. Theorems
    quantify over it, or over the kernels that behave as a stated hypothesis
    says, and speak about the recorded history: what was sent, closed, polled.

    ** The files

    Shared: Prelude.v (the monad, integers, memory, tactics), Refinement.v (the
    interface [Refines] between a class and an abstract data type and its
    transfer to histories of calls), Cache.v (the promise of a bounded cache),
    Posix.v (system calls), Text.v (std::string, numbers, C strings).

    Containers, cmake_make_gtest_cppunit/: DArray.v (DArray.h, .cpp), Heap.v
    (Heap.h, .cpp, on the operations of DArray.v), Stack.v, Queue.v,
    LinkedList.v (the files of these names), ShellSort.v (stack_corr.cpp),
    ContainerDemo.v (main.cpp and the three test programs, on the models of the
    containers). Stack and Queue are instances of [Refines]: bounded stacks and
    queues. DArray and LinkedList have lifecycle theorems from constructor to
    destructor. Heap is first proved equal to functions on lists; then heap
    order, permutation and heap sort follow for numbers, and memory safety for
    any doubles, NaN included. ShellSort proves a sorted permutation without
    overflow.

    Caches, examples/: LruCache.v (039_good_lru_cache.cpp) and LastUsedCache.v
    (038_bad_lru_cache.cpp) refine the specification of Cache.v and are
    compared with each other.

    net/libtpevent/: Options.v (the command line), Engine.v (the listening
    socket), SelectEngine.v, PollEngine.v, AsyncPoll.v, EpollEngine.v (the four
    event loops), AsyncSystem.v (the invariant of all threads of poll_async.cpp),
    Server.v (server.cpp and main.cpp, which compose the former). The theorems
    are invariants over any number of rounds: what is answered to whom, and, for
    epoll, that the interest list of the kernel - computed from the calls and
    their results as epoll(7) says - is in step with the clients; Server.v carries those of an engine from the
    command line to the end of the program ([main_ends]).

    net/common/ and its clients: Socket.v (socket.cpp), HttpClient.v,
    SmallServers.v (simple_server, prefork, multiplexing, client_connect_timeout,
    client_read_timeout), which call the functions of Socket.v; Simplest.v
    (simplest_client_server/, on the bare system calls). The theorems say what is
    sent in terms of what was received, and which descriptors are held at the
    end: [held] counts every descriptor that socket and accept returned, and the
    theorems say what becomes of 0, which the code takes for a failure.

    Event-driven libraries: Libevent.v (net/libevent/main.cpp, callbacks on the
    buffers of libevent), Asio.v and AsioServer.v (net/asio/main.cpp: the clients
    and the queue of handlers; the asynchronous server). The library is a
    parameter: the order of events and the outcome of operations. The server is
    a transition system (a pending operation completes, a thread runs a handler)
    with an invariant of all reachable states.

    Objects and patterns, examples/: Singleton.v (007_private_constructor.cpp;
    double-checked locking as a transition system of any number of threads),
    Ownership.v (014_move_constructor.cpp, 021_RAII.cpp, 012_placement_new.cpp,
    008_default_copy_constructor_and_assign_operator.cpp), Patterns.v
    (033_observer.cpp, 032_command.cpp), Lifetimes.v (class tables with virtual
    bases: 010_initializer_list_vs_constructor_body.cpp, 011_destructors.cpp,
    025_contr_order.cpp, 026_diamond_inheritance.cpp, 027_RTTI.cpp), Dispatch.v
    (class tables with pure virtual functions: 026_1_pure_virt_func_call.cpp,
    029_abstract_factory.cpp, 030_adapter.cpp, 031_bridge.cpp, 034_visitor.cpp,
    042_crtp_class.cpp, and the mock objects of tests_gmock.cpp), Members.v
    (special members, initialisation and conversions: a Module for each of 001,
    003, 004, 006, 009, 013, 015, 016, 016_1, 017, 018, 019, 020, 022, 023, 028).

    Vectors.v models std::vector with its capacity and the validity of iterators,
    and std::set as a search driven by the results of operator<, over a tree of any
    shape (035_vector.cpp to 037_vector_3.cpp,
    040_erase_remove.cpp, 041_equality_equivalent.cpp). Namespaces.v is the name
    lookup of C++ run on the declarations of 002_namespaces.cpp and
    024_using_conflicts.cpp. Problems.v is the heap of pointers of
    cmake_make_gtest_cppunit/val_probs.c with valgrind's kinds of leaks. Skia.v is
    skia_sdl_example/main.cpp over the libraries as a parameter.

    ** Groups of theorems

    - Refinement and equivalence: every history of calls of Stack, Queue and the
      two caches answers as the abstract type; the caches agree with each other
      whenever a key always comes with the same data.
    - Invariants: the interest list of the epoll server, the conversations of the
      poll and select servers, the operations of the asio server; one object for
      all threads of the singleton; the ownership of blocks.
    - Name lookup and dispatch: what every call of 002_namespaces.cpp means (an
      example: the program has no input), and what the visitors of
      034_visitor.cpp print for any array of buildings.
    - Undefined behaviour exactly when: the dates of 037_vector_3.cpp; the values
      that members without an initialiser show in 002_namespaces.cpp.
    - Leaks: what each round of val_probs.c loses, and how.
    - Liveness and termination: a call of GetInstance can always return; the asio
      server reads a client again after its answer; libevent answers one line
      per packet; sync_http_full and recv of a number of bytes come to an end, and
      http_client.cpp unless its peer prevents it.
    - Functional behaviour: sorting, heaps, parsing of options and URLs, echoing.
    - Errors, bounds and safety: refused command lines, failed set-up calls,
      buffer overruns, descriptors that leak or do not.
    Many of these say that the code does something else than it means to; the
    manifest lists those places as findings.

    ** Fuel and rounds

    Loops that end by themselves get fuel computed from the state and theorems
    that it is enough: the sift loops of Heap (the number of elements), the
    walks of LinkedList (the number of nodes), Stack's Display, the gaps of
    ShellSort (22 for an int length), the header loop of sync_http_full
    (the length of the answer), the loops of the poll engines over their clients
    ([loop_fuel]: an index beyond the array of 2^15 descriptors is undefined
    before it runs out), the calls of Namespaces.v and Dispatch.v (the depth of
    the programs' calls). Loops that a peer can prolong for ever (the
    receive loops of Socket, the client loops of the servers) take fuel as an
    argument: the theorems hold for every amount, [NoFuel] being no outcome to
    rely on, or state the amount that suffices (recv of [n] bytes: [n + 1]). The
    event loops that nothing but an exception leaves run for a number of rounds,
    and theorems are about any number.

    ** Concurrency

    The accepting thread of PollEngine, and the accepting thread and the workers
    of AsyncPoll, may run wherever the managing thread looks at the vector that
    it shares with them without a lock (the call [Interleave], whose reply says
    who runs). One event of a worker of AsyncPoll, a handler of the asio server
    and an atomic access of the singleton are atomic steps of their systems: the
    code locks its queues, keeps the state of a client to one operation at a
    time, or uses std::atomic. (Two events of one connection in the hands of two
    workers, which the mismatch of [manager_drops_second_ready] makes possible,
    race in the program and take turns in the model.) An exception that leaves a
    thread, or that destroys one which is not joined, terminates the program.
    The memory order is sequential consistency, the default of std::atomic.

    ** Not modelled, and why

    The list of components in the manifest is complete. Left out for good: the
    vendored CppUnit; 005_required_default_constructor_for_array.cpp, which does
    not compile; what is behind an error of compilation or of linking in
    001_encapsulation.cpp, 008_default_copy_constructor_and_assign_operator.cpp
    (class C) and 031_bridge.cpp (FileLogger); the case of EPOLL in server.cpp,
    whose constant is not declared; draw_canvas2 of skia_sdl_example/main.cpp,
    which nothing calls; includes, forward declarations and the registration
    macros of the test frameworks. The real-time side of timeouts, the contents
    of the terminal after undefined behaviour and floating-point printing are not
    modelled either: numbers of type double that are only printed are
    parameters. *)

From stdpp Require Export base tactics list numbers strings gmap.
From Stdlib Require Export ZArith Lia Sorted.

#[global] Set Default Proof Using "Type".
Open Scope Z_scope.

(** ** Outcomes of a C++ computation *)

(** Why the standard leaves an execution undefined. *)
Inductive ub : Type :=
  | OutOfBounds            (* element access outside the allocated block *)
  | NullPointer            (* dereference of nullptr *)
  | Indeterminate          (* use of an uninitialised value *)
  | UseAfterFree           (* access to, or free of, a released object *)
  | DivByZero
  | PureVirtualCall        (* a virtual call that finds no final overrider *)
  | SignedOverflow.

(** The standard exceptions thrown by the repository's code. *)
Inductive exn : Type :=
  | runtime_error (what : string)
  | logic_error (what : string)
  | invalid_argument (what : string)
  | out_of_range (what : string)
  | bad_alloc
  | bad_array_new_length
  | bad_function_call.
(** std::exception::what, as g++ has it. *)
Definition what (e : exn) : string :=
  match e with
  | runtime_error w | logic_error w | invalid_argument w | out_of_range w => w
  | bad_alloc => "std::bad_alloc"
  | bad_array_new_length => "std::bad_array_new_length"
  | bad_function_call => "bad_function_call"
  end.

#[export] Instance ub_eq_dec : EqDecision ub.
Proof. solve_decision. Defined.
#[export] Instance exn_eq_dec : EqDecision exn.
Proof. solve_decision. Defined.

(** A run from a state ends normally, by an exception (the state at the throw
    is kept: C++ unwinds, it does not roll back), by [exit], in undefined
    behaviour, or outside the fuel given to a loop of the model. *)
Inductive result (S A : Type) : Type :=
  | Ret (a : A) (s : S)
  | Exc (e : exn) (s : S)
  | Exit (code : Z) (s : S)
  | Undef (u : ub)
  | NoFuel.
Arguments Ret {S A} a s.
Arguments Exc {S A} e s.
Arguments Exit {S A} code s.
Arguments Undef {S A} u.
Arguments NoFuel {S A}.

Definition M (S A : Type) : Type := S → result S A.

Definition ret {S A} (a : A) : M S A := λ s, Ret a s.
Definition bind {S A B} (m : M S A) (k : A → M S B) : M S B := λ s,
  match m s with
  | Ret a s' => k a s'
  | Exc e s' => Exc e s'
  | Exit c s' => Exit c s'
  | Undef u => Undef u
  | NoFuel => NoFuel
  end.
Definition throw {S A} (e : exn) : M S A := λ s, Exc e s.
Definition undef {S A} (u : ub) : M S A := λ _, Undef u.
Definition exit_with {S A} (c : Z) : M S A := λ s, Exit c s.
Definition no_fuel {S A} : M S A := λ _, NoFuel.
Definition get {S} : M S S := λ s, Ret s s.
Definition gets {S A} (f : S → A) : M S A := λ s, Ret (f s) s.
Definition modify {S} (f : S → S) : M S unit := λ s, Ret tt (f s).
Definition try_catch {S A} (m : M S A) (h : exn → M S A) : M S A := λ s,
  match m s with Exc e s' => h e s' | r => r end.

(** Run [m] on a component [T] of the state [S]. *)
Definition zoom {S T A} (rd : S → T) (wr : T → S → S) (m : M T A) : M S A := λ s,
  match m (rd s) with
  | Ret a t => Ret a (wr t s)
  | Exc e t => Exc e (wr t s)
  | Exit c t => Exit c (wr t s)
  | Undef u => Undef u
  | NoFuel => NoFuel
  end.

Declare Scope cpp_scope.
Delimit Scope cpp_scope with cpp.
Notation "'let!' x := m 'in' k" := (bind m (λ x, k))
  (at level 10, x pattern, m at level 100, k at level 200,
   format "'[v' 'let!'  x  :=  m  'in' '/' k ']'") : cpp_scope.
Notation "m ;; k" := (bind m (λ _, k))
  (at level 100, k at level 200, right associativity) : cpp_scope.
Open Scope cpp_scope.

(** The read of an object that may be absent or uninitialised. *)
Definition or_undef {S A} (u : ub) (o : option A) : M S A :=
  match o with Some a => ret a | None => undef u end.

Fixpoint for_each {S A} (f : A → M S unit) (l : list A) : M S unit :=
  match l with
  | [] => ret tt
  | a :: l' => f a ;; for_each f l'
  end.

(** ** Total correctness *)

(** From every state satisfying [P], [m] returns normally (no exception, no
    undefined behaviour, no missing fuel), and the value and the final state
    satisfy [Q]. *)
Definition triple {S A} (P : S → Prop) (m : M S A) (Q : A → S → Prop) : Prop :=
  ∀ s, P s → ∃ a s', m s = Ret a s' ∧ Q a s'.

Lemma triple_ret {S A} (a : A) (P : S → Prop) (Q : A → S → Prop) :
  (∀ s, P s → Q a s) → triple P (ret a) Q.
Proof. intros H s Hs. exists a, s. auto. Qed.

Lemma triple_bind {S A B} (P : S → Prop) (R : A → S → Prop) (Q : B → S → Prop)
    (m : M S A) (k : A → M S B) :
  triple P m R → (∀ a, triple (R a) (k a) Q) → triple P (bind m k) Q.
Proof.
  intros Hm Hk s Hs. destruct (Hm s Hs) as (a & s1 & E & H1).
  destruct (Hk a s1 H1) as (b & s2 & E2 & H2).
  exists b, s2. unfold bind. rewrite E. auto.
Qed.

Lemma triple_conseq {S A} (P P' : S → Prop) (Q Q' : A → S → Prop) (m : M S A) :
  triple P' m Q' → (∀ s, P s → P' s) → (∀ a s, Q' a s → Q a s) → triple P m Q.
Proof.
  intros Hm HP HQ s Hs. destruct (Hm s (HP s Hs)) as (a & s' & E & H).
  exists a, s'. auto.
Qed.

Lemma triple_pure {S A} (phi : Prop) (P : S → Prop) (m : M S A) Q :
  (phi → triple P m Q) → triple (λ s, phi ∧ P s) m Q.
Proof. intros H s [Hphi Hs]. exact (H Hphi s Hs). Qed.

Lemma bind_ret_l {S A B} (a : A) (k : A → M S B) s : bind (ret a) k s = k a s.
Proof. reflexivity. Qed.

Lemma bind_eq_ret {S A B} (m : M S A) (k : A → M S B) s a s' :
  m s = Ret a s' → bind m k s = k a s'.
Proof. unfold bind. by intros ->. Qed.

Lemma bind_assoc {S A B C} (m : M S A) (k : A → M S B) (h : B → M S C) s :
  bind (bind m k) h s = bind m (λ a, bind (k a) h) s.
Proof. unfold bind. by destruct (m s). Qed.

Lemma for_each_cons {S A} (f : A → M S unit) a l s s' :
  f a s = Ret tt s' → for_each f (a :: l) s = for_each f l s'.
Proof. intros E. simpl. unfold bind. by rewrite E. Qed.

(** [P] holds again however [m] ends, short of undefined behaviour: an
    invariant of a program that may throw, exit or go on for ever. *)
Definition keeps {S A} (P : S → Prop) (m : M S A) : Prop :=
  ∀ s, P s → match m s with
             | Ret _ s' | Exc _ s' | Exit _ s' => P s'
             | Undef _ | NoFuel => True
             end.

Lemma keeps_ret {S A} P (a : A) : keeps (S:=S) P (ret a).
Proof. by intros s. Qed.
Lemma keeps_throw {S A} P e : keeps (S:=S) (A:=A) P (throw e).
Proof. by intros s. Qed.
Lemma keeps_undef {S A} P u : keeps (S:=S) (A:=A) P (undef u).
Proof. by intros s. Qed.
Lemma keeps_exit {S A} P c : keeps (S:=S) (A:=A) P (exit_with c).
Proof. by intros s. Qed.
Lemma keeps_no_fuel {S A} P : keeps (S:=S) (A:=A) P no_fuel.
Proof. by intros s. Qed.
Lemma keeps_get {S} P : keeps (S:=S) P get.
Proof. by intros s. Qed.
Lemma keeps_gets {S A} P (f : S → A) : keeps (S:=S) P (gets f).
Proof. by intros s. Qed.
Lemma keeps_modify {S} (P : S → Prop) f : (∀ s, P s → P (f s)) → keeps P (modify f).
Proof. intros H s Hs. simpl. auto. Qed.
Lemma keeps_bind {S A B} (P : S → Prop) (m : M S A) (k : A → M S B) :
  keeps P m → (∀ a, keeps P (k a)) → keeps P (bind m k).
Proof.
  intros Hm Hk s Hs. specialize (Hm s Hs). unfold bind. destruct (m s); try done.
  by apply Hk.
Qed.
Lemma keeps_if {S A} (P : S → Prop) (c : bool) (m m' : M S A) :
  keeps P m → keeps P m' → keeps P (if c then m else m').
Proof. by destruct c. Qed.
Lemma keeps_or_undef {S A} (P : S → Prop) u (o : option A) : keeps P (or_undef u o).
Proof. by destruct o; intros s. Qed.
Lemma keeps_for_each {S A} (P : S → Prop) (f : A → M S unit) l :
  (∀ a, keeps P (f a)) → keeps P (for_each f l).
Proof.
  intros H. induction l as [|a l IH]; [apply keeps_ret|]. by apply keeps_bind.
Qed.

(** ** Machine integers *)

(** [size_t], [uint64_t]: arithmetic modulo 2^64; [uint16_t]: modulo 2^16;
    conversion to [int] keeps the low 32 bits (g++, and C++20). *)
Definition u64 (z : Z) : Z := z mod 2 ^ 64.
Definition u16 (z : Z) : Z := z mod 2 ^ 16.
Definition s32 (z : Z) : Z := (z + 2 ^ 31) mod 2 ^ 32 - 2 ^ 31.
Definition SIZE_MAX : Z := 2 ^ 64 - 1.
Definition INT_MAX : Z := 2 ^ 31 - 1.
Definition INT_MIN : Z := - 2 ^ 31.
Definition PTRDIFF_MAX : Z := 2 ^ 63 - 1.

(** The result of a signed 32-bit operation: out of range is undefined. *)
Definition int_arith {S} (z : Z) : M S Z :=
  if bool_decide (INT_MIN ≤ z ≤ INT_MAX) then ret z else undef SignedOverflow.

Lemma u64_small z : 0 ≤ z < 2 ^ 64 → u64 z = z.
Proof. apply Z.mod_small. Qed.
Lemma u64_range z : 0 ≤ u64 z < 2 ^ 64.
Proof. by apply Z.mod_pos_bound. Qed.
Lemma u16_small z : 0 ≤ z < 2 ^ 16 → u16 z = z.
Proof. apply Z.mod_small. Qed.
Lemma s32_small z : INT_MIN ≤ z ≤ INT_MAX → s32 z = z.
Proof.
  unfold s32, INT_MIN, INT_MAX. intros H. rewrite Z.mod_small; lia.
Qed.
Lemma int_arith_small {S} z (s : S) :
  INT_MIN ≤ z ≤ INT_MAX → int_arith z s = Ret z s.
Proof. intros H. unfold int_arith. by rewrite bool_decide_eq_true_2. Qed.

(** ** Blocks of memory: lists indexed by machine integers *)

Definition zget {A} (l : list A) (i : Z) : option A :=
  if bool_decide (0 ≤ i) then l !! Z.to_nat i else None.
Definition zset {A} (l : list A) (i : Z) (x : A) : option (list A) :=
  if bool_decide (0 ≤ i < Z.of_nat (length l)) then Some (<[Z.to_nat i := x]> l) else None.

Lemma zget_nat {A} (l : list A) (i : nat) : zget l (Z.of_nat i) = l !! i.
Proof. unfold zget. rewrite bool_decide_eq_true_2 by lia. by rewrite Nat2Z.id. Qed.
Lemma zset_nat {A} (l : list A) (i : nat) x :
  (i < length l)%nat → zset l (Z.of_nat i) x = Some (<[i := x]> l).
Proof.
  intros H. unfold zset. rewrite bool_decide_eq_true_2 by lia. by rewrite Nat2Z.id.
Qed.
Lemma zget_None {A} (l : list A) i :
  i < 0 ∨ Z.of_nat (length l) ≤ i → zget l i = None.
Proof.
  intros H. unfold zget. case_bool_decide; [|done].
  apply lookup_ge_None_2. lia.
Qed.
Lemma zset_None {A} (l : list A) i x :
  i < 0 ∨ Z.of_nat (length l) ≤ i → zset l i x = None.
Proof. intros H. unfold zset. rewrite bool_decide_eq_false_2 by lia. done. Qed.
Lemma zget_Some {A} (l : list A) i x :
  zget l i = Some x → 0 ≤ i < Z.of_nat (length l).
Proof.
  unfold zget. case_bool_decide; [|done]. intros H1%lookup_lt_Some. lia.
Qed.

(** ** Dynamic memory and standard output

    A block remembers how it was allocated. Releasing it with the function of
    another family is undefined for the standard and harmless for glibc; the
    model goes on and files a report, as the repository's run_valgrind.sh
    does. *)
Inductive alloc_kind : Type := Malloc | NewObject | NewArray.
Inductive release_kind : Type := Free | Delete | DeleteArray.
Inductive report : Type := MismatchedFree (a : alloc_kind) (r : release_kind).

#[export] Instance alloc_kind_eq_dec : EqDecision alloc_kind.
Proof. solve_decision. Defined.

Definition release_matches (a : alloc_kind) (r : release_kind) : bool :=
  match a, r with
  | Malloc, Free | NewObject, Delete | NewArray, DeleteArray => true
  | _, _ => false
  end.
Definition release_reports (a : alloc_kind) (r : release_kind) : list report :=
  if release_matches a r then [] else [MismatchedFree a r].

(** The allocator decides which request sizes (in bytes) it can serve. A
    request of zero bytes that it serves yields an empty block (glibc). *)
Class Allocator := can_alloc : Z → bool.

Definition malloc {Al : Allocator} {A} (bytes size : Z) : option (list (option A)) :=
  if can_alloc bytes then Some (replicate (Z.to_nat (bytes / size)) None) else None.

(** [new T[n]] for a trivial [T] of [size] bytes. *)
Definition new_array {Al : Allocator} {S A} (n size : Z) : M S (list (option A)) :=
  if bool_decide (PTRDIFF_MAX < n * size) then throw bad_array_new_length
  else if can_alloc (n * size) then ret (replicate (Z.to_nat n) None)
  else throw bad_alloc.

(** [memset(p, 0, bytes)] over cells of [size] bytes, [z] being the value all
    of whose bytes are zero. *)
Definition memset {S A} (z : A) (p : option (list (option A))) (bytes size : Z) :
    M S (list (option A)) :=
  match p with
  | None => undef NullPointer
  | Some cells =>
      let n := Z.to_nat (bytes / size) in
      if decide (n ≤ length cells)%nat then ret (replicate n (Some z) ++ drop n cells)
      else undef OutOfBounds
  end.

(** [memcpy(dst, src, bytes)]. *)
Definition memcpy {S A} (dst : list (option A)) (src : option (list (option A)))
    (bytes size : Z) : M S (list (option A)) :=
  match src with
  | None => undef NullPointer
  | Some cells =>
      let n := Z.to_nat (bytes / size) in
      if decide (n ≤ length cells ∧ n ≤ length dst)%nat then ret (take n cells ++ drop n dst)
      else undef OutOfBounds
  end.

(** Reading and writing one cell through a pointer. *)
Definition load {S A} (p : option (list (option A))) (i : Z) : M S A :=
  match p with
  | None => undef NullPointer
  | Some cells =>
      match zget cells i with
      | None => undef OutOfBounds
      | Some None => undef Indeterminate
      | Some (Some v) => ret v
      end
  end.
Definition store {S A} (p : option (list (option A))) (i : Z) (v : A) :
    M S (list (option A)) :=
  match p with
  | None => undef NullPointer
  | Some cells => or_undef OutOfBounds (zset cells i (Some v))
  end.

(** What a program prints. *)
Inductive out (D : Type) : Type :=
  | OStr (s : string)
  | OInt (z : Z)
  | ODbl (d : D)
  | OEndl.
Arguments OStr {D} s.
Arguments OInt {D} z.
Arguments ODbl {D} d.
Arguments OEndl {D}.

(** An object under test with the memory reports and the output so far. *)
Record obj (D T : Type) : Type := mkObj {
  self : T;
  reports : list report;
  cout : list (out D)
}.
Arguments mkObj {D T} self reports cout.
Arguments self {D T} o.
Arguments reports {D T} o.
Arguments cout {D T} o.

Definition set_self {D T} (t : T) (o : obj D T) : obj D T := mkObj t (reports o) (cout o).
Definition put_self {D T} (t : T) : M (obj D T) unit := modify (set_self t).
Definition emit {D T} (l : list (out D)) : M (obj D T) unit :=
  modify (λ o, mkObj (self o) (reports o) (cout o ++ l)).
Definition release {D T} (a : alloc_kind) (r : release_kind) : M (obj D T) unit :=
  modify (λ o, mkObj (self o) (reports o ++ release_reports a r) (cout o)).

(** ** Automation *)

(** Facts that close the side conditions of machine arithmetic. *)
Create HintDb cpp.
Create Rewrite HintDb cpp.
(** Invariants of programs, rule by rule. *)
Create HintDb keeps.
#[export] Hint Resolve keeps_ret keeps_throw keeps_undef keeps_exit keeps_no_fuel keeps_get
  keeps_gets keeps_modify keeps_bind keeps_if keeps_or_undef keeps_for_each : keeps.
#[export] Hint Resolve u64_small u16_small s32_small int_arith_small : cpp.
#[export] Hint Rewrite @zget_nat @bind_ret_l : cpp.

(** Evaluate the head of a monadic run on a known state. *)
Ltac run_step :=
  match goal with
  | H : ?m ?s = Ret ?a ?s' |- context [bind ?m _ ?s] =>
      rewrite (bind_eq_ret m _ s a s' H)
  | |- context [bind (bind ?m ?k) ?h ?s] => rewrite (bind_assoc m k h s)
  | |- context [bind (ret ?a) ?k ?s] => change (bind (ret a) k s) with (k a s); cbv beta
  | |- context [bind (gets ?f) ?k ?s] => change (bind (gets f) k s) with (k (f s) s); cbv beta
  | |- context [bind get ?k ?s] => change (bind get k s) with (k s s); cbv beta
  | |- context [bind (modify ?f) ?k ?s] => change (bind (modify f) k s) with (k tt (f s)); cbv beta
  | |- context [bind (throw ?e) ?k ?s] => change (bind (throw e) k s) with (@Exc _ _ e s)
  end.
Ltac run_all := repeat (run_step; simpl).

(** The [triple] of a sequence whose first command has a known triple. *)
Ltac tbind H := eapply triple_bind; [eapply H|].
