(* ===== verification/Doubles.v ===== *)
(** * The C++ type [double]

    IEEE-754 binary64 values as the Standard Library's [spec_float], with the
    comparisons the containers use ([>] and [<=], false on NaN) and the total
    preorder they form on the values that are not NaN. *)

From S2P Require Import Prelude.
From Stdlib Require Import Floats.SpecFloat.

Abbreviation double := spec_float.

(** [a > b], [a <= b] of the language; [0.0]; the nearest double to [m / k],
    which is what a decimal literal denotes. *)
Definition gtb (a b : double) : bool := SFltb b a.
Definition leb (a b : double) : bool := SFleb a b.
Definition zero : double := S754_zero false.
Definition nan : double := S754_nan.
Definition of_Z (m : Z) : double := binary_normalize 53 1024 m 0 false.
Definition lit (m k : Z) : double := SFdiv 53 1024 (of_Z m) (of_Z k).

Definition is_nan (a : double) : bool :=
  match a with S754_nan => true | _ => false end.

#[export] Instance double_eq_dec : EqDecision double.
Proof. solve_decision. Defined.

(** ** The order of the values that are not NaN

    [SFcompare] compares the lexicographic rank below. *)
Definition rank (a : double) : Z * Z * Z :=
  match a with
  | S754_nan => (3, 0, 0)
  | S754_infinity true => (-2, 0, 0)
  | S754_infinity false => (2, 0, 0)
  | S754_zero _ => (0, 0, 0)
  | S754_finite true m e => (-1, - e, - Z.pos m)
  | S754_finite false m e => (1, e, Z.pos m)
  end.

Definition rank_lt (x y : Z * Z * Z) : Prop :=
  let '(a, b, c) := x in let '(a', b', c') := y in
  a < a' ∨ a = a' ∧ (b < b' ∨ b = b' ∧ c < c').

(** Non-strict order; NaN is above everything, which no lemma relies on. *)
Definition dle (a b : double) : Prop := ¬ rank_lt (rank b) (rank a).

Lemma dle_refl a : dle a a.
Proof. unfold dle, rank_lt. destruct (rank a) as [[x y] z]. lia. Qed.
Lemma dle_trans a b c : dle a b → dle b c → dle a c.
Proof.
  unfold dle, rank_lt. destruct (rank a) as [[? ?] ?], (rank b) as [[? ?] ?],
    (rank c) as [[? ?] ?]. lia.
Qed.
Lemma dle_total a b : dle a b ∨ dle b a.
Proof.
  unfold dle, rank_lt. destruct (rank a) as [[? ?] ?], (rank b) as [[? ?] ?]. lia.
Qed.
#[export] Instance dle_preorder : PreOrder dle.
Proof. split; [exact dle_refl|exact dle_trans]. Qed.

Lemma SFcompare_rank a b :
  is_nan a = false → is_nan b = false →
  match SFcompare a b with
  | Some Lt => rank_lt (rank a) (rank b)
  | Some Gt => rank_lt (rank b) (rank a)
  | Some Eq => rank a = rank b
  | None => False
  end.
Proof.
  destruct a as [sa|sa| |sa ma ea], b as [sb|sb| |sb mb eb]; try done; intros _ _;
    destruct sa; try destruct sb; simpl; try lia; try done.
  all: destruct (Z.compare_spec ea eb) as [->|?|?]; try lia.
  all: rewrite Pos.compare_cont_spec; destruct (Pos.compare_spec ma mb) as [->|?|?];
    simpl; try lia; done.
Qed.

Lemma leb_dle a b : is_nan a = false → is_nan b = false → leb a b = true ↔ dle a b.
Proof.
  intros Ha Hb. pose proof (SFcompare_rank a b Ha Hb) as H.
  unfold leb, SFleb, dle. destruct (SFcompare a b) as [[]|]; [| | |done].
  - rewrite H. split; [|done]. intros _. destruct (rank b) as [[? ?] ?]. simpl. lia.
  - split; [|done]. intros _. revert H.
    destruct (rank a) as [[? ?] ?], (rank b) as [[? ?] ?]. simpl. lia.
  - split; [done|]. intros H'. by destruct H'.
Qed.

Lemma gtb_dle a b : is_nan a = false → is_nan b = false → gtb a b = false ↔ dle a b.
Proof.
  intros Ha Hb. pose proof (SFcompare_rank b a Hb Ha) as H.
  unfold gtb, SFltb, dle. destruct (SFcompare b a) as [[]|]; [| | |done].
  - rewrite H. split; [|done]. intros _. destruct (rank a) as [[? ?] ?]. simpl. lia.
  - split; [done|]. intros H'. by destruct H'.
  - split; [|done]. intros _. revert H.
    destruct (rank a) as [[? ?] ?], (rank b) as [[? ?] ?]. simpl. lia.
Qed.

Lemma gtb_true_dle a b :
  is_nan a = false → is_nan b = false → gtb a b = true → dle b a.
Proof.
  intros Ha Hb H. destruct (dle_total b a) as [?|Hab]; [done|].
  apply (gtb_dle a b) in Hab; congruence.
Qed.
