(* ===== verification/DArray.v ===== *)
(** * DArray: the growing array of doubles

    Models cmake_make_gtest_cppunit/DArray.h and DArray.cpp. The object is the
    record of its three fields; the buffer is its block of cells, with the
    function that allocated it. *)

From S2P Require Import Prelude Doubles.

Record DArray : Type := mkDArray {
  buffer_ : option (alloc_kind * list (option double));   (* None: nullptr *)
  buf_size_ : Z;
  actual_size_ : Z
}.

Abbreviation dobj := (obj double DArray).

(** sizeof(double) *)
Definition dsize : Z := 8.

Definition cells (d : DArray) : option (list (option double)) := snd <$> buffer_ d.

Section DArray.
Context {Al : Allocator}.

Definition DArray_ctor (buffer_size : Z) : M dobj unit :=
  put_self (mkDArray None buffer_size 0) ;;
  let p := malloc (u64 (buffer_size * dsize)) dsize in
  let! b := memset zero p (u64 (dsize * buffer_size)) dsize in
  put_self (mkDArray (Some (Malloc, b)) buffer_size 0).

Definition DtorHelper : M dobj unit := ret tt.

Definition DArray_dtor : M dobj unit :=
  let! o := get in
  match buffer_ (self o) with Some (k, _) => release k Free | None => ret tt end ;;
  DtorHelper ;;
  let! o := get in
  put_self (mkDArray None (buf_size_ (self o)) (actual_size_ (self o))).

Definition Size : M dobj Z := gets (λ o, actual_size_ (self o)).
Definition Capacity : M dobj Z := gets (λ o, buf_size_ (self o)).
Definition IsEmpty : M dobj bool := gets (λ o, bool_decide (actual_size_ (self o) = 0)).

(** [index] is an int; the comparison converts it to size_t. *)
Definition At (index : Z) : M dobj double :=
  let! o := get in
  let d := self o in
  if bool_decide (buffer_ d = None) || bool_decide (u64 index > u64 (actual_size_ d - 1))
  then throw (runtime_error "out of range")
  else load (cells d) index.

Definition Reallocate : M dobj unit :=
  let! o := get in
  let d := self o in
  let new_buf_size := u64 (buf_size_ d * 2) in
  let! fresh := new_array new_buf_size dsize in
  let! new_buffer := memcpy fresh (cells d) (u64 (buf_size_ d * dsize)) dsize in
  match buffer_ d with Some (k, _) => release k DeleteArray | None => ret tt end ;;
  put_self (mkDArray (Some (NewArray, new_buffer)) new_buf_size (actual_size_ d)).

(** operator[], as an rvalue and as the left side of an assignment. *)
Definition subscript_get (index : Z) : M dobj double :=
  let! o := get in load (cells (self o)) index.
Definition subscript_set (index : Z) (v : double) : M dobj unit :=
  let! o := get in
  let d := self o in
  let! b := store (cells d) index v in
  put_self (mkDArray (pair (default Malloc (fst <$> buffer_ d)) <$> Some b)
              (buf_size_ d) (actual_size_ d)).

(** PushBack calls the virtual Reallocate. *)
Definition PushBack_virtual (reallocate : M dobj unit) (value : double) : M dobj unit :=
  let! o := get in
  (if bool_decide (actual_size_ (self o) = buf_size_ (self o)) then reallocate else ret tt) ;;
  let! o := get in
  let i := actual_size_ (self o) in
  put_self (mkDArray (buffer_ (self o)) (buf_size_ (self o)) (u64 (i + 1))) ;;
  subscript_set i value.
Definition PushBack : double → M dobj unit := PushBack_virtual Reallocate.

Definition PopBack : M dobj double :=
  let! o := get in
  let d := self o in
  if bool_decide (actual_size_ d = 0) then throw (runtime_error "DArray is empty")
  else
    let i := u64 (actual_size_ d - 1) in
    put_self (mkDArray (buffer_ d) (buf_size_ d) i) ;;
    load (cells d) i.

(** The cells of indices [i], ..., [i + n - 1], each followed by a tab. *)
Fixpoint display_from (n : nat) (i : Z) : M dobj unit :=
  match n with
  | O => ret tt
  | S n' => let! v := subscript_get i in emit [ODbl v; OStr "	"] ;; display_from n' (i + 1)
  end.
Definition Display : M dobj unit :=
  let! n := Size in
  display_from (Z.to_nat n) 0 ;; emit [OEndl].

(** ** The abstract array

    [owns k cap l d]: the object holds the elements [l] at the front of a
    block of [cap] cells that was allocated by [k]. *)
Definition owns (k : alloc_kind) (cap : Z) (l : list double) (d : DArray) : Prop :=
  ∃ rest,
    d = mkDArray (Some (k, (Some <$> l) ++ rest)) cap (Z.of_nat (length l)) ∧
    cap = Z.of_nat (length l + length rest) ∧
    cap * dsize ≤ PTRDIFF_MAX.

(** The same for the object of a run, with the rest of the world fixed. *)
Definition holds (k : alloc_kind) (cap : Z) (l : list double)
    (r : list report) (c : list (out double)) (o : dobj) : Prop :=
  reports o = r ∧ cout o = c ∧ owns k cap l (self o).

Lemma owns_length k cap l d : owns k cap l d → Z.of_nat (length l) ≤ cap < 2 ^ 60.
Proof. unfold dsize, PTRDIFF_MAX. intros (rest & _ & -> & H). unfold dsize, PTRDIFF_MAX in H. lia. Qed.

Lemma holds_size k cap l r c o : holds k cap l r c o → Size o = Ret (Z.of_nat (length l)) o.
Proof. intros (_ & _ & rest & E & _). unfold Size, gets. by rewrite E. Qed.

Lemma holds_is_empty k cap l r c o :
  holds k cap l r c o → IsEmpty o = Ret (bool_decide (l = [])) o.
Proof.
  intros (_ & _ & rest & E & _). unfold IsEmpty, gets. rewrite E. simpl. f_equal.
  destruct l; apply bool_decide_ext; simpl; split; intros; try done; lia.
Qed.

Lemma owns_cells_lookup k cap l d i v :
  owns k cap l d → l !! i = Some v → load (S:=dobj) (cells d) (Z.of_nat i) = ret v.
Proof.
  intros (rest & -> & _) Hi. unfold load, cells. simpl. rewrite zget_nat.
  rewrite lookup_app_l by (rewrite length_fmap; eauto using lookup_lt_Some).
  by rewrite list_lookup_fmap, Hi.
Qed.

Lemma holds_get k cap l r c o i v :
  holds k cap l r c o → l !! i = Some v → subscript_get (Z.of_nat i) o = Ret v o.
Proof.
  intros (_ & _ & H) Hi. unfold subscript_get, bind, get.
  by rewrite (owns_cells_lookup _ _ _ _ _ _ H Hi).
Qed.

Lemma holds_set k cap l r c o i v :
  holds k cap l r c o → (i < length l)%nat →
  ∃ o', subscript_set (Z.of_nat i) v o = Ret tt o' ∧ holds k cap (<[i := v]> l) r c o'.
Proof.
  intros (<- & <- & rest & E & Hcap & Hmax) Hi.
  unfold subscript_set, bind, get, cells, store. rewrite E. simpl.
  rewrite zset_nat by (rewrite length_app, length_fmap; lia). simpl.
  eexists. split; [reflexivity|]. split; [done|]. split; [done|].
  exists rest. simpl. rewrite insert_app_l by (rewrite length_fmap; lia).
  rewrite list_fmap_insert, length_insert. auto.
Qed.

(** A store to the first spare cell changes no element. *)
Lemma holds_set_spare k cap l r c o v :
  holds k cap l r c o → Z.of_nat (length l) < cap →
  ∃ o', subscript_set (Z.of_nat (length l)) v o = Ret tt o' ∧ holds k cap l r c o'.
Proof.
  intros (<- & <- & rest & E & Hcap & Hmax) Hlt.
  destruct rest as [|x rest]; [simpl in Hcap; lia|].
  unfold subscript_set, bind, get, cells, store. rewrite E. simpl.
  rewrite zset_nat by (rewrite length_app, length_fmap; simpl; lia). simpl.
  eexists. split; [reflexivity|]. split; [done|]. split; [done|]. exists (Some v :: rest).
  rewrite insert_app_r_alt by (rewrite length_fmap; lia).
  rewrite length_fmap, Nat.sub_diag. done.
Qed.

Lemma malloc_memset n (o : dobj) :
  0 ≤ n → n * dsize ≤ PTRDIFF_MAX → can_alloc (n * dsize) = true →
  memset zero (malloc (u64 (n * dsize)) dsize) (u64 (dsize * n)) dsize o
    = Ret (replicate (Z.to_nat n) (Some zero)) o.
Proof.
  intros Hn Hm Ha. rewrite (Z.mul_comm dsize n).
  rewrite u64_small by (unfold dsize, PTRDIFF_MAX in *; lia).
  unfold malloc. rewrite Ha. unfold memset, dsize. rewrite Z.div_mul by lia.
  rewrite decide_True by (rewrite length_replicate; lia).
  rewrite drop_ge by (rewrite length_replicate; lia). by rewrite app_nil_r.
Qed.

Lemma holds_ctor n o :
  0 ≤ n → n * dsize ≤ PTRDIFF_MAX → can_alloc (n * dsize) = true →
  ∃ o', DArray_ctor n o = Ret tt o' ∧ holds Malloc n [] (reports o) (cout o) o'.
Proof.
  intros Hn Hm Ha. unfold DArray_ctor, bind at 1. simpl.
  unfold bind. rewrite malloc_memset by done. eexists. split; [reflexivity|].
  split; [done|]. split; [done|]. exists (replicate (Z.to_nat n) (Some zero)). simpl.
  rewrite length_replicate. split; [done|]. split; [lia|done].
Qed.

Lemma holds_reallocate k cap l r c o :
  holds k cap l r c o → 2 * cap * dsize ≤ PTRDIFF_MAX → can_alloc (2 * cap * dsize) = true →
  ∃ o', Reallocate o = Ret tt o' ∧
    holds NewArray (2 * cap) l (r ++ release_reports k DeleteArray) c o'.
Proof.
  intros (<- & <- & rest & E & Hcap & Hmax) H2 Ha. unfold dsize, PTRDIFF_MAX in *.
  unfold Reallocate, bind, get, cells. rewrite E. simpl.
  rewrite (Z.mul_comm cap 2), (u64_small (2 * cap)) by lia.
  unfold new_array, dsize. rewrite bool_decide_eq_false_2 by (unfold PTRDIFF_MAX; lia).
  rewrite Ha. simpl. rewrite u64_small by lia.
  unfold memcpy. rewrite Z.div_mul by lia.
  assert (Z.to_nat cap = length ((Some <$> l) ++ rest)) as Hn.
  { rewrite length_app, length_fmap. lia. }
  rewrite decide_True by (rewrite length_replicate; lia). simpl.
  eexists. split; [reflexivity|]. split; [done|]. split; [done|].
  exists (rest ++ replicate (Z.to_nat cap) None). simpl.
  rewrite Hn, take_ge by lia. split.
  - rewrite drop_replicate, app_assoc. do 5 f_equal. lia.
  - rewrite length_app, length_replicate. unfold dsize, PTRDIFF_MAX.
    rewrite length_app, length_fmap in Hn. rewrite length_app, length_fmap. lia.
Qed.

(** The element store at the end of PushBack, once there is a free cell. *)
Lemma holds_append k cap l r c o v :
  holds k cap l r c o → Z.of_nat (length l) < cap →
  ∃ o', (let! o1 := get in
         let i := actual_size_ (self o1) in
         put_self (mkDArray (buffer_ (self o1)) (buf_size_ (self o1)) (u64 (i + 1))) ;;
         subscript_set i v) o = Ret tt o' ∧ holds k cap (l ++ [v]) r c o'.
Proof.
  intros (<- & <- & rest & E & Hcap & Hmax) Hlt.
  destruct rest as [|x rest]; [simpl in Hcap; lia|].
  unfold bind, get, put_self, modify, set_self, subscript_set. rewrite E. simpl.
  unfold bind, get, cells, store. simpl.
  rewrite zset_nat by (rewrite length_app, length_fmap; simpl; lia). simpl.
  eexists. split; [reflexivity|]. split; [done|]. split; [done|]. exists rest. simpl.
  rewrite insert_app_r_alt by (rewrite length_fmap; lia).
  rewrite length_fmap, Nat.sub_diag, fmap_app, <-app_assoc. simpl in *.
  rewrite u64_small, length_app by (unfold dsize, PTRDIFF_MAX in *; lia). simpl.
  split; [|lia]. f_equal. lia.
Qed.

Lemma holds_push_fit k cap l r c o v (grow : M dobj unit) :
  holds k cap l r c o → Z.of_nat (length l) < cap →
  ∃ o', PushBack_virtual grow v o = Ret tt o' ∧ holds k cap (l ++ [v]) r c o'.
Proof.
  intros H Hlt. pose proof (holds_append k cap l r c o v H Hlt) as Happ.
  destruct H as (_ & _ & rest & E & _). unfold PushBack_virtual.
  unfold bind at 1. simpl. 
  rewrite bool_decide_eq_false_2 by (rewrite E; simpl; lia). exact Happ.
Qed.

Lemma holds_push_grow cap k l r c o v :
  holds k cap l r c o → Z.of_nat (length l) = cap → 0 < cap →
  2 * cap * dsize ≤ PTRDIFF_MAX → can_alloc (2 * cap * dsize) = true →
  ∃ o', PushBack v o = Ret tt o' ∧
    holds NewArray (2 * cap) (l ++ [v]) (r ++ release_reports k DeleteArray) c o'.
Proof.
  intros H Hlen Hpos Hmax Ha.
  destruct (holds_reallocate _ _ _ _ _ _ H Hmax Ha) as (o1 & E1 & H1).
  destruct (holds_append _ _ _ _ _ _ v H1 ltac:(lia)) as (o2 & E2 & H2).
  destruct H as (_ & _ & rest & E & _).
  exists o2. split; [|done]. unfold PushBack, PushBack_virtual.
  unfold bind at 1. simpl. 
  rewrite bool_decide_eq_true_2 by (rewrite E; simpl; lia). unfold bind at 1. rewrite E1. exact E2.
Qed.

Lemma holds_pop k cap l v r c o :
  holds k cap (l ++ [v]) r c o → ∃ o', PopBack o = Ret v o' ∧ holds k cap l r c o'.
Proof.
  intros (<- & <- & rest & E & Hcap & Hmax). unfold PopBack, bind at 1. simpl.
  rewrite E. simpl. rewrite length_app in *. simpl in *.
  rewrite bool_decide_eq_false_2 by lia.
  rewrite u64_small by (unfold dsize, PTRDIFF_MAX in *; lia).
  unfold bind, put_self, modify. simpl. unfold load, cells, set_self. simpl.
  replace (Z.of_nat (length l + 1) - 1) with (Z.of_nat (length l)) by lia.
  rewrite zget_nat, fmap_app, <-app_assoc. simpl.
  rewrite list_lookup_middle by by rewrite length_fmap.
  eexists. split; [reflexivity|]. split; [done|]. split; [done|].
  exists (Some v :: rest). simpl. split; [done|]. split; lia.
Qed.

Lemma holds_pop_empty k cap r c o :
  holds k cap [] r c o → PopBack o = Exc (runtime_error "DArray is empty") o.
Proof. intros (_ & _ & rest & E & _). unfold PopBack, bind, get. by rewrite E. Qed.

Lemma holds_dtor k cap l r c o :
  holds k cap l r c o →
  ∃ o', DArray_dtor o = Ret tt o' ∧ reports o' = r ++ release_reports k Free ∧ cout o' = c ∧
    buffer_ (self o') = None.
Proof.
  intros (<- & <- & rest & E & _). unfold DArray_dtor, bind, get. rewrite E. simpl.
  eexists. by repeat split.
Qed.

(** An allocator that serves every request a C++ object may have. *)
Definition ample : Prop := ∀ b, 0 ≤ b ≤ PTRDIFF_MAX → can_alloc b = true.

(** State after [j] growths of a block allocated by [k]. *)
Definition grown_kind (j : nat) (k : alloc_kind) : alloc_kind :=
  match j with O => k | S _ => NewArray end.
Definition grown_reports (j : nat) (k : alloc_kind) : list report :=
  match j with O => [] | S _ => release_reports k DeleteArray end.

Lemma holds_push_all vs : ∀ k cap l r c o,
  ample → holds k cap l r c o → 0 < cap →
  Z.of_nat (length l + length vs) * (2 * dsize) ≤ PTRDIFF_MAX →
  ∃ o' j, for_each PushBack vs o = Ret tt o' ∧
    holds (grown_kind j k) (cap * 2 ^ Z.of_nat j) (l ++ vs) (r ++ grown_reports j k) c o' ∧
    (j = O ∨ cap * 2 ^ (Z.of_nat j - 1) < Z.of_nat (length (l ++ vs))).
Proof.
  induction vs as [|v vs IH]; intros k cap l r c o Ham Ho Hcap Hmax.
  { exists o, O. simpl. rewrite Z.mul_1_r, !app_nil_r. auto. }
  simpl in Hmax. unfold dsize in Hmax.
  pose proof (owns_length _ _ _ _ (proj2 (proj2 Ho))) as Hlen.
  destruct (decide (Z.of_nat (length l) = cap)) as [Hfull|Hfree].
  - destruct (holds_push_grow cap k l r c o v) as (o1 & E1 & H1);
      [exact Ho|done|done|unfold dsize; lia|apply Ham; unfold dsize; lia|].
    destruct (IH _ _ _ _ _ _ Ham H1) as (o2 & j & E2 & H2 & Hj);
      [lia|rewrite length_app; unfold dsize; simpl; lia|].
    exists o2, (S j). rewrite (for_each_cons _ _ _ _ _ E1).
    rewrite <-(app_assoc l [v]) in H2, Hj.
    replace (cap * 2 ^ Z.of_nat (S j)) with (2 * cap * 2 ^ Z.of_nat j)
      by (rewrite Nat2Z.inj_succ, Z.pow_succ_r by lia; lia).
    replace (grown_kind (S j) k) with (grown_kind j NewArray) by by destruct j.
    rewrite <-app_assoc in H2.
    replace (grown_reports j NewArray) with (@nil report) in H2 by by destruct j.
    rewrite app_nil_r in H2. change (grown_reports (S j) k) with (release_reports k DeleteArray).
    split; [done|]. split; [done|]. right.
    rewrite Nat2Z.inj_succ. unfold Z.succ. rewrite Z.add_simpl_r.
    destruct Hj as [->|Hj]; [rewrite length_app; simpl; lia|].
    destruct j as [|j]; [rewrite length_app; simpl; lia|].
    rewrite Nat2Z.inj_succ, Z.pow_succ_r by lia.
    rewrite Nat2Z.inj_succ in Hj. unfold Z.succ in Hj. rewrite Z.add_simpl_r in Hj.
    simpl in *. lia.
  - destruct (holds_push_fit k cap l r c o v Reallocate) as (o1 & E1 & H1); [done|lia|].
    destruct (IH _ _ _ _ _ _ Ham H1) as (o2 & j & E2 & H2 & Hj);
      [lia|rewrite length_app; unfold dsize; simpl; lia|].
    exists o2, j. rewrite (for_each_cons PushBack _ _ _ _ E1).
    rewrite <-(app_assoc l [v]) in H2, Hj. auto.
Qed.

(** C14. A DArray built for [n > 0] elements and filled by PushBack holds
    exactly the pushed values, its capacity is the least [n * 2^j] that fits
    them, and memcheck reports a mismatched release at the first growth and
    another one in the destructor exactly when it has grown. *)
Theorem DArray_lifecycle n vs (o : dobj) :
  ample → 0 < n → n * dsize ≤ PTRDIFF_MAX →
  Z.of_nat (length vs) * (2 * dsize) ≤ PTRDIFF_MAX →
  ∃ o1 o2 j,
    (DArray_ctor n ;; for_each PushBack vs) o = Ret tt o1 ∧
    owns (grown_kind j Malloc) (n * 2 ^ Z.of_nat j) vs (self o1) ∧
    (j = O ∨ n * 2 ^ (Z.of_nat j - 1) < Z.of_nat (length vs)) ∧
    reports o1 = reports o ++ grown_reports j Malloc ∧
    DArray_dtor o1 = Ret tt o2 ∧
    reports o2 = reports o1 ++ (if decide (j = O) then [] else [MismatchedFree NewArray Free]).
Proof.
  intros Ham Hn Hmax Hlen.
  destruct (holds_ctor n o) as (o0 & E0 & H0); [lia|done|apply Ham; unfold dsize in *; lia|].
  destruct (holds_push_all vs _ _ _ _ _ _ Ham H0 Hn Hlen) as (o1 & j & E1 & H1 & Hj).
  destruct (holds_dtor _ _ _ _ _ _ H1) as (o2 & E2 & R2 & _).
  exists o1, o2, j. unfold bind. rewrite E0. destruct H1 as (R1 & _ & H1).
  split; [done|]. split; [done|]. split; [done|]. split; [done|]. split; [done|].
  rewrite R2, R1. by destruct j.
Qed.

(** On a non-empty array At returns the element for an index in range and
    throws "out of range" for every other int, negative ones included,
    leaving the array as it was. *)
Theorem At_nonempty k cap l r c o index :
  holds k cap l r c o → l ≠ [] → INT_MIN ≤ index ≤ INT_MAX →
  At index o = match zget l index with
               | Some v => Ret v o
               | None => Exc (runtime_error "out of range") o
               end.
Proof.
  intros (_ & _ & H) Hne Hi. pose proof (owns_length _ _ _ _ H) as Hlen.
  assert (0 < Z.of_nat (length l)) as Hpos by (destruct l; [done|simpl; lia]).
  unfold At, bind, get. destruct (decide (0 ≤ index < Z.of_nat (length l))) as [Hin|Hout].
  - pose proof (lookup_lt_is_Some_2 l (Z.to_nat index) ltac:(lia)) as [v Hv].
    rewrite <-(Z2Nat.id index), zget_nat, Hv by lia.
    rewrite (owns_cells_lookup _ _ _ _ _ _ H Hv). destruct H as (rest & -> & _). simpl.
    rewrite !u64_small by lia. rewrite bool_decide_eq_false_2 by lia. done.
  - rewrite zget_None by lia. destruct H as (rest & -> & _). simpl.
    rewrite (u64_small (_ - 1)) by lia. rewrite bool_decide_eq_true_2; [done|].
    unfold INT_MIN, INT_MAX in *. destruct (decide (0 ≤ index)).
    + rewrite u64_small by lia. lia.
    + unfold u64. rewrite <-(Z.mod_unique index (2 ^ 64) (-1) (index + 2 ^ 64)); lia.
Qed.

(** On an empty array the test of At compares with SIZE_MAX and lets every
    index pass: instead of throwing, a freshly built array of [n] cells
    answers 0.0 for [0 <= index < n] and reads outside its block otherwise. *)
Theorem At_empty_never_throws n (o : dobj) index :
  0 < n → n * dsize ≤ PTRDIFF_MAX → can_alloc (n * dsize) = true →
  INT_MIN ≤ index ≤ INT_MAX →
  ∃ o1, DArray_ctor n o = Ret tt o1 ∧ Size o1 = Ret 0 o1 ∧
    At index o1 = if bool_decide (0 ≤ index < n) then Ret zero o1 else Undef OutOfBounds.
Proof.
  intros Hn Hmax Ha Hi. unfold DArray_ctor, bind at 1. simpl. unfold bind.
  rewrite malloc_memset by (done || lia). eexists. split; [reflexivity|].
  split; [reflexivity|]. unfold At, bind, get. simpl.
  rewrite bool_decide_eq_false_2 
    by (pose proof (u64_range index); change (u64 (0 - 1)) with (2 ^ 64 - 1); lia).
  unfold load, cells. simpl. case_bool_decide.
  - unfold zget. rewrite bool_decide_eq_true_2 by lia.
    rewrite lookup_replicate_2 by lia. done.
  - rewrite zget_None by (rewrite length_replicate; lia). done.
Qed.

(** The byte count of the constructor wraps: a DArray asked for any
    [n < 2^64] elements gets a block of [n mod 2^61] cells but reports the
    capacity [n], so with [n >= 2^61] the first PushBack on an empty block
    writes outside it. For [n = 0] the doubling of the capacity is no growth
    and the first PushBack does the same. *)
Theorem DArray_ctor_wraps n (o : dobj) v :
  0 ≤ n < 2 ^ 64 → can_alloc (n mod 2 ^ 61 * dsize) = true →
  ∃ o1, DArray_ctor n o = Ret tt o1 ∧ Capacity o1 = Ret n o1 ∧
    (length <$> cells (self o1)) = Some (Z.to_nat (n mod 2 ^ 61)) ∧
    (n mod 2 ^ 61 = 0 → PushBack v o1 = Undef OutOfBounds).
Proof.
  intros Hn Ha.
  assert (u64 (n * dsize) = n mod 2 ^ 61 * dsize) as Hb.
  { unfold u64, dsize. replace (2 ^ 64) with (2 ^ 61 * 8) by lia.
    by rewrite Z.mul_mod_distr_r by lia. }
  pose proof (Z.mod_pos_bound n (2 ^ 61) ltac:(lia)) as Hm.
  set (q := n mod 2 ^ 61) in *.
  assert (n = 0 → q = 0) as Hq0 by (intros ->; done). clearbody q.
  assert (memset zero (malloc (u64 (n * dsize)) dsize) (u64 (dsize * n)) dsize
    = ret (S:=dobj) (replicate (Z.to_nat q) (Some zero))) as Hms.
  { rewrite (Z.mul_comm dsize n), Hb. unfold malloc.
    rewrite Ha. unfold memset.
    rewrite Z.div_mul by (unfold dsize; lia).
    rewrite decide_True by (rewrite length_replicate; lia).
    rewrite drop_ge by (rewrite length_replicate; lia). by rewrite app_nil_r. }
  unfold DArray_ctor, bind at 1. simpl. unfold bind. rewrite Hms.
  eexists. split; [reflexivity|]. split; [reflexivity|].
  split; [simpl; by rewrite length_replicate|]. intros H0.
  unfold PushBack, PushBack_virtual, bind, get. simpl. case_bool_decide as Hz.
  - subst n. rewrite H0 in *. unfold Reallocate, bind, get, new_array.
    change (u64 (buf_size_ _ * 2) * dsize) with (0 * dsize). by rewrite Ha.
  - simpl. unfold subscript_set, bind, get, cells, store. simpl. by rewrite H0.
Qed.

(** PushBack grows through the virtual Reallocate: when an override does
    nothing, as MockDArray's does, the push after [n] pushes writes outside
    the block. *)
Theorem PushBack_mocked_Reallocate_overflows n vs v (o : dobj) :
  0 < n → n * dsize ≤ PTRDIFF_MAX → can_alloc (n * dsize) = true →
  Z.of_nat (length vs) = n →
  (DArray_ctor n ;; for_each (PushBack_virtual (ret tt)) (vs ++ [v])) o = Undef OutOfBounds.
Proof.
  intros Hn Hmax Ha Hlen.
  destruct (holds_ctor n o) as (o0 & E0 & H0); [lia|done..|].
  unfold bind at 1. rewrite E0. clear E0.
  enough (∀ l o1 r c, holds Malloc n l r c o1 → length l + length vs = Z.to_nat n →
    for_each (PushBack_virtual (ret tt)) (vs ++ [v]) o1 = Undef OutOfBounds)%nat as H
    by (eapply H; [exact H0|simpl; lia]).
  clear o0 H0 Hlen o. induction vs as [|w vs IH]; intros l o1 r c H1 Hlen; simpl in *.
  - destruct H1 as (_ & _ & rest & E & Hcap & _). destruct rest; [|simpl in *; lia].
    unfold bind, PushBack_virtual. unfold bind, get. rewrite E. simpl.
    rewrite bool_decide_eq_true_2 by lia. unfold subscript_set, bind, get, cells, store.
    simpl. rewrite !E. simpl. rewrite zset_None; [done|]. rewrite app_nil_r, length_fmap. lia.
  - destruct (holds_push_fit _ _ _ _ _ _ w (ret tt) H1 ltac:(lia)) as (o2 & E2 & H2).
    unfold bind. rewrite E2. apply (IH _ _ _ _ H2). rewrite length_app. simpl. lia.
Qed.
End DArray.

(** ** Witnesses *)

Definition unlimited : Allocator := λ _, true.

(** An array that holds [l] with [n] spare cells. *)
Definition sample (l : list double) (n : nat) : dobj :=
  mkObj (mkDArray (Some (Malloc, (Some <$> l) ++ replicate n (Some zero)))
           (Z.of_nat (length l + n)) (Z.of_nat (length l))) [] [].
Lemma sample_holds l n :
  Z.of_nat (length l + n) * dsize ≤ PTRDIFF_MAX →
  holds Malloc (Z.of_nat (length l + n)) l [] [] (sample l n).
Proof.
  intros H. split; [done|]. split; [done|]. exists (replicate n (Some zero)).
  rewrite length_replicate. done.
Qed.

Lemma unlimited_ample : ample (Al:=unlimited).
Proof. intros b _. reflexivity. Defined.

Definition fresh : dobj := mkObj (mkDArray None 0 0) [] [].

Lemma DArray_lifecycle_witness :
  let vs := [lit 25 2; lit 82 10; lit 16 10; lit 16 10; lit 16 10; lit 16 10; lit 16 10] in
  ∃ o1 o2 j,
    (DArray_ctor (Al:=unlimited) 3 ;; for_each (PushBack (Al:=unlimited)) vs) fresh = Ret tt o1 ∧
    owns (grown_kind j Malloc) (3 * 2 ^ Z.of_nat j) vs (self o1) ∧
    (j = O ∨ 3 * 2 ^ (Z.of_nat j - 1) < 7) ∧
    reports o1 = grown_reports j Malloc ∧
    DArray_dtor o1 = Ret tt o2 ∧
    reports o2 = reports o1 ++ (if decide (j = O) then [] else [MismatchedFree NewArray Free]).
Proof.
  intros vs. apply (DArray_lifecycle (Al:=unlimited) 3 vs fresh);
    [exact unlimited_ample|reflexivity|vm_compute; discriminate|vm_compute; discriminate].
Defined.
Lemma At_nonempty_witness :
  At (-1) (sample [of_Z 7] 2) = Exc (runtime_error "out of range") (sample [of_Z 7] 2).
Proof.
  apply (At_nonempty Malloc 3 [of_Z 7] [] [] (sample [of_Z 7] 2) (-1));
    [apply (sample_holds [of_Z 7] 2); vm_compute; discriminate|discriminate
    |split; vm_compute; discriminate].
Defined.
Lemma At_empty_never_throws_witness :
  ∃ o1, DArray_ctor (Al:=unlimited) 10 fresh = Ret tt o1 ∧ Size o1 = Ret 0 o1 ∧
    At (-1) o1 = Undef OutOfBounds.
Proof.
  apply (At_empty_never_throws (Al:=unlimited) 10 fresh (-1));
    [reflexivity|vm_compute; discriminate|reflexivity|split; vm_compute; discriminate].
Defined.
Lemma DArray_ctor_wraps_witness :
  ∃ o1, DArray_ctor (Al:=unlimited) (2 ^ 61) fresh = Ret tt o1 ∧
    Capacity o1 = Ret (2 ^ 61) o1 ∧ (length <$> cells (self o1)) = Some 0%nat ∧
    (0 = 0 → PushBack (Al:=unlimited) zero o1 = Undef OutOfBounds).
Proof.
  apply (DArray_ctor_wraps (Al:=unlimited) (2 ^ 61) fresh zero);
    [split; [vm_compute; discriminate|reflexivity]|reflexivity].
Defined.
Lemma PushBack_mocked_Reallocate_overflows_witness :
  (DArray_ctor (Al:=unlimited) 2 ;;
   for_each (PushBack_virtual (ret tt)) [of_Z 5; of_Z 5; of_Z 5]) fresh = Undef OutOfBounds.
Proof.
  apply (PushBack_mocked_Reallocate_overflows (Al:=unlimited) 2 [of_Z 5; of_Z 5] (of_Z 5) fresh);
    [reflexivity|vm_compute; discriminate|reflexivity|reflexivity].
Defined.
