(* ===== verification/Heap.v ===== *)
(** * Heap: the binary max-heap over a DArray

    Models cmake_make_gtest_cppunit/Heap.h and Heap.cpp, the functions of
    namespace heap, as programs on the DArray of DArray.v. The algorithms are
    first related to functions on lists of doubles, then those are proved to
    build and keep the heap order. *)

From S2P Require Import Prelude Doubles DArray.

(** std::swap(arr[i], arr[j]) *)
Definition swap_at (i j : Z) : M dobj unit :=
  let! a := subscript_get i in
  let! b := subscript_get j in
  subscript_set i b ;;
  subscript_set j a.

(** [c < arr.Size() && arr[c] > arr[m]] *)
Definition child_greater (c m : Z) : M dobj bool :=
  let! n := Size in
  if bool_decide (c < n) then
    let! x := subscript_get c in
    let! y := subscript_get m in
    ret (gtb x y)
  else ret false.

Fixpoint SiftDown_fuel (fuel : nat) (i : Z) : M dobj unit :=
  match fuel with
  | O => no_fuel
  | S fuel' =>
      let left := u64 (2 * i + 1) in
      let right := u64 (2 * i + 2) in
      let largest := i in
      let! b := child_greater left i in
      let largest := if b : bool then left else largest in
      let! b := child_greater right largest in
      let largest := if b : bool then right else largest in
      if bool_decide (largest ≠ i) then
        swap_at i largest ;;
        SiftDown_fuel fuel' largest
      else ret tt
  end.
Definition SiftDown (i : Z) : M dobj unit :=
  let! n := Size in SiftDown_fuel (S (Z.to_nat n)) i.

Fixpoint SiftUp_fuel (fuel : nat) (i : Z) : M dobj unit :=
  match fuel with
  | O => no_fuel
  | S fuel' =>
      if bool_decide (i > 0) then
        let parent := u64 (i - 1) / 2 in
        let! x := subscript_get i in
        let! y := subscript_get parent in
        if leb x y then ret tt
        else swap_at i parent ;; SiftUp_fuel fuel' parent
      else ret tt
  end.
Definition SiftUp (i : Z) : M dobj unit := SiftUp_fuel (S (Z.to_nat i)) i.

(** The loop counter is an int, initialised from a size_t. *)
Fixpoint MakeHeap_loop (fuel : nat) (i : Z) : M dobj unit :=
  match fuel with
  | O => no_fuel
  | S fuel' =>
      if bool_decide (i >= 0) then SiftDown (u64 i) ;; MakeHeap_loop fuel' (i - 1)
      else ret tt
  end.
Definition MakeHeap : M dobj unit :=
  let! n := Size in
  let i := s32 (u64 (n / 2 - 1)) in
  MakeHeap_loop (S (Z.to_nat (i + 1))) i.

Section Heap.
Context {Al : Allocator}.

Definition Add (element : double) : M dobj unit :=
  PushBack element ;;
  let! n := Size in
  SiftUp (u64 (n - 1)).

Definition ExtractMax : M dobj double :=
  let! e := IsEmpty in
  if e : bool then throw (runtime_error "head is empty")
  else
    let! res := subscript_get 0 in
    let! last := PopBack in
    subscript_set 0 last ;;
    let! e := IsEmpty in
    (if e : bool then ret tt else SiftDown 0) ;;
    ret res.

Definition HeapMaximum : M dobj double :=
  let! e := IsEmpty in
  if e : bool then throw (runtime_error "head is empty") else subscript_get 0.
End Heap.

(** ** The algorithms on lists *)

Definition swap (l : list double) (i j : nat) : list double :=
  match l !! i, l !! j with
  | Some x, Some y => <[j := x]> (<[i := y]> l)
  | _, _ => l
  end.
Definition greater_at (l : list double) (c m : nat) : bool :=
  match l !! c, l !! m with Some x, Some y => gtb x y | _, _ => false end.
Definition largest_of (l : list double) (i : nat) : nat :=
  let m := if greater_at l (2 * i + 1) i then (2 * i + 1)%nat else i in
  if greater_at l (2 * i + 2) m then (2 * i + 2)%nat else m.

Fixpoint sift_down (fuel : nat) (l : list double) (i : nat) : list double :=
  match fuel with
  | O => l
  | S f => let m := largest_of l i in
           if decide (m = i) then l else sift_down f (swap l i m) m
  end.
Fixpoint sift_up (fuel : nat) (l : list double) (i : nat) : list double :=
  match fuel, i with
  | S f, S j => match l !! i, l !! (j / 2)%nat with
                | Some x, Some y => if leb x y then l else sift_up f (swap l i (j / 2)) (j / 2)
                | _, _ => l
                end
  | _, _ => l
  end.
(** Sift down the nodes [n - 1], ..., [0]. *)
Fixpoint heapify (n : nat) (l : list double) : list double :=
  match n with
  | O => l
  | S i => heapify i (sift_down (S (length l)) l i)
  end.

(** ** Lemmas on the list functions *)

Lemma length_swap l i j : length (swap l i j) = length l.
Proof.
  unfold swap. destruct (l !! i), (l !! j); try done. by rewrite !length_insert.
Qed.

Lemma lookup_swap l i j k :
  (i < length l)%nat → (j < length l)%nat →
  swap l i j !! k = if decide (k = i) then l !! j else if decide (k = j) then l !! i else l !! k.
Proof.
  intros [x Hx]%lookup_lt_is_Some_2 [y Hy]%lookup_lt_is_Some_2.
  pose proof (lookup_lt_Some _ _ _ Hx). pose proof (lookup_lt_Some _ _ _ Hy).
  unfold swap. rewrite Hx, Hy.
  destruct (decide (k = j)) as [->|Hj].
  - rewrite list_lookup_insert_eq by by rewrite length_insert.
    case_decide; [by simplify_eq|done].
  - rewrite list_lookup_insert_ne by done. case_decide as Hi.
    + subst. by rewrite list_lookup_insert_eq.
    + by rewrite list_lookup_insert_ne.
Qed.

Lemma swap_perm l i j : swap l i j ≡ₚ l.
Proof.
  destruct (decide (i < length l)%nat), (decide (j < length l)%nat).
  2-4: unfold swap; repeat case_match; try done;
       repeat match goal with H : _ !! _ = Some _ |- _ => apply lookup_lt_Some in H end; lia.
  apply Permutation_inj. split; [apply length_swap|].
  exists (λ k, if decide (k = i) then j else if decide (k = j) then i else k). split.
  - intros a b. repeat case_decide; lia.
  - intros k. rewrite lookup_swap by done. by repeat case_decide.
Qed.

Lemma greater_at_lt l a m : greater_at l a m = true → (a < length l)%nat.
Proof. unfold greater_at. destruct (l !! a) eqn:E; [|done]. eauto using lookup_lt_Some. Qed.

Lemma largest_of_cases l i :
  (largest_of l i = i ∨ largest_of l i = 2 * i + 1 ∨ largest_of l i = 2 * i + 2)%nat ∧
  (largest_of l i ≠ i → largest_of l i < length l)%nat.
Proof.
  unfold largest_of. repeat case_match; split; try lia; intros ?; eauto using greater_at_lt.
Qed.

Lemma sift_down_perm f l i : sift_down f l i ≡ₚ l.
Proof.
  revert l i. induction f as [|f IH]; intros l i; simpl; [done|].
  case_decide; [done|]. by rewrite IH, swap_perm.
Qed.
Lemma sift_up_perm f l i : sift_up f l i ≡ₚ l.
Proof.
  revert l i. induction f as [|f IH]; intros l [|j]; simpl; try done.
  repeat case_match; try done. by rewrite IH, swap_perm.
Qed.
Lemma heapify_perm n l : heapify n l ≡ₚ l.
Proof. revert l. induction n as [|n IH]; intros l; [done|].
  cbn [heapify]. etrans; [apply IH|apply sift_down_perm].
Qed.

Lemma length_sift_down f l i : length (sift_down f l i) = length l.
Proof. apply Permutation_length, sift_down_perm. Qed.
Lemma length_sift_up f l i : length (sift_up f l i) = length l.
Proof. apply Permutation_length, sift_up_perm. Qed.

(** ** Heap order *)

Definition nan_free (l : list double) : Prop := Forall (λ x, is_nan x = false) l.

Definition child (i c : nat) : Prop := (c = 2 * i + 1 ∨ c = 2 * i + 2)%nat.

(** The element at [c], if any, is at most the one at [i]. *)
Definition le_at (l : list double) (i c : nat) : Prop :=
  ∀ x y, l !! i = Some x → l !! c = Some y → dle y x.

(** The heap order holds at the nodes [s], [s + 1], ... *)
Definition heap_from (s : nat) (l : list double) : Prop :=
  ∀ i c, (s ≤ i)%nat → child i c → le_at l i c.
Definition heap (l : list double) : Prop := heap_from 0 l.

Lemma child_parent i c : child i c → i = ((c - 1) / 2)%nat ∧ (i < c)%nat.
Proof.
  unfold child. intros H. split; [|lia].
  apply (Nat.div_unique _ _ _ (c - 1 - 2 * i)); lia.
Qed.
Lemma parent_child c : (0 < c)%nat → child ((c - 1) / 2) c.
Proof. unfold child. pose proof (Nat.div_mod_eq (c - 1) 2). pose proof (Nat.mod_upper_bound (c - 1) 2). lia. Qed.

Lemma nan_free_perm l l' : l ≡ₚ l' → nan_free l → nan_free l'.
Proof. unfold nan_free. by intros ->. Qed.
Lemma nan_free_lookup l i x : nan_free l → l !! i = Some x → is_nan x = false.
Proof. intros H1 H2. exact (Forall_lookup_1 _ _ _ _ H1 H2). Qed.

Lemma le_at_trans l i j k y :
  l !! j = Some y → le_at l i j → le_at l j k → le_at l i k.
Proof.
  intros Hj H1 H2 x z Hx Hz. etrans; [exact (H2 _ _ Hj Hz)|exact (H1 _ _ Hx Hj)].
Qed.
Lemma le_at_refl l i : le_at l i i.
Proof. intros x y Hx Hy. simplify_eq. done. Qed.

(** [greater_at] decides [le_at] when there is no NaN. *)
Lemma greater_at_false l c m : nan_free l → greater_at l c m = false → le_at l m c.
Proof.
  unfold greater_at. intros Hn H x y Hx Hy. rewrite Hx, Hy in H.
  apply gtb_dle; eauto using nan_free_lookup.
Qed.
Lemma greater_at_true l c m : nan_free l → greater_at l c m = true → le_at l c m.
Proof.
  unfold greater_at. intros Hn H x y Hx Hy. rewrite Hx, Hy in H.
  apply gtb_true_dle; eauto using nan_free_lookup.
Qed.

Lemma largest_of_spec l i :
  nan_free l → le_at l (largest_of l i) i ∧ ∀ c, child i c → le_at l (largest_of l i) c.
Proof.
  intros Hn. unfold largest_of.
  destruct (greater_at l (2 * i + 1) i) eqn:E1;
    [destruct (greater_at l (2 * i + 2) (2 * i + 1)) eqn:E2
    |destruct (greater_at l (2 * i + 2) i) eqn:E2].
  all: first [pose proof (greater_at_true _ _ _ Hn E1) as H1
             |pose proof (greater_at_false _ _ _ Hn E1) as H1];
       first [pose proof (greater_at_true _ _ _ Hn E2) as H2
             |pose proof (greater_at_false _ _ _ Hn E2) as H2].
  - assert (∃ y, l !! (2 * i + 1)%nat = Some y) as [y Hy]
      by (unfold greater_at in E1; repeat case_match; eauto; done).
    split; [eauto using le_at_trans|]. intros c [-> | ->]; eauto using le_at_refl.
  - split; [done|]. intros c [-> | ->]; eauto using le_at_refl.
  - assert (∃ y, l !! i = Some y) as [y Hy]
      by (unfold greater_at in E2; repeat case_match; eauto; done).
    split; [done|]. intros c [-> | ->]; eauto using le_at_refl, le_at_trans.
  - split; [apply le_at_refl|]. by intros c [-> | ->].
Qed.

(** Order facts about a swapped list reduce to facts about the list. *)
Definition exch (i j k : nat) : nat :=
  if decide (k = i) then j else if decide (k = j) then i else k.
Lemma le_at_swap l i j a b :
  (i < length l)%nat → (j < length l)%nat →
  le_at l (exch i j a) (exch i j b) → le_at (swap l i j) a b.
Proof.
  intros Hi Hj H x y. rewrite !lookup_swap by done. unfold exch in H.
  intros Hx Hy. apply H; repeat case_decide; done.
Qed.

Lemma sift_down_heap s f : ∀ l p,
  nan_free l → (p < length l)%nat → (length l - p < f)%nat → (s ≤ p)%nat →
  (∀ i c, (s ≤ i)%nat → i ≠ p → child i c → le_at l i c) →
  (∀ i c, (s ≤ i)%nat → child i p → child p c → le_at l i c) →
  heap_from s (sift_down f l p).
Proof.
  induction f as [|f IH]; intros l p Hn Hp Hf Hs Hother Hgrand; [lia|]. simpl.
  destruct (largest_of_spec l p Hn) as [Hpm Hcm].
  destruct (largest_of_cases l p) as [Hcase Hlt].
  set (m := largest_of l p) in *. clearbody m.
  destruct (decide (m = p)) as [->|Hne].
  { intros i c Hi Hc. destruct (decide (i = p)) as [->|?]; auto. }
  specialize (Hlt Hne). assert (child p m) as Hm by (unfold child; lia).
  apply IH; [by apply (nan_free_perm l); [rewrite swap_perm|]|rewrite ?length_swap; lia..| |].
  - intros i c Hi Hne' Hc. apply le_at_swap; [done..|]. unfold exch.
    pose proof (child_parent _ _ Hc) as [Hpar Hlt']. pose proof (child_parent _ _ Hm) as [Hpm' ?].
    destruct (decide (i = p)) as [->|Hip].
    + destruct (decide (c = p)); [lia|]. destruct (decide (c = m)); [done|auto].
    + destruct (decide (i = m)); [lia|]. destruct (decide (c = p)) as [->|]; [auto|].
      destruct (decide (c = m)) as [->|]; [congruence|auto].
  - intros i c Hi Hcm' Hc. apply le_at_swap; [done..|]. unfold exch.
    assert (i = p) as -> by (destruct (child_parent _ _ Hcm'), (child_parent _ _ Hm); congruence).
    pose proof (child_parent _ _ Hc) as [_ ?].
    rewrite decide_True by done. rewrite !decide_False by lia. apply Hother; lia || done.
Qed.

Lemma sift_up_heap f : ∀ l p,
  nan_free l → (p < length l)%nat → (p < f)%nat →
  (∀ i c, c ≠ p → child i c → le_at l i c) →
  (∀ i c, child i p → child p c → le_at l i c) →
  heap (sift_up f l p).
Proof.
  induction f as [|f IH]; intros l p Hn Hp Hf Hother Hgrand; [lia|].
  destruct p as [|j]; cbn [sift_up].
  { intros i c _ Hc. apply Hother; [|done]. unfold child in Hc. lia. }
  pose proof (parent_child (S j) ltac:(lia)) as Hc. replace (S j - 1)%nat with j in Hc by lia.
  pose proof (child_parent _ _ Hc) as [Hpar ?]. set (q := (j / 2)%nat) in *. clearbody q.
  pose proof (lookup_lt_is_Some_2 l (S j) Hp) as [x Hx].
  pose proof (lookup_lt_is_Some_2 l q ltac:(lia)) as [y Hy]. rewrite Hx, Hy.
  pose proof (leb_dle x y (nan_free_lookup _ _ _ Hn Hx) (nan_free_lookup _ _ _ Hn Hy)) as Hle.
  destruct (leb x y) eqn:E.
  - intros i c _ Hic. destruct (decide (c = S j)) as [->|?]; [|auto].
    assert (i = q) as -> by (destruct (child_parent _ _ Hic); congruence).
    intros x' y' ? ?. simplify_eq. by apply Hle.
  - assert (le_at l (S j) q) as Hqp.
    { intros x' y' Hx' Hy'. rewrite Hx in Hx'. rewrite Hy in Hy'. injection Hx' as <-.
      injection Hy' as <-. destruct (dle_total x y) as [Hxy|?]; [|done].
      apply Hle in Hxy. congruence. }
    apply IH; [by apply (nan_free_perm l); [rewrite swap_perm|]|rewrite ?length_swap; lia..| |].
    + intros i c Hne Hic. apply le_at_swap; [lia..|]. unfold exch.
      pose proof (child_parent _ _ Hic) as [Hi ?].
      destruct (decide (i = S j)) as [->|].
      { rewrite !decide_False by lia. by apply Hgrand. }
      destruct (decide (i = q)) as [->|].
      { destruct (decide (c = S j)) as [->|];
          [done|]. rewrite decide_False by lia.
        eapply le_at_trans; [exact Hy| |apply Hother; [done|exact Hic]]. done. }
      destruct (decide (c = S j)) as [->|]; [congruence|].
      destruct (decide (c = q)); [done|auto].
    + intros i c Hiq Hqc. apply le_at_swap; [lia..|]. unfold exch.
      pose proof (child_parent _ _ Hiq) as [Hi ?]. pose proof (child_parent _ _ Hqc) as [? ?].
      rewrite (decide_False (P := i = S j)), (decide_False (P := i = q)) by lia.
      assert (le_at l i q) as Hiq' by (apply Hother; [lia|done]).
      destruct (decide (c = S j)) as [->|]; [done|]. rewrite decide_False by lia.
      eapply le_at_trans; [exact Hy|done|]. by apply Hother.
Qed.

Lemma heapify_heap n : ∀ l,
  nan_free l → heap_from n l → (n ≤ length l)%nat → heap (heapify n l).
Proof.
  induction n as [|n IH]; intros l Hn Hh Hlen; [done|]. cbn [heapify].
  apply IH.
  - apply (nan_free_perm l); [by rewrite sift_down_perm|done].
  - apply sift_down_heap; [done|lia..| |].
    + intros i c ? ? ?. apply Hh; [lia|done].
    + intros i c ? Hc. pose proof (child_parent _ _ Hc). lia.
  - rewrite length_sift_down. lia.
Qed.

Lemma heap_from_half l : heap_from (length l / 2) l.
Proof.
  intros i c Hi Hc x y _ Hy%lookup_lt_Some. unfold child in Hc.
  pose proof (Nat.div_mod_eq (length l) 2). pose proof (Nat.mod_upper_bound (length l) 2). lia.
Qed.

(** The root of a heap is its greatest element. *)
Lemma heap_root l x : heap l → l !! 0%nat = Some x → Forall (λ y, dle y x) l.
Proof.
  intros Hh Hx. apply Forall_lookup_2. intros i. induction i as [i IH] using lt_wf_ind.
  intros y Hy. destruct (decide (i = O)) as [->|Hi]; [simplify_eq; done|].
  pose proof (parent_child i ltac:(lia)) as Hc. pose proof (child_parent _ _ Hc) as [_ Hlt].
  pose proof (lookup_lt_Some _ _ _ Hy).
  pose proof (lookup_lt_is_Some_2 l ((i - 1) / 2) ltac:(lia)) as [z Hz].
  etrans; [exact (Hh _ _ (Nat.le_0_l _) Hc _ _ Hz Hy)|exact (IH _ Hlt _ Hz)].
Qed.

(** ** The programs implement the list functions *)

(** Indices of an owned array do not wrap. *)
Lemma holds_bound k cap l r c o : holds k cap l r c o → Z.of_nat (length l) < 2 ^ 60.
Proof. intros (_ & _ & H%owns_length). lia. Qed.

Lemma holds_swap k cap l r c o i j :
  holds k cap l r c o → (i < length l)%nat → (j < length l)%nat →
  ∃ o', swap_at (Z.of_nat i) (Z.of_nat j) o = Ret tt o' ∧ holds k cap (swap l i j) r c o'.
Proof.
  intros H Hi Hj. unfold swap_at, swap.
  pose proof (lookup_lt_is_Some_2 l i Hi) as [x Hx].
  pose proof (lookup_lt_is_Some_2 l j Hj) as [y Hy]. rewrite Hx, Hy.
  rewrite (bind_eq_ret _ _ _ _ _ (holds_get _ _ _ _ _ _ _ _ H Hx)).
  rewrite (bind_eq_ret _ _ _ _ _ (holds_get _ _ _ _ _ _ _ _ H Hy)).
  destruct (holds_set _ _ _ _ _ _ i y H Hi) as (o1 & E1 & H1).
  rewrite (bind_eq_ret _ _ _ _ _ E1). apply holds_set; [done|by rewrite length_insert].
Qed.

Lemma holds_child_greater k cap l r c o a m :
  holds k cap l r c o → (m < length l)%nat →
  child_greater (Z.of_nat a) (Z.of_nat m) o = Ret (greater_at l a m) o.
Proof.
  intros H Hm. unfold child_greater, greater_at.
  rewrite (bind_eq_ret _ _ _ _ _ (holds_size _ _ _ _ _ _ H)).
  pose proof (lookup_lt_is_Some_2 l m Hm) as [y Hy]. rewrite Hy.
  destruct (l !! a) as [x|] eqn:Hx.
  - pose proof (lookup_lt_Some _ _ _ Hx). rewrite bool_decide_eq_true_2 by lia.
    rewrite (bind_eq_ret _ _ _ _ _ (holds_get _ _ _ _ _ _ _ _ H Hx)).
    by rewrite (bind_eq_ret _ _ _ _ _ (holds_get _ _ _ _ _ _ _ _ H Hy)).
  - apply lookup_ge_None in Hx. by rewrite bool_decide_eq_false_2 by lia.
Qed.

Lemma holds_SiftDown_fuel k cap r c f : ∀ l i o,
  holds k cap l r c o → (i < length l)%nat → (length l - i < f)%nat →
  ∃ o', SiftDown_fuel f (Z.of_nat i) o = Ret tt o' ∧ holds k cap (sift_down f l i) r c o'.
Proof.
  induction f as [|f IH]; intros l i o H Hi Hf; [lia|].
  pose proof (holds_bound _ _ _ _ _ _ H) as Hb.
  cbn [SiftDown_fuel sift_down]. cbv zeta.
  replace (u64 (2 * Z.of_nat i + 1)) with (Z.of_nat (2 * i + 1)) by (rewrite u64_small; lia).
  replace (u64 (2 * Z.of_nat i + 2)) with (Z.of_nat (2 * i + 2)) by (rewrite u64_small; lia).
  rewrite (bind_eq_ret _ _ _ _ _ (holds_child_greater _ _ _ _ _ _ (2 * i + 1) i H Hi)).
  destruct (largest_of_cases l i) as [Hc Hlt]. unfold largest_of in *.
  set (m1 := if greater_at l (2 * i + 1) i then (2 * i + 1)%nat else i) in *.
  replace (if greater_at l (2 * i + 1) i then Z.of_nat (2 * i + 1) else Z.of_nat i)
    with (Z.of_nat m1) by (unfold m1; by destruct (greater_at l (2 * i + 1) i)).
  assert (m1 < length l)%nat as Hm1.
  { unfold m1. destruct (greater_at l (2 * i + 1) i) eqn:Eg; [|done].
    exact (greater_at_lt _ _ _ Eg). }
  rewrite (bind_eq_ret _ _ _ _ _ (holds_child_greater _ _ _ _ _ _ (2 * i + 2) m1 H Hm1)).
  set (m := if greater_at l (2 * i + 2) m1 then (2 * i + 2)%nat else m1) in *.
  replace (if greater_at l (2 * i + 2) m1 then Z.of_nat (2 * i + 2) else Z.of_nat m1)
    with (Z.of_nat m) by (unfold m; by destruct (greater_at l (2 * i + 2) m1)).
  case_bool_decide as Hm; case_decide as Hm'; [lia| |by exists o|lia].
  destruct (holds_swap _ _ _ _ _ _ i m H Hi (Hlt Hm')) as (o1 & E1 & H1).
  rewrite (bind_eq_ret _ _ _ _ _ E1).
  apply IH; [done|rewrite length_swap; auto|rewrite length_swap; lia].
Qed.

Lemma holds_SiftDown k cap l r c o i :
  holds k cap l r c o → (i < length l)%nat →
  ∃ o', SiftDown (Z.of_nat i) o = Ret tt o' ∧
    holds k cap (sift_down (S (length l)) l i) r c o'.
Proof.
  intros H Hi. unfold SiftDown.
  rewrite (bind_eq_ret _ _ _ _ _ (holds_size _ _ _ _ _ _ H)), Nat2Z.id.
  apply holds_SiftDown_fuel; [done..|lia].
Qed.

Lemma holds_SiftUp_fuel k cap r c f : ∀ l i o,
  holds k cap l r c o → (i < length l)%nat → (i < f)%nat →
  ∃ o', SiftUp_fuel f (Z.of_nat i) o = Ret tt o' ∧ holds k cap (sift_up f l i) r c o'.
Proof.
  induction f as [|f IH]; intros l i o H Hi Hf; [lia|].
  pose proof (holds_bound _ _ _ _ _ _ H) as Hb.
  destruct i as [|j]; cbn [SiftUp_fuel sift_up].
  { exists o. split; [done|done]. }
  rewrite bool_decide_eq_true_2 by lia. cbv zeta.
  assert (j / 2 < S j)%nat as Hp by (pose proof (Nat.Div0.div_le_upper_bound j 2 j); lia).
  replace (u64 (Z.of_nat (S j) - 1) / 2) with (Z.of_nat (j / 2)).
  2: { rewrite u64_small by lia. rewrite Nat2Z.inj_div. f_equal; lia. }
  set (q := (j / 2)%nat) in *. clearbody q.
  pose proof (lookup_lt_is_Some_2 l (S j) Hi) as [x Hx].
  pose proof (lookup_lt_is_Some_2 l q ltac:(lia)) as [y Hy].
  rewrite (bind_eq_ret _ _ _ _ _ (holds_get _ _ _ _ _ _ _ _ H Hx)).
  rewrite (bind_eq_ret _ _ _ _ _ (holds_get _ _ _ _ _ _ _ _ H Hy)). rewrite Hx, Hy.
  destruct (leb x y); [by exists o|].
  destruct (holds_swap _ _ _ _ _ _ (S j) q H Hi ltac:(lia)) as (o1 & E1 & H1).
  rewrite (bind_eq_ret _ _ _ _ _ E1).
  apply IH; [done|rewrite length_swap; lia|lia].
Qed.

Lemma holds_SiftUp k cap l r c o i :
  holds k cap l r c o → (i < length l)%nat →
  ∃ o', SiftUp (Z.of_nat i) o = Ret tt o' ∧ holds k cap (sift_up (S i) l i) r c o'.
Proof.
  intros H Hi. unfold SiftUp. rewrite Nat2Z.id. apply holds_SiftUp_fuel; [done..|lia].
Qed.

Lemma holds_MakeHeap_loop k cap r c n : ∀ l o f,
  holds k cap l r c o → (n ≤ length l)%nat → (n < f)%nat →
  ∃ o', MakeHeap_loop f (Z.of_nat n - 1) o = Ret tt o' ∧ holds k cap (heapify n l) r c o'.
Proof.
  induction n as [|n IH]; intros l o [|f] H Hn Hf; try lia; cbn [MakeHeap_loop].
  { exists o. done. }
  pose proof (holds_bound _ _ _ _ _ _ H) as Hb.
  rewrite bool_decide_eq_true_2 by lia.
  replace (u64 (Z.of_nat (S n) - 1)) with (Z.of_nat n) by (rewrite u64_small; lia).
  destruct (holds_SiftDown _ _ _ _ _ _ n H ltac:(lia)) as (o1 & E1 & H1).
  rewrite (bind_eq_ret _ _ _ _ _ E1).
  replace (Z.of_nat (S n) - 1 - 1) with (Z.of_nat n - 1) by lia.
  apply IH; [done|rewrite length_sift_down; lia|lia].
Qed.

Lemma holds_MakeHeap k cap l r c o :
  holds k cap l r c o → Z.of_nat (length l) < 2 ^ 32 + 2 →
  ∃ o', MakeHeap o = Ret tt o' ∧ holds k cap (heapify (length l / 2) l) r c o'.
Proof.
  intros H Hlen. unfold MakeHeap.
  rewrite (bind_eq_ret _ _ _ _ _ (holds_size _ _ _ _ _ _ H)). cbv zeta.
  set (n := (length l / 2)%nat).
  assert (Z.of_nat (length l) / 2 = Z.of_nat n) as -> by (unfold n; by rewrite Nat2Z.inj_div).
  assert (n ≤ length l)%nat as Hle by (apply Nat.Div0.div_le_upper_bound; lia).
  assert (Z.of_nat n ≤ 2 ^ 31) as Hn.
  { unfold n. rewrite Nat2Z.inj_div. apply Z.lt_succ_r, Z.div_lt_upper_bound; lia. }
  replace (s32 (u64 (Z.of_nat n - 1))) with (Z.of_nat n - 1).
  2: { destruct n as [|n']; [done|]. rewrite u64_small, s32_small; unfold INT_MIN, INT_MAX; lia. }
  apply holds_MakeHeap_loop; [done..|lia].
Qed.

(** A list of at least one element, seen from its end. *)
Lemma holds_ExtractMax k cap l x r c o :
  holds k cap l r c o → l !! 0%nat = Some x →
  ∃ o' l' last, ExtractMax o = Ret x o' ∧ l = l' ++ [last] ∧
    holds k cap (sift_down (S (length l')) (<[0%nat := last]> l') 0) r c o'.
Proof.
  intros Ho Hx. unfold ExtractMax.
  rewrite (bind_eq_ret _ _ _ _ _ (holds_is_empty _ _ _ _ _ _ Ho)).
  rewrite bool_decide_eq_false_2 by by intros ->.
  pose proof (holds_get _ _ _ _ _ _ _ _ Ho Hx) as E0. change (Z.of_nat 0) with 0 in E0.
  rewrite (bind_eq_ret _ _ _ _ _ E0).
  destruct (exists_last (l := l)) as (l' & last & ->); [by intros ->|].
  destruct (holds_pop _ _ _ _ _ _ _ Ho) as (o1 & E1 & H1).
  rewrite (bind_eq_ret _ _ _ _ _ E1).
  destruct l' as [|y l'].
  - destruct (holds_set_spare _ _ _ _ _ _ last H1) as (o2 & E2 & H2).
    { destruct Ho as (_ & _ & (rest & _ & -> & _)). simpl. lia. }
    change (Z.of_nat (length [])) with 0 in E2. rewrite (bind_eq_ret _ _ _ _ _ E2).
    rewrite (bind_eq_ret _ _ _ _ _ (holds_is_empty _ _ _ _ _ _ H2)).
    by exists o2, [], last.
  - destruct (holds_set _ _ _ _ _ _ 0 last H1 ltac:(simpl; lia)) as (o2 & E2 & H2).
    change (Z.of_nat 0) with 0 in E2. rewrite (bind_eq_ret _ _ _ _ _ E2).
    rewrite (bind_eq_ret _ _ _ _ _ (holds_is_empty _ _ _ _ _ _ H2)). simpl in H2.
    destruct (holds_SiftDown _ _ _ _ _ _ 0 H2 ltac:(simpl; lia)) as (o3 & E3 & H3).
    change (Z.of_nat 0) with 0 in E3.
    rewrite bool_decide_eq_false_2 by done. rewrite (bind_eq_ret _ _ _ _ _ E3).
    exists o3, (y :: l'), last. done.
Qed.

#[local] Arguments sift_down : simpl never.
#[local] Arguments sift_up : simpl never.

Lemma holds_ExtractMax_heap k cap x l0 r c o :
  holds k cap (x :: l0) r c o → nan_free (x :: l0) → heap (x :: l0) →
  ∃ o' l', ExtractMax o = Ret x o' ∧ holds k cap l' r c o' ∧
    x :: l0 ≡ₚ x :: l' ∧ Forall (λ y, dle y x) (x :: l0) ∧ heap l'.
Proof.
  intros Ho Hn Hh.
  destruct (holds_ExtractMax k cap (x :: l0) x r c o Ho eq_refl) as (o' & l' & last & E & El & H').
  exists o', (sift_down (S (length l')) (<[0%nat:=last]> l') 0).
  split; [done|]. split; [done|].
  assert (Hroot := heap_root _ x Hh eq_refl).
  destruct l' as [|z l']; simplify_eq/=.
  - split; [done|]. split; [done|]. by intros i j _ _ a b Ha.
  - split; [|split].
    + by rewrite sift_down_perm, (Permutation_app_comm l' [last]).
    + done.
    + assert (nan_free (last :: l')) as Hn'.
      { unfold nan_free in *. rewrite Forall_cons, Forall_app, Forall_singleton in Hn.
        rewrite Forall_cons. tauto. }
      apply sift_down_heap; [done|simpl; lia|simpl; lia|lia| |].
      * intros i j _ Hi Hij a b Ha Hb. pose proof (child_parent _ _ Hij) as [_ ?].
        destruct i as [|i]; [done|]. destruct j as [|j]; [lia|]. simpl in Ha, Hb.
        apply (Hh (S i) (S j)); [lia|done|..]; simpl; by apply lookup_app_l_Some.
      * intros i j _ Hc _. pose proof (child_parent _ _ Hc). lia.
Qed.

(** ** Properties *)

(** C3. MakeHeap on an array without NaN (and of at most [2^32 + 1] elements)
    returns normally, permutes the elements and establishes the heap order. *)
Theorem MakeHeap_builds_heap k cap l r c o :
  holds k cap l r c o → nan_free l → Z.of_nat (length l) < 2 ^ 32 + 2 →
  ∃ o' l', MakeHeap o = Ret tt o' ∧ holds k cap l' r c o' ∧ l' ≡ₚ l ∧ heap l'.
Proof.
  intros H Hn Hlen. destruct (holds_MakeHeap _ _ _ _ _ _ H Hlen) as (o' & E & H').
  exists o', (heapify (length l / 2) l). split; [done|]. split; [done|].
  split; [apply heapify_perm|].
  apply heapify_heap; [done|apply heap_from_half|apply Nat.Div0.div_le_upper_bound; lia].
Qed.

(** C4. ExtractMax on a heap without NaN returns an element that is at least
    every other one and leaves a heap of the remaining elements; on an empty
    array it throws and changes nothing. *)
Theorem ExtractMax_returns_max k cap l r c o :
  holds k cap l r c o → nan_free l → heap l →
  match l with
  | [] => ExtractMax o = Exc (runtime_error "head is empty") o
  | x :: _ => ∃ o' l', ExtractMax o = Ret x o' ∧ holds k cap l' r c o' ∧
                l ≡ₚ x :: l' ∧ Forall (λ y, dle y x) l ∧ heap l'
  end.
Proof.
  intros Ho Hn Hh. destruct l as [|x l0]; [|by apply holds_ExtractMax_heap].
  unfold ExtractMax.
  by rewrite (bind_eq_ret _ _ _ _ _ (holds_is_empty _ _ _ _ _ _ Ho)).
Qed.

(** Add to a heap without NaN inserts the element and keeps the heap order,
    growing the array when it is full. *)
Theorem Add_inserts `{Allocator} k cap l x r c o :
  holds k cap l r c o → nan_free l → is_nan x = false → heap l →
  ample → 0 < cap → 2 * cap * dsize ≤ PTRDIFF_MAX →
  ∃ o' k' cap' r' l', Add x o = Ret tt o' ∧ holds k' cap' l' r' c o' ∧
    (cap' = if bool_decide (Z.of_nat (length l) = cap) then 2 * cap else cap) ∧
    l' ≡ₚ x :: l ∧ heap l'.
Proof.
  intros Ho Hn Hx Hh Ham Hcap Hmax.
  assert (∃ o1 k' cap' r', PushBack x o = Ret tt o1 ∧ holds k' cap' (l ++ [x]) r' c o1 ∧
    cap' = if bool_decide (Z.of_nat (length l) = cap) then 2 * cap else cap)
    as (o1 & k' & cap' & r' & E1 & H1 & Hcap').
  { case_bool_decide as Hfull.
    - destruct (holds_push_grow cap k l r c o x) as (o1 & E1 & H1);
        [done..|apply Ham; unfold dsize in *; lia|]. eauto 10.
    - pose proof (owns_length _ _ _ _ (proj2 (proj2 Ho))).
      destruct (holds_push_fit k cap l r c o x Reallocate) as (o1 & E1 & H1); [done|lia|].
      eauto 10. }
  pose proof (holds_bound _ _ _ _ _ _ H1) as Hb.
  assert (length (l ++ [x]) = S (length l)) as Hlen by (rewrite length_app; simpl; lia).
  destruct (holds_SiftUp _ _ _ _ _ _ (length l) H1 ltac:(lia)) as (o2 & E2 & H2).
  exists o2, k', cap', r', (sift_up (S (length l)) (l ++ [x]) (length l)).
  unfold Add. rewrite (bind_eq_ret _ _ _ _ _ E1).
  rewrite (bind_eq_ret _ _ _ _ _ (holds_size _ _ _ _ _ _ H1)).
  replace (u64 (Z.of_nat (length (l ++ [x])) - 1)) with (Z.of_nat (length l))
    by (rewrite u64_small; lia).
  split; [done|]. split; [done|]. split; [done|].
  assert (l ++ [x] ≡ₚ x :: l) as Hp by (rewrite Permutation_app_comm; done).
  split; [by rewrite sift_up_perm|].
  apply sift_up_heap; [|lia|lia| |].
  - apply (nan_free_perm (x :: l)); [done|]. by constructor.
  - intros i j Hj Hc a b Ha Hb'. pose proof (child_parent _ _ Hc).
    assert (j < length l)%nat by (apply lookup_lt_Some in Hb'; lia).
    rewrite lookup_app_l in Ha, Hb' by lia. exact (Hh i j (Nat.le_0_l _) Hc a b Ha Hb').
  - intros i j Hc Hj a b _ Hb'%lookup_lt_Some. pose proof (child_parent _ _ Hj). lia.
Qed.

(** Whatever the elements, NaN included, MakeHeap returns normally with a
    permutation of them: no element is lost and no access leaves the array. *)
Theorem MakeHeap_permutes k cap l r c o :
  holds k cap l r c o → Z.of_nat (length l) < 2 ^ 32 + 2 →
  ∃ o' l', MakeHeap o = Ret tt o' ∧ holds k cap l' r c o' ∧ l' ≡ₚ l.
Proof.
  intros H Hlen. destruct (holds_MakeHeap _ _ _ _ _ _ H Hlen) as (o' & E & H').
  exists o', (heapify (length l / 2) l). split; [done|]. split; [done|]. apply heapify_perm.
Qed.

(** The int loop counter of MakeHeap truncates the size_t it starts from:
    from [2^32 + 2] elements on (up to [2^33 + 1]) MakeHeap does nothing. *)
Theorem MakeHeap_truncated_counter k cap l r c o :
  holds k cap l r c o → 2 ^ 32 + 2 ≤ Z.of_nat (length l) < 2 ^ 33 + 2 →
  MakeHeap o = Ret tt o.
Proof.
  intros H Hlen. unfold MakeHeap.
  rewrite (bind_eq_ret _ _ _ _ _ (holds_size _ _ _ _ _ _ H)). cbv zeta.
  set (n := Z.of_nat (length l)) in *. clearbody n.
  assert (2 ^ 31 + 1 ≤ n / 2 < 2 ^ 32 + 1) as Hh.
  { split; [apply Z.div_le_lower_bound|apply Z.div_lt_upper_bound]; lia. }
  rewrite u64_small by lia. set (m := n / 2 - 1) in *.
  assert (s32 m = m - 2 ^ 32) as ->.
  { unfold s32. rewrite <-(Z.mod_unique (m + 2 ^ 31) (2 ^ 32) 1 (m - 2 ^ 31)); lia. }
  cbn [MakeHeap_loop]. by rewrite bool_decide_eq_false_2 by lia.
Qed.

(** [n] calls of ExtractMax. *)
Fixpoint drain (n : nat) : M dobj (list double) :=
  match n with
  | O => ret []
  | S n' => let! x := ExtractMax in let! xs := drain n' in ret (x :: xs)
  end.

Lemma drain_heap k cap r c n : ∀ l o,
  holds k cap l r c o → nan_free l → heap l → length l = n →
  ∃ xs o', drain n o = Ret xs o' ∧ xs ≡ₚ l ∧ StronglySorted (flip dle) xs ∧
    holds k cap [] r c o'.
Proof.
  induction n as [|n IH]; intros [|x l0] o Ho Hn Hh Hlen; try done.
  { exists [], o. split; [done|]. split; [done|]. split; [constructor|done]. }
  destruct (holds_ExtractMax_heap k cap x l0 r c o Ho Hn Hh)
    as (o1 & l1 & E1 & H1 & Hp & Hmax & Hh1).
  assert (l0 ≡ₚ l1) as Hp1 by by apply (inj (cons x)).
  assert (nan_free l1) as Hn1 by (apply (nan_free_perm l0); [done|by apply Forall_cons in Hn as [_ ?]]).
  destruct (IH l1 o1 H1 Hn1 Hh1) as (xs & o2 & E2 & Hxs & Hs & H2).
  { rewrite <-Hp1. by injection Hlen. }
  exists (x :: xs), o2. cbn [drain]. rewrite (bind_eq_ret _ _ _ _ _ E1).
  rewrite (bind_eq_ret _ _ _ _ _ E2). split; [done|]. split; [by rewrite Hxs, Hp1|].
  split; [|done]. constructor; [done|]. apply Forall_cons in Hmax as [_ Hmax].
  rewrite Hxs, <-Hp1. exact Hmax.
Qed.


(** ** Witnesses *)

Definition three : list double := [of_Z 1; of_Z 9; of_Z 4].
Definition three_heap : list double := [of_Z 9; of_Z 1; of_Z 4].

Lemma three_nan_free : nan_free three.
Proof. repeat constructor. Defined.
Lemma three_heap_nan_free : nan_free three_heap.
Proof. repeat constructor. Defined.
Lemma three_heap_heap : heap three_heap.
Proof.
  intros i c _ [-> | ->] x y Hx Hy; destruct i as [|[|[|i]]];
    simpl in *; simplify_eq; apply leb_dle; reflexivity.
Qed.

Lemma MakeHeap_builds_heap_witness :
  ∃ o' l', MakeHeap (sample three 1) = Ret tt o' ∧ holds Malloc 4 l' [] [] o' ∧
    l' ≡ₚ three ∧ heap l'.
Proof.
  apply (MakeHeap_builds_heap Malloc 4 three [] []);
    [apply (sample_holds three 1); vm_compute; discriminate|exact three_nan_free|reflexivity].
Defined.
Lemma ExtractMax_returns_max_witness :
  ∃ o' l', ExtractMax (sample three_heap 1) = Ret (of_Z 9) o' ∧
    holds Malloc 4 l' [] [] o' ∧ three_heap ≡ₚ of_Z 9 :: l' ∧
    Forall (λ y, dle y (of_Z 9)) three_heap ∧ heap l'.
Proof.
  apply (ExtractMax_returns_max Malloc 4 three_heap [] []);
    [apply (sample_holds three_heap 1); vm_compute; discriminate
    |exact three_heap_nan_free|exact three_heap_heap].
Defined.
Lemma Add_inserts_witness :
  ∃ o' k' cap' r' l', Add (Al:=unlimited) (of_Z 20) (sample three_heap 0) = Ret tt o' ∧
    holds k' cap' l' r' [] o' ∧ cap' = 6 ∧ l' ≡ₚ of_Z 20 :: three_heap ∧ heap l'.
Proof.
  apply (Add_inserts (H:=unlimited) Malloc 3 three_heap (of_Z 20) [] []);
    [apply (sample_holds three_heap 0); vm_compute; discriminate
    |exact three_heap_nan_free|reflexivity|exact three_heap_heap
    |intros b _; reflexivity|reflexivity|vm_compute; discriminate].
Defined.
Lemma MakeHeap_permutes_witness :
  ∃ o' l', MakeHeap (sample [of_Z 1; nan] 2) = Ret tt o' ∧
    holds Malloc 4 l' [] [] o' ∧ l' ≡ₚ [of_Z 1; nan].
Proof.
  apply (MakeHeap_permutes Malloc 4 [of_Z 1; nan] [] []);
    [apply (sample_holds [of_Z 1; nan] 2); vm_compute; discriminate|reflexivity].
Defined.
Lemma MakeHeap_truncated_counter_witness :
  let o := sample (replicate (Z.to_nat (2 ^ 32 + 2)) zero) 0 in MakeHeap o = Ret tt o.
Proof.
  intros o.
  assert (length (replicate (Z.to_nat (2 ^ 32 + 2)) zero) = Z.to_nat (2 ^ 32 + 2)) as Hlen
    by apply length_replicate.
  apply (MakeHeap_truncated_counter Malloc _ _ [] [] o
           (sample_holds (replicate (Z.to_nat (2 ^ 32 + 2)) zero) 0
              ltac:(rewrite Nat.add_0_r, Hlen, Z2Nat.id by lia; unfold dsize, PTRDIFF_MAX; lia))).
  rewrite Hlen, Z2Nat.id by lia. lia.
Defined.
