(* ===== verification/Refinement.v ===== *)
(** * Refinement of an abstract data type by a C++ class

    A class is seen through its operations: [impl] runs one of them on the
    concrete state, [spec] on the abstract one, where [None] marks a call that
    the class leaves undefined. An instance of [Refines] is a simulation; it
    transfers to every history of calls. *)

From S2P Require Import Prelude.

Section Histories.
Context {S T Op Ans : Type}.

Fixpoint run_impl (impl : Op → M S Ans) (ops : list Op) : M S (list Ans) :=
  match ops with
  | [] => ret []
  | op :: ops' =>
      let! a := impl op in
      let! l := run_impl impl ops' in
      ret (a :: l)
  end.

Fixpoint run_spec (spec : Op → T → option (Ans * T)) (ops : list Op) (t : T) :
    option (list Ans * T) :=
  match ops with
  | [] => Some ([], t)
  | op :: ops' =>
      match spec op t with
      | None => None
      | Some (a, t') =>
          match run_spec spec ops' t' with
          | None => None
          | Some (l, t'') => Some (a :: l, t'')
          end
      end
  end.

Lemma run_spec_app (spec : Op → T → option (Ans * T)) ops ops' t :
  run_spec spec (ops ++ ops') t =
    match run_spec spec ops t with
    | Some (l, t') =>
        match run_spec spec ops' t' with Some (l', t'') => Some (l ++ l', t'') | None => None end
    | None => None
    end.
Proof.
  revert t. induction ops as [|op ops IH]; intros t; simpl.
  - by destruct (run_spec spec ops' t) as [[??]|].
  - destruct (spec op t) as [[a t1]|]; [|done]. rewrite IH.
    destruct (run_spec spec ops t1) as [[l t2]|]; [|done].
    by destruct (run_spec spec ops' t2) as [[??]|].
Qed.

Class Refines (impl : Op → M S Ans) (spec : Op → T → option (Ans * T))
    (R : T → S → Prop) : Prop :=
  refines_step : ∀ op t s, R t s →
    match spec op t with
    | Some (a, t') => ∃ s', impl op s = Ret a s' ∧ R t' s'
    | None => ∃ u, impl op s = Undef u
    end.

Lemma refines_run impl spec R `{Refines impl spec R} ops : ∀ t s,
  R t s →
  match run_spec spec ops t with
  | Some (l, t') => ∃ s', run_impl impl ops s = Ret l s' ∧ R t' s'
  | None => ∃ u, run_impl impl ops s = Undef u
  end.
Proof.
  induction ops as [|op ops IH]; intros t s HR; simpl; [by exists s|].
  pose proof (refines_step op t s HR) as Hop.
  destruct (spec op t) as [[a t1]|].
  - destruct Hop as (s1 & E1 & HR1). rewrite (bind_eq_ret _ _ _ _ _ E1).
    specialize (IH t1 s1 HR1). destruct (run_spec spec ops t1) as [[l t2]|].
    + destruct IH as (s2 & E2 & HR2). rewrite (bind_eq_ret _ _ _ _ _ E2). by exists s2.
    + destruct IH as (u & E2). exists u. unfold bind. by rewrite E2.
  - destruct Hop as (u & E). exists u. unfold bind. by rewrite E.
Qed.

(** The same for an abstraction that holds while [n] calls are still to come,
    such as one with a counter that must not wrap around. *)
Lemma refines_run_counted impl spec (R : nat → T → S → Prop) ops : ∀ t s,
  (∀ n op t s, R (Datatypes.S n) t s →
    match spec op t with
    | Some (a, t') => ∃ s', impl op s = Ret a s' ∧ R n t' s'
    | None => ∃ u, impl op s = Undef u
    end) →
  R (length ops) t s →
  match run_spec spec ops t with
  | Some (l, t') => ∃ s', run_impl impl ops s = Ret l s' ∧ R O t' s'
  | None => ∃ u, run_impl impl ops s = Undef u
  end.
Proof.
  intros t s Hstep. revert t s.
  induction ops as [|op ops IH]; intros t s HR; simpl in *; [by exists s|].
  pose proof (Hstep _ op t s HR) as Hop. destruct (spec op t) as [[a t1]|].
  - destruct Hop as (s1 & E1 & HR1). rewrite (bind_eq_ret _ _ _ _ _ E1).
    specialize (IH t1 s1 HR1). destruct (run_spec spec ops t1) as [[l t2]|].
    + destruct IH as (s2 & E2 & HR2). rewrite (bind_eq_ret _ _ _ _ _ E2). by exists s2.
    + destruct IH as (u & E2). exists u. unfold bind. by rewrite E2.
  - destruct Hop as (u & E). exists u. unfold bind. by rewrite E.
Qed.
End Histories.

(** What a caller of a container observes of one call. *)
Inductive answer : Type :=
  | Done
  | Value (z : Z)
  | Flag (b : bool)
  | Thrown (e : exn).

(** A call whose exception is caught and reported. *)
Definition observed {S A} (f : A → answer) (m : M S A) : M S answer :=
  try_catch (let! a := m in ret (f a)) (λ e, ret (Thrown e)).

Lemma observed_ret {S A} (f : A → answer) (m : M S A) s a s' :
  m s = Ret a s' → observed f m s = Ret (f a) s'.
Proof. unfold observed, try_catch, bind. by intros ->. Qed.
Lemma observed_exc {S A} (f : A → answer) (m : M S A) s e s' :
  m s = Exc e s' → observed f m s = Ret (Thrown e) s'.
Proof. unfold observed, try_catch, bind. by intros ->. Qed.
Lemma observed_undef {S A} (f : A → answer) (m : M S A) s u :
  m s = Undef u → observed f m s = Undef u.
Proof. unfold observed, try_catch, bind. by intros ->. Qed.
