(* ===== verification/Stack.v ===== *)
(** * Stack: the bounded stack of ints

    Models cmake_make_gtest_cppunit/Stack.h and Stack.cpp. [top_] is a size_t
    that holds SIZE_MAX when the stack is empty. *)

From S2P Require Import Prelude Refinement.

Record Stack : Type := mkStack {
  buffer_ : option (list (option Z));
  stack_size_ : Z;
  top_ : Z
}.

Abbreviation sobj := (obj False Stack).

(** sizeof(int) *)
Definition isize : Z := 4.

(** [size_t(-1)] *)
Definition none : Z := u64 (-1).

Section Stack.
Context {Al : Allocator}.

Definition Stack_ctor (stack_size : Z) : M sobj unit :=
  put_self (mkStack None stack_size none) ;;
  let! p := new_array stack_size isize in
  let! b := memset 0 (Some p) (u64 (isize * stack_size)) isize in
  put_self (mkStack (Some b) stack_size none).

Definition Stack_dtor : M sobj unit := release NewArray DeleteArray.

Definition Push (val : Z) : M sobj unit :=
  let! o := get in
  let s := self o in
  if bool_decide (u64 (top_ s + 1) >= stack_size_ s) then throw (runtime_error "stack overflow")
  else
    let t := u64 (top_ s + 1) in
    let! b := store (buffer_ s) t val in
    put_self (mkStack (Some b) (stack_size_ s) t).

Definition Size : M sobj Z := gets (λ o, u64 (top_ (self o) + 1)).

Definition Pop : M sobj Z :=
  let! o := get in
  let s := self o in
  if bool_decide (top_ s = none) then throw (runtime_error "stack underflow")
  else
    let! v := load (buffer_ s) (top_ s) in
    put_self (mkStack (buffer_ s) (stack_size_ s) (u64 (top_ s - 1))) ;;
    ret v.

Definition Top : M sobj Z := let! o := get in load (buffer_ (self o)) (top_ (self o)).

Definition Empty : M sobj bool := gets (λ o, bool_decide (top_ (self o) = none)).

(** [for (int i = 0; i <= top_; ++i)] *)
Fixpoint Display_loop (fuel : nat) (i : Z) : M sobj unit :=
  match fuel with
  | O => no_fuel
  | S fuel' =>
      let! o := get in
      if bool_decide (u64 i <= top_ (self o)) then
        let! v := load (buffer_ (self o)) i in
        emit [OInt v; OStr "	"] ;;
        let! i := int_arith (i + 1) in
        Display_loop fuel' i
      else ret tt
  end.
(** Every round reads one more cell, so the block bounds the rounds. *)
Definition Display : M sobj unit :=
  let! o := get in
  Display_loop (S (S (length (default [] (buffer_ (self o)))))) 0 ;;
  emit [OEndl].

(** ** The abstract bounded stack, top first *)

Inductive op : Type := OpPush (v : Z) | OpPop | OpTop | OpSize | OpEmpty.

Definition impl (c : op) : M sobj answer :=
  match c with
  | OpPush v => observed (λ _, Done) (Push v)
  | OpPop => observed Value Pop
  | OpTop => observed Value Top
  | OpSize => observed Value Size
  | OpEmpty => observed Flag Empty
  end.

Definition spec (n : Z) (c : op) (l : list Z) : option (answer * list Z) :=
  match c with
  | OpPush v => if bool_decide (Z.of_nat (length l) < n) then Some (Done, v :: l)
                else Some (Thrown (runtime_error "stack overflow"), l)
  | OpPop => match l with
             | [] => Some (Thrown (runtime_error "stack underflow"), l)
             | v :: l' => Some (Value v, l')
             end
  | OpTop => match l with [] => None | v :: _ => Some (Value v, l) end
  | OpSize => Some (Value (Z.of_nat (length l)), l)
  | OpEmpty => Some (Flag (bool_decide (l = [])), l)
  end.

(** [n] cells, the first ones holding the elements, bottom first. *)
Definition stands_for (n : Z) (l : list Z) (o : sobj) : Prop :=
  ∃ rest,
    self o = mkStack (Some ((Some <$> rev l) ++ rest)) n (u64 (Z.of_nat (length l) - 1)) ∧
    n = Z.of_nat (length l + length rest) ∧ n * isize ≤ PTRDIFF_MAX.

Lemma u64_pred_nat (k : nat) :
  Z.of_nat k < 2 ^ 62 → u64 (u64 (Z.of_nat k - 1) + 1) = Z.of_nat k.
Proof.
  intros H. destruct k as [|k]; [done|].
  rewrite (u64_small (_ - 1)), u64_small by lia. lia.
Qed.
Lemma top_none (k : nat) : Z.of_nat k < 2 ^ 62 → u64 (Z.of_nat k - 1) = none ↔ k = O.
Proof.
  intros H. destruct k as [|k]; [done|]. rewrite u64_small by lia.
  change none with (2 ^ 64 - 1). lia.
Qed.

(** The cell that [top_] counts. *)
Lemma load_top (v : Z) (l : list Z) rest (o : sobj) :
  Z.of_nat (S (length l)) < 2 ^ 62 →
  load (Some ((Some <$> rev l ++ [v]) ++ rest)) (u64 (Z.of_nat (S (length l)) - 1)) o = Ret v o.
Proof.
  intros Hl. unfold load. rewrite (u64_small (_ - 1)) by lia.
  replace (Z.of_nat (S (length l)) - 1) with (Z.of_nat (length l)) by lia.
  rewrite zget_nat, fmap_app, <-app_assoc. simpl.
  by rewrite list_lookup_middle by (rewrite length_fmap, length_rev; done).
Qed.

#[export] Instance Stack_refines n : Refines impl (spec n) (stands_for n).
Proof.
  intros c l o (rest & E & Hn & Hmax).
  assert (Z.of_nat (length l) < 2 ^ 62) as Hl by (unfold isize, PTRDIFF_MAX in *; lia).
  assert (length (Some <$> rev l) = length l) as Hrev by by rewrite length_fmap, length_rev.
  destruct c as [v| | | |]; simpl.
  - case_bool_decide as Hlt.
    + destruct rest as [|x rest]; [simpl in Hn; lia|].
      eexists. split.
      { apply (observed_ret (λ _, Done) _ _ tt). unfold Push, bind, get. rewrite E. simpl.
        rewrite u64_pred_nat by done. rewrite bool_decide_eq_false_2 by lia.
        unfold store. rewrite zset_nat by (rewrite length_app; simpl; lia). reflexivity. }
      exists rest. simpl. rewrite fmap_app, <-app_assoc. simpl.
      rewrite insert_app_r_alt by lia. rewrite Hrev, Nat.sub_diag. simpl.
      split; [|simpl in Hn; split; [lia|done]]. f_equal.
      rewrite u64_small by lia. lia.
    + exists o. split; [|by exists rest].
      apply observed_exc. unfold Push, bind, get. rewrite E. simpl.
      rewrite u64_pred_nat by done. by rewrite bool_decide_eq_true_2 by lia.
  - destruct l as [|v l].
    + exists o. split; [|by exists rest].
      apply observed_exc. unfold Pop, bind, get. rewrite E. done.
    + eexists. split.
      { apply (observed_ret Value). unfold Pop. unfold bind at 1, get.
        rewrite E. cbn [top_ buffer_ stack_size_ rev length].
        rewrite bool_decide_eq_false_2 by (rewrite top_none; simpl in *; lia).
        rewrite (bind_eq_ret _ _ _ _ _ (load_top v l rest o Hl)). reflexivity. }
      exists (Some v :: rest). simpl in *. rewrite fmap_app, <-app_assoc. simpl.
      split; [|split; [lia|done]]. f_equal. rewrite (u64_small (Z.of_nat (S _) - 1)) by lia. f_equal. lia.
  - destruct l as [|v l].
    + exists OutOfBounds. apply observed_undef. unfold Top, bind, get, load. rewrite E. simpl.
      rewrite zget_None; [done|]. right. change (u64 (Z.of_nat 0 - 1)) with (2 ^ 64 - 1).
      simpl in Hn. unfold isize, PTRDIFF_MAX in Hmax. lia.
    + exists o. split; [|by exists rest].
      apply observed_ret. unfold Top, bind, get. rewrite E. exact (load_top v l rest o Hl).
  - exists o. split; [|by exists rest]. apply (observed_ret Value). unfold Size, gets.
    rewrite E. simpl. by rewrite u64_pred_nat.
  - exists o. split; [|by exists rest]. apply (observed_ret Flag). unfold Empty, gets.
    rewrite E. simpl. do 2 f_equal. apply bool_decide_ext. rewrite top_none by done.
    destruct l; simpl; split; intros; done || lia.
Qed.

Lemma Stack_ctor_stands_for n (o : sobj) :
  0 ≤ n → n * isize ≤ PTRDIFF_MAX → can_alloc (n * isize) = true →
  ∃ o', Stack_ctor n o = Ret tt o' ∧ stands_for n [] o'.
Proof.
  intros Hn Hmax Ha. unfold Stack_ctor, bind, put_self, modify, new_array.
  rewrite bool_decide_eq_false_2 by lia. rewrite Ha. unfold ret, memset.
  rewrite u64_small by (unfold isize, PTRDIFF_MAX in *; lia).
  rewrite Z.mul_comm, Z.div_mul by done. rewrite length_replicate, decide_True by lia.
  eexists. split; [reflexivity|].
  exists (replicate (Z.to_nat n) (Some 0)). simpl.
  rewrite drop_ge by (rewrite length_replicate; lia). rewrite app_nil_r, length_replicate.
  split; [done|]. split; [lia|done].
Qed.

(** C1. A Stack built for [n] ints behaves, over every history of calls, as the
    abstract stack bounded by [n]: same values, same exceptions and same state,
    and undefined exactly where the history reads the top of an empty stack. *)
Theorem Stack_history n (o : sobj) ops :
  0 ≤ n → n * isize ≤ PTRDIFF_MAX → can_alloc (n * isize) = true →
  match run_spec (spec n) ops [] with
  | Some (answers, l) =>
      ∃ o', (Stack_ctor n ;; run_impl impl ops) o = Ret answers o' ∧ stands_for n l o'
  | None => ∃ u, (Stack_ctor n ;; run_impl impl ops) o = Undef u
  end.
Proof.
  intros Hn Hmax Ha. destruct (Stack_ctor_stands_for n o Hn Hmax Ha) as (o1 & E1 & H1).
  pose proof (refines_run impl (spec n) (stands_for n) ops [] o1 H1) as Hrun.
  rewrite (bind_eq_ret _ _ _ _ _ E1). exact Hrun.
Qed.

(** What Display prints of a stack, bottom first. *)
Definition printed (l : list Z) : list (out False) := l ≫= λ v, [OInt v; OStr "	"].
Definition with_output (c : list (out False)) (o : sobj) : sobj :=
  mkObj (self o) (reports o) (cout o ++ c).

Lemma Display_loop_prints n l m : ∀ fuel i o,
  stands_for n l o → Z.of_nat (length l) ≤ INT_MAX → l ≠ [] →
  (i + m = length l)%nat → (m < fuel)%nat →
  Display_loop fuel (Z.of_nat i) o = Ret tt (with_output (printed (drop i (rev l))) o).
Proof.
  induction m as [|m IH]; intros [|fuel] i o Ho Hl Hne Hi Hf; try lia;
    pose proof Ho as (rest & E & Hn & Hmax); unfold INT_MAX in *;
    assert (0 < length l)%nat by (destruct l; [done|simpl; lia]);
    cbn [Display_loop]; unfold bind at 1, get; rewrite E; cbn [top_ buffer_];
    rewrite (u64_small (_ - 1)), u64_small by lia.
  - rewrite bool_decide_eq_false_2 by lia. rewrite drop_ge by (rewrite length_rev; lia).
    unfold with_output, printed. simpl. rewrite app_nil_r. by destruct o.
  - rewrite bool_decide_eq_true_2 by lia.
    pose proof (lookup_lt_is_Some_2 (rev l) i ltac:(rewrite length_rev; lia)) as [v Hv].
    unfold load. rewrite zget_nat, lookup_app_l by (rewrite length_fmap, length_rev; lia).
    rewrite list_lookup_fmap, Hv. cbn [fmap option_fmap option_map].
    rewrite bind_ret_l. unfold emit. unfold bind at 1, modify.
    rewrite (bind_eq_ret _ _ _ _ _ (int_arith_small (Z.of_nat i + 1) _ ltac:(unfold INT_MIN, INT_MAX; lia))).
    replace (Z.of_nat i + 1) with (Z.of_nat (S i)) by lia.
    rewrite IH; [|by exists rest|done|done|lia|lia]. f_equal.
    rewrite (drop_S _ _ _ Hv). unfold with_output, printed. simpl.
    by rewrite <-app_assoc.
Qed.

(** Display of a non-empty stack prints its elements, bottom first, each
    followed by a tab, and a line end, and leaves the stack as it was. *)
Theorem Display_prints n l o :
  stands_for n l o → l ≠ [] → Z.of_nat (length l) ≤ INT_MAX →
  Display o = Ret tt (with_output (printed (rev l) ++ [OEndl]) o).
Proof.
  intros Ho Hne Hl. pose proof Ho as (rest & E & Hn & Hmax).
  unfold Display, bind at 1, get. rewrite E. simpl default.
  erewrite bind_eq_ret by (apply (Display_loop_prints n l (length l) _ 0);
    [done..|rewrite length_app, length_fmap, length_rev; lia]).
  unfold emit, modify, with_output. simpl. by rewrite app_assoc.
Qed.

Lemma Display_loop_overruns n m : ∀ fuel i (o : sobj),
  stands_for n [] o → n ≤ INT_MAX → Z.of_nat i + Z.of_nat m = n → (m < fuel)%nat →
  ∃ u, Display_loop fuel (Z.of_nat i) o = Undef u.
Proof.
  induction m as [|m IH]; intros [|fuel] i o Ho Hmax Hi Hf; try lia;
    pose proof Ho as (rest & E & Hn & Hlim); simpl in Hn; unfold INT_MAX in *;
    cbn [Display_loop]; unfold bind at 1, get; rewrite E; cbn [top_ buffer_ length];
    change (u64 (Z.of_nat 0 - 1)) with (2 ^ 64 - 1);
    rewrite bool_decide_eq_true_2 by (rewrite u64_small by lia; lia); unfold load; simpl.
  - rewrite zget_None by lia. by exists OutOfBounds.
  - pose proof (lookup_lt_is_Some_2 rest i ltac:(lia)) as [[v|] Hv]; rewrite zget_nat, Hv.
    + rewrite bind_ret_l. unfold emit. unfold bind at 1, modify.
      rewrite (bind_eq_ret _ _ _ _ _ (int_arith_small (Z.of_nat i + 1) _ ltac:(unfold INT_MIN, INT_MAX; lia))).
      replace (Z.of_nat i + 1) with (Z.of_nat (S i)) by lia.
      apply IH; [by exists rest|done|lia..].
    + by exists Indeterminate.
Qed.

(** On an empty stack Display compares its counter with SIZE_MAX and runs
    off the end of the block: no output is ever completed. *)
Theorem Display_empty_overruns n o :
  stands_for n [] o → n ≤ INT_MAX → ∃ u, Display o = Undef u.
Proof.
  intros Ho Hmax. pose proof Ho as (rest & E & Hn & _).
  destruct (Display_loop_overruns n (length rest) (S (S (length rest))) 0 o)
    as (u & Eu); [done|done|simpl in *; lia|lia|].
  exists u. unfold Display, bind at 1, get. rewrite E. simpl default. simpl app.
  unfold bind. change 0 with (Z.of_nat 0). by rewrite Eu.
Qed.
End Stack.

(** ** Witnesses *)

Definition unlimited : Allocator := λ _, true.
Definition fresh : sobj := mkObj (mkStack None 0 0) [] [].
Definition two : sobj := mkObj (mkStack (Some [Some 5; Some 10; Some 0]) 3 1) [] [].
Definition nothing : sobj := mkObj (mkStack (Some [Some 0; Some 0]) 2 none) [] [].

Lemma Stack_history_witness :
  let ops := [OpPush 5; OpPush 10; OpPush 20; OpTop; OpPop; OpPop; OpSize; OpPop; OpPop; OpEmpty] in
  ∃ o', (Stack_ctor (Al:=unlimited) 2 ;; run_impl impl ops) fresh =
    Ret [Done; Done; Thrown (runtime_error "stack overflow"); Value 10; Value 10; Value 5;
         Value 0; Thrown (runtime_error "stack underflow");
         Thrown (runtime_error "stack underflow"); Flag true] o' ∧ stands_for 2 [] o'.
Proof.
  intros ops. apply (Stack_history (Al:=unlimited) 2 fresh ops);
    [vm_compute; discriminate|vm_compute; discriminate|reflexivity].
Defined.
Lemma Display_prints_witness :
  Display two = Ret tt (with_output [OInt 5; OStr "	"; OInt 10; OStr "	"; OEndl] two).
Proof.
  apply (Display_prints 3 [10; 5] two); [|discriminate|vm_compute; discriminate].
  exists [Some 0]. split; [reflexivity|]. split; [reflexivity|vm_compute; discriminate].
Defined.
Lemma Display_empty_overruns_witness : ∃ u, Display nothing = Undef u.
Proof.
  apply (Display_empty_overruns 2 nothing); [|vm_compute; discriminate].
  exists [Some 0; Some 0]. split; [reflexivity|]. split; [reflexivity|vm_compute; discriminate].
Defined.
