(* ===== verification/Queue.v ===== *)
(** * Queue: the circular queue of ints

    Models cmake_make_gtest_cppunit/Queue.h and Queue.cpp. [head_] and [tail_]
    are ints, [queue_size_] a size_t; one cell is always left free. *)

From S2P Require Import Prelude Refinement.

Record Queue : Type := mkQueue {
  buffer_ : option (list (option Z));
  queue_size_ : Z;
  head_ : Z;
  tail_ : Z
}.

Abbreviation qobj := (obj False Queue).

(** sizeof(int) *)
Definition isize : Z := 4.

Section Queue.
Context {Al : Allocator}.

Definition Queue_ctor (queue_size : Z) : M qobj unit :=
  put_self (mkQueue None queue_size 0 0) ;;
  let p := malloc (u64 (queue_size * isize)) isize in
  let! b := memset 0 p (u64 (isize * queue_size)) isize in
  put_self (mkQueue (Some b) queue_size 0 0).

Definition Queue_dtor : M qobj unit := release Malloc Free.

(** [head_ == tail_] *)
Definition Empty : M qobj bool := gets (λ o, bool_decide (head_ (self o) = tail_ (self o))).

(** [x % n] on size_t *)
Definition umod {S} (x n : Z) : M S Z :=
  if bool_decide (n = 0) then undef DivByZero else ret (u64 x mod n).

Definition Push (val : Z) : M qobj unit :=
  let! o := get in
  let q := self o in
  let! t1 := int_arith (tail_ q + 1) in
  let! m := umod t1 (queue_size_ q) in
  if bool_decide (m = u64 (head_ q)) then throw (runtime_error "queue is full")
  else
    let! b := store (buffer_ q) (tail_ q) val in
    let! t := int_arith (tail_ q + 1) in
    put_self (mkQueue (Some b) (queue_size_ q) (head_ q)
                (if bool_decide (u64 t = queue_size_ q) then 0 else t)).

Definition Pop : M qobj Z :=
  let! e := Empty in
  if e : bool then throw (runtime_error "queue is empty")
  else
    let! o := get in
    let q := self o in
    let! out := load (buffer_ q) (head_ q) in
    let! h := int_arith (head_ q + 1) in
    put_self (mkQueue (buffer_ q) (queue_size_ q)
                (if bool_decide (u64 h = queue_size_ q) then 0 else h) (tail_ q)) ;;
    ret out.

Definition Back : M qobj Z :=
  let! e := Empty in
  if e : bool then throw (runtime_error "queue is empty")
  else
    let! o := get in
    let q := self o in
    if bool_decide (tail_ q = 0) then load (buffer_ q) (u64 (queue_size_ q - 1))
    else load (buffer_ q) (tail_ q - 1).

Definition Front : M qobj Z :=
  let! e := Empty in
  if e : bool then throw (runtime_error "queue is empty")
  else let! o := get in load (buffer_ (self o)) (head_ (self o)).

(** ** The abstract bounded queue, oldest element first *)

Inductive op : Type := OpPush (v : Z) | OpPop | OpFront | OpBack | OpEmpty.

Definition impl (c : op) : M qobj answer :=
  match c with
  | OpPush v => observed (λ _, Done) (Push v)
  | OpPop => observed Value Pop
  | OpFront => observed Value Front
  | OpBack => observed Value Back
  | OpEmpty => observed Flag Empty
  end.

Definition empty_error : answer := Thrown (runtime_error "queue is empty").

(** A queue of [n] cells holds [n - 1] elements. *)
Definition spec (n : Z) (c : op) (l : list Z) : option (answer * list Z) :=
  match c with
  | OpPush v => if bool_decide (Z.of_nat (length l) < n - 1) then Some (Done, l ++ [v])
                else Some (Thrown (runtime_error "queue is full"), l)
  | OpPop => match l with [] => Some (empty_error, l) | v :: l' => Some (Value v, l') end
  | OpFront => match l with [] => Some (empty_error, l) | v :: _ => Some (Value v, l) end
  | OpBack => match last l with None => Some (empty_error, l) | Some v => Some (Value v, l) end
  | OpEmpty => Some (Flag (bool_decide (l = [])), l)
  end.

(** Element [i] lies [i] cells after the head, around the end of the block. *)
Definition stands_for (n : Z) (l : list Z) (o : qobj) : Prop :=
  ∃ cells h,
    self o = mkQueue (Some cells) n h ((h + Z.of_nat (length l)) mod n) ∧
    Z.of_nat (length cells) = n ∧ n ≤ INT_MAX ∧
    0 ≤ h < n ∧ Z.of_nat (length l) < n ∧
    ∀ i v, l !! i = Some v → zget cells ((h + Z.of_nat i) mod n) = Some (Some v).

Lemma mod_turn h k n :
  0 ≤ h < n → 0 ≤ k ≤ n → (h + k) mod n = if bool_decide (h + k < n) then h + k else h + k - n.
Proof.
  intros Hh Hk. case_bool_decide; [apply Z.mod_small; lia|].
  symmetry. apply (Z.mod_unique _ _ 1); lia.
Qed.
Lemma mod_cases h k n :
  0 ≤ h < n → 0 ≤ k ≤ n →
  h + k < n ∧ (h + k) mod n = h + k ∨ n ≤ h + k ∧ (h + k) mod n = h + k - n.
Proof. intros Hh Hk. rewrite mod_turn by done. case_bool_decide; lia. Qed.
(** The index after [h]. *)
Lemma wrap_mod h k n :
  0 < n → ((if bool_decide (h + 1 = n) then 0 else h + 1) + k) mod n = (h + (k + 1)) mod n.
Proof.
  intros Hn. case_bool_decide; [|f_equal; lia].
  replace (h + (k + 1)) with (0 + k + 1 * n) by lia. by rewrite Z_mod_plus_full.
Qed.
Lemma zget_zset {A} (l l' : list A) i j x :
  zset l i x = Some l' → zget l' j = if bool_decide (j = i) then Some x else zget l j.
Proof.
  unfold zset. case_bool_decide as Hi; [|done]. intros [= <-]. unfold zget.
  case_bool_decide as Hj; [|by rewrite bool_decide_eq_false_2 by lia].
  case_bool_decide as Hij.
  - subst. rewrite list_lookup_insert_eq by lia. done.
  - by rewrite list_lookup_insert_ne by lia.
Qed.
Lemma zset_is_Some {A} (l : list A) i x :
  0 ≤ i < Z.of_nat (length l) → ∃ l', zset l i x = Some l' ∧ length l' = length l.
Proof.
  intros H. unfold zset. rewrite bool_decide_eq_true_2 by done. eexists.
  split; [done|]. apply length_insert.
Qed.

(** The head and the tail meet exactly when the queue is empty. *)
Lemma stands_for_empty n l o :
  stands_for n l o → Empty o = Ret (bool_decide (l = [])) o.
Proof.
  intros (cells & h & E & _ & _ & Hh & Hl & _). unfold Empty, gets. rewrite E. simpl.
  f_equal. apply bool_decide_ext. rewrite mod_turn by lia.
  rewrite <-length_zero_iff_nil. case_bool_decide; lia.
Qed.

Lemma Push_eval cells n h t v o :
  self o = mkQueue (Some cells) n h t → n ≤ INT_MAX → 0 ≤ h < n → 0 ≤ t < n →
  Push v o =
    if bool_decide ((t + 1) mod n = h) then Exc (runtime_error "queue is full") o
    else match zset cells t (Some v) with
         | Some b => Ret tt (set_self (mkQueue (Some b) n h
                               (if bool_decide (t + 1 = n) then 0 else t + 1)) o)
         | None => Undef OutOfBounds
         end.
Proof.
  intros E Hn Hh Ht. unfold INT_MAX in Hn.
  unfold Push, bind at 1, get. rewrite E. cbn [tail_ queue_size_ head_ buffer_].
  rewrite (bind_eq_ret _ _ _ _ _
    (int_arith_small (t + 1) o ltac:(unfold INT_MIN, INT_MAX; lia))).
  unfold umod. rewrite bool_decide_eq_false_2 by lia.
  rewrite bind_ret_l, (u64_small (t + 1)), (u64_small h) by lia.
  case_bool_decide; [done|]. unfold store.
  destruct (zset cells t (Some v)); [|done]. unfold or_undef. rewrite bind_ret_l.
  rewrite (bind_eq_ret _ _ _ _ _
    (int_arith_small (t + 1) o ltac:(unfold INT_MIN, INT_MAX; lia))).
  by rewrite u64_small by lia.
Qed.

Lemma Push_refines n l v o :
  stands_for n l o →
  if bool_decide (Z.of_nat (length l) < n - 1)
  then ∃ o', Push v o = Ret tt o' ∧ stands_for n (l ++ [v]) o'
  else Push v o = Exc (runtime_error "queue is full") o.
Proof.
  intros (cells & h & E & Hc & Hn & Hh & Hl & Hcells).
  set (k := Z.of_nat (length l)) in *.
  pose proof (mod_cases h k n Hh ltac:(lia)) as Et.
  set (t := (h + k) mod n) in *. clearbody t.
  pose proof (mod_cases h (k + 1) n Hh ltac:(lia)) as Et1.
  assert ((t + 1) mod n = (h + (k + 1)) mod n) as Heq.
  { destruct Et as [[_ ->]|[_ ->]]; [f_equal; lia|].
    replace (h + k - n + 1) with (h + (k + 1) + (-1) * n) by lia. apply Z.mod_add. lia. }
  rewrite (Push_eval cells n h t v o) by (done || lia). rewrite Heq. clear Heq.
  destruct (decide (k < n - 1)) as [Hfull|Hfull];
    [rewrite (bool_decide_eq_true_2 (k < n - 1)) by done
    |rewrite (bool_decide_eq_false_2 (k < n - 1)) by done];
    (set (t1 := (h + (k + 1)) mod n) in *; clearbody t1);
    [|by rewrite bool_decide_eq_true_2 by lia].
  rewrite bool_decide_eq_false_2 by lia.
  destruct (zset_is_Some cells t (Some v)) as (cells' & Ez & Hc'); [lia|].
  rewrite Ez. eexists. split; [reflexivity|].
  exists cells', h. rewrite length_app. simpl.
  replace (Z.of_nat (length l + 1)) with (k + 1) by lia.
  split; [|split; [lia|split; [done|split; [lia|split; [lia|]]]]].
  - f_equal. pose proof (mod_cases h (k + 1) n Hh ltac:(lia)).
    case_bool_decide; lia.
  - intros i w Hi. rewrite (zget_zset _ _ _ _ _ Ez).
    destruct (decide (i = length l)) as [->|Hne].
    + rewrite bool_decide_eq_true_2 by (fold k; pose proof (mod_cases h k n Hh ltac:(lia)); lia).
      rewrite lookup_app_r, Nat.sub_diag in Hi by lia. by injection Hi as ->.
    + assert (i < length l)%nat.
      { apply lookup_lt_Some in Hi. rewrite length_app in Hi. simpl in Hi. lia. }
      rewrite lookup_app_l in Hi by done. rewrite bool_decide_eq_false_2; [by apply Hcells|].
      pose proof (mod_cases h (Z.of_nat i) n Hh ltac:(lia)). lia.
Qed.

Lemma load_elem n l (o : qobj) i v cells h :
  self o = mkQueue (Some cells) n h ((h + Z.of_nat (length l)) mod n) →
  (∀ i v, l !! i = Some v → zget cells ((h + Z.of_nat i) mod n) = Some (Some v)) →
  l !! i = Some v → load (S:=qobj) (buffer_ (self o)) ((h + Z.of_nat i) mod n) = ret v.
Proof. intros -> Hcells Hi. unfold load. simpl. by rewrite (Hcells _ _ Hi). Qed.

Lemma Pop_refines n v l o :
  stands_for n (v :: l) o → ∃ o', Pop o = Ret v o' ∧ stands_for n l o'.
Proof.
  intros Ho. unfold Pop. rewrite (bind_eq_ret _ _ _ _ _ (stands_for_empty _ _ _ Ho)).
  destruct Ho as (cells & h & E & Hc & Hn & Hh & Hl & Hcells). simpl in Hl. unfold INT_MAX in Hn.
  pose proof (load_elem n (v :: l) o 0 v cells h E Hcells eq_refl) as Hload.
  rewrite Z.add_0_r, Z.mod_small in Hload by lia.
  rewrite bool_decide_eq_false_2 by done. unfold bind at 1, get. rewrite E in *.
  cbn [tail_ queue_size_ head_ buffer_] in *. rewrite Hload, bind_ret_l.
  rewrite (bind_eq_ret _ _ _ _ _
    (int_arith_small (h + 1) o ltac:(unfold INT_MIN, INT_MAX; lia))).
  rewrite u64_small by lia. eexists. split; [reflexivity|].
  exists cells, (if bool_decide (h + 1 = n) then 0 else h + 1). simpl.
  split; [|split; [done|split; [done|split; [case_bool_decide; lia|split; [lia|]]]]].
  - f_equal. rewrite wrap_mod by lia. f_equal. lia.
  - intros i w Hi. rewrite wrap_mod by lia. rewrite <-(Hcells (S i) w Hi). do 2 f_equal. lia.
Qed.

Lemma Front_refines n v l o : stands_for n (v :: l) o → Front o = Ret v o.
Proof.
  intros Ho. unfold Front. rewrite (bind_eq_ret _ _ _ _ _ (stands_for_empty _ _ _ Ho)).
  destruct Ho as (cells & h & E & Hc & Hn & Hh & Hl & Hcells).
  pose proof (load_elem n (v :: l) o 0 v cells h E Hcells eq_refl) as Hload.
  rewrite Z.add_0_r, Z.mod_small in Hload by lia.
  rewrite bool_decide_eq_false_2 by done. unfold bind, get. rewrite E in *. simpl in *.
  by rewrite Hload.
Qed.

Lemma Back_refines n v l o : stands_for n l o → last l = Some v → Back o = Ret v o.
Proof.
  intros Ho Hv. unfold Back. rewrite (bind_eq_ret _ _ _ _ _ (stands_for_empty _ _ _ Ho)).
  destruct Ho as (cells & h & E & Hc & Hn & Hh & Hl & Hcells). unfold INT_MAX in Hn.
  rewrite last_lookup in Hv. pose proof (lookup_lt_Some _ _ _ Hv) as Hlt.
  pose proof (load_elem n l o _ v cells h E Hcells Hv) as Hload.
  rewrite bool_decide_eq_false_2 by (intros ->; simpl in *; lia).
  unfold bind, get. rewrite E in *. cbn [tail_ queue_size_ head_ buffer_] in *.
  rewrite (u64_small (n - 1)) by lia.
  rewrite mod_turn in Hload |- * by lia.
  repeat case_bool_decide; try lia;
    match type of Hload with load _ ?a = _ =>
      match goal with |- load _ ?b _ = _ => replace b with a by lia; by rewrite Hload end end.
Qed.

#[export] Instance Queue_refines n : Refines impl (spec n) (stands_for n).
Proof.
  intros c l o Ho. destruct c as [v| | | |]; simpl.
  - pose proof (Push_refines n l v o Ho) as H. case_bool_decide.
    + destruct H as (o' & E & H'). exists o'. split; [|done].
      exact (observed_ret (λ _, Done) _ _ tt _ E).
    + exists o. split; [|done]. exact (observed_exc _ _ _ _ _ H).
  - destruct l as [|v l].
    + exists o. split; [|done]. apply observed_exc. unfold Pop.
      by rewrite (bind_eq_ret _ _ _ _ _ (stands_for_empty n _ _ Ho)).
    + destruct (Pop_refines n v l o Ho) as (o' & E & H'). exists o'. split; [|done].
      by apply observed_ret.
  - destruct l as [|v l]; exists o; (split; [|done]).
    + apply observed_exc. unfold Front.
      by rewrite (bind_eq_ret _ _ _ _ _ (stands_for_empty n _ _ Ho)).
    + apply observed_ret. by apply (Front_refines n v l).
  - destruct (last l) as [v|] eqn:Hv; exists o; (split; [|done]).
    + apply observed_ret. by apply (Back_refines n v l).
    + apply observed_exc. unfold Back.
      rewrite (bind_eq_ret _ _ _ _ _ (stands_for_empty _ _ _ Ho)).
      apply last_None in Hv as ->. done.
  - exists o. split; [|done]. apply observed_ret. by apply (stands_for_empty n).
Qed.

Lemma Queue_ctor_stands_for n (o : qobj) :
  0 < n ≤ INT_MAX → can_alloc (n * isize) = true →
  ∃ o', Queue_ctor n o = Ret tt o' ∧ stands_for n [] o'.
Proof.
  intros Hn Ha. unfold INT_MAX in Hn. unfold Queue_ctor, bind, put_self, modify, malloc.
  rewrite (Z.mul_comm isize n), u64_small by (unfold isize; lia). rewrite Ha. unfold memset.
  rewrite Z.div_mul by done. rewrite length_replicate, decide_True by lia.
  eexists. split; [reflexivity|]. eexists _, 0.
  split; [simpl; rewrite Z.mod_0_l by lia; reflexivity|].
  rewrite length_app, length_replicate, length_drop, length_replicate. simpl.
  split; [lia|]. split; [unfold INT_MAX; lia|]. split; [lia|]. split; [lia|]. done.
Qed.

(** C2. A Queue built for [n] ints ([0 < n <= INT_MAX]) behaves, over every
    history of calls, as the abstract first-in first-out queue of at most
    [n - 1] elements: same values, same "queue is full" and "queue is empty"
    exceptions with the queue unchanged, never undefined. *)
Theorem Queue_history n (o : qobj) ops :
  0 < n ≤ INT_MAX → can_alloc (n * isize) = true →
  ∃ answers l o', run_spec (spec n) ops [] = Some (answers, l) ∧
    (Queue_ctor n ;; run_impl impl ops) o = Ret answers o' ∧ stands_for n l o'.
Proof.
  intros Hn Ha. destruct (Queue_ctor_stands_for n o Hn Ha) as (o1 & E1 & H1).
  pose proof (refines_run impl (spec n) (stands_for n) ops [] o1 H1) as Hrun.
  assert (∀ ops l, is_Some (run_spec (spec n) ops l)) as Htotal.
  { clear. induction ops as [|c ops IH]; intros l; simpl; [by eexists|].
    assert (∃ a l', spec n c l = Some (a, l')) as (a & l' & ->)
      by (destruct c; simpl; repeat case_match; eauto).
    destruct (IH l') as [[ans l''] ->]. by eexists. }
  destruct (Htotal ops []) as [[answers l] Er]. rewrite Er in Hrun.
  destruct Hrun as (o2 & E2 & H2). exists answers, l, o2.
  rewrite (bind_eq_ret _ _ _ _ _ E1). done.
Qed.

(** A Queue of size 0 accepts no call to Push: the size of the queue is the
    divisor of its full test. *)
Theorem Queue_zero_divides_by_zero (o : qobj) v :
  can_alloc 0 = true → (Queue_ctor 0 ;; Push v) o = Undef DivByZero.
Proof.
  intros Ha. unfold Queue_ctor, bind, put_self, modify, malloc.
  change (u64 (0 * isize)) with 0. rewrite Ha. reflexivity.
Qed.
End Queue.

(** ** Witnesses *)

Definition unlimited : Allocator := λ _, true.
Definition fresh : qobj := mkObj (mkQueue None 0 0 0) [] [].

Lemma Queue_history_witness :
  let ops := [OpPush 5; OpPop; OpPush 10; OpPop; OpPush 20; OpFront; OpBack; OpPush 40;
              OpPush 60; OpFront; OpBack; OpPop; OpPush 80; OpPush 80; OpPush 80; OpBack] in
  ∃ answers l o', run_spec (spec 5) ops [] = Some (answers, l) ∧
    (Queue_ctor (Al:=unlimited) 5 ;; run_impl impl ops) fresh = Ret answers o' ∧
    stands_for 5 l o'.
Proof.
  intros ops. apply (Queue_history (Al:=unlimited) 5 fresh ops);
    [split; [reflexivity|vm_compute; discriminate]|reflexivity].
Defined.
Lemma Queue_zero_divides_by_zero_witness :
  (Queue_ctor (Al:=unlimited) 0 ;; Push 1) fresh = Undef DivByZero.
Proof. apply (Queue_zero_divides_by_zero (Al:=unlimited)). reflexivity. Defined.
