(* ===== verification/LinkedList.v ===== *)
(** * LinkedList: the doubly linked list of ints

    Models cmake_make_gtest_cppunit/LinkedList.h and LinkedList.cpp. Nodes live
    in a store that the lists of a program share, so that aliasing between
    lists, stale pointers and released nodes are visible. *)

From S2P Require Import Prelude.

(** An address; a pointer is [None] when it is nullptr. *)
Abbreviation addr := positive.
Abbreviation ptr := (option positive).

Record Node : Type := mkNode { data : Z; next : ptr; prev : ptr }.
Record LinkedList : Type := mkLinkedList { head_ : ptr; tail_ : ptr }.

(** The live nodes, the first address never used, and the list objects. *)
Record store_t : Type := mkStore {
  nodes : gmap addr Node;
  brk : addr;
  lists : gmap addr LinkedList
}.

Abbreviation lobj := (obj False store_t).

(** sizeof(Node) *)
Definition nsize : Z := 24.

(** [*p] *)
Definition deref (p : ptr) : M lobj Node :=
  match p with
  | None => undef NullPointer
  | Some a => let! o := get in or_undef UseAfterFree (nodes (self o) !! a)
  end.
Definition put_node (a : addr) (n : Node) : M lobj unit :=
  modify (λ o, set_self (mkStore (<[a := n]> (nodes (self o))) (brk (self o))
                           (lists (self o))) o).
(** [p->next = q] and the like. *)
Definition set_next (p q : ptr) : M lobj unit :=
  let! n := deref p in put_node (default xH p) (mkNode (data n) q (prev n)).
Definition set_prev (p q : ptr) : M lobj unit :=
  let! n := deref p in put_node (default xH p) (mkNode (data n) (next n) q).
Definition set_data (p : ptr) (v : Z) : M lobj unit :=
  let! n := deref p in put_node (default xH p) (mkNode v (next n) (prev n)).

Definition this_list (this : addr) : M lobj LinkedList :=
  let! o := get in or_undef UseAfterFree (lists (self o) !! this).
Definition put_list (this : addr) (l : LinkedList) : M lobj unit :=
  modify (λ o, set_self (mkStore (nodes (self o)) (brk (self o))
                           (<[this := l]> (lists (self o)))) o).

(** [delete [] p] of a node that came from [new Node]. *)
Definition delete_array (p : ptr) : M lobj unit :=
  let! n := deref p in
  modify (λ o, set_self (mkStore (base.delete (default xH p) (nodes (self o)))
                           (brk (self o)) (lists (self o))) o) ;;
  release NewObject DeleteArray.

Section LinkedList.
Context {Al : Allocator}.

(** [new Node()] *)
Definition new_node : M lobj addr :=
  if can_alloc nsize then
    let! o := get in
    let a := brk (self o) in
    put_self (mkStore (<[a := mkNode 0 None None]> (nodes (self o))) (a + 1)%positive
                (lists (self o))) ;;
    ret a
  else throw bad_alloc.

Definition LinkedList_ctor (this : addr) : M lobj unit :=
  put_list this (mkLinkedList None None).

(** A walk along [next] visits each live node at most once before it ends or
    starts to repeat: one round per live node, and one to see the end. *)
Definition walk_fuel (o : lobj) : nat := S (size (nodes (self o))).

Fixpoint dtor_loop (fuel : nat) (current : ptr) : M lobj unit :=
  match fuel with
  | O => no_fuel
  | S fuel' =>
      match current with
      | None => ret tt
      | Some _ =>
          let! n := deref current in
          delete_array current ;;
          dtor_loop fuel' (next n)
      end
  end.
Definition LinkedList_dtor (this : addr) : M lobj unit :=
  let! l := this_list this in
  let! fuel := gets walk_fuel in
  dtor_loop fuel (head_ l).

Definition PushBack (this : addr) (val : Z) : M lobj unit :=
  let! temp := new_node in
  set_data (Some temp) val ;;
  set_next (Some temp) None ;;
  set_prev (Some temp) None ;;
  let! l := this_list this in
  match head_ l with
  | None => put_list this (mkLinkedList (Some temp) (Some temp))
  | Some _ =>
      set_next (tail_ l) (Some temp) ;;
      set_prev (Some temp) (tail_ l) ;;
      put_list this (mkLinkedList (head_ l) (Some temp))
  end.

Fixpoint Display_loop (fuel : nat) (current : ptr) : M lobj unit :=
  match fuel with
  | O => no_fuel
  | S fuel' =>
      match current with
      | None => ret tt
      | Some _ =>
          let! n := deref current in
          emit [OInt (data n); OStr "	"] ;;
          Display_loop fuel' (next n)
      end
  end.
Definition Display (this : addr) : M lobj unit :=
  let! l := this_list this in
  let! fuel := gets walk_fuel in
  Display_loop fuel (head_ l) ;;
  emit [OEndl].

Definition Front (this : addr) : M lobj ptr := let! l := this_list this in ret (head_ l).
Definition Back (this : addr) : M lobj ptr := let! l := this_list this in ret (tail_ l).

Fixpoint Search_loop (fuel : nat) (val : Z) (current : ptr) : M lobj ptr :=
  match fuel with
  | O => no_fuel
  | S fuel' =>
      match current with
      | None => ret None
      | Some _ =>
          let! n := deref current in
          if bool_decide (data n = val) then ret current
          else Search_loop fuel' val (next n)
      end
  end.
Definition Search (this : addr) (val : Z) : M lobj ptr :=
  let! l := this_list this in
  let! fuel := gets walk_fuel in
  Search_loop fuel val (head_ l).

Definition InsertAfter (this : addr) (node : ptr) (val : Z) : M lobj ptr :=
  match node with
  | None => ret None
  | Some _ =>
      let! a := new_node in
      let new_node := Some a in
      set_data new_node val ;;
      set_prev new_node node ;;
      let! n := deref node in
      set_next new_node (next n) ;;
      let! nn := deref new_node in
      match next nn with
      | None => ret tt
      | Some _ => set_prev (next nn) new_node
      end ;;
      set_next node new_node ;;
      ret new_node
  end.

Definition DeteleAt (this : addr) (node : ptr) : M lobj bool :=
  match node with
  | None => ret false
  | Some _ =>
      let! n := deref node in
      match next n with
      | None => ret tt
      | Some _ => set_prev (next n) (prev n)
      end ;;
      let! n := deref node in
      match prev n with
      | None => ret tt
      | Some _ => set_next (prev n) (next n)
      end ;;
      ret true
  end.

Definition Union (list1 list2 : ptr) : M lobj unit :=
  match list1, list2 with
  | Some this1, Some this2 =>
      let! tail1 := Back this1 in
      let! head2 := Front this2 in
      set_next tail1 head2 ;;
      set_prev head2 tail1
  | _, _ => ret tt
  end.

(** ** Chains of nodes

    [seg m pv cells nx]: from the first cell of [cells] on, the nodes of [m]
    are linked both ways, the first one back to [pv], the last one on to [nx]. *)
Abbreviation cell := (addr * Z)%type.

Definition first (cells : list cell) (nx : ptr) : ptr :=
  match cells with [] => nx | (a, _) :: _ => Some a end.
Fixpoint seg (m : gmap addr Node) (pv : ptr) (cells : list cell) (nx : ptr) : Prop :=
  match cells with
  | [] => True
  | (a, v) :: cells' =>
      m !! a = Some (mkNode v (first cells' nx) pv) ∧ seg m (Some a) cells' nx
  end.
Definition final (pv : ptr) (cells : list cell) : ptr :=
  match last cells with Some (a, _) => Some a | None => pv end.

(** The list object [this] leads to the chain [cells] and its tail pointer is
    [tl]; [tl] is up to date when it is the last cell. *)
Definition leads_to (this : addr) (cells : list cell) (tl : ptr) (o : lobj) : Prop :=
  lists (self o) !! this = Some (mkLinkedList (first cells None) tl) ∧
  seg (nodes (self o)) None cells None ∧ NoDup cells.*1 ∧
  map_Forall (λ a _, (a < brk (self o))%positive) (nodes (self o)).
Definition represents (this : addr) (cells : list cell) (o : lobj) : Prop :=
  leads_to this cells (final None cells) o.

Lemma seg_app m pv a b nx :
  seg m pv (a ++ b) nx ↔ seg m pv a (first b nx) ∧ seg m (final pv a) b nx.
Proof.
  revert pv. induction a as [|[p v] a IH]; intros pv; simpl; [tauto|].
  rewrite IH. assert (final (Some p) a = final pv ((p, v) :: a)) as ->.
  { unfold final. rewrite last_cons. destruct (last a) as [[??]|]; done. }
  assert (first (a ++ b) nx = first a (first b nx)) as -> by by destruct a as [|[??]?].
  tauto.
Qed.
Lemma seg_insert m pv cells nx p n :
  p ∉ cells.*1 → seg m pv cells nx → seg (<[p := n]> m) pv cells nx.
Proof.
  revert pv. induction cells as [|[q v] cells IH]; intros pv Hp; simpl; [done|].
  rewrite fmap_cons, not_elem_of_cons in Hp. destruct Hp as [Hne Hp].
  intros [Hq Hs]. rewrite lookup_insert_ne by done. auto.
Qed.
Lemma seg_delete m pv cells nx p :
  p ∉ cells.*1 → seg m pv cells nx → seg (base.delete p m) pv cells nx.
Proof.
  revert pv. induction cells as [|[q v] cells IH]; intros pv Hp; simpl; [done|].
  rewrite fmap_cons, not_elem_of_cons in Hp. destruct Hp as [Hne Hp].
  intros [Hq Hs]. rewrite lookup_delete_ne by done. auto.
Qed.
Lemma seg_live m pv cells nx a : seg m pv cells nx → a ∈ cells.*1 → is_Some (m !! a).
Proof.
  revert pv. induction cells as [|[q v] cells IH]; intros pv; simpl.
  - intros _ H%elem_of_nil. done.
  - intros [Hq Hs] [->|H]%elem_of_cons; eauto.
Qed.
(** A chain has at most as many cells as there are live nodes. *)
Lemma seg_size m pv cells nx :
  seg m pv cells nx → NoDup cells.*1 → (length cells ≤ size m)%nat.
Proof.
  intros Hs Hnd. rewrite <-size_dom, <-(length_fmap fst cells).
  rewrite <-(size_list_to_set (C:=gset addr)) by done.
  apply subseteq_size. intros a. rewrite elem_of_list_to_set, elem_of_dom.
  apply (seg_live _ _ _ _ _ Hs).
Qed.
Lemma final_snoc pv cells a v : final pv (cells ++ [(a, v)]) = Some a.
Proof. unfold final. by rewrite last_snoc. Qed.
Lemma first_app a b nx : first (a ++ b) nx = first a (first b nx).
Proof. by destruct a as [|[??]?]. Qed.

Lemma fresh_brk this cells tl o :
  leads_to this cells tl o →
  nodes (self o) !! brk (self o) = None ∧ brk (self o) ∉ cells.*1.
Proof.
  intros (_ & Hs & _ & Hb). assert (nodes (self o) !! brk (self o) = None) as Hn.
  { destruct (nodes (self o) !! brk (self o)) eqn:E; [|done]. apply Hb in E. simpl in E. lia. }
  split; [done|]. intros [n' H']%(seg_live _ _ _ _ _ Hs). congruence.
Qed.

(** ** Single steps on the store *)

Definition with_nodes (m : gmap addr Node) (o : lobj) : lobj :=
  set_self (mkStore m (brk (self o)) (lists (self o))) o.

Lemma deref_live (a : addr) (o : lobj) n :
  nodes (self o) !! a = Some n → deref (Some a) o = Ret n o.
Proof. unfold deref, bind, get. by intros ->. Qed.
Lemma set_next_live (a : addr) q (o : lobj) n :
  nodes (self o) !! a = Some n →
  set_next (Some a) q o = Ret tt (with_nodes (<[a := mkNode (data n) q (prev n)]> (nodes (self o))) o).
Proof. intros H. unfold set_next. by rewrite (bind_eq_ret _ _ _ _ _ (deref_live _ _ _ H)). Qed.
Lemma set_prev_live (a : addr) q (o : lobj) n :
  nodes (self o) !! a = Some n →
  set_prev (Some a) q o = Ret tt (with_nodes (<[a := mkNode (data n) (next n) q]> (nodes (self o))) o).
Proof. intros H. unfold set_prev. by rewrite (bind_eq_ret _ _ _ _ _ (deref_live _ _ _ H)). Qed.
Lemma set_data_live (a : addr) v (o : lobj) n :
  nodes (self o) !! a = Some n →
  set_data (Some a) v o = Ret tt (with_nodes (<[a := mkNode v (next n) (prev n)]> (nodes (self o))) o).
Proof. intros H. unfold set_data. by rewrite (bind_eq_ret _ _ _ _ _ (deref_live _ _ _ H)). Qed.
Lemma this_list_live this (o : lobj) l :
  lists (self o) !! this = Some l → this_list this o = Ret l o.
Proof. unfold this_list, bind, get. by intros ->. Qed.

(** [o] with a node [n] at a new address. *)
Definition grown (n : Node) (o : lobj) : lobj :=
  set_self (mkStore (<[brk (self o) := n]> (nodes (self o))) (brk (self o) + 1)
              (lists (self o))) o.
Lemma new_node_eval (o : lobj) :
  can_alloc nsize = true → new_node o = Ret (brk (self o)) (grown (mkNode 0 None None) o).
Proof. intros H. unfold new_node. by rewrite H. Qed.
Lemma grown_set n n' (o : lobj) :
  with_nodes (<[brk (self o) := n']> (nodes (self (grown n o)))) (grown n o) = grown n' o.
Proof. unfold with_nodes, grown, set_self. simpl. by rewrite insert_insert_eq. Qed.
Lemma grown_lookup n (o : lobj) : nodes (self (grown n o)) !! brk (self o) = Some n.
Proof. apply lookup_insert_eq. Qed.
Lemma grown_below n (o : lobj) :
  map_Forall (λ a _, (a < brk (self o))%positive) (nodes (self o)) →
  map_Forall (λ a _, (a < brk (self o) + 1)%positive) (nodes (self (grown n o))).
Proof.
  intros H. apply map_Forall_insert_2; [lia|]. intros a x Hx.
  apply H in Hx. simpl in Hx. lia.
Qed.
Lemma below_insert (m : gmap addr Node) b a n :
  is_Some (m !! a) → map_Forall (λ a _, (a < b)%positive) m →
  map_Forall (λ a _, (a < b)%positive) (<[a := n]> m).
Proof. intros [x Hx] H. apply map_Forall_insert_2; [exact (H a x Hx)|done]. Qed.

(** ** The operations on chains *)

Definition with_list (this : addr) (l : LinkedList) (o : lobj) : lobj :=
  set_self (mkStore (nodes (self o)) (brk (self o)) (<[this := l]> (lists (self o)))) o.

(** The first [n] assignments to the fields of a new node. *)
Tactic Notation "init_node" integer(n) :=
  do n (erewrite bind_eq_ret by
    (first [eapply set_data_live|eapply set_next_live|eapply set_prev_live];
     apply grown_lookup); rewrite grown_set; simpl).

Lemma PushBack_eval this v o l t nt :
  can_alloc nsize = true → lists (self o) !! this = Some l →
  head_ l ≠ None → tail_ l = Some t → nodes (self o) !! t = Some nt → t ≠ brk (self o) →
  PushBack this v o =
    Ret tt (with_list this (mkLinkedList (head_ l) (Some (brk (self o))))
      (grown (mkNode v None (Some t))
        (with_nodes (<[t := mkNode (data nt) (Some (brk (self o))) (prev nt)]> (nodes (self o))) o))).
Proof.
  intros Ha Hl Hh Ht Hn Hne. unfold PushBack.
  rewrite (bind_eq_ret _ _ _ _ _ (new_node_eval o Ha)).
  init_node 3.
  rewrite (bind_eq_ret _ _ _ _ _ (this_list_live this (grown _ o) l Hl)).
  destruct (head_ l) as [h|]; [|done]. rewrite Ht.
  erewrite bind_eq_ret by (apply set_next_live; simpl; by rewrite lookup_insert_ne by done).
  erewrite bind_eq_ret by (apply set_prev_live; unfold with_nodes; simpl;
    rewrite lookup_insert_ne by done; apply lookup_insert_eq).
  unfold put_list, modify, with_list, with_nodes, grown, set_self. simpl. do 3 f_equal.
  rewrite (insert_insert_ne _ t) by done. by rewrite insert_insert_eq.
Qed.

(** PushBack links the new node after the node the tail pointer names, and
    forgets whatever followed it. *)
Lemma PushBack_after_tail this v o a t x b :
  can_alloc nsize = true → leads_to this (a ++ (t, x) :: b) (Some t) o →
  ∃ p o', PushBack this v o = Ret tt o' ∧ (p ∉ (a ++ (t, x) :: b).*1) ∧
    leads_to this (a ++ [(t, x); (p, v)]) (Some p) o'.
Proof.
  intros Ha Ho. pose proof Ho as (Hl & Hs & Hnd & Hb).
  pose proof (fresh_brk _ _ _ _ Ho) as [Hfresh Hp].
  pose proof Hs as Hs0. rewrite seg_app in Hs. destruct Hs as [Hsa [Ht Hsb]].
  assert (t ≠ brk (self o)) as Hne by congruence.
  exists (brk (self o)). eexists. split; [|split; [done|]].
  { eapply PushBack_eval; [done|done|by destruct a as [|[??]?]|done|done|done]. }
  rewrite fmap_app, fmap_cons in Hnd, Hp. simpl in Hnd, Hp.
  apply NoDup_app in Hnd as (Hnda & Hdisj & Hndb). rewrite NoDup_cons in Hndb.
  rewrite not_elem_of_app, not_elem_of_cons in Hp. destruct Hp as (Hpa & _ & Hpb).
  assert (t ∉ a.*1) as Hta by (intros H; apply (Hdisj t H); by left).
  split; [|split; [|split]]; simpl.
  - rewrite lookup_insert_eq. f_equal. f_equal. by rewrite !first_app.
  - rewrite seg_app. split; [|split; [|split; [|done]]].
    + apply seg_insert; [done|]. by apply seg_insert.
    + by rewrite lookup_insert_ne, lookup_insert_eq by done.
    + apply lookup_insert_eq.
  - rewrite fmap_app. apply NoDup_app. split; [done|]. simpl. split.
    + intros y Hy. rewrite !not_elem_of_cons. split; [by intros ->|].
      split; [by intros ->|apply not_elem_of_nil].
    + apply NoDup_cons. split; [|apply NoDup_singleton]. by rewrite list_elem_of_singleton.
  - apply (grown_below _ (with_nodes _ o)). simpl. apply below_insert; [by eexists|done].
Qed.

Lemma PushBack_first this v o :
  can_alloc nsize = true → represents this [] o →
  ∃ p o', PushBack this v o = Ret tt o' ∧ represents this [(p, v)] o'.
Proof.
  intros Ha (Hl & _ & _ & Hb). exists (brk (self o)).
  exists (with_list this (mkLinkedList (Some (brk (self o))) (Some (brk (self o))))
            (grown (mkNode v None None) o)). split.
  - unfold PushBack. rewrite (bind_eq_ret _ _ _ _ _ (new_node_eval o Ha)).
    init_node 3.
    by rewrite (bind_eq_ret _ _ _ _ _ (this_list_live this (grown _ o) _ Hl)).
  - split; [|split; [|split]]; simpl.
    + by rewrite lookup_insert_eq.
    + split; [apply lookup_insert_eq|done].
    + apply NoDup_singleton.
    + by apply (grown_below _ o).
Qed.

Lemma NoDup_insert_after {A} (a : list (positive * A)) p x q v b :
  NoDup (a ++ (p, x) :: b).*1 → q ∉ (a ++ (p, x) :: b).*1 → NoDup (a ++ (p, x) :: (q, v) :: b).*1.
Proof.
  rewrite !fmap_app, !fmap_cons, NoDup_app, not_elem_of_app, not_elem_of_cons. simpl.
  intros (Ha & Hd & Hb) (Hqa & Hqp & Hqb). apply NoDup_app. split; [done|]. split.
  - intros y Hy. specialize (Hd y Hy). rewrite !not_elem_of_cons in *. split; [tauto|]. split; [by intros ->|tauto].
  - rewrite !NoDup_cons, not_elem_of_cons in *. split; [|tauto]. split; [by intros ->|tauto].
Qed.
Lemma InsertAfter_cells this v o a p x b tl :
  can_alloc nsize = true → leads_to this (a ++ (p, x) :: b) tl o →
  ∃ q o', InsertAfter this (Some p) v o = Ret (Some q) o' ∧
    (q ∉ (a ++ (p, x) :: b).*1) ∧
    leads_to this (a ++ (p, x) :: (q, v) :: b) tl o'.
Proof.
  intros Ha Ho. pose proof Ho as (Hl & Hs & Hnd & Hb).
  pose proof (fresh_brk _ _ _ _ Ho) as [Hfresh Hq].
  rewrite seg_app in Hs. destruct Hs as [Hsa [Hp Hsb]].
  assert (p ≠ brk (self o)) as Hpq by congruence.
  exists (brk (self o)). pose proof (NoDup_insert_after a p x (brk (self o)) v b Hnd Hq) as Hnd'. pose proof Hq as Hq'.
  rewrite fmap_app, fmap_cons in Hnd, Hq. simpl in Hnd, Hq.
  apply NoDup_app in Hnd as (Hnda & Hdisj & Hndb). rewrite NoDup_cons in Hndb.
  rewrite not_elem_of_app, not_elem_of_cons in Hq. destruct Hq as (Hqa & _ & Hqb).
  assert (p ∉ a.*1) as Hpa by (intros H; apply (Hdisj p H); by left).
  unfold InsertAfter. rewrite (bind_eq_ret _ _ _ _ _ (new_node_eval o Ha)).
  init_node 2.
  erewrite bind_eq_ret by (eapply deref_live; simpl; by rewrite lookup_insert_ne by done). simpl.
  init_node 1.
  erewrite bind_eq_ret by (eapply deref_live; apply grown_lookup). simpl.
  destruct b as [|[r y] b]; simpl in *.
  - unfold bind at 1, ret at 1.
    erewrite bind_eq_ret by (apply set_next_live; simpl; by rewrite lookup_insert_ne by done).
    eexists. split; [reflexivity|]. split; [done|]. split; [|split; [|split; [done|]]]; simpl.
    + by rewrite first_app in *.
    + rewrite seg_app. split; [apply seg_insert; [done|]; by apply seg_insert|].
      simpl. rewrite lookup_insert_eq, lookup_insert_ne, lookup_insert_eq by done. done.
    + apply below_insert; [|by apply (grown_below _ o)].
      rewrite lookup_insert_ne by done. by eexists.
  - destruct Hsb as [Hr Hsb]. rewrite not_elem_of_cons in Hqb, Hndb.
    destruct Hqb as [Hqr Hqb], Hndb as [[Hpr Hpb] Hndb]. rewrite NoDup_cons in Hndb.
    destruct Hndb as [Hrb Hndb].
    assert (r ∉ a.*1) as Hra by (intros H; apply (Hdisj r H); right; left).
    erewrite bind_eq_ret by (apply set_prev_live; simpl; by rewrite lookup_insert_ne by done).
    erewrite bind_eq_ret by (apply set_next_live; simpl; by rewrite !lookup_insert_ne by done).
    eexists. split; [reflexivity|]. split; [done|]. split; [|split; [|split; [done|]]]; simpl.
    + by rewrite first_app in *.
    + rewrite seg_app. split; [do 3 (apply seg_insert; [done|]); done|].
      simpl. rewrite lookup_insert_eq, (lookup_insert_ne _ p), (lookup_insert_ne _ r),
        lookup_insert_eq, (lookup_insert_ne _ p), lookup_insert_eq by done.
      do 3 (split; [done|]). do 3 (apply seg_insert; [done|]). done.
    + do 2 (apply below_insert; [rewrite !lookup_insert_ne by done; by eexists|]).
      by apply (grown_below _ o).
Qed.

(** [DeteleAt] of an inner or last cell unlinks it; the node stays allocated
    and the tail pointer stays where it was. *)
Lemma DeteleAt_inner this o a g w p x b tl :
  leads_to this (a ++ (g, w) :: (p, x) :: b) tl o →
  ∃ o', DeteleAt this (Some p) o = Ret true o' ∧
    leads_to this (a ++ (g, w) :: b) tl o' ∧ is_Some (nodes (self o') !! p).
Proof.
  intros (Hl & Hs & Hnd & Hb). rewrite seg_app in Hs. destruct Hs as [Hsa (Hg & Hp & Hsb)].
  rewrite fmap_app, !fmap_cons in Hnd. simpl in *.
  apply NoDup_app in Hnd as (Hnda & Hdisj & Hndb). rewrite !NoDup_cons in Hndb.
  rewrite not_elem_of_cons in Hndb. destruct Hndb as ([Hgp Hgb] & Hpb & Hndb).
  assert (g ∉ a.*1) as Hga by (intros H; apply (Hdisj g H); left).
  assert (p ∉ a.*1) as Hpa by (intros H; apply (Hdisj p H); right; left).
  assert (NoDup (a ++ (g, w) :: b).*1) as Hnd'.
  { rewrite fmap_app. apply NoDup_app. split; [done|]. simpl. split; [|by apply NoDup_cons].
    intros y Hy [->|Hyb]%elem_of_cons; [done|]. apply (Hdisj y Hy). right. by right. }
  unfold DeteleAt. rewrite (bind_eq_ret _ _ _ _ _ (deref_live _ _ _ Hp)). simpl.
  destruct b as [|[r y] b]; simpl in *.
  - unfold bind at 1, ret at 1. rewrite (bind_eq_ret _ _ _ _ _ (deref_live _ _ _ Hp)). simpl.
    rewrite (bind_eq_ret _ _ _ _ _ (set_next_live _ None _ _ Hg)).
    eexists. split; [reflexivity|]. simpl.
    split; [|by rewrite lookup_insert_ne by done; eexists].
    split; [|split; [|split; [done|]]]; simpl.
    + by rewrite !first_app in *.
    + rewrite seg_app. split; [by apply seg_insert|]. simpl. by rewrite lookup_insert_eq.
    + apply below_insert; [by eexists|done].
  - destruct Hsb as [Hr Hsb]. rewrite not_elem_of_cons in Hgb, Hpb.
    destruct Hgb as [Hgr Hgb], Hpb as [Hpr Hpb]. rewrite NoDup_cons in Hndb.
    destruct Hndb as [Hrb Hndb].
    assert (r ∉ a.*1) as Hra by (intros H; apply (Hdisj r H); right; right; left).
    rewrite (bind_eq_ret _ _ _ _ _ (set_prev_live _ (Some g) _ _ Hr)).
    erewrite bind_eq_ret by (eapply deref_live; simpl; by rewrite lookup_insert_ne by done).
    simpl.
    erewrite bind_eq_ret by (apply set_next_live; simpl; by rewrite lookup_insert_ne by done).
    eexists. split; [reflexivity|]. simpl.
    split; [|by rewrite !lookup_insert_ne by done; eexists].
    split; [|split; [|split; [done|]]]; simpl.
    + by rewrite !first_app in *.
    + rewrite seg_app. split; [do 2 (apply seg_insert; [done|]); done|]. simpl.
      rewrite lookup_insert_eq, lookup_insert_ne, lookup_insert_eq by done.
      do 2 (split; [done|]). do 2 (apply seg_insert; [done|]). done.
    + do 2 (apply below_insert; [try rewrite lookup_insert_ne by done; by eexists|]). done.
Qed.

(** Forward chains: what a walk along [next] sees. *)
Fixpoint fseg (m : gmap addr Node) (cells : list cell) : Prop :=
  match cells with
  | [] => True
  | (a, v) :: cells' => (∃ pv, m !! a = Some (mkNode v (first cells' None) pv)) ∧ fseg m cells'
  end.
Definition reaches (this : addr) (cells : list cell) (o : lobj) : Prop :=
  (∃ tl, lists (self o) !! this = Some (mkLinkedList (first cells None) tl)) ∧
  fseg (nodes (self o)) cells ∧ NoDup cells.*1.

Lemma seg_fseg m pv cells : seg m pv cells None → fseg m cells.
Proof.
  revert pv. induction cells as [|[a v] cells IH]; intros pv; simpl; [done|].
  intros [H1 H2]. eauto.
Qed.
Lemma leads_to_reaches this cells tl o : leads_to this cells tl o → reaches this cells o.
Proof. intros (Hl & Hs & Hnd & _). split; [by eexists|]. split; [by eapply seg_fseg|done]. Qed.
Lemma fseg_live m cells a : fseg m cells → a ∈ cells.*1 → is_Some (m !! a).
Proof.
  induction cells as [|[q v] cells IH]; simpl.
  - intros _ H%elem_of_nil. done.
  - intros [[pv Hq] Hs] [->|H]%elem_of_cons; eauto.
Qed.
Lemma fseg_size m cells : fseg m cells → NoDup cells.*1 → (length cells ≤ size m)%nat.
Proof.
  intros Hs Hnd. rewrite <-size_dom, <-(length_fmap fst cells).
  rewrite <-(size_list_to_set (C:=gset addr)) by done.
  apply subseteq_size. intros a. rewrite elem_of_list_to_set, elem_of_dom.
  by apply fseg_live.
Qed.

Definition with_output (c : list (out False)) (o : lobj) : lobj :=
  mkObj (self o) (reports o) (cout o ++ c).
Definition printed (l : list Z) : list (out False) := l ≫= λ v, [OInt v; OStr "	"].

Lemma list_Display_loop_prints cells : ∀ fuel o,
  fseg (nodes (self o)) cells → (length cells < fuel)%nat →
  Display_loop fuel (first cells None) o = Ret tt (with_output (printed cells.*2) o).
Proof.
  induction cells as [|[a v] cells IH]; intros [|fuel] o Hs Hf; simpl in *; try lia.
  - unfold with_output. rewrite app_nil_r. by destruct o.
  - destruct Hs as [[pv Ha] Hs]. rewrite (bind_eq_ret _ _ _ _ _ (deref_live _ _ _ Ha)). simpl.
    unfold bind, emit, modify. rewrite IH by (done || lia).
    unfold with_output. simpl. by rewrite <-app_assoc.
Qed.
Lemma Display_reaches this cells o :
  reaches this cells o →
  Display this o = Ret tt (with_output (printed cells.*2 ++ [OEndl]) o).
Proof.
  intros ([tl Hl] & Hs & Hnd). unfold Display.
  rewrite (bind_eq_ret _ _ _ _ _ (this_list_live _ _ _ Hl)). simpl.
  unfold bind at 1, gets. pose proof (fseg_size _ _ Hs Hnd).
  erewrite bind_eq_ret by (apply list_Display_loop_prints; [done|unfold walk_fuel; lia]).
  unfold emit, modify, with_output. simpl. by rewrite app_assoc.
Qed.

(** The first cell that holds [v]. *)
Fixpoint find_cell (v : Z) (cells : list cell) : ptr :=
  match cells with
  | [] => None
  | (a, w) :: cells' => if bool_decide (w = v) then Some a else find_cell v cells'
  end.
Lemma Search_loop_finds v cells : ∀ fuel o,
  fseg (nodes (self o)) cells → (length cells < fuel)%nat →
  Search_loop fuel v (first cells None) o = Ret (find_cell v cells) o.
Proof.
  induction cells as [|[a w] cells IH]; intros [|fuel] o Hs Hf; simpl in *; try lia; [done|].
  destruct Hs as [[pv Ha] Hs]. rewrite (bind_eq_ret _ _ _ _ _ (deref_live _ _ _ Ha)). simpl.
  case_bool_decide; [done|]. apply IH; [done|lia].
Qed.
Lemma Search_reaches this cells v o :
  reaches this cells o → Search this v o = Ret (find_cell v cells) o.
Proof.
  intros ([tl Hl] & Hs & Hnd). unfold Search.
  rewrite (bind_eq_ret _ _ _ _ _ (this_list_live _ _ _ Hl)). simpl.
  unfold bind, gets. pose proof (fseg_size _ _ Hs Hnd).
  apply Search_loop_finds; [done|unfold walk_fuel; lia].
Qed.

(** [DeteleAt] of the first cell leaves the head pointer on it. *)
Lemma DeteleAt_first this o p x b tl :
  leads_to this ((p, x) :: b) tl o →
  ∃ o', DeteleAt this (Some p) o = Ret true o' ∧ reaches this ((p, x) :: b) o' ∧
    cout o' = cout o.
Proof.
  intros (Hl & [Hp Hsb] & Hnd & Hb). simpl in *. apply NoDup_cons in Hnd as Hnd'.
  destruct Hnd' as [Hpb Hndb].
  unfold DeteleAt. rewrite (bind_eq_ret _ _ _ _ _ (deref_live _ _ _ Hp)). simpl.
  destruct b as [|[r y] b]; simpl in *.
  - unfold bind at 1, ret at 1. rewrite (bind_eq_ret _ _ _ _ _ (deref_live _ _ _ Hp)). simpl.
    exists o. split; [done|]. split; [|done]. split; [by eexists|]. split; [|done].
    simpl. eauto.
  - destruct Hsb as [Hr Hsb]. rewrite not_elem_of_cons in Hpb. destruct Hpb as [Hpr Hpb].
    apply NoDup_cons in Hndb as [Hrb Hndb].
    rewrite (bind_eq_ret _ _ _ _ _ (set_prev_live _ None _ _ Hr)).
    erewrite bind_eq_ret by (eapply deref_live; simpl; by rewrite lookup_insert_ne by done).
    simpl. eexists. split; [reflexivity|]. split; [|done]. split; [by eexists|].
    split; [|done]. simpl. split; [eexists; by rewrite lookup_insert_ne by done|].
    split; [eexists; by rewrite lookup_insert_eq|].
    eapply seg_fseg, seg_insert; [done|done].
Qed.

(** What the destructor leaves: the chain released, one report per node. *)
Definition delete_cells (cells : list cell) (m : gmap addr Node) : gmap addr Node :=
  foldl (λ m c, base.delete c.1 m) m cells.
Definition destroyed (cells : list cell) (o : lobj) : lobj :=
  mkObj (mkStore (delete_cells cells (nodes (self o))) (brk (self o)) (lists (self o)))
    (reports o ++ replicate (length cells) (MismatchedFree NewObject DeleteArray)) (cout o).

Lemma delete_cells_lookup cells m a :
  delete_cells cells m !! a = if decide (a ∈ cells.*1) then None else m !! a.
Proof.
  unfold delete_cells. revert m. induction cells as [|[p v] cells IH]; intros m; simpl.
  - done.
  - rewrite IH. destruct (decide (a ∈ cells.*1)) as [H|H].
    + by rewrite decide_True by by right.
    + destruct (decide (a = p)) as [->|Hne].
      * rewrite decide_True by left. apply lookup_delete_eq.
      * rewrite decide_False by (rewrite elem_of_cons; tauto). by rewrite lookup_delete_ne.
Qed.
Lemma fseg_delete m cells p : p ∉ cells.*1 → fseg m cells → fseg (base.delete p m) cells.
Proof.
  induction cells as [|[q v] cells IH]; intros Hp; simpl; [done|].
  rewrite fmap_cons, not_elem_of_cons in Hp. destruct Hp as [Hne Hp].
  intros [[pv Hq] Hs]. split; [eexists; by rewrite lookup_delete_ne by done|auto].
Qed.
Lemma dtor_loop_frees cells : ∀ fuel o,
  fseg (nodes (self o)) cells → NoDup cells.*1 → (length cells < fuel)%nat →
  dtor_loop fuel (first cells None) o = Ret tt (destroyed cells o).
Proof.
  induction cells as [|[a v] cells IH]; intros [|fuel] o Hs Hnd Hf; simpl in *; try lia.
  - unfold destroyed. simpl. rewrite app_nil_r. by destruct o as [[??]??].
  - destruct Hs as [[pv Ha] Hs]. apply NoDup_cons in Hnd as [Hna Hnd].
    rewrite (bind_eq_ret _ _ _ _ _ (deref_live _ _ _ Ha)). simpl.
    unfold delete_array. rewrite bind_assoc.
    rewrite (bind_eq_ret _ _ _ _ _ (deref_live _ _ _ Ha)).
    unfold release, bind, modify. rewrite IH; [|by apply fseg_delete|done|lia].
    unfold destroyed. simpl. by rewrite <-app_assoc.
Qed.
Lemma dtor_reaches this cells o :
  reaches this cells o → LinkedList_dtor this o = Ret tt (destroyed cells o).
Proof.
  intros ([tl Hl] & Hs & Hnd). unfold LinkedList_dtor.
  rewrite (bind_eq_ret _ _ _ _ _ (this_list_live _ _ _ Hl)). simpl.
  unfold bind, gets. pose proof (fseg_size _ _ Hs Hnd).
  apply dtor_loop_frees; [done|done|unfold walk_fuel; lia].
Qed.

Lemma fseg_insert m cells p n :
  p ∉ cells.*1 → fseg m cells → fseg (<[p := n]> m) cells.
Proof.
  induction cells as [|[q v] cells IH]; intros Hp; simpl; [done|].
  rewrite fmap_cons, not_elem_of_cons in Hp. destruct Hp as [Hne Hp].
  intros [[pv Hq] Hs]. split; [eexists; by rewrite lookup_insert_ne by done|auto].
Qed.

(** [Union] makes one chain of two; both list objects still own it. *)
Lemma Union_chains l1 l2 a t x h y b o :
  represents l1 (a ++ [(t, x)]) o → represents l2 ((h, y) :: b) o →
  (∀ p, p ∈ (a ++ [(t, x)]).*1 → p ∉ ((h, y) :: b).*1) →
  ∃ o', Union (Some l1) (Some l2) o = Ret tt o' ∧
    leads_to l1 (a ++ (t, x) :: (h, y) :: b) (Some t) o' ∧ reaches l2 ((h, y) :: b) o' ∧
    reports o' = reports o ∧ cout o' = cout o.
Proof.
  intros (Hl1 & Hs1 & Hnd1 & Hb) (Hl2 & [Hh Hsb] & Hnd2 & _) Hdisj.
  rewrite seg_app in Hs1. destruct Hs1 as [Hsa [Ht _]].
  rewrite final_snoc in Hl1. rewrite first_app in Hl1. simpl in *.
  pose proof (Hdisj t) as Hdt. rewrite fmap_app in Hdt. simpl in Hdt.
  rewrite elem_of_app, list_elem_of_singleton, not_elem_of_cons in Hdt.
  destruct (Hdt ltac:(by right)) as [Hth Htb].
  pose proof Hnd2 as Hnd2'. apply NoDup_cons in Hnd2' as [Hhb Hndb].
  pose proof Hnd1 as Hnd1'. rewrite fmap_app in Hnd1'. apply NoDup_app in Hnd1' as (Hnda & Hta & _).
  assert (t ∉ a.*1) as Hta' by (intros H; apply (Hta t H); by left).
  assert (∀ p, p ∈ a.*1 → p ∉ h :: b.*1) as Hab.
  { intros p Hp. apply Hdisj. rewrite fmap_app. apply elem_of_app. by left. }
  assert (h ∉ a.*1) as Hha by (intros H; apply (Hab h H); left).
  unfold Union, Back, Front. rewrite bind_assoc.
  rewrite (bind_eq_ret _ _ _ _ _ (this_list_live _ _ _ Hl1)), bind_ret_l, bind_assoc.
  rewrite (bind_eq_ret _ _ _ _ _ (this_list_live _ _ _ Hl2)), bind_ret_l. simpl.
  rewrite (bind_eq_ret _ _ _ _ _ (set_next_live _ _ _ _ Ht)).
  rewrite (set_prev_live h (Some t) _ (mkNode y (first b None) None))
    by (simpl; by rewrite lookup_insert_ne by done).
  eexists. split; [reflexivity|]. split; [|split; [|done]].
  - split; [|split; [|split]]; simpl.
    + by rewrite first_app.
    + rewrite seg_app. split; [do 2 (apply seg_insert; [done|]); done|]. simpl.
      rewrite lookup_insert_ne, !lookup_insert_eq by done. do 2 (split; [done|]).
      do 2 (apply seg_insert; [done|]). done.
    + rewrite fmap_app. apply NoDup_app. split; [done|]. simpl. split.
      * intros p Hp [->|H]%elem_of_cons; [done|]. by apply (Hab p Hp).
      * apply NoDup_cons. split; [by apply not_elem_of_cons|done].
    + do 2 (apply below_insert; [try rewrite lookup_insert_ne by done; by eexists|]). done.
  - split; [by eexists|]. split; [|done]. simpl. rewrite lookup_insert_eq.
    split; [by eexists|]. eapply seg_fseg. do 2 (apply seg_insert; [done|]). done.
Qed.

Lemma pushes_append this vs : ∀ cells o,
  can_alloc nsize = true → represents this cells o →
  ∃ ps o', for_each (PushBack this) vs o = Ret tt o' ∧ ps.*2 = vs ∧
    represents this (cells ++ ps) o'.
Proof.
  induction vs as [|v vs IH]; intros cells o Ha Ho.
  - exists [], o. by rewrite app_nil_r.
  - assert (∃ p o1, PushBack this v o = Ret tt o1 ∧ represents this (cells ++ [(p, v)]) o1)
      as (p & o1 & E1 & H1).
    { destruct cells as [|[t x] a _] using rev_ind; [by apply PushBack_first|].
      unfold represents in Ho. rewrite final_snoc in Ho.
      destruct (PushBack_after_tail this v o a t x [] Ha Ho) as (p & o1 & E1 & _ & H1).
      exists p, o1. split; [done|]. unfold represents.
      rewrite <-app_assoc, (app_assoc a [(t, x)] [(p, v)]), final_snoc, <-app_assoc. done. }
    destruct (IH _ _ Ha H1) as (ps & o2 & E2 & Hps & H2). exists ((p, v) :: ps), o2.
    split; [simpl; by rewrite (bind_eq_ret _ _ _ _ _ E1)|].
    split; [by rewrite fmap_cons, Hps|]. by rewrite <-app_assoc in H2.
Qed.

(** C6. A list filled by PushBack holds the pushed values in order: Display
    prints them, Search returns the first node with the value or nullptr, and
    the destructor releases exactly its nodes, each with the wrong form of
    delete. *)
Theorem LinkedList_lifecycle this vs v m b ls :
  can_alloc nsize = true → map_Forall (λ a _, (a < b)%positive) m →
  let o := mkObj (mkStore m b ls) [] [] in
  ∃ cells o', (LinkedList_ctor this ;; for_each (PushBack this) vs) o = Ret tt o' ∧
    cells.*2 = vs ∧ represents this cells o' ∧
    Display this o' = Ret tt (with_output (printed vs ++ [OEndl]) o') ∧
    Search this v o' = Ret (find_cell v cells) o' ∧
    LinkedList_dtor this o' = Ret tt (destroyed cells o').
Proof.
  intros Ha Hb o.
  assert (represents this [] (with_list this (mkLinkedList None None) o)) as H0.
  { split; [apply lookup_insert_eq|]. split; [done|]. split; [apply NoDup_nil_2|done]. }
  destruct (pushes_append this vs [] _ Ha H0) as (cells & o' & E & Hc & H).
  exists cells, o'. split; [done|]. split; [done|]. split; [done|].
  apply leads_to_reaches in H. rewrite <-Hc.
  split; [by apply Display_reaches|]. split; [by apply Search_reaches|by apply dtor_reaches].
Qed.

(** InsertAfter links the new node right after [p]; but it never moves the
    tail pointer, so a following PushBack keeps the inserted node only when [p]
    was not the last one, and cuts it off otherwise. *)
Theorem InsertAfter_then_PushBack this v w o a p x b :
  can_alloc nsize = true → represents this (a ++ (p, x) :: b) o →
  ∃ q r o1 o2, InsertAfter this (Some p) v o = Ret (Some q) o1 ∧
    leads_to this (a ++ (p, x) :: (q, v) :: b) (final (Some p) b) o1 ∧
    PushBack this w o1 = Ret tt o2 ∧
    represents this (if bool_decide (b = []) then a ++ [(p, x); (r, w)]
                     else a ++ (p, x) :: (q, v) :: b ++ [(r, w)]) o2.
Proof.
  intros Ha Ho. unfold represents in Ho.
  assert (final None (a ++ (p, x) :: b) = final (Some p) b) as Hfin.
  { unfold final. rewrite last_app_cons, last_cons. by destruct (last b) as [[??]|]. }
  rewrite Hfin in Ho.
  destruct (InsertAfter_cells this v o a p x b _ Ha Ho) as (q & o1 & E1 & _ & H1).
  destruct b as [|[t y] b _] using rev_ind.
  - destruct (PushBack_after_tail this w o1 a p x [(q, v)] Ha H1) as (r & o2 & E2 & _ & H2).
    exists q, r, o1, o2. do 3 (split; [done|]). simpl. unfold represents, final.
    by rewrite last_app_cons.
  - rewrite final_snoc in *.
    pose proof (PushBack_after_tail this w o1 (a ++ (p, x) :: (q, v) :: b) t y []) as H2.
    rewrite <-app_assoc in H2. destruct (H2 Ha H1) as (r & o2 & E2 & _ & H3).
    exists q, r, o1, o2. do 3 (split; [done|]).
    rewrite bool_decide_eq_false_2 by by destruct b. unfold represents.
    rewrite !app_comm_cons, !app_assoc, final_snoc. rewrite <-!app_assoc in *. exact H3.
Qed.

(** DeteleAt of a node with a predecessor unlinks it in both directions
    without releasing it; of the first node it changes nothing a caller can
    walk to: the head pointer still names it and Display prints it. *)
Theorem DeteleAt_unlinks this o a p x b :
  represents this (a ++ (p, x) :: b) o →
  ∃ o', DeteleAt this (Some p) o = Ret true o' ∧ is_Some (nodes (self o') !! p) ∧
    (a ≠ [] → leads_to this (a ++ b) (final None (a ++ (p, x) :: b)) o') ∧
    (a = [] → Display this o' =
       Ret tt (with_output (printed (x :: b.*2) ++ [OEndl]) o')).
Proof.
  intros Ho. destruct a as [|[g w] a _] using rev_ind.
  - destruct (DeteleAt_first this o p x b _ Ho) as (o' & E & H & _). exists o'.
    split; [done|]. split; [|split; [done|]].
    + destruct H as (_ & [[pv Hp] _] & _). by eexists.
    + intros _. apply (Display_reaches this ((p, x) :: b) o' H).
  - unfold represents in Ho. rewrite <-app_assoc in Ho |- *. simpl in *.
    destruct (DeteleAt_inner this o a g w p x b _ Ho) as (o' & E & H & Hp).
    exists o'. split; [done|]. split; [done|]. split; [by rewrite <-app_assoc|].
    by destruct a.
Qed.

(** After Union of two non-empty lists the first walks both chains, but
    keeps its old tail, and both own the second chain: the destructor of the
    first releases it and the destructor of the second touches released
    nodes. Union with an empty list dereferences nullptr. *)
Theorem Union_destroys_twice l1 l2 c1 c2 o :
  represents l1 c1 o → represents l2 c2 o → l1 ≠ l2 →
  (∀ p, p ∈ c1.*1 → p ∉ c2.*1) →
  if bool_decide (c1 = []) || bool_decide (c2 = [])
  then Union (Some l1) (Some l2) o = Undef NullPointer
  else ∃ o1 o2, Union (Some l1) (Some l2) o = Ret tt o1 ∧
    leads_to l1 (c1 ++ c2) (final None c1) o1 ∧
    LinkedList_dtor l1 o1 = Ret tt o2 ∧ LinkedList_dtor l2 o2 = Undef UseAfterFree.
Proof.
  intros H1 H2 Hne Hdisj.
  destruct c1 as [|[t x] a _] using rev_ind; [|destruct c2 as [|[h y] b]].
  - simpl. destruct H1 as (Hl1 & _), H2 as (Hl2 & _).
    unfold Union, Back, Front. rewrite bind_assoc.
    rewrite (bind_eq_ret _ _ _ _ _ (this_list_live _ _ _ Hl1)), bind_ret_l, bind_assoc.
    by rewrite (bind_eq_ret _ _ _ _ _ (this_list_live _ _ _ Hl2)), bind_ret_l.
  - rewrite orb_true_r. destruct H1 as (Hl1 & Hs1 & _), H2 as (Hl2 & _).
    rewrite seg_app in Hs1. destruct Hs1 as [_ [Ht _]]. rewrite final_snoc in Hl1.
    unfold Union, Back, Front. rewrite bind_assoc.
    rewrite (bind_eq_ret _ _ _ _ _ (this_list_live _ _ _ Hl1)), bind_ret_l, bind_assoc.
    rewrite (bind_eq_ret _ _ _ _ _ (this_list_live _ _ _ Hl2)), bind_ret_l. simpl.
    by rewrite (bind_eq_ret _ _ _ _ _ (set_next_live _ None _ _ Ht)).
  - rewrite !bool_decide_eq_false_2 by by destruct a. simpl.
    destruct (Union_chains l1 l2 a t x h y b o H1 H2 Hdisj) as (o1 & E1 & Hl1 & Hl2 & _).
    exists o1, (destroyed (a ++ (t, x) :: (h, y) :: b) o1). split; [done|].
    rewrite final_snoc, <-app_assoc. split; [done|].
    split; [by eapply dtor_reaches, leads_to_reaches|].
    destruct Hl2 as ([tl Hl2] & _). unfold LinkedList_dtor.
    erewrite bind_eq_ret by (apply this_list_live; exact Hl2). simpl.
    unfold bind at 1, gets, walk_fuel. simpl. unfold bind, get, or_undef. simpl.
    rewrite delete_cells_lookup, decide_True; [done|].
    rewrite fmap_app. apply elem_of_app. right. simpl. right. left.
Qed.
End LinkedList.

(** ** Witnesses *)

Definition unlimited : Allocator := λ _, true.

(** Two lists, of one and of two nodes. *)
Definition two_lists : lobj :=
  mkObj (mkStore {[1%positive := mkNode 5 None None;
                   2%positive := mkNode 7 (Some 3%positive) None;
                   3%positive := mkNode 9 None (Some 2%positive)]} 4
           {[1%positive := mkLinkedList (Some 1%positive) (Some 1%positive);
             2%positive := mkLinkedList (Some 2%positive) (Some 3%positive)]}) [] [].
Definition one_cell : list (addr * Z) := [(1%positive, 5)].
Definition two_cells : list (addr * Z) := [(2%positive, 7); (3%positive, 9)].

Lemma two_lists_below : map_Forall (λ a _, (a < 4)%positive) (nodes (self two_lists)).
Proof. by apply (bool_decide_unpack _), I. Qed.
Lemma two_lists_one : represents 1 one_cell two_lists.
Proof.
  split; [done|]. split; [done|]. split; [by apply (bool_decide_unpack _)|apply two_lists_below].
Qed.
Lemma two_lists_two : represents 2 two_cells two_lists.
Proof.
  split; [done|]. split; [done|]. split; [by apply (bool_decide_unpack _)|apply two_lists_below].
Qed.

Lemma LinkedList_lifecycle_witness :
  ∃ cells o', (LinkedList_ctor 1 ;; for_each (PushBack (Al:=unlimited) 1) [5; 10; 15])
    (mkObj (mkStore ∅ 1 ∅) [] []) = Ret tt o' ∧
    cells.*2 = [5; 10; 15] ∧ represents 1 cells o' ∧
    Display 1 o' = Ret tt (with_output (printed [5; 10; 15] ++ [OEndl]) o') ∧
    Search 1 10 o' = Ret (find_cell 10 cells) o' ∧
    LinkedList_dtor 1 o' = Ret tt (destroyed cells o').
Proof.
  apply (LinkedList_lifecycle (Al:=unlimited) 1 [5; 10; 15] 10 ∅ 1 ∅);
    [reflexivity|by apply map_Forall_empty].
Defined.
Lemma InsertAfter_then_PushBack_witness :
  ∃ q r o1 o2, InsertAfter (Al:=unlimited) 2 (Some 3%positive) 8 two_lists = Ret (Some q) o1 ∧
    leads_to 2 (two_cells ++ [(q, 8)]) (Some 3%positive) o1 ∧
    PushBack (Al:=unlimited) 2 10 o1 = Ret tt o2 ∧
    represents 2 (two_cells ++ [(r, 10)]) o2.
Proof.
  apply (InsertAfter_then_PushBack (Al:=unlimited) 2 8 10 two_lists [(2%positive, 7)] 3 9 []);
    [reflexivity|exact two_lists_two].
Defined.
Lemma DeteleAt_unlinks_witness :
  ∃ o', DeteleAt 2 (Some 3%positive) two_lists = Ret true o' ∧
    is_Some (nodes (self o') !! 3%positive) ∧
    ([(2%positive, 7)] ≠ [] → leads_to 2 [(2%positive, 7)] (Some 3%positive) o') ∧
    ([(2%positive, 7)] = [] → Display 2 o' =
       Ret tt (with_output (printed [9] ++ [OEndl]) o')).
Proof.
  apply (DeteleAt_unlinks 2 two_lists [(2%positive, 7)] 3 9 []). exact two_lists_two.
Defined.
Lemma Union_destroys_twice_witness :
  ∃ o1 o2, Union (Some 1%positive) (Some 2%positive) two_lists = Ret tt o1 ∧
    leads_to 1 (one_cell ++ two_cells) (Some 1%positive) o1 ∧
    LinkedList_dtor 1 o1 = Ret tt o2 ∧ LinkedList_dtor 2 o2 = Undef UseAfterFree.
Proof.
  apply (Union_destroys_twice 1 2 one_cell two_cells two_lists two_lists_one two_lists_two);
    [done|].
  intros p ->%list_elem_of_singleton. by apply (bool_decide_unpack _).
Defined.
