(* ===== verification/ShellSort.v ===== *)
(** * Shell sort of an array of longs

    Models cmake_make_gtest_cppunit/stack_corr.cpp: [shell_sort] and the [main]
    that fills a stack array from rand() and sorts it. *)

From S2P Require Import Prelude.

(** The array [my_array] points to; its cells may be uninitialised. *)
Abbreviation block := (list (option Z)).

Definition read (i : Z) : M block Z := let! b := get in load (Some b) i.
Definition write (i v : Z) : M block unit :=
  let! b := get in
  let! b' := store (Some b) i v in
  modify (λ _, b').

(** [while (j >= h && tmp < my_array[j - h])]; yields the last [j]. *)
Fixpoint shift_loop (fuel : nat) (h j tmp : Z) : M block Z :=
  match fuel with
  | O => no_fuel
  | S fuel' =>
      if bool_decide (j >= h) then
        let! x := read (j - h) in
        if bool_decide (tmp < x) then
          let! x := read (j - h) in
          write j x ;;
          shift_loop fuel' h (j - h) tmp
        else ret j
      else ret j
  end.

(** [for (int i = h; i < length; ++i)] *)
Fixpoint insert_loop (fuel : nat) (h i len : Z) : M block unit :=
  match fuel with
  | O => no_fuel
  | S fuel' =>
      if bool_decide (i < len) then
        let j := i in
        let! tmp := read i in
        let! j := shift_loop (S (Z.to_nat i)) h j tmp in
        write j tmp ;;
        let! i := int_arith (i + 1) in
        insert_loop fuel' h i len
      else ret tt
  end.

(** [for (; h > 0; h /= 3)] *)
Fixpoint gap_loop (fuel : nat) (h len : Z) : M block unit :=
  match fuel with
  | O => no_fuel
  | S fuel' =>
      if bool_decide (h > 0) then
        insert_loop (S (Z.to_nat len)) h h len ;;
        gap_loop fuel' (Z.quot h 3) len
      else ret tt
  end.

(** [for (h = 1; h <= length / 9; h = 3 * h + 1);] *)
Fixpoint start_loop (fuel : nat) (h len : Z) : M block Z :=
  match fuel with
  | O => no_fuel
  | S fuel' =>
      if bool_decide (h <= Z.quot len 9) then
        let! h := int_arith (3 * h + 1) in
        start_loop fuel' h len
      else ret h
  end.

(** An int triples at most twenty times. *)
Definition gap_fuel : nat := 22.

Definition shell_sort (len : Z) : M block unit :=
  let! h := start_loop gap_fuel 1 len in
  gap_loop gap_fuel h len.

(** ** The list function behind one insertion *)

Fixpoint shifted (fuel h j : nat) (tmp : Z) (l : list Z) : list Z :=
  match fuel with
  | O => <[j := tmp]> l
  | S f =>
      if decide (h ≤ j)%nat then
        if decide (tmp < l !!! (j - h)%nat)
        then shifted f h (j - h) tmp (<[j := l !!! (j - h)%nat]> l)
        else <[j := tmp]> l
      else <[j := tmp]> l
  end.
Definition insert_at (h : nat) (l : list Z) (i : nat) : list Z := shifted i h i (l !!! i) l.
Definition insert_all (h : nat) (l : list Z) (from n : nat) : list Z :=
  foldl (insert_at h) l (seq from n).

Lemma length_shifted fuel h : ∀ j tmp l, length (shifted fuel h j tmp l) = length l.
Proof.
  induction fuel as [|f IH]; intros j tmp l; simpl; [apply length_insert|].
  repeat case_decide; rewrite ?IH; apply length_insert.
Qed.
Lemma length_insert_at h l i : length (insert_at h l i) = length l.
Proof. apply length_shifted. Qed.

Lemma Permutation_swap_insert (l : list Z) i j x y :
  (i < length l)%nat → (j < length l)%nat → i ≠ j →
  <[i := x]> (<[j := y]> l) ≡ₚ <[i := y]> (<[j := x]> l).
Proof.
  intros Hi Hj Hne.
  apply Permutation_inj. split; [by rewrite !length_insert|].
  exists (λ k, if decide (k = i) then j else if decide (k = j) then i else k). split.
  - intros a b. repeat case_decide; subst; congruence.
  - intros k. destruct (decide (k = i)) as [->|Hki].
    + rewrite list_lookup_insert_eq by by rewrite length_insert.
      rewrite list_lookup_insert_ne by done. by rewrite list_lookup_insert_eq.
    + rewrite (list_lookup_insert_ne _ i k) by done.
      destruct (decide (k = j)) as [->|Hkj].
      * rewrite !list_lookup_insert_eq by (try rewrite length_insert; done). done.
      * by rewrite !list_lookup_insert_ne by done.
Qed.

Lemma shifted_Permutation h fuel : ∀ j tmp l,
  (0 < h)%nat → (j < length l)%nat → shifted fuel h j tmp l ≡ₚ <[j := tmp]> l.
Proof.
  induction fuel as [|f IH]; intros j tmp l Hh Hj; simpl; [done|].
  repeat case_decide; [|done..].
  rewrite IH by (rewrite ?length_insert; lia).
  rewrite Permutation_swap_insert by lia.
  rewrite (list_insert_insert_ne) by lia.
  rewrite (list_insert_id l (j - h)); [done|].
  apply list_lookup_lookup_total_lt. lia.
Qed.
Lemma insert_at_Permutation h l i :
  (0 < h)%nat → (i < length l)%nat → insert_at h l i ≡ₚ l.
Proof.
  intros Hh Hi. unfold insert_at. rewrite shifted_Permutation by done.
  rewrite list_insert_id; [done|]. by apply list_lookup_lookup_total_lt.
Qed.
Lemma insert_all_Permutation h n : ∀ l from,
  (0 < h)%nat → (from + n ≤ length l)%nat → insert_all h l from n ≡ₚ l.
Proof.
  induction n as [|n IH]; intros l from Hh Hn; [done|].
  unfold insert_all. simpl. fold (insert_all h (insert_at h l from) (S from) n).
  rewrite IH by (rewrite ?length_insert_at; lia). apply insert_at_Permutation; lia.
Qed.

(** ** Gap 1 sorts *)

(** The cells up to [n], [j] excepted, are in order. *)
Definition ordered_but (j : nat) (n : nat) (l : list Z) : Prop :=
  ∀ a b, (a < b ≤ n)%nat → a ≠ j → b ≠ j → l !!! a ≤ l !!! b.
Definition ordered (n : nat) (l : list Z) : Prop :=
  ∀ a b, (a < b < n)%nat → l !!! a ≤ l !!! b.

Lemma shifted_orders n fuel : ∀ j tmp l,
  (j ≤ fuel)%nat → (j ≤ n)%nat → (n < length l)%nat →
  ordered_but j n l → (∀ b, (j < b ≤ n)%nat → tmp < l !!! b) →
  ordered (S n) (shifted fuel 1 j tmp l).
Proof.
  assert (∀ j tmp l, (j ≤ n)%nat → (n < length l)%nat → ordered_but j n l →
    (∀ b, (j < b ≤ n)%nat → tmp < l !!! b) →
    (∀ a, (a < j)%nat → l !!! a ≤ tmp) → ordered (S n) (<[j := tmp]> l)) as Hend.
  { intros j tmp l Hj Hn Hord Hgt Hle a b Hab.
    destruct (decide (a = j)) as [->|Ha].
    - rewrite list_lookup_total_insert_eq by lia. rewrite list_lookup_total_insert_ne by lia.
      pose proof (Hgt b ltac:(lia)). lia.
    - rewrite (list_lookup_total_insert_ne _ j a) by done.
      destruct (decide (b = j)) as [->|Hb].
      + rewrite list_lookup_total_insert_eq by lia. apply Hle. lia.
      + rewrite list_lookup_total_insert_ne by done. apply Hord; lia. }
  induction fuel as [|f IH]; intros j tmp l Hf Hj Hn Hord Hgt; simpl.
  - apply Hend; try done. lia.
  - repeat case_decide.
    + apply IH; try rewrite length_insert; try lia.
      * intros a b Hab Ha Hb. destruct (decide (a = j)) as [->|Haj].
        -- rewrite list_lookup_total_insert_eq, list_lookup_total_insert_ne by lia.
           apply Hord; lia.
        -- rewrite (list_lookup_total_insert_ne _ j a) by done.
           destruct (decide (b = j)) as [->|Hbj].
           ++ rewrite list_lookup_total_insert_eq by lia. apply Hord; lia.
           ++ rewrite list_lookup_total_insert_ne by done. apply Hord; lia.
      * intros b Hb. destruct (decide (b = j)) as [->|Hbj].
        -- by rewrite list_lookup_total_insert_eq by lia.
        -- rewrite list_lookup_total_insert_ne by done. apply Hgt. lia.
    + apply Hend; try done. intros a Ha. destruct (decide (a = j - 1)%nat) as [->|]; [lia|].
      trans (l !!! (j - 1)%nat); [apply Hord; lia|lia].
    + apply Hend; try done. lia.
Qed.

Lemma insert_at_orders l i :
  (i < length l)%nat → ordered i l → ordered (S i) (insert_at 1 l i).
Proof.
  intros Hi Hl. apply shifted_orders; try lia. intros a b Hab Ha Hb. apply Hl. lia.
Qed.
Lemma insert_all_orders n : ∀ l from,
  (from + n ≤ length l)%nat → ordered from l → ordered (from + n) (insert_all 1 l from n).
Proof.
  induction n as [|n IH]; intros l from Hn Hl; [by rewrite Nat.add_0_r|].
  unfold insert_all. simpl. fold (insert_all 1 (insert_at 1 l from) (S from) n).
  rewrite <-Nat.add_succ_comm. apply IH; [rewrite length_insert_at; lia|].
  apply insert_at_orders; [lia|done].
Qed.
Lemma ordered_Sorted l : ordered (length l) l → Sorted Z.le l.
Proof.
  intros H. apply StronglySorted_Sorted. induction l as [|x l IH]; [constructor|].
  constructor.
  - apply IH. intros a b Hab. apply (H (S a) (S b)). simpl. lia.
  - apply Forall_forall. intros y Hy. apply list_elem_of_lookup in Hy as [k Hk].
    pose proof (H 0%nat (S k)) as H0. simpl in H0.
    rewrite (list_lookup_total_correct _ _ _ Hk) in H0. apply H0.
    apply lookup_lt_Some in Hk. lia.
Qed.

(** ** The program computes these functions

    [l] are the cells already written, [rest] what follows them. *)
Definition cells_of (l : list Z) (rest : block) : block := (Some <$> l) ++ rest.

Lemma read_eval l rest (i : nat) :
  (i < length l)%nat → read (Z.of_nat i) (cells_of l rest) = Ret (l !!! i) (cells_of l rest).
Proof.
  intros Hi. unfold read, bind, get, load, cells_of. rewrite zget_nat.
  rewrite lookup_app_l by by rewrite length_fmap.
  by rewrite list_lookup_fmap, (list_lookup_lookup_total_lt l i Hi).
Qed.
Lemma write_eval l rest (i : nat) v :
  (i < length l)%nat →
  write (Z.of_nat i) v (cells_of l rest) = Ret tt (cells_of (<[i := v]> l) rest).
Proof.
  intros Hi. unfold write, bind, get, store, cells_of.
  rewrite zset_nat by (rewrite length_app, length_fmap; lia). simpl. unfold modify.
  rewrite insert_app_l by by rewrite length_fmap. by rewrite list_fmap_insert.
Qed.

(** Where the shifting stops, and the array then. *)
Fixpoint stop (fuel h j : nat) (tmp : Z) (l : list Z) : nat * list Z :=
  match fuel with
  | O => (j, l)
  | S f =>
      if decide (h ≤ j)%nat then
        if decide (tmp < l !!! (j - h)%nat)
        then stop f h (j - h) tmp (<[j := l !!! (j - h)%nat]> l)
        else (j, l)
      else (j, l)
  end.
Lemma shifted_stop h tmp fuel : ∀ j l,
  shifted fuel h j tmp l = let '(k, l') := stop fuel h j tmp l in <[k := tmp]> l'.
Proof. induction fuel as [|f IH]; intros j l; simpl; [done|]. by repeat case_decide. Qed.
Lemma stop_bound h tmp fuel : ∀ j l,
  let '(k, l') := stop fuel h j tmp l in (k ≤ j)%nat ∧ length l' = length l.
Proof.
  induction fuel as [|f IH]; intros j l; simpl; [done|]. repeat case_decide; try done.
  specialize (IH (j - h)%nat (<[j := l !!! (j - h)%nat]> l)).
  destruct (stop _ _ _ _ _) as [k l']. rewrite length_insert in IH. lia.
Qed.

Lemma shift_loop_stop h tmp rest m : ∀ fuel j l,
  (0 < h)%nat → (j < length l)%nat → (j ≤ m)%nat → (m < fuel)%nat →
  shift_loop fuel (Z.of_nat h) (Z.of_nat j) tmp (cells_of l rest) =
    let '(k, l') := stop m h j tmp l in Ret (Z.of_nat k) (cells_of l' rest).
Proof.
  induction m as [|m IH]; intros [|fuel] j l Hh Hj Hm Hf; try lia; cbn [shift_loop stop].
  - rewrite bool_decide_eq_false_2 by lia. done.
  - destruct (decide (h ≤ j)%nat) as [Hhj|Hhj];
      [rewrite bool_decide_eq_true_2 by lia|by rewrite bool_decide_eq_false_2 by lia].
    replace (Z.of_nat j - Z.of_nat h) with (Z.of_nat (j - h)) by lia.
    rewrite (bind_eq_ret _ _ _ _ _ (read_eval l rest (j - h) ltac:(lia))).
    destruct (decide (tmp < _)) as [Hlt|Hlt];
      [rewrite bool_decide_eq_true_2 by done|by rewrite bool_decide_eq_false_2 by done].
    rewrite (bind_eq_ret _ _ _ _ _ (read_eval l rest (j - h) ltac:(lia))).
    rewrite (bind_eq_ret _ _ _ _ _ (write_eval l rest j _ Hj)).
    apply IH; try rewrite length_insert; lia.
Qed.

(** One insertion. *)
Lemma insertion_eval {A} h l rest i (k : Z → M block A) :
  (0 < h)%nat → (i < length l)%nat →
  (let! tmp := read (Z.of_nat i) in
   let! j := shift_loop (S (Z.to_nat (Z.of_nat i))) (Z.of_nat h) (Z.of_nat i) tmp in
   write j tmp ;; k (Z.of_nat i)) (cells_of l rest)
  = k (Z.of_nat i) (cells_of (insert_at h l i) rest).
Proof.
  intros Hh Hi. rewrite (bind_eq_ret _ _ _ _ _ (read_eval l rest i Hi)), Nat2Z.id.
  unfold insert_at. rewrite shifted_stop.
  pose proof (shift_loop_stop h (l !!! i) rest i (S i) i l Hh Hi ltac:(lia) ltac:(lia)) as E.
  pose proof (stop_bound h (l !!! i) i i l) as Hb.
  destruct (stop i h i (l !!! i) l) as [j l']. rewrite (bind_eq_ret _ _ _ _ _ E).
  by rewrite (bind_eq_ret _ _ _ _ _ (write_eval l' rest j _ ltac:(lia))).
Qed.

Lemma insert_loop_eval h len rest n : ∀ fuel i l,
  (0 < h)%nat → (i + n = length l)%nat → Z.of_nat (length l) ≤ len ≤ INT_MAX →
  (n < fuel)%nat →
  insert_loop fuel (Z.of_nat h) (Z.of_nat i) len (cells_of l rest) =
    insert_loop (fuel - n) (Z.of_nat h) (Z.of_nat (i + n)) len
      (cells_of (insert_all h l i n) rest).
Proof.
  induction n as [|n IH]; intros [|fuel] i l Hh Hn Hlen Hf; try lia.
  - by rewrite Nat.add_0_r.
  - cbn [insert_loop Nat.sub]. rewrite bool_decide_eq_true_2 by lia.
    pose proof (insertion_eval h l rest i (λ z, let! z := int_arith (z + 1) in
      insert_loop fuel (Z.of_nat h) z len) Hh ltac:(lia)) as E. cbv beta in E.
    etransitivity; [exact E|]. clear E.
    rewrite (bind_eq_ret _ _ _ _ _ (int_arith_small (Z.of_nat i + 1) _
      ltac:(unfold INT_MIN, INT_MAX in *; lia))).
    replace (Z.of_nat i + 1) with (Z.of_nat (S i)) by lia.
    rewrite IH by (rewrite ?length_insert_at; lia).
    by rewrite <-Nat.add_succ_comm.
Qed.
Lemma insert_loop_done h l n :
  (0 < h)%nat → (h ≤ length l)%nat → n = Z.of_nat (length l) → n ≤ INT_MAX →
  insert_loop (S (Z.to_nat n)) (Z.of_nat h) (Z.of_nat h) n (cells_of l []) =
    Ret tt (cells_of (insert_all h l h (length l - h)) []).
Proof.
  intros Hh Hl -> Hmax. rewrite (insert_loop_eval h _ [] (length l - h)) by lia.
  replace (S (Z.to_nat (Z.of_nat (length l))) - (length l - h))%nat with (S h) by lia.
  simpl. by rewrite bool_decide_eq_false_2 by lia.
Qed.
Lemma insert_loop_beyond h l n fuel :
  (length l ≤ h)%nat → n = Z.of_nat (length l) →
  insert_loop (S fuel) (Z.of_nat h) (Z.of_nat h) n (cells_of l []) = Ret tt (cells_of l []).
Proof. intros Hh ->. simpl. by rewrite bool_decide_eq_false_2 by lia. Qed.

(** ** The sequence of gaps *)
Fixpoint gap (k : nat) : nat := match k with O => 0 | S k' => 3 * gap k' + 1 end.

Lemma gap_quot k : Z.quot (Z.of_nat (gap (S k))) 3 = Z.of_nat (gap k).
Proof. simpl gap. rewrite Z.quot_div_nonneg by lia.
  symmetry. apply Z.div_unique with 1; lia.
Qed.
Lemma gap_pos k : (0 < gap (S k))%nat.
Proof. simpl. lia. Qed.

Lemma gap_loop_sorts n k : ∀ fuel l,
  n = Z.of_nat (length l) → n ≤ INT_MAX → (S k < fuel)%nat →
  ∃ l', gap_loop fuel (Z.of_nat (gap (S k))) n (cells_of l []) = Ret tt (cells_of l' []) ∧
    l' ≡ₚ l ∧ Sorted Z.le l'.
Proof.
  induction k as [|k IH]; intros [|fuel] l Hn Hmax Hf; try lia; cbn [gap_loop].
  - rewrite bool_decide_eq_true_2 by done. destruct (decide (1 ≤ length l)%nat) as [H1|H1].
    + rewrite (bind_eq_ret _ _ _ _ _ (insert_loop_done 1 l n ltac:(lia) H1 Hn Hmax)).
      destruct fuel as [|fuel]; [lia|]. simpl. eexists. split; [reflexivity|]. split.
      * apply insert_all_Permutation; lia.
      * apply ordered_Sorted. rewrite (Permutation_length (insert_all_Permutation 1
          (length l - 1) l 1 ltac:(lia) ltac:(lia))).
        replace (length l) with (1 + (length l - 1))%nat at 1 by lia.
        apply insert_all_orders; [lia|]. intros a b. lia.
    + destruct l; [|simpl in *; lia]. simpl in Hn. subst n. exists [].
      destruct fuel as [|fuel]; [lia|]. split; [done|]. split; [done|constructor].
  - pose proof (gap_pos (S k)) as Hg. rewrite bool_decide_eq_true_2 by lia.
    rewrite gap_quot. destruct (decide (gap (S (S k)) ≤ length l)%nat) as [H1|H1].
    + rewrite (bind_eq_ret _ _ _ _ _ (insert_loop_done _ l n Hg H1 Hn Hmax)).
      pose proof (insert_all_Permutation (gap (S (S k))) (length l - gap (S (S k))) l
        (gap (S (S k))) Hg ltac:(lia)) as Hp.
      destruct (IH fuel _ ltac:(rewrite (Permutation_length Hp); done) Hmax ltac:(lia))
        as (l' & E & Hp' & Hs).
      exists l'. split; [done|]. split; [|done]. by rewrite Hp', Hp.
    + rewrite (bind_eq_ret _ _ _ _ _ (insert_loop_beyond (gap (S (S k))) l n _ ltac:(lia) Hn)).
      apply IH; (done || lia).
Qed.

Lemma gap_S k : Z.of_nat (gap (S k)) = 3 * Z.of_nat (gap k) + 1.
Proof. simpl gap. lia. Qed.
Lemma gap_20 : Z.of_nat (gap 20) = 1743392200.
Proof. by rewrite !gap_S. Qed.
Lemma gap_mono k : (gap k ≤ gap (S k))%nat.
Proof. simpl. lia. Qed.
Lemma gap_le k j : (k ≤ j)%nat → (gap k ≤ gap j)%nat.
Proof. induction 1; [done|]. etrans; [eassumption|apply gap_mono]. Qed.

(** The search for the first gap stops before the int overflows. *)
Lemma start_loop_gap b n m : ∀ fuel k,
  0 ≤ n ≤ INT_MAX → (S k + m = 20)%nat → (m < fuel)%nat →
  ∃ k', (S k' ≤ 20)%nat ∧
    start_loop fuel (Z.of_nat (gap (S k))) n b = Ret (Z.of_nat (gap (S k'))) b.
Proof.
  induction m as [|m IH]; intros [|fuel] k Hn Hk Hf; try lia; cbn [start_loop];
    rewrite Z.quot_div_nonneg by lia; unfold INT_MAX in *;
    assert (n / 9 ≤ 238609295) by (apply Z.div_le_upper_bound; lia).
  - assert (k = 19)%nat as -> by lia. rewrite gap_20, bool_decide_eq_false_2 by lia.
    exists 19%nat. by rewrite gap_20.
  - case_bool_decide as Hle.
    + rewrite (bind_eq_ret _ _ _ _ _ (int_arith_small (3 * Z.of_nat (gap (S k)) + 1) b
        ltac:(unfold INT_MIN, INT_MAX; lia))).
      rewrite <-gap_S. apply (IH fuel (S k)); lia.
    + exists k. split; [lia|done].
Qed.

Lemma shell_sort_run l :
  Z.of_nat (length l) ≤ INT_MAX →
  ∃ l', shell_sort (Z.of_nat (length l)) (cells_of l []) = Ret tt (cells_of l' []) ∧
    l' ≡ₚ l ∧ Sorted Z.le l'.
Proof.
  intros Hmax. unfold shell_sort.
  destruct (start_loop_gap (cells_of l []) (Z.of_nat (length l)) 19 gap_fuel 0)
    as (k & Hk & E); [lia|lia|unfold gap_fuel; lia|].
  change (Z.of_nat (gap 1)) with 1 in E. rewrite (bind_eq_ret _ _ _ _ _ E).
  apply gap_loop_sorts; [done|done|unfold gap_fuel; lia].
Qed.

(** C7. shell_sort of an initialised array of at most INT_MAX longs terminates
    and leaves it a sorted permutation of what it was; no counter overflows
    and no access leaves the array. *)
Theorem shell_sort_sorts l :
  Z.of_nat (length l) ≤ INT_MAX →
  ∃ l', shell_sort (Z.of_nat (length l)) (Some <$> l) = Ret tt (Some <$> l') ∧
    l' ≡ₚ l ∧ Sorted Z.le l'.
Proof.
  intros H. destruct (shell_sort_run l H) as (l' & E & Hp & Hs). exists l'.
  unfold cells_of in E. rewrite !app_nil_r in E. done.
Qed.

(** ** main *)

Section Main.
Context {Al : Allocator}.

(** The values of the successive calls of rand() after srand(time(NULL)). *)
Context (rand : nat → Z).

Abbreviation mobj := (obj False block).

Definition on_arr {A} (m : M block A) : M mobj A := zoom self set_self m.

(** [for (; i < rand() % sizeof arr; ++i) arr[i] = rand();] with [n] calls of
    rand() done. A round past the end of the array is undefined, so that one
    round more than its size is enough. *)
Fixpoint fill_loop (fuel n : nat) (i : Z) : M mobj Z :=
  match fuel with
  | O => no_fuel
  | S fuel' =>
      if bool_decide (i < u64 (rand n) mod 256) then
        on_arr (write i (rand (S n))) ;;
        fill_loop fuel' (S (S n)) (u64 (i + 1))
      else ret i
  end.

Definition after_fill : M mobj Z :=
  on_arr (shell_sort 32) ;;
  let str := "Some string" in
  emit [OStr str] ;;
  (if can_alloc 256 then ret tt else undef NullPointer) ;;
  emit [OStr str] ;;
  ret 0.
Definition main : M mobj Z :=
  put_self (replicate 32 None) ;;
  let! _ := fill_loop 34 0 0 in
  after_fill.

Definition blanks (n : nat) : block := replicate n None.

Lemma write_next vs n v (o : mobj) :
  self o = cells_of vs (blanks (S n)) →
  on_arr (write (Z.of_nat (length vs)) v) o = Ret tt (set_self (cells_of (vs ++ [v]) (blanks n)) o).
Proof.
  intros E. unfold on_arr, zoom. rewrite E.
  unfold write, bind, get, store, cells_of.
  rewrite zset_nat by (rewrite length_app, length_fmap; simpl; lia). simpl. unfold modify.
  rewrite insert_app_r_alt by by rewrite length_fmap.
  rewrite length_fmap, Nat.sub_diag. simpl. by rewrite fmap_app, <-app_assoc.
Qed.

(** The loop has gone on for [k] rounds and stops there. *)
Definition stops_at (k : nat) : Prop :=
  (∀ i, (i < k)%nat → Z.of_nat i < u64 (rand (2 * i)) mod 256) ∧
  ¬ Z.of_nat k < u64 (rand (2 * k)) mod 256.

Lemma fill_loop_stop k m (f : M mobj Z) vs (o : mobj) :
  stops_at k → (length vs + m = 32)%nat → length vs = k → self o = cells_of vs (blanks m) →
  (if bool_decide (Z.of_nat (length vs) < u64 (rand (2 * length vs)) mod 256) then f
   else ret (Z.of_nat (length vs))) o =
    if decide (k ≤ 32)%nat then
      let vs' := vs ++ map (λ i, rand (S (2 * i))) (seq (length vs) (k - length vs)) in
      Ret (Z.of_nat k) (set_self (cells_of vs' (blanks (32 - k))) o)
    else Undef OutOfBounds.
Proof.
  intros [_ Hstop] Hm <- E. rewrite bool_decide_eq_false_2 by done.
  rewrite decide_True by lia. rewrite Nat.sub_diag. simpl. rewrite app_nil_r.
  replace (32 - length vs)%nat with m by lia. rewrite <-E. by destruct o.
Qed.
Lemma fill_loop_stops k m : ∀ fuel vs (o : mobj),
  stops_at k → (length vs + m = 32)%nat → (length vs ≤ k)%nat → (S m < fuel)%nat →
  self o = cells_of vs (blanks m) →
  fill_loop fuel (2 * length vs) (Z.of_nat (length vs)) o =
    if decide (k ≤ 32)%nat then
      let vs' := vs ++ map (λ i, rand (S (2 * i))) (seq (length vs) (k - length vs)) in
      Ret (Z.of_nat k) (set_self (cells_of vs' (blanks (32 - k))) o)
    else Undef OutOfBounds.
Proof.
  induction m as [|m IH]; intros [|fuel] vs o Hk Hlen Hle Hf E; try lia; cbn [fill_loop];
    (destruct (decide (length vs = k)) as [Heq|Hne]; [by eapply fill_loop_stop|]);
    rewrite bool_decide_eq_true_2 by (apply Hk; lia).
  - rewrite decide_False by lia. unfold bind, on_arr, zoom, write. rewrite E.
    unfold bind, get, store. rewrite zset_None; [done|]. right.
    unfold cells_of. rewrite length_app, length_fmap. simpl. lia.
  - rewrite (bind_eq_ret _ _ _ _ _ (write_next _ _ _ _ E)).
    replace (u64 (Z.of_nat (length vs) + 1)) with (Z.of_nat (length (vs ++ [rand (S (2 * length vs))])))
      by (rewrite length_app, u64_small; simpl; lia).
    replace (S (S (2 * length vs))) with (2 * length (vs ++ [rand (S (2 * length vs))]))%nat
      by (rewrite length_app; simpl; lia).
    rewrite IH; [|done|rewrite ?length_app; simpl; lia..|done].
    rewrite !length_app. simpl length. case_decide; [|done]. cbv zeta. unfold set_self. simpl self. do 3 f_equal.
    rewrite <-app_assoc. replace (k - length vs)%nat with (S (k - (length vs + 1))) by lia.
    simpl seq. rewrite map_cons, Nat.add_1_r. done.
Qed.

Lemma read_blank vs n (i : nat) :
  (length vs ≤ i < length vs + n)%nat →
  read (Z.of_nat i) (cells_of vs (blanks n)) = Undef Indeterminate.
Proof.
  intros Hi. unfold read, bind, get, load, cells_of. rewrite zget_nat.
  rewrite lookup_app_r by (rewrite length_fmap; lia). rewrite length_fmap.
  unfold blanks. by rewrite lookup_replicate_2 by lia.
Qed.
Lemma shell_sort_uninitialised vs m :
  (length vs + S m = 32)%nat →
  shell_sort 32 (cells_of vs (blanks (S m))) = Undef Indeterminate.
Proof.
  intros Hlen. unfold shell_sort.
  assert (start_loop gap_fuel 1 32 (cells_of vs (blanks (S m))) =
    Ret (Z.of_nat 4) (cells_of vs (blanks (S m)))) as E by reflexivity.
  rewrite (bind_eq_ret _ _ _ _ _ E).
  enough (insert_loop (S 32) (Z.of_nat 4) (Z.of_nat 4) 32 (cells_of vs (blanks (S m))) =
    Undef Indeterminate) as H.
  { change gap_fuel with (S 21). cbn [gap_loop]. rewrite bool_decide_eq_true_2 by lia.
    unfold bind at 1. change (S (Z.to_nat 32)) with (S 32). by rewrite H. }
  destruct (decide (4 ≤ length vs)%nat) as [Hge|Hlt].
  - rewrite (insert_loop_eval 4 32 _ (length vs - 4)) by (unfold INT_MAX; lia).
    replace (S 32 - (length vs - 4))%nat with (S (36 - length vs)) by lia.
    replace (4 + (length vs - 4))%nat with (length vs) by lia. cbn [insert_loop].
    rewrite bool_decide_eq_true_2 by lia. unfold bind at 1. rewrite read_blank; [done|].
    rewrite (Permutation_length (insert_all_Permutation 4 (length vs - 4) vs 4 ltac:(lia) ltac:(lia))).
    lia.
  - cbn [insert_loop]. rewrite bool_decide_eq_true_2 by lia. unfold bind at 1.
    rewrite read_blank; [done|lia].
Qed.

(** The main of stack_corr.cpp is defined only for the random streams that
    stop the filling loop after exactly 32 rounds, and then sorts the array;
    a shorter filling sorts uninitialised cells, a longer one writes past the
    end of the array. *)
Theorem main_needs_32_rounds k (o : mobj) :
  can_alloc 256 = true → stops_at k →
  if decide (k = 32)%nat then
    ∃ l o', main o = Ret 0 o' ∧ self o' = Some <$> l ∧ Sorted Z.le l ∧
      l ≡ₚ map (λ i, rand (S (2 * i))) (seq 0 32)
  else main o = Undef (if decide (k < 32)%nat then Indeterminate else OutOfBounds).
Proof.
  intros Ha Hk. set (o1 := set_self (blanks 32) o).
  pose proof (fill_loop_stops k 32 34 [] o1 Hk eq_refl ltac:(simpl; lia) ltac:(lia) eq_refl) as Ef.
  simpl length in Ef. rewrite Nat.sub_0_r in Ef. cbv zeta in Ef. rewrite app_nil_l in Ef.
  change (2 * 0)%nat with 0%nat in Ef. change (Z.of_nat 0) with 0 in Ef.
  remember (map (λ i, rand (S (2 * i))) (seq 0 k)) as vs eqn:Hdef in Ef.
  assert (length vs = k) as Hvs by by rewrite Hdef, length_map, length_seq.
  assert (main o = (let! _ := fill_loop 34 0 0 in after_fill) o1) as -> by reflexivity.
  unfold bind at 1 2. rewrite Ef. clear Ef.
  destruct (decide (k ≤ 32)%nat) as [Hle|Hgt]; [|by rewrite !decide_False by lia].
  unfold after_fill. unfold bind at 1 5, on_arr, zoom. simpl self. case_decide as H32.
  - rewrite H32 in Hvs, Hdef |- *.
    destruct (shell_sort_run vs) as (l & E & Hp & Hs); [by rewrite Hvs|].
    rewrite Hvs in E. change (Z.of_nat 32) with 32 in E. change (blanks (32 - 32)) with (@nil (option Z)). rewrite E. unfold bind, emit, modify. rewrite Ha, <-Hdef.
    exists l. eexists. split; [reflexivity|]. split; [unfold cells_of; simpl; apply app_nil_r|done].
  - rewrite decide_True by lia. replace (32 - k)%nat with (S (31 - k)) by lia.
    by rewrite shell_sort_uninitialised by lia.
Qed.
End Main.

(** ** Witnesses *)

Lemma shell_sort_sorts_witness :
  ∃ l', shell_sort 4 (Some <$> [9; -3; 7; 0]) = Ret tt (Some <$> l') ∧
    l' ≡ₚ [9; -3; 7; 0] ∧ Sorted Z.le l'.
Proof. apply (shell_sort_sorts [9; -3; 7; 0]). vm_compute. discriminate. Defined.

(** A stream that stops the loop at 32: the conditions see 255 until then. *)
Definition lucky (n : nat) : Z := if decide (n < 64)%nat then 255 else 0.

Lemma main_needs_32_rounds_witness :
  ∃ l o', main (Al:=λ _, true) lucky (mkObj [] [] []) = Ret 0 o' ∧ self o' = Some <$> l ∧
    Sorted Z.le l ∧ l ≡ₚ map (λ i, lucky (S (2 * i))) (seq 0 32).
Proof.
  apply (main_needs_32_rounds (Al:=λ _, true) lucky 32); [reflexivity|].
  split; [|vm_compute; discriminate].
  intros i Hi. unfold lucky. rewrite decide_True by lia. change (u64 255 mod 256) with 255. lia.
Defined.
