(* ===== verification/ContainerDemo.v ===== *)
(** * The demonstration program and the tests of the containers

    Models cmake_make_gtest_cppunit/main.cpp, tests_cppunit.cpp, tests_gtest.cpp
    and the DArray test of tests_gmock.cpp as programs over the container
    models. A container is a local object: its destructor runs when the scope is
    left, also by an exception. *)

From S2P Require Import Prelude Doubles.
From S2P Require DArray Heap Stack Queue LinkedList.

(** The state of a program between the scopes of its containers. *)
Abbreviation prog := (obj double unit).

(** [try { m } catch (const std::exception& e) { cout << "error : " ... }] *)
Definition catch_print {D T} (m : M (obj D T) unit) : M (obj D T) unit :=
  try_catch m (λ e, emit [OStr "error : "; OStr (what e); OEndl]).

(** The scope of a local object: [init] is its state before the constructor. *)
Definition scope {D T A} (conv : out D → out double) (init : T)
    (ctor dtor : M (obj D T) unit) (body : M (obj D T) A) : M prog A := λ s,
  let leave (o : obj D T) := mkObj tt (reports o) (cout s ++ map conv (cout o)) in
  match ctor (mkObj init (reports s) []) with
  | Ret _ o =>
      match body o with
      | Ret a o' =>
          match dtor o' with
          | Ret _ o'' => Ret a (leave o'') | Exc e o'' => Exc e (leave o'')
          | Exit c o'' => Exit c (leave o'') | Undef u => Undef u | NoFuel => NoFuel
          end
      | Exc e o' =>
          match dtor o' with
          | Ret _ o'' | Exc _ o'' => Exc e (leave o'')
          | Exit c o'' => Exit c (leave o'') | Undef u => Undef u | NoFuel => NoFuel
          end
      | Exit c o' => Exit c (leave o')
      | Undef u => Undef u
      | NoFuel => NoFuel
      end
  | Exc e o => Exc e (leave o)
  | Exit c o => Exit c (leave o)
  | Undef u => Undef u
  | NoFuel => NoFuel
  end.

(** The containers of ints print no double. *)
Definition of_ints (x : out False) : out double :=
  match x with
  | OStr s => OStr s | OInt z => OInt z | ODbl f => match f with end | OEndl => OEndl
  end.

Section Demo.
Context {Al : Allocator}.

Definition with_DArray {A} (n : Z) : M (obj double DArray.DArray) A → M prog A :=
  scope id (DArray.mkDArray None 0 0) (DArray.DArray_ctor n) DArray.DArray_dtor.
Definition with_Stack {A} (n : Z) : M (obj False Stack.Stack) A → M prog A :=
  scope of_ints (Stack.mkStack None 0 0) (Stack.Stack_ctor n) Stack.Stack_dtor.
Definition with_Queue {A} (n : Z) : M (obj False Queue.Queue) A → M prog A :=
  scope of_ints (Queue.mkQueue None 0 0 0) (Queue.Queue_ctor n) Queue.Queue_dtor.
(** One list object, at address 1, in a store of its own. *)
Definition with_LinkedList {A} : M (obj False LinkedList.store_t) A → M prog A :=
  scope of_ints (LinkedList.mkStore ∅ 1 ∅) (LinkedList.LinkedList_ctor 1)
    (LinkedList.LinkedList_dtor 1).

Definition newline : string := String (Ascii.ascii_of_nat 10) EmptyString.

Definition UseDArray : M prog unit :=
  emit [OStr "--------- DArray ---------"; OEndl; OEndl] ;;
  with_DArray 3 (
    DArray.PushBack (lit 125 10) ;;
    DArray.PushBack (lit 82 10) ;;
    DArray.PushBack (lit 16 10) ;;
    DArray.PushBack (lit 16 10) ;;
    DArray.PushBack (lit 16 10) ;;
    DArray.PushBack (lit 16 10) ;;
    DArray.PushBack (lit 16 10) ;;
    let! v := DArray.At 2 in
    emit [OStr "d at index 2 is "; ODbl v; OEndl] ;;
    catch_print (let! v := DArray.At 3 in emit [OStr "d at index 3 is "; ODbl v; OEndl]) ;;
    emit [OEndl]).

Definition UseLinkedList : M prog unit :=
  emit [OStr "--------- Linked List ---------"; OEndl; OEndl] ;;
  with_LinkedList (
    LinkedList.PushBack 1 5 ;;
    LinkedList.PushBack 1 10 ;;
    LinkedList.PushBack 1 15 ;;
    LinkedList.Display 1 ;;
    let! element := LinkedList.Search 1 10 in
    match element with
    | None => ret tt
    | Some _ =>
        let! inserted := LinkedList.InsertAfter 1 element 100 in
        LinkedList.Display 1 ;;
        let! _ := LinkedList.DeteleAt 1 inserted in
        LinkedList.Display 1
    end).

Definition UseStack : M prog unit :=
  emit [OStr "--------- Stack ---------"; OEndl; OEndl] ;;
  with_Stack 256 (
    catch_print (
      Stack.Push 5 ;; Stack.Push 10 ;; Stack.Push 20 ;;
      Stack.Display) ;;
    emit [OEndl]).

Definition print_ends : M (obj False Queue.Queue) unit :=
  let! f := Queue.Front in emit [OStr "Front() = "; OInt f; OEndl] ;;
  let! b := Queue.Back in emit [OStr "Back() = "; OInt b; OEndl].

Definition UseQueue : M prog unit :=
  emit [OStr "--------- Queue ---------"; OEndl; OEndl] ;;
  with_Queue 5 (
    catch_print (
      Queue.Push 5 ;; let! _ := Queue.Pop in
      Queue.Push 10 ;; let! _ := Queue.Pop in
      Queue.Push 20 ;;
      print_ends ;;
      Queue.Push 40 ;; Queue.Push 60 ;;
      print_ends ;;
      let! _ := Queue.Pop in
      Queue.Push 80 ;; Queue.Push 80 ;; Queue.Push 80 ;; Queue.Push 80 ;; Queue.Push 80 ;;
      print_ends) ;;
    emit [OEndl]).

Definition UseHeap : M prog unit :=
  emit [OStr "--------- Heap ---------"; OEndl; OEndl] ;;
  with_DArray 64 (
    DArray.PushBack (of_Z 3) ;; DArray.PushBack (of_Z 1) ;; DArray.PushBack (of_Z 4) ;;
    DArray.PushBack (of_Z 1) ;; DArray.PushBack (of_Z 5) ;; DArray.PushBack (of_Z 9) ;;
    emit [OStr "d: "] ;; DArray.Display ;;
    Heap.MakeHeap ;;
    emit [OStr "d: "] ;; DArray.Display ;;
    let! largest := Heap.ExtractMax in
    emit [OStr "largest element: "; ODbl largest; OStr newline] ;;
    emit [OStr "heap without largest: "] ;; DArray.Display ;;
    Heap.Add (of_Z 20) ;;
    emit [OStr "heap after add : "] ;; DArray.Display ;;
    Heap.Add (of_Z 6) ;;
    emit [OStr "heap after add : "] ;; DArray.Display).

(** [char] cells; 97, 98 and 99 are 'a', 'b' and 'c'. *)
Definition CheckValgrindCondJump : M prog unit :=
  let data : option (list (option Z)) := malloc 5 1 in
  let! data := store data 0 97 in
  let! data := store (Some data) 1 98 in
  let! data := store (Some data) 1 99 in
  let! c := load (Some data) 2 in
  (if bool_decide (c = 99) then emit [OStr "YES"; OStr newline] else ret tt) ;;
  release Malloc Free.

(** [for (int i = 0; i <= 2; i++) dest[i] = src[i];] *)
Fixpoint copy_loop (n : nat) (i : Z) (dest src : list (option Z)) : M prog (list (option Z)) :=
  match n with
  | O => ret dest
  | S n' =>
      let! v := load (Some src) i in
      let! dest := store (Some dest) i v in
      copy_loop n' (i + 1) dest src
  end.
(** The string printf prints: the cells up to the first zero byte, which must
    be initialised and inside the array. *)
Fixpoint c_string (cells : list (option Z)) : M prog string :=
  match cells with
  | [] => undef OutOfBounds
  | None :: _ => undef Indeterminate
  | Some 0 :: _ => ret EmptyString
  | Some c :: cells' =>
      let! s := c_string cells' in ret (String (Ascii.ascii_of_nat (Z.to_nat c)) s)
  end.
Definition CheckValgrindAutoVariables : M prog unit :=
  let dest := replicate 2 None in
  let src := replicate 2 None in
  let! src := store (Some src) 0 97 in
  let! src := store (Some src) 1 98 in
  let! dest := copy_loop 3 0 dest src in
  let! s := c_string dest in
  emit [OStr s; OStr newline].

Definition main : M prog Z :=
  UseDArray ;;
  UseLinkedList ;;
  UseStack ;;
  UseQueue ;;
  UseHeap ;;
  CheckValgrindCondJump ;;
  CheckValgrindAutoVariables ;;
  ret 0.

(** ** The tests

    A failed assertion of CppUnit throws; an EXPECT of gtest records the
    failure and goes on, here as a line of output. *)
Definition CPPUNIT_ASSERT {S} (b : bool) (message : string) : M S unit :=
  if b then ret tt else throw (logic_error message).
Definition EXPECT {D T} (b : bool) (message : string) : M (obj D T) unit :=
  if b then ret tt else emit [OStr "Failure"; OStr message; OEndl].

Definition TestDArray : M prog unit :=
  with_DArray 64 (
    DArray.PushBack (lit 125 10) ;;
    DArray.PushBack (lit 82 10) ;;
    DArray.PushBack (lit 16 10) ;;
    let! n := DArray.Size in
    CPPUNIT_ASSERT (bool_decide (n = 3)) "DArray size should be equal to 3" ;;
    let! n := DArray.Capacity in
    CPPUNIT_ASSERT (bool_decide (n = 64)) "DArray capacity should be equal to 64").

Definition TestLinkedList : M prog unit :=
  with_LinkedList (
    LinkedList.PushBack 1 5 ;;
    LinkedList.PushBack 1 10 ;;
    LinkedList.PushBack 1 15 ;;
    let! element := LinkedList.Search 1 10 in
    CPPUNIT_ASSERT (bool_decide (element ≠ None)) "The search item 10 was not found").

Definition TestStack : M prog unit :=
  with_Stack 256 (
    Stack.Push 5 ;; Stack.Push 10 ;; Stack.Push 20 ;;
    let! n := Stack.Size in
    CPPUNIT_ASSERT (bool_decide (n = 3)) "Stack size should be " ;;
    let! t := Stack.Top in
    CPPUNIT_ASSERT (bool_decide (t = 20)) "Stack top should be " ;;
    let! _ := Stack.Pop in let! _ := Stack.Pop in let! _ := Stack.Pop in
    let! n := Stack.Size in
    CPPUNIT_ASSERT (bool_decide (n = 0)) "Stack should be empty").

(** The exception of a failed assertion is itself a std::exception, caught and
    turned into CPPUNIT_FAIL. *)
Definition TestQueue : M prog unit :=
  with_Queue 5 (
    try_catch (
      Queue.Push 5 ;; let! _ := Queue.Pop in
      Queue.Push 10 ;; let! _ := Queue.Pop in
      Queue.Push 20 ;;
      let! f := Queue.Front in
      CPPUNIT_ASSERT (bool_decide (f = 20)) "Queue Front should be 20" ;;
      let! b := Queue.Back in
      CPPUNIT_ASSERT (bool_decide (b = 20)) "Queue Front should be 20" ;;
      Queue.Push 40 ;; Queue.Push 60 ;; let! _ := Queue.Pop in
      Queue.Push 80 ;;
      let! b := Queue.Back in
      CPPUNIT_ASSERT (bool_decide (b = 80)) "Queue Front should be 40")
      (λ e, throw (logic_error (what e))) ;;
    emit [OEndl]).

Definition setUp : M (obj double DArray.DArray) unit :=
  DArray.PushBack (of_Z 1) ;; DArray.PushBack (of_Z 4) ;; DArray.PushBack (of_Z 9) ;;
  DArray.PushBack (of_Z 3) ;; DArray.PushBack (of_Z 1) ;; DArray.PushBack (of_Z 5).
Definition TestBuildHeap : M (obj double DArray.DArray) unit :=
  Heap.MakeHeap ;;
  let! largest := Heap.ExtractMax in
  CPPUNIT_ASSERT (bool_decide (largest = of_Z 9)) "Heap max should be 9".
(** setUp, the test and tearDown, which deletes the array. *)
Definition TestHeap : M prog unit := with_DArray 64 (setUp ;; TestBuildHeap).

Definition DArray_SizeCapacity : M prog unit :=
  with_DArray 64 (
    DArray.PushBack (of_Z 5) ;;
    let! n := DArray.Size in
    EXPECT (bool_decide (n = 1)) "darray.Size()" ;;
    let! n := DArray.Capacity in
    EXPECT (bool_decide (n = 64)) "darray.Capacity()").

(** [try { ... } catch (...) { return; } GTEST_FAIL()] *)
Definition DArray_Pop : M prog unit :=
  with_DArray 64 (
    let! caught :=
      try_catch (
        DArray.PushBack (of_Z 5) ;; DArray.PushBack (of_Z 5) ;;
        DArray.PushBack (of_Z 5) ;; DArray.PushBack (of_Z 5) ;;
        let! _ := DArray.PopBack in let! _ := DArray.PopBack in let! _ := DArray.PopBack in
        let! _ := DArray.PopBack in let! _ := DArray.PopBack in
        ret false) (λ _, ret true) in
    EXPECT caught " DArray should throw an exception").

Definition Queue_Pop : M prog unit :=
  with_Queue 5 (
    try_catch (
      Queue.Push 5 ;; let! _ := Queue.Pop in
      Queue.Push 10 ;; Queue.Push 20 ;;
      let! f := Queue.Front in
      EXPECT (bool_decide (f = 10)) "Queue Front should be 10" ;;
      let! b := Queue.Back in
      EXPECT (bool_decide (b = 20)) "Queue Back should be 20" ;;
      Queue.Push 40 ;; Queue.Push 60 ;; let! _ := Queue.Pop in
      Queue.Push 80 ;;
      let! b := Queue.Back in
      EXPECT (bool_decide (b = 80)) "Queue Front should be 80")
      (λ e, EXPECT false (what e))).

(** The fixture's DArray has the default size 10. *)
Definition ArrayTest_IsNotEmptyInitially : M prog unit :=
  with_DArray 10 (
    DArray.PushBack (of_Z 1) ;; DArray.PushBack (of_Z 2) ;; DArray.PushBack (of_Z 3) ;;
    let! n := DArray.Size in
    EXPECT (bool_decide (n = 3)) "a0_.Size()").

(** MockDArray: Reallocate does nothing. *)
Definition ReallocateCalledOnce : M prog unit :=
  with_DArray 2 (
    let PushBack := DArray.PushBack_virtual (ret tt) in
    PushBack (of_Z 5) ;; PushBack (of_Z 5) ;; PushBack (of_Z 5) ;;
    PushBack (of_Z 5) ;; PushBack (of_Z 5)).
End Demo.

(** ** What they do *)

Definition unlimited : Allocator := λ _, true.
Definition start : prog := mkObj tt [] [].

Definition tab : string := String (Ascii.ascii_of_nat 9) EmptyString.
Definition row (l : list Z) : list (out double) :=
  (l ≫= λ v, [ODbl (of_Z v); OStr tab]) ++ [OEndl].
Definition int_row (l : list Z) : list (out double) :=
  (l ≫= λ v, [OInt v; OStr tab]) ++ [OEndl].
Definition title (s : string) : list (out double) := [OStr s; OEndl; OEndl].
Definition ends (f b : Z) : list (out double) :=
  [OStr "Front() = "; OInt f; OEndl; OStr "Back() = "; OInt b; OEndl].

(** The output of the five demonstrations. *)
Definition demo_output : list (out double) :=
  title "--------- DArray ---------" ++
  [OStr "d at index 2 is "; ODbl (lit 16 10); OEndl;
   OStr "d at index 3 is "; ODbl (lit 16 10); OEndl; OEndl] ++
  title "--------- Linked List ---------" ++
  int_row [5; 10; 15] ++ int_row [5; 10; 100; 15] ++ int_row [5; 10; 15] ++
  title "--------- Stack ---------" ++ int_row [5; 10; 20] ++ [OEndl] ++
  title "--------- Queue ---------" ++ ends 20 20 ++ ends 20 60 ++
  [OStr "error : "; OStr "queue is full"; OEndl; OEndl] ++
  title "--------- Heap ---------" ++
  [OStr "d: "] ++ row [3; 1; 4; 1; 5; 9] ++
  [OStr "d: "] ++ row [9; 5; 4; 1; 1; 3] ++
  [OStr "largest element: "; ODbl (of_Z 9); OStr newline;
   OStr "heap without largest: "] ++ row [5; 3; 4; 1; 1] ++
  [OStr "heap after add : "] ++ row [20; 3; 5; 1; 1; 4] ++
  [OStr "heap after add : "] ++ row [20; 3; 6; 1; 1; 4; 5].

(** The five demonstrations of main.cpp print exactly the lines above (the
    third Push(80) of UseQueue throws "queue is full") and leave five
    mismatched releases for memcheck; main then reads an uninitialised char in
    CheckValgrindCondJump, and CheckValgrindAutoVariables reads past its
    array. *)
Theorem main_demonstrations :
  (UseDArray (Al:=unlimited) ;; UseLinkedList (Al:=unlimited) ;; UseStack (Al:=unlimited) ;;
   UseQueue (Al:=unlimited) ;; UseHeap (Al:=unlimited)) start =
    Ret tt (mkObj tt
      ([MismatchedFree Malloc DeleteArray; MismatchedFree NewArray Free] ++
       replicate 3 (MismatchedFree NewObject DeleteArray)) demo_output)
  ∧ main (Al:=unlimited) start = Undef Indeterminate
  ∧ CheckValgrindAutoVariables start = Undef OutOfBounds.
Proof. split; [vm_compute; reflexivity|]. split; vm_compute; reflexivity. Qed.

(** Every assertion and expectation of the CppUnit and gtest tests holds:
    the tests end without exception, record no failure and print at most one
    empty line; the gmock test of Reallocate overflows its buffer. *)
Theorem tests_pass :
  (TestDArray (Al:=unlimited) ;; TestLinkedList (Al:=unlimited) ;; TestStack (Al:=unlimited) ;;
   TestQueue (Al:=unlimited) ;; TestHeap (Al:=unlimited) ;;
   DArray_SizeCapacity (Al:=unlimited) ;; DArray_Pop (Al:=unlimited) ;;
   Queue_Pop (Al:=unlimited) ;; ArrayTest_IsNotEmptyInitially (Al:=unlimited)) start =
    Ret tt (mkObj tt (replicate 3 (MismatchedFree NewObject DeleteArray)) [OEndl])
  ∧ ReallocateCalledOnce (Al:=unlimited) start = Undef OutOfBounds.
Proof. split; vm_compute; reflexivity. Qed.
