(* ===== verification/Cache.v ===== *)
(** * The promise of a bounded cache

    What the two caches of examples/ (038_bad_lru_cache.cpp and
    039_good_lru_cache.cpp) promise to a client: an association list, most
    recently inserted key first, of bounded length. [merge old new] is the data
    kept when a key is inserted again, where the two differ. The caches are
    proved to refine this specification in LruCache.v and LastUsedCache.v; the
    facts below need the specification only. *)

From S2P Require Import Prelude Refinement.

Lemma Forall_sublist {A} (P : A → Prop) l l' : Forall P l → l' `sublist_of` l → Forall P l'.
Proof.
  intros HP Hs. revert HP. induction Hs as [|x l1 l2 _ IH|x l1 l2 _ IH]; [done|..];
    intros [H1 H2]%Forall_cons; [constructor|]; auto.
Qed.

Section Cache.
Context {K V : Type} `{EqDecision K}.

Inductive op : Type := OpInsert (k : K) (v : V) | OpFind (k : K) | OpSize | OpEmpty | OpClear.
Inductive answer : Type := Done | Found (r : option V) | Count (n : Z) | Flag (b : bool).

Abbreviation entries := (list (K * V)).

Fixpoint assoc (k : K) (l : entries) : option V :=
  match l with
  | [] => None
  | (k', v) :: l' => if decide (k = k') then Some v else assoc k l'
  end.
Definition without (k : K) (l : entries) : entries := filter (λ e, e.1 ≠ k) l.

Definition inserted (merge : V → V → V) (max : nat) (k : K) (v : V) (l : entries) : entries :=
  let v' := match assoc k l with Some old => merge old v | None => v end in
  take max ((k, v') :: without k l).

Definition spec (merge : V → V → V) (max : nat) (c : op) (l : entries) :
    option (answer * entries) :=
  match c with
  | OpInsert k v => Some (Done, inserted merge max k v l)
  | OpFind k => Some (Found (assoc k l), l)
  | OpSize => Some (Count (Z.of_nat (length l)), l)
  | OpEmpty => Some (Flag (bool_decide (l = [])), l)
  | OpClear => Some (Done, [])
  end.

(** ** Facts about the specification *)

Lemma assoc_None k l : assoc k l = None ↔ k ∉ l.*1.
Proof.
  induction l as [|[k' v] l IH]; simpl; [split; [intros _; apply not_elem_of_nil|done]|].
  rewrite not_elem_of_cons. case_decide as H; [split; [done|intros [? _]; congruence]|].
  rewrite IH. tauto.
Qed.
Lemma without_id k l : k ∉ l.*1 → without k l = l.
Proof.
  unfold without. induction l as [|[k' v] l IH]; [done|].
  rewrite fmap_cons, not_elem_of_cons. intros [Hne Hl]. simpl in Hne.
  rewrite filter_cons_True by (simpl; congruence). by rewrite IH.
Qed.
Lemma without_not_in k l : k ∉ (without k l).*1.
Proof.
  intros ([k' v] & -> & [H _]%list_elem_of_filter)%list_elem_of_fmap. by apply H.
Qed.
Lemma without_sublist k l : without k l `sublist_of` l.
Proof. apply sublist_filter. Qed.
Lemma assoc_without k k' l : k ≠ k' → assoc k (without k' l) = assoc k l.
Proof.
  intros Hne. unfold without. induction l as [|[q v] l IH]; [done|].
  destruct (decide (q = k')) as [->|Hq].
  - rewrite filter_cons_False by naive_solver. rewrite IH. simpl. by rewrite decide_False.
  - rewrite filter_cons_True by done. simpl. by rewrite IH.
Qed.

Lemma NoDup_inserted merge max k v l :
  NoDup l.*1 → NoDup (inserted merge max k v l).*1.
Proof.
  intros Hnd. eapply sublist_NoDup; [|apply fmap_sublist, sublist_take].
  simpl. apply NoDup_cons. split; [apply without_not_in|].
  eapply sublist_NoDup; [done|apply fmap_sublist, without_sublist].
Qed.
Lemma length_inserted merge max k v l : (length (inserted merge max k v l) ≤ max)%nat.
Proof. unfold inserted. rewrite length_take. lia. Qed.

Lemma run_spec_total merge max ops : ∀ l,
  ∃ answers l', run_spec (spec merge max) ops l = Some (answers, l').
Proof.
  induction ops as [|c ops IH]; intros l; [by eexists _, _|].
  assert (∃ a l1, spec merge max c l = Some (a, l1)) as (a & l1 & E)
    by (destruct c; by eexists _, _).
  destruct (IH l1) as (answers & l' & E'). simpl. rewrite E, E'. by eexists _, _.
Qed.

(** Filling a cache with new keys, then looking the oldest one up and
    inserting one more key. *)
Definition insert_all (es : entries) : list op := (λ e, OpInsert e.1 e.2) <$> es.
Lemma run_spec_insert_all merge max es : ∀ l,
  NoDup (es.*1 ++ l.*1) → (length es + length l ≤ max)%nat →
  run_spec (spec merge max) (insert_all es) l = Some (replicate (length es) Done, rev es ++ l).
Proof.
  induction es as [|[k v] es IH]; intros l Hnd Hlen; simpl in *; [done|].
  apply NoDup_cons in Hnd as [Hk Hnd]. apply not_elem_of_app in Hk as [Hk1 Hk2].
  assert (inserted merge max k v l = (k, v) :: l) as ->.
  { unfold inserted. apply assoc_None in Hk2 as E. rewrite E.
    rewrite without_id by done. apply take_ge. simpl. lia. }
  fold (insert_all es). rewrite IH.
  - by rewrite <-app_assoc.
  - simpl. apply NoDup_app. apply NoDup_app in Hnd as (H1 & H2 & H3).
    split; [done|]. split; [|by apply NoDup_cons].
    intros q Hq [->|Hl]%elem_of_cons; [done|]. by apply (H2 q Hq).
  - simpl. lia.
Qed.
Lemma run_spec_find_then_evict merge k0 v0 es k v :
  NoDup (((k0, v0) :: es).*1 ++ [k]) →
  ∃ l, run_spec (spec merge (S (length es)))
    (insert_all ((k0, v0) :: es) ++ [OpFind k0; OpInsert k v; OpFind k0]) [] =
    Some (replicate (S (length es)) Done ++ [Found (Some v0); Done; Found None], l).
Proof.
  intros Hnd. set (all := (k0, v0) :: es) in *.
  pose proof Hnd as (H1 & H2 & _)%NoDup_app.
  rewrite run_spec_app, run_spec_insert_all; [|by rewrite app_nil_r|simpl; lia].
  rewrite app_nil_r. assert (k ∉ all.*1) as Hk by (intros Hk; apply (H2 k Hk); left).
  assert (k0 ∉ (rev es).*1) as Hk0.
  { apply NoDup_cons in H1 as [H1 _]. by rewrite <-(Permutation_rev es). }
  assert (∀ l, k0 ∉ l.*1 → assoc k0 (l ++ [(k0, v0)]) = Some v0) as Hassoc.
  { clear. induction l as [|[q w] l IH]; simpl; [by rewrite decide_True|].
    rewrite not_elem_of_cons. intros [Hq Hl]. rewrite decide_False by done. auto. }
  unfold all. cbn [run_spec spec rev app]. rewrite Hassoc by done. eexists.
  assert (k ∉ (rev es ++ [(k0, v0)]).*1) as Hk'.
  { by rewrite <-(Permutation_rev es), (Permutation_app_comm es). }
  assert (inserted merge (S (length es)) k v (rev es ++ [(k0, v0)]) = (k, v) :: rev es) as ->.
  { unfold inserted. apply assoc_None in Hk' as E. rewrite E, without_id by done.
    simpl. f_equal. rewrite <-(length_rev es). apply take_app_length. }
  simpl assoc. rewrite decide_False by (intros ->; apply Hk; left).
  apply assoc_None in Hk0. by rewrite Hk0.
Qed.

(** Insert and find again: the new key is there as soon as the cache holds
    anything at all. *)
Lemma assoc_inserted merge max k v l :
  (0 < max)%nat →
  assoc k (inserted merge max k v l) =
    Some (match assoc k l with Some old => merge old v | None => v end).
Proof. intros H. destruct max; [lia|]. simpl. by rewrite decide_True. Qed.
(** ** Two specifications that differ in what a reinserted key keeps *)

(** What an answer tells without the data. *)
Definition shape (a : answer) : answer * bool :=
  match a with Found r => (Found None, bool_decide (is_Some r)) | a => (a, false) end.
(** Every insertion of a key carries the data that belongs to it. *)
Definition functional (data : K → V) (o : op) : Prop :=
  match o with OpInsert k v => v = data k | _ => True end.

Lemma assoc_is_Some k l : is_Some (assoc k l) ↔ k ∈ l.*1.
Proof.
  destruct (assoc k l) eqn:E.
  - split; [|by eexists]. intros _. destruct (decide (k ∈ l.*1)) as [|Hk]; [done|].
    apply assoc_None in Hk. congruence.
  - apply assoc_None in E. split; [by intros []|done].
Qed.
Lemma without_keys k l : (without k l).*1 = filter (λ k', k' ≠ k) l.*1.
Proof.
  unfold without. induction l as [|[q v] l IH]; [done|]. rewrite fmap_cons.
  destruct (decide (q ≠ k)).
  - rewrite !filter_cons_True by done. by rewrite fmap_cons, IH.
  - rewrite !filter_cons_False by done. done.
Qed.
Lemma inserted_keys merge max k v l :
  (inserted merge max k v l).*1 = take max (k :: filter (λ k', k' ≠ k) l.*1).
Proof. unfold inserted. by rewrite fmap_take, fmap_cons, without_keys. Qed.

Lemma run_spec_shapes merge merge' max ops : ∀ l l', l.*1 = l'.*1 →
  match run_spec (spec merge max) ops l, run_spec (spec merge' max) ops l' with
  | Some (a, _), Some (a', _) => shape <$> a = shape <$> a'
  | _, _ => False
  end.
Proof.
  induction ops as [|o ops IH]; intros l l' Hl; [done|].
  assert (length l = length l') as Hlen by (by rewrite <-(length_fmap fst l), Hl, length_fmap).
  cbn [run_spec]. destruct o as [k v|k| | |]; cbn [spec];
    (match goal with |- context [run_spec (spec merge max) ops ?a] =>
       match goal with |- context [run_spec (spec merge' max) ops ?a'] =>
         assert (a.*1 = a'.*1) as H by (rewrite ?inserted_keys, ?Hl; done);
         specialize (IH a a' H);
         destruct (run_spec (spec merge max) ops a) as [[]|], (run_spec (spec merge' max) ops a') as [[]|]
       end end);
    try done; rewrite !fmap_cons, IH; f_equal; simpl.
  - f_equal. apply bool_decide_ext. by rewrite !assoc_is_Some, Hl.
  - by rewrite Hlen.
  - f_equal. f_equal. apply bool_decide_ext. destruct l, l'; naive_solver.
Qed.

Lemma assoc_data data k l v :
  Forall (λ e, e.2 = data e.1) l → assoc k l = Some v → v = data k.
Proof.
  induction 1 as [|[q w] l Hq _ IH]; simpl; [done|]. case_decide; [|done]. simpl in Hq. by intros [= <-]; subst.
Qed.
Lemma run_spec_functional merge merge' data max ops : ∀ l,
  (∀ v, merge v v = v) → (∀ v, merge' v v = v) →
  Forall (functional data) ops → Forall (λ e, e.2 = data e.1) l →
  run_spec (spec merge max) ops l = run_spec (spec merge' max) ops l.
Proof.
  intros l Hm Hm' Hops. revert l. induction Hops as [|o ops Ho _ IH]; intros l Hl; [done|].
  assert (spec merge max o l = spec merge' max o l) as E.
  { destruct o as [k v|k| | |]; try done. cbn [spec]. unfold inserted.
    destruct (assoc k l) as [old|] eqn:Ek; [|done]. apply (assoc_data data) in Ek; [|done].
    simpl in Ho. subst. by rewrite Hm, Hm'. }
  cbn [run_spec]. rewrite E. destruct (spec merge' max o l) as [[a l1]|] eqn:E'; [|done].
  rewrite IH; [done|]. destruct o as [k v|k| | |]; simplify_eq/=; try done.
  eapply Forall_sublist; [|apply sublist_take]. constructor.
  - simpl. destruct (assoc k l) as [old|] eqn:Ek; [|done]. apply (assoc_data data) in Ek; [|done].
    subst. by rewrite Hm'.
  - eapply Forall_sublist; [exact Hl|apply without_sublist].
Qed.
End Cache.

Arguments op K V : clear implicits.
Arguments answer V : clear implicits.

(** ** Rows of a cache: keys with what the implementation keeps for them *)

Section Rows.
Context {K W : Type} `{Countable K}.

Abbreviation rows := (list (K * W)).
Definition map_of (t : rows) : gmap K W := list_to_map t.
Definition drop_key (key : K) (t : rows) : rows := filter (λ r, r.1 ≠ key) t.

Lemma map_of_lookup k t : map_of t !! k = assoc k t.
Proof.
  unfold map_of. induction t as [|[k' w] t IH]; simpl; [done|].
  destruct (decide (k = k')) as [->|Hne]; [by rewrite lookup_insert_eq|].
  by rewrite lookup_insert_ne.
Qed.
Lemma map_of_size t : NoDup t.*1 → base.size (map_of t) = length t.
Proof. apply map_size_list_to_map. Qed.
Lemma assoc_split (k : K) (t : rows) w :
  assoc k t = Some w → ∃ a b, t = a ++ (k, w) :: b ∧ k ∉ a.*1.
Proof.
  induction t as [|[k' w'] t IH]; simpl; [done|]. case_decide as Hk.
  - intros [= ->]. subst. exists [], t. split; [done|apply not_elem_of_nil].
  - intros (a & b & -> & Ha)%IH. exists ((k', w') :: a), b. split; [done|].
    rewrite fmap_cons, not_elem_of_cons. done.
Qed.
Lemma drop_key_sublist key t : drop_key key t `sublist_of` t.
Proof. apply sublist_filter. Qed.
Lemma drop_key_not_in key t : key ∉ (drop_key key t).*1.
Proof. by intros ([k w] & -> & [Hk _]%list_elem_of_filter)%list_elem_of_fmap. Qed.
Lemma drop_key_new key t : key ∉ t.*1 → drop_key key t = t.
Proof.
  unfold drop_key. induction t as [|[k w] t IH]; [done|]. rewrite fmap_cons, not_elem_of_cons.
  intros [Hk Ht]. rewrite filter_cons_True by (simpl in *; congruence). by rewrite IH.
Qed.
Lemma drop_key_shorter key t w :
  assoc key t = Some w → (length (drop_key key t) < length t)%nat.
Proof.
  intros (a & b & -> & _)%assoc_split. unfold drop_key.
  rewrite filter_app, filter_cons_False by (simpl; tauto). rewrite !length_app. simpl.
  pose proof (length_filter (λ r : K * W, r.1 ≠ key) a).
  pose proof (length_filter (λ r : K * W, r.1 ≠ key) b). lia.
Qed.
(** Erasing the last row from the map. *)
Lemma delete_last t (r : K * W) :
  NoDup (t ++ [r]).*1 → base.delete r.1 (map_of (t ++ [r])) = map_of t.
Proof.
  intros Hnd. destruct r as [k w]. rewrite fmap_app in Hnd. apply NoDup_app in Hnd as (_ & Hd & _).
  apply map_eq. intros q. rewrite map_of_lookup. destruct (decide (q = k)) as [->|Hne].
  - simpl. rewrite lookup_delete_eq. symmetry. apply assoc_None. intros Hk.
    apply (Hd k Hk). by left.
  - rewrite lookup_delete_ne by done. rewrite map_of_lookup. clear Hd.
    induction t as [|[k' w'] t IH]; simpl; [by rewrite decide_False|]. by rewrite IH.
Qed.
(** Overwriting a key is moving its row to the front. *)
Lemma map_of_moved key w t : map_of ((key, w) :: drop_key key t) = <[key := w]> (map_of t).
Proof.
  apply map_eq. intros q. rewrite map_of_lookup. simpl.
  destruct (decide (q = key)) as [->|Hne]; [by rewrite lookup_insert_eq|].
  rewrite lookup_insert_ne by done. rewrite map_of_lookup. unfold drop_key.
  induction t as [|[k w'] t IH]; [done|]. destruct (decide (k = key)) as [->|Hk].
  - rewrite filter_cons_False by (simpl; tauto). simpl. by rewrite decide_False.
  - rewrite filter_cons_True by done. simpl. by rewrite IH.
Qed.

(** The rows after an insertion. *)
Definition insert_row (max : nat) (key : K) (w : W) (t : rows) : rows :=
  take max ((key, w) :: drop_key key t).

Lemma insert_row_sublist max key w t :
  insert_row max key w t `sublist_of` (key, w) :: drop_key key t.
Proof. apply sublist_take. Qed.
Lemma NoDup_insert_row max key w t : NoDup t.*1 → NoDup (insert_row max key w t).*1.
Proof.
  intros Hnd. eapply sublist_NoDup; [|apply fmap_sublist, insert_row_sublist].
  simpl. apply NoDup_cons. split; [apply drop_key_not_in|].
  eapply sublist_NoDup; [exact Hnd|apply fmap_sublist, drop_key_sublist].
Qed.
Lemma length_insert_row max key w t : (length (insert_row max key w t) ≤ max)%nat.
Proof. unfold insert_row. rewrite length_take. lia. Qed.

(** What a client sees of the rows, [f] reading the data. *)
Context {V : Type} (f : W → V).
Definition entries_of (t : rows) : list (K * V) := (λ r, (r.1, f r.2)) <$> t.

Lemma assoc_entries k t : assoc k (entries_of t) = f <$> assoc k t.
Proof. induction t as [|[k' w] t IH]; simpl; [done|]. by case_decide. Qed.
Lemma entries_drop key t : entries_of (drop_key key t) = without key (entries_of t).
Proof.
  unfold without, drop_key. induction t as [|[k w] t IH]; [done|].
  change (entries_of ((k, w) :: t)) with ((k, f w) :: entries_of t).
  destruct (decide (k = key)) as [->|Hk].
  - rewrite !filter_cons_False by (simpl; tauto). done.
  - rewrite !filter_cons_True by done. by rewrite <-IH.
Qed.
Lemma entries_insert_row merge max key v w t :
  f w = match assoc key t with Some w' => merge (f w') v | None => v end →
  entries_of (insert_row max key w t) = inserted merge max key v (entries_of t).
Proof.
  intros Hw. unfold insert_row, inserted. destruct max as [|max]; [done|]. simpl.
  rewrite assoc_entries, <-entries_drop, Hw. f_equal; [by destruct (assoc key t)|].
  unfold entries_of. apply fmap_take.
Qed.
End Rows.
