(* ===== verification/LruCache.v ===== *)
(** * lru_cache: the cache with a list of keys and a hash map

    Models examples/039_good_lru_cache.cpp. The std::list of keys is a list of
    nodes with identities, so that the iterators stored in the hash map
    ([lru_it]) stay valid while other nodes come and go; the boost hash map is a
    finite map, since no method depends on its order. *)

From S2P Require Import Prelude Refinement Cache.

Section LruCache.
Context {K V : Type} `{Countable K}.

(** An iterator: the identity of a list node. *)
Abbreviation iterator := positive.

Record lru_record_t : Type := mkRecord { data : V; lru_it : iterator }.

Record lru_cache : Type := mkCache {
  lru_ : list (iterator * K);      (* front first *)
  next_node : iterator;            (* the node the next push_front makes *)
  cache_ : gmap K lru_record_t;
  max_size_ : Z
}.

Abbreviation LM := (M lru_cache).

Definition set_lru (l : list (iterator * K)) (c : lru_cache) : lru_cache :=
  mkCache l (next_node c) (cache_ c) (max_size_ c).
Definition set_cache (m : gmap K lru_record_t) (c : lru_cache) : lru_cache :=
  mkCache (lru_ c) (next_node c) m (max_size_ c).

Definition lru_cache_ctor (nelems : Z) : lru_cache := mkCache [] 1 ∅ nelems.

(** The found item, as the caller reads it through [item]. *)
Definition find (key : K) : LM (option V) :=
  let! c := get in ret (data <$> cache_ c !! key).

(** lru_.push_front(key); yields lru_.begin(). *)
Definition push_front (key : K) : LM iterator :=
  let! c := get in
  let it := next_node c in
  modify (λ c, mkCache ((it, key) :: lru_ c) (it + 1) (cache_ c) (max_size_ c)) ;;
  ret it.
(** lru_.back(); lru_.pop_back(): of an empty list both are undefined. *)
Definition pop_back : LM K :=
  let! c := get in
  match last (lru_ c) with
  | None => undef OutOfBounds
  | Some (_, key) => modify (set_lru (removelast (lru_ c))) ;; ret key
  end.
(** lru_.erase(it): undefined for an iterator to a node that is gone. *)
Definition erase (it : iterator) : LM unit :=
  let! c := get in
  if decide (it ∈ (lru_ c).*1) then modify (set_lru (filter (λ n, n.1 ≠ it) (lru_ c)))
  else undef UseAfterFree.

Definition size : LM Z := gets (λ c, Z.of_nat (base.size (cache_ c))).
Definition empty : LM bool := let! n := size in ret (bool_decide (n = 0)).
Definition clear : LM unit :=
  modify (set_cache ∅) ;; modify (set_lru []).

Definition insert (key : K) (item : V) : LM unit :=
  let! c := get in
  if bool_decide (max_size_ c ≠ 0) then
    let! it := push_front key in
    let rec := mkRecord item it in
    let! c := get in
    match cache_ c !! key with
    | None =>                                   (* result.second *)
        modify (λ c, set_cache (<[key := rec]> (cache_ c)) c) ;;
        let! n := size in
        let! c := get in
        if bool_decide (n > max_size_ c) then
          let! older_key := pop_back in
          modify (λ c, set_cache (base.delete older_key (cache_ c)) c)
        else ret tt
    | Some old =>
        erase (lru_it old) ;;
        modify (λ c, set_cache (<[key := rec]> (cache_ c)) c)
    end
  else ret tt.

Definition impl (c : op K V) : LM (answer V) :=
  match c with
  | OpInsert k v => insert k v ;; ret Done
  | OpFind k => let! r := find k in ret (Found r)
  | OpSize => let! n := size in ret (Count n)
  | OpEmpty => let! b := empty in ret (Flag b)
  | OpClear => clear ;; ret Done
  end.

(** ** The representation

    One row per entry, most recently inserted first. *)
Abbreviation row := (K * lru_record_t)%type.

Definition nodes_of (t : list row) : list (iterator * K) := (λ r, (lru_it r.2, r.1)) <$> t.
Definition its (t : list row) : list iterator := (λ r, lru_it r.2) <$> t.

Definition stands_for (max : nat) (l : list (K * V)) (c : lru_cache) : Prop :=
  ∃ t, l = entries_of data t ∧ lru_ c = nodes_of t ∧ cache_ c = map_of t ∧
    max_size_ c = Z.of_nat max ∧ (length t ≤ max)%nat ∧
    NoDup t.*1 ∧ NoDup (its t) ∧ Forall (λ r, (lru_it r.2 < next_node c)%positive) t.

Lemma insert_row_facts max key v it t :
  NoDup (its t) → Forall (λ r, (lru_it r.2 < it)%positive) t →
  NoDup (its (insert_row max key (mkRecord v it) t)) ∧
  Forall (λ r, (lru_it r.2 < it + 1)%positive) (insert_row max key (mkRecord v it) t).
Proof.
  intros H2 H3. pose proof (insert_row_sublist max key (mkRecord v it) t) as Hsub.
  pose proof (drop_key_sublist key t) as Hf. split.
  - eapply sublist_NoDup; [|apply fmap_sublist; exact Hsub]. simpl. apply NoDup_cons. split.
    + intros (r & Hr & Hin)%list_elem_of_fmap.
      pose proof (Forall_sublist _ _ _ H3 Hf) as H4.
      rewrite Forall_forall in H4. apply H4 in Hin. simpl in Hr. subst. lia.
    + eapply sublist_NoDup; [exact H2|by apply fmap_sublist].
  - eapply Forall_sublist; [|exact Hsub]. constructor; [simpl; lia|].
    eapply Forall_sublist; [|exact Hf]. eapply Forall_impl; [exact H3|]. simpl. lia.
Qed.

(** Erasing the node of a key is dropping its row. *)
Lemma nodes_without key t r :
  NoDup t.*1 → NoDup (its t) → assoc key t = Some r →
  filter (λ n, n.1 ≠ lru_it r) (nodes_of t) = nodes_of (drop_key key t).
Proof.
  intros H1 H2 (a & b & -> & Ha)%assoc_split. unfold its in *.
  rewrite !fmap_app in H1. rewrite !fmap_app in H2. simpl in H1, H2.
  apply NoDup_app in H1 as (_ & Hd1 & [Hb1 _]%NoDup_cons).
  apply NoDup_app in H2 as (_ & Hd2 & [Hb2 _]%NoDup_cons).
  assert (lru_it r ∉ its a) as Ha2 by (intros Hi; apply (Hd2 _ Hi); left).
  assert (∀ t : list row, key ∉ t.*1 → lru_it r ∉ its t →
    filter (λ n, n.1 ≠ lru_it r) (nodes_of t) = nodes_of (drop_key key t)) as Hsame.
  { clear. unfold drop_key. intros t. induction t as [|[k w] t IH]; [done|].
    unfold its. rewrite !fmap_cons, !not_elem_of_cons. simpl. intros [Hk Ht] [Hi Hj].
    rewrite !filter_cons_True by (simpl; congruence). simpl. f_equal. by apply IH. }
  unfold nodes_of, drop_key in *. rewrite fmap_app, !filter_app, fmap_app, Hsame by done.
  f_equal. rewrite fmap_cons, !filter_cons_False by (simpl; tauto). by apply Hsame.
Qed.

(** A new key: the last row goes when there are too many. *)
Lemma lru_insert_new max key v t c :
  lru_ c = nodes_of t → cache_ c = map_of t → max_size_ c = Z.of_nat max →
  (0 < max)%nat → (length t ≤ max)%nat → NoDup t.*1 → assoc key t = None →
  let t' := insert_row max key (mkRecord v (next_node c)) t in
  insert key v c = Ret tt (mkCache (nodes_of t') (next_node c + 1) (map_of t') (max_size_ c)).
Proof.
  intros Hl Hm Hmax H0 Hlen Hnd Hk. destruct c as [lru nxt m mx]. simpl in *. subst.
  assert (map_of t !! key = None) as Hnone by by rewrite map_of_lookup.
  unfold insert, bind at 1, get. simpl. rewrite bool_decide_eq_true_2 by lia.
  unfold push_front, bind, get, modify, ret. simpl. rewrite Hnone. unfold size, gets. simpl.
  rewrite map_size_insert_None, map_of_size by done.
  unfold insert_row. rewrite drop_key_new by by apply assoc_None.
  change (<[key := mkRecord v nxt]> (map_of t)) with (map_of ((key, mkRecord v nxt) :: t)).
  case_bool_decide as Hfull.
  - destruct t as [|r t _] using rev_ind; [simpl in *; lia|].
    rewrite length_app in Hlen, Hfull. simpl in Hlen, Hfull.
    assert (max = S (length t)) as -> by lia.
    unfold pop_back, bind, get. simpl. unfold nodes_of at 1. rewrite fmap_app. simpl.
    rewrite app_comm_cons, last_snoc. unfold modify, ret, set_lru, set_cache. simpl lru_.
    rewrite take_app_length. f_equal. simpl. f_equal.
    + unfold nodes_of. rewrite fmap_app. apply (removelast_last (_ :: _)).
    + apply (delete_last ((key, mkRecord v nxt) :: t) r). simpl. apply NoDup_cons.
      split; [by apply assoc_None|done].
  - rewrite take_ge by (simpl; lia). done.
Qed.

(** A known key: its row moves to the front. *)
Lemma lru_insert_known max key v t c r :
  lru_ c = nodes_of t → cache_ c = map_of t → max_size_ c = Z.of_nat max →
  (length t ≤ max)%nat → NoDup t.*1 → NoDup (its t) →
  Forall (λ r, (lru_it r.2 < next_node c)%positive) t → assoc key t = Some r →
  let t' := insert_row max key (mkRecord v (next_node c)) t in
  insert key v c = Ret tt (mkCache (nodes_of t') (next_node c + 1) (map_of t') (max_size_ c)).
Proof.
  intros Hl Hm Hmax Hlen Hnd Hids Hlt Hk. destruct c as [lru nxt m mx]. simpl in *. subst.
  pose proof (drop_key_shorter _ _ _ Hk) as Hless.
  destruct (assoc_split key t r Hk) as (a & b & Et & Ha).
  assert (lru_it r ∈ (nodes_of t).*1) as Hi.
  { rewrite Et. unfold nodes_of. rewrite <-list_fmap_compose, fmap_app. apply elem_of_app.
    right. left. }
  assert (lru_it r ≠ nxt) as Hne.
  { rewrite Et, Forall_app, Forall_cons in Hlt. simpl in Hlt. lia. }
  unfold insert, bind at 1, get. simpl. rewrite bool_decide_eq_true_2 by lia.
  unfold push_front, bind, get, modify, ret. simpl. rewrite map_of_lookup, Hk. simpl.
  unfold erase, bind, get. simpl. rewrite decide_True by (right; done).
  unfold modify, set_lru, set_cache. simpl. rewrite filter_cons_True by (simpl; congruence).
  unfold insert_row. rewrite take_ge by (simpl; lia). f_equal. f_equal.
  - simpl. f_equal. by apply nodes_without.
  - symmetry. apply map_of_moved.
Qed.

Lemma lru_insert_refines max key v l c :
  stands_for max l c →
  ∃ c', insert key v c = Ret tt c' ∧ stands_for max (inserted (λ _ v, v) max key v l) c'.
Proof.
  intros (t & -> & Hl & Hm & Hmax & Hlen & H1 & H2 & H3).
  destruct (decide (max = 0)%nat) as [->|H0].
  - exists c. split; [unfold insert, bind, get; by rewrite Hmax|].
    exists t. destruct t; [|simpl in *; lia]. by rewrite <-Hl.
  - set (t' := insert_row max key (mkRecord v (next_node c)) t).
    exists (mkCache (nodes_of t') (next_node c + 1) (map_of t') (max_size_ c)). split.
    { destruct (assoc key t) as [r|] eqn:Hk;
        [by eapply lru_insert_known|apply (lru_insert_new max); (done || lia)]. }
    destruct (insert_row_facts max key v (next_node c) t H2 H3) as (F3 & F4).
    exists t'. split; [symmetry; apply entries_insert_row; by destruct (assoc key t)|].
    do 3 (split; [done|]). split; [apply length_insert_row|].
    split; [by apply NoDup_insert_row|done].
Qed.

#[export] Instance lru_cache_refines max : Refines impl (spec (λ _ v, v) max) (stands_for max).
Proof.
  intros o l c Hc. destruct o as [k v|k| | |]; cbn [spec impl].
  - destruct (lru_insert_refines max k v l c Hc) as (c' & E & H'). exists c'.
    by rewrite (bind_eq_ret _ _ _ _ _ E).
  - exists c. split; [|done]. destruct Hc as (t & -> & _ & Hm & _).
    unfold find, bind, get, ret. by rewrite Hm, map_of_lookup, assoc_entries.
  - exists c. split; [|done]. destruct Hc as (t & -> & _ & Hm & _ & _ & H1 & _).
    unfold size, bind, gets. rewrite Hm, map_of_size by done.
    unfold entries_of. by rewrite length_fmap.
  - exists c. split; [|done]. destruct Hc as (t & -> & _ & Hm & _ & _ & H1 & _).
    unfold empty, size, bind, gets, ret. rewrite Hm, map_of_size by done. do 2 f_equal.
    apply bool_decide_ext. destruct t; simpl; split; intros; (done || lia).
  - destruct Hc as (t & -> & _ & _ & Hmax & _).
    eexists. split; [reflexivity|]. exists []. repeat split; simpl; try done; try lia;
      constructor.
Qed.

Lemma lru_cache_ctor_stands_for max : stands_for max [] (lru_cache_ctor (Z.of_nat max)).
Proof. exists []. repeat split; simpl; try lia; constructor. Qed.

Lemma lru_cache_run max ops :
  ∃ answers l c, run_spec (spec (λ _ v, v) max) ops [] = Some (answers, l) ∧
    run_impl impl ops (lru_cache_ctor (Z.of_nat max)) = Ret answers c ∧ stands_for max l c.
Proof.
  pose proof (refines_run impl (spec (λ _ v, v) max) (stands_for max) ops [] _
    (lru_cache_ctor_stands_for max)) as Hrun.
  destruct (run_spec_total (λ _ v, v) max ops []) as (answers & l & E). rewrite E in Hrun.
  destruct Hrun as (c & E' & H'). by exists answers, l, c.
Qed.

(** C8. An lru_cache of [max] elements answers every history of calls as the
    bounded list of the most recently inserted keys, in which a key inserted
    again moves to the front with its new data; no call is undefined, so every
    iterator the hash map stores stays valid. *)
Theorem lru_cache_history max ops :
  ∃ answers l c, run_spec (spec (λ _ v, v) max) ops [] = Some (answers, l) ∧
    run_impl impl ops (lru_cache_ctor (Z.of_nat max)) = Ret answers c ∧ stands_for max l c.
Proof. apply lru_cache_run. Qed.

(** The lru_cache is not a least-recently-used cache: fill it, look the
    oldest key up, insert one more key, and the key just looked up is the one
    that goes. *)
Theorem lru_cache_find_does_not_refresh k0 v0 es k v :
  NoDup (((k0, v0) :: es).*1 ++ [k]) →
  ∃ c, run_impl impl (insert_all ((k0, v0) :: es) ++ [OpFind k0; OpInsert k v; OpFind k0])
         (lru_cache_ctor (Z.of_nat (S (length es)))) =
       Ret (replicate (S (length es)) Done ++ [Found (Some v0); Done; Found None]) c.
Proof.
  intros Hnd. destruct (run_spec_find_then_evict (λ _ v, v) k0 v0 es k v Hnd) as (l & E).
  pose proof (refines_run impl (spec (λ _ v, v) (S (length es))) (stands_for _)
    (insert_all ((k0, v0) :: es) ++ [OpFind k0; OpInsert k v; OpFind k0]) [] _
    (lru_cache_ctor_stands_for (S (length es)))) as Hrun.
  rewrite E in Hrun. destruct Hrun as (c & E' & _). by exists c.
Qed.

(** Inserting a known key replaces its data. *)
Lemma lru_cache_reinsert max k v w :
  (0 < max)%nat →
  ∃ c, run_impl impl [OpInsert k v; OpInsert k w; OpFind k] (lru_cache_ctor (Z.of_nat max)) =
       Ret [Done; Done; Found (Some w)] c.
Proof.
  intros Hmax. pose proof (refines_run impl (spec (λ _ v, v) max) (stands_for _)
    [OpInsert k v; OpInsert k w; OpFind k] [] _ (lru_cache_ctor_stands_for max)) as Hrun.
  cbn [run_spec spec] in Hrun. rewrite assoc_inserted in Hrun by done.
  destruct Hrun as (c & E' & _). exists c. rewrite E'. by destruct (assoc _ _).
Qed.
End LruCache.

(** ** Witness *)

Lemma lru_cache_find_does_not_refresh_witness :
  ∃ c, run_impl impl [OpInsert 1 10; OpInsert 2 20; OpFind 1; OpInsert 3 30; OpFind 1]
         (lru_cache_ctor (K:=Z) (V:=Z) 2) =
       Ret [Done; Done; Found (Some 10); Done; Found None] c.
Proof.
  apply (lru_cache_find_does_not_refresh (K:=Z) (V:=Z) 1 10 [(2, 20)] 3 30).
  by apply (bool_decide_unpack _).
Defined.
