(* ===== verification/LastUsedCache.v ===== *)
(** * LastUsedCache: the cache with generations

    Models examples/038_bad_lru_cache.cpp: every entry carries the generation
    of its last insertion, and a full cache scans all entries for the smallest
    one. The order in which std::unordered_map is traversed is unspecified: it
    is a parameter of the model. *)

From S2P Require Import Prelude Refinement Cache.
From S2P Require LruCache.

Section LastUsedCache.
Context {K V : Type} `{Countable K}.

Record record_t : Type := mkRecord { data : V; gen : Z }.

Record LastUsedCache : Type := mkCache {
  cache_ : gmap K record_t;
  max_size_ : Z;
  generation_ : Z        (* uint64_t *)
}.

Abbreviation CM := (M LastUsedCache).

(** The sequence of a loop from begin() to end(). *)
Context (iteration : gmap K record_t → list (K * record_t)).

Definition LastUsedCache_ctor (nelems : Z) : LastUsedCache := mkCache ∅ nelems 0.

Definition set_cache (m : gmap K record_t) (c : LastUsedCache) : LastUsedCache :=
  mkCache m (max_size_ c) (generation_ c).

(** The found item, as the caller reads it through [item]. *)
Definition find (key : K) : CM (option V) :=
  let! c := get in ret (data <$> cache_ c !! key).

(** ++generation_ *)
Definition next_generation : CM Z :=
  modify (λ c, mkCache (cache_ c) (max_size_ c) (u64 (generation_ c + 1))) ;;
  gets generation_.

(** The two loops over the entries of a cache that is too large. *)
Definition min_generation (l : list (K * record_t)) : Z :=
  foldl (λ m e, Z.min m (gen e.2)) (u64 (-1)) l.
Fixpoint erase_first (min_gen : Z) (l : list (K * record_t)) : CM unit :=
  match l with
  | [] => ret tt
  | e :: l' =>
      if bool_decide (gen e.2 = min_gen)
      then modify (λ c, set_cache (base.delete e.1 (cache_ c)) c)
      else erase_first min_gen l'
  end.

Definition size : CM Z := gets (λ c, Z.of_nat (base.size (cache_ c))).
Definition empty : CM bool := let! n := size in ret (bool_decide (n = 0)).
Definition clear : CM unit := modify (set_cache ∅).

Definition insert (key : K) (item : V) : CM unit :=
  let! c := get in
  if bool_decide (max_size_ c ≠ 0) then
    let! g := next_generation in
    let rec := mkRecord item g in
    let! c := get in
    match cache_ c !! key with
    | None =>                                   (* result.second *)
        modify (λ c, set_cache (<[key := rec]> (cache_ c)) c) ;;
        let! n := size in
        let! c := get in
        if bool_decide (n > max_size_ c) then
          erase_first (min_generation (iteration (cache_ c))) (iteration (cache_ c))
        else ret tt
    | Some old =>
        let! g := next_generation in
        modify (λ c, set_cache (<[key := mkRecord (data old) g]> (cache_ c)) c)
    end
  else ret tt.

Definition impl (c : op K V) : CM (answer V) :=
  match c with
  | OpInsert k v => insert k v ;; ret Done
  | OpFind k => let! r := find k in ret (Found r)
  | OpSize => let! n := size in ret (Count n)
  | OpEmpty => let! b := empty in ret (Flag b)
  | OpClear => clear ;; ret Done
  end.

(** ** The representation

    Generations decrease along the rows, and none has wrapped around while [n]
    calls, two generations each, are still to come. *)
Context (Hiteration : ∀ m, iteration m ≡ₚ map_to_list m).

Abbreviation row := (K * record_t)%type.
Definition newer (a b : row) : Prop := gen b.2 < gen a.2.

Definition stands_for (max : nat) (n : nat) (l : list (K * V)) (c : LastUsedCache) : Prop :=
  ∃ t, l = entries_of data t ∧ cache_ c = map_of t ∧ max_size_ c = Z.of_nat max ∧
    (length t ≤ max)%nat ∧ NoDup t.*1 ∧ StronglySorted newer t ∧
    Forall (λ r, 0 ≤ gen r.2 ≤ generation_ c) t ∧
    0 ≤ generation_ c ∧ generation_ c + 2 * Z.of_nat n < 2 ^ 64.

(** ** The two loops of an eviction *)

Lemma fold_min_spec (l : list row) : ∀ m,
  let g := foldl (λ m e, Z.min m (gen e.2)) m l in
  g ≤ m ∧ (∀ e, e ∈ l → g ≤ gen e.2) ∧
  (∀ b, b ≤ m → (∀ e, e ∈ l → b ≤ gen e.2) → b ≤ g).
Proof.
  induction l as [|x l IH]; intros m; simpl.
  - split; [done|]. split; [by intros e H1%elem_of_nil|auto].
  - destruct (IH (Z.min m (gen x.2))) as (H1 & H2 & H3). split; [lia|]. split.
    + intros e [->|He]%elem_of_cons; [lia|by apply H2].
    + intros b Hb Hl. apply H3.
      * pose proof (Hl x ltac:(left)). lia.
      * intros e He. apply Hl. by right.
Qed.
Lemma min_generation_least l r :
  r ∈ l → (∀ e, e ∈ l → gen r.2 ≤ gen e.2) → gen r.2 < 2 ^ 64 →
  min_generation l = gen r.2.
Proof.
  intros Hr Hle Hlt. unfold min_generation.
  destruct (fold_min_spec l (u64 (-1))) as (H1 & H2 & H3). apply Z.le_antisymm; [by apply H2|].
  apply H3; [|done]. change (u64 (-1)) with (2 ^ 64 - 1). lia.
Qed.
Lemma erase_first_only l r (c : LastUsedCache) :
  r ∈ l → (∀ e, e ∈ l → gen e.2 = gen r.2 → e = r) →
  erase_first (gen r.2) l c = Ret tt (set_cache (base.delete r.1 (cache_ c)) c).
Proof.
  induction l as [|x l IH]; intros Hr Honly; [by apply elem_of_nil in Hr|]. simpl.
  case_bool_decide as Hx.
  - assert (x = r) as -> by (apply Honly; [left|done]). done.
  - apply elem_of_cons in Hr as [->|Hr]; [done|]. apply IH; [done|].
    intros e He. apply Honly. by right.
Qed.

Lemma newer_app t r e :
  StronglySorted newer (t ++ [r]) → e ∈ t ++ [r] → gen r.2 ≤ gen e.2.
Proof.
  intros Hs He. apply elem_of_app in He as [He| ->%list_elem_of_singleton]; [|done].
  induction t as [|x t IH]; [by apply elem_of_nil in He|]. simpl in Hs.
  apply StronglySorted_inv in Hs as [Hs Hx].
  apply elem_of_cons in He as [->|He]; [|by apply IH].
  rewrite Forall_forall in Hx. unfold newer in Hx.
  pose proof (Hx r ltac:(apply elem_of_app; right; left)). lia.
Qed.
Lemma newer_unique t r e :
  StronglySorted newer (t ++ [r]) → e ∈ t ++ [r] → gen e.2 = gen r.2 → e = r.
Proof.
  intros Hs He Heq. apply elem_of_app in He as [He|He%list_elem_of_singleton]; [|done].
  exfalso. induction t as [|x t IH]; [by apply elem_of_nil in He|]. simpl in Hs.
  apply StronglySorted_inv in Hs as [Hs Hx].
  apply elem_of_cons in He as [->|He]; [|by apply IH].
  rewrite Forall_forall in Hx. unfold newer in Hx.
  pose proof (Hx r ltac:(apply elem_of_app; right; left)). lia.
Qed.
Lemma iteration_rows t e :
  NoDup t.*1 → e ∈ iteration (map_of t) ↔ e ∈ t.
Proof using All.
  intros Hnd. rewrite (Hiteration (map_of t)). destruct e as [k w].
  unfold map_of. rewrite elem_of_map_to_list. symmetry. by apply elem_of_list_to_map.
Qed.
Lemma StronglySorted_sublist {A} (R : A → A → Prop) l l' :
  StronglySorted R l → l' `sublist_of` l → StronglySorted R l'.
Proof.
  intros HP Hs. revert HP. induction Hs as [|x l1 l2 Hs IH|x l1 l2 Hs IH]; [done|..];
    intros [H1 H2]%StronglySorted_inv; [|by apply IH].
  constructor; [by apply IH|by eapply Forall_sublist].
Qed.

(** ** The operations *)

Lemma next_generation_eval c :
  0 ≤ generation_ c → generation_ c + 1 < 2 ^ 64 →
  next_generation c = Ret (generation_ c + 1) (mkCache (cache_ c) (max_size_ c) (generation_ c + 1)).
Proof.
  intros H0 H1. unfold next_generation, bind, modify, gets. simpl.
  by rewrite u64_small by lia.
Qed.

Lemma last_insert_new max key v t c :
  cache_ c = map_of t → max_size_ c = Z.of_nat max → (0 < max)%nat →
  (length t ≤ max)%nat → NoDup t.*1 → assoc key t = None → StronglySorted newer t →
  Forall (λ r, 0 ≤ gen r.2 ≤ generation_ c) t →
  0 ≤ generation_ c → generation_ c + 1 < 2 ^ 64 →
  insert key v c =
    Ret tt (mkCache (map_of (insert_row max key (mkRecord v (generation_ c + 1)) t))
              (max_size_ c) (generation_ c + 1)).
Proof using All.
  intros Hm Hmax H0 Hlen Hnd Hk Hs Hg Hg0 Hg1. destruct c as [m mx g]. simpl in *. subst.
  assert (map_of t !! key = None) as Hnone by by rewrite map_of_lookup.
  pose proof Hk as Hnew. apply assoc_None in Hnew.
  unfold insert, bind at 1, get. simpl. rewrite bool_decide_eq_true_2 by lia.
  rewrite (bind_eq_ret _ _ _ _ _ (next_generation_eval (mkCache (map_of t) (Z.of_nat max) g) Hg0 Hg1)).
  unfold bind, get, modify. simpl. rewrite Hnone. unfold size, gets. simpl.
  rewrite map_size_insert_None, map_of_size by done.
  set (row := mkRecord v (g + 1)). unfold insert_row. rewrite drop_key_new by done.
  change (<[key := row]> (map_of t)) with (map_of ((key, row) :: t)).
  assert (NoDup ((key, row) :: t).*1) as Hnd' by (simpl; by apply NoDup_cons).
  case_bool_decide as Hfull.
  - destruct t as [|r t _] using rev_ind; [simpl in *; lia|].
    rewrite length_app in Hlen, Hfull. simpl in Hlen, Hfull.
    assert (max = S (length t)) as -> by lia.
    assert (StronglySorted newer (((key, row) :: t) ++ [r])) as Hs'.
    { simpl. constructor; [done|]. eapply Forall_impl; [exact Hg|]. unfold newer. simpl. lia. }
    set (l := iteration (map_of ((key, row) :: t ++ [r]))).
    assert (∀ e, e ∈ l ↔ e ∈ ((key, row) :: t) ++ [r]) as Hl by (intros e; by apply iteration_rows).
    assert (r ∈ ((key, row) :: t) ++ [r]) as Hr by (apply elem_of_app; right; left).
    rewrite (min_generation_least l r).
    + rewrite (erase_first_only l r).
      * unfold set_cache. simpl. do 2 f_equal. rewrite take_app_length.
        apply (delete_last ((key, row) :: t) r). done.
      * by apply Hl.
      * intros e He%Hl Heq. by apply (newer_unique _ _ _ Hs').
    + by apply Hl.
    + intros e He%Hl. by apply (newer_app _ _ _ Hs').
    + rewrite Forall_app, Forall_singleton in Hg. lia.
  - by rewrite take_ge by (simpl; lia).
Qed.

Lemma last_insert_known max key v t c r :
  cache_ c = map_of t → max_size_ c = Z.of_nat max →
  (length t ≤ max)%nat → assoc key t = Some r →
  0 ≤ generation_ c → generation_ c + 2 < 2 ^ 64 →
  insert key v c =
    Ret tt (mkCache (map_of (insert_row max key (mkRecord (data r) (generation_ c + 2)) t))
              (max_size_ c) (generation_ c + 2)).
Proof.
  intros Hm Hmax Hlen Hk Hg0 Hg1. destruct c as [m mx g]. simpl in *. subst.
  pose proof (drop_key_shorter _ _ _ Hk) as Hless.
  unfold insert, bind at 1, get. simpl. rewrite bool_decide_eq_true_2 by lia.
  rewrite (bind_eq_ret _ _ _ _ _ (next_generation_eval (mkCache (map_of t) (Z.of_nat max) g)
    Hg0 ltac:(simpl; lia))).
  simpl. unfold bind at 1, get. simpl. rewrite map_of_lookup, Hk.
  rewrite (bind_eq_ret _ _ _ _ _ (next_generation_eval (mkCache (map_of t) (Z.of_nat max) (g + 1))
    ltac:(simpl; lia) ltac:(simpl; lia))).
  unfold modify, set_cache. simpl. rewrite <-Z.add_assoc. do 2 f_equal.
  unfold insert_row. rewrite take_ge by (simpl; lia). symmetry. apply map_of_moved.
Qed.

(** The rows keep their invariant when the new row is the newest. *)
Lemma insert_row_newer max key w t g :
  StronglySorted newer t → Forall (λ r, 0 ≤ gen r.2 ≤ g) t → g < gen w → 0 ≤ g →
  StronglySorted newer (insert_row max key w t) ∧
  Forall (λ r, 0 ≤ gen r.2 ≤ gen w) (insert_row max key w t).
Proof.
  intros Hs Hg Hlt H0. pose proof (insert_row_sublist max key w t) as Hsub.
  pose proof (drop_key_sublist key t) as Hf.
  pose proof (Forall_sublist _ _ _ Hg Hf) as Hg'. split.
  - eapply StronglySorted_sublist; [|exact Hsub]. constructor.
    + by eapply StronglySorted_sublist.
    + eapply Forall_impl; [exact Hg'|]. unfold newer. simpl. lia.
  - eapply Forall_sublist; [|exact Hsub]. constructor; [simpl; lia|].
    eapply Forall_impl; [exact Hg'|]. simpl. lia.
Qed.

Lemma last_insert_refines max n key v l c :
  stands_for max (S n) l c →
  ∃ c', insert key v c = Ret tt c' ∧ stands_for max n (inserted (λ old _, old) max key v l) c'.
Proof using All.
  intros (t & -> & Hm & Hmax & Hlen & Hnd & Hs & Hg & Hg0 & Hg1).
  destruct (decide (max = 0)%nat) as [->|H0].
  { exists c. split; [unfold insert, bind, get; by rewrite Hmax|].
    exists t. destruct t; [|simpl in *; lia]. repeat split; try done; simpl; lia. }
  destruct (assoc key t) as [r|] eqn:Hk; eexists.
  - split; [eapply last_insert_known; (done || lia)|].
    destruct (insert_row_newer max key (mkRecord (data r) (generation_ c + 2)) t (generation_ c))
      as [F1 F2]; [done|done|simpl; lia|done|].
    exists (insert_row max key (mkRecord (data r) (generation_ c + 2)) t).
    split; [symmetry; apply entries_insert_row; by rewrite Hk|].
    split; [done|]. split; [done|]. split; [apply length_insert_row|].
    split; [by apply NoDup_insert_row|]. simpl. repeat split; (done || lia).
  - split; [eapply last_insert_new; (done || lia)|].
    destruct (insert_row_newer max key (mkRecord v (generation_ c + 1)) t (generation_ c))
      as [F1 F2]; [done|done|simpl; lia|done|].
    exists (insert_row max key (mkRecord v (generation_ c + 1)) t).
    split; [symmetry; apply entries_insert_row; by rewrite Hk|].
    split; [done|]. split; [done|]. split; [apply length_insert_row|].
    split; [by apply NoDup_insert_row|]. simpl. repeat split; (done || lia).
Qed.

Lemma stands_for_weaken max n l c : stands_for max (S n) l c → stands_for max n l c.
Proof.
  intros (t & E & Hm & Hmax & Hlen & Hnd & Hs & Hg & Hg0 & Hg1).
  exists t. do 8 (split; [done|]). lia.
Qed.

Lemma LastUsedCache_step max n o l c :
  stands_for max (S n) l c →
  match spec (λ old _, old) max o l with
  | Some (a, l') => ∃ c', impl o c = Ret a c' ∧ stands_for max n l' c'
  | None => ∃ u, impl o c = Undef u
  end.
Proof using All.
  intros Hc. destruct o as [k v|k| | |]; cbn [spec impl].
  - destruct (last_insert_refines max n k v l c Hc) as (c' & E & H'). exists c'.
    by rewrite (bind_eq_ret _ _ _ _ _ E).
  - exists c. split; [|by apply stands_for_weaken]. destruct Hc as (t & -> & Hm & _).
    unfold find, bind, get, ret. by rewrite Hm, map_of_lookup, assoc_entries.
  - exists c. split; [|by apply stands_for_weaken].
    destruct Hc as (t & -> & Hm & _ & _ & H1 & _).
    unfold size, bind, gets. rewrite Hm, map_of_size by done.
    unfold entries_of. by rewrite length_fmap.
  - exists c. split; [|by apply stands_for_weaken].
    destruct Hc as (t & -> & Hm & _ & _ & H1 & _).
    unfold empty, size, bind, gets, ret. rewrite Hm, map_of_size by done. do 2 f_equal.
    apply bool_decide_ext. destruct t; simpl; split; intros; (done || lia).
  - destruct Hc as (t & -> & _ & Hmax & _ & _ & _ & _ & Hg0 & Hg1).
    eexists. split; [reflexivity|]. exists []. repeat split; simpl; try done; try lia;
      constructor.
Qed.

Lemma LastUsedCache_ctor_stands_for max n :
  2 * Z.of_nat n < 2 ^ 64 → stands_for max n [] (LastUsedCache_ctor (Z.of_nat max)).
Proof. intros Hn. exists []. repeat split; simpl; try done; try lia; constructor. Qed.

Lemma LastUsedCache_run max ops :
  2 * Z.of_nat (length ops) < 2 ^ 64 →
  ∃ answers l c, run_spec (spec (λ old _, old) max) ops [] = Some (answers, l) ∧
    run_impl impl ops (LastUsedCache_ctor (Z.of_nat max)) = Ret answers c ∧
    stands_for max 0 l c.
Proof using All.
  intros Hops.
  pose proof (LastUsedCache_ctor_stands_for max (length ops) Hops) as H0.
  pose proof (refines_run_counted impl (spec (λ old _, old) max) (stands_for max) ops [] _
    (λ n o l c, LastUsedCache_step max n o l c) H0) as Hrun.
  destruct (run_spec_total (λ old _, old) max ops []) as (answers & l & E). rewrite E in Hrun.
  destruct Hrun as (c & E' & H'). by exists answers, l, c.
Qed.

(** C9. A LastUsedCache of [max] elements answers every history of fewer than
    2^63 calls as the bounded list of the most recently inserted keys, whatever
    the traversal order of the hash map; but a key inserted again keeps its old
    data and only moves to the front. *)
Theorem LastUsedCache_history max ops :
  2 * Z.of_nat (length ops) < 2 ^ 64 →
  ∃ answers l c, run_spec (spec (λ old _, old) max) ops [] = Some (answers, l) ∧
    run_impl impl ops (LastUsedCache_ctor (Z.of_nat max)) = Ret answers c ∧
    stands_for max 0 l c.
Proof using All. apply LastUsedCache_run. Qed.

(** The two caches disagree on a key inserted twice: lru_cache answers the
    new data, LastUsedCache the old. *)
Theorem caches_disagree_on_reinsert max k v w :
  (0 < max)%nat →
  (∃ c, run_impl LruCache.impl [OpInsert k v; OpInsert k w; OpFind k]
          (LruCache.lru_cache_ctor (Z.of_nat max)) = Ret [Done; Done; Found (Some w)] c) ∧
  (∃ c, run_impl impl [OpInsert k v; OpInsert k w; OpFind k]
          (LastUsedCache_ctor (Z.of_nat max)) = Ret [Done; Done; Found (Some v)] c).
Proof using All.
  intros Hmax. split; [by apply LruCache.lru_cache_reinsert|].
  pose proof (refines_run_counted impl (spec (λ old _, old) max) (stands_for max)
    [OpInsert k v; OpInsert k w; OpFind k] [] _ (λ n o l c, LastUsedCache_step max n o l c)
    (LastUsedCache_ctor_stands_for max 3 ltac:(lia))) as Hrun.
  cbn [run_spec spec] in Hrun. rewrite !assoc_inserted in Hrun by done.
  destruct Hrun as (c & E' & _). exists c. by rewrite E'.
Qed.
(** C10. The two caches are the same cache up to the data of a key inserted again:
    on every history of fewer than 2^63 calls they give the same sizes and find
    the same keys, and when each key always comes with the same data, as in a
    cache of a function's results, they give the same answers. *)
Theorem caches_equivalent max ops :
  2 * Z.of_nat (length ops) < 2 ^ 64 →
  ∃ answers answers' c c',
    run_impl LruCache.impl ops (LruCache.lru_cache_ctor (Z.of_nat max)) = Ret answers c ∧
    run_impl impl ops (LastUsedCache_ctor (Z.of_nat max)) = Ret answers' c' ∧
    shape <$> answers = shape <$> answers' ∧
    (∀ data, Forall (functional data) ops → answers = answers').
Proof using All.
  intros Hops. destruct (LruCache.lru_cache_run max ops) as (a & l & c & E & Ec & _).
  destruct (LastUsedCache_run max ops Hops) as (a' & l' & c' & E' & Ec' & _).
  exists a, a', c, c'. do 2 (split; [done|]). split.
  - pose proof (run_spec_shapes (λ _ v, v) (λ old _, old) max ops [] [] eq_refl) as Hsh.
    by rewrite E, E' in Hsh.
  - intros data Hd. rewrite (run_spec_functional _ (λ old _, old) data) in E; [|done..].
    congruence.
Qed.
End LastUsedCache.

(** ** Witnesses *)

Lemma LastUsedCache_history_witness :
  ∃ answers l c, run_spec (spec (K:=Z) (V:=Z) (λ old _, old) 2)
      [OpInsert 1 10; OpInsert 2 20; OpInsert 1 11; OpInsert 3 30; OpFind 1; OpFind 2; OpSize] [] =
      Some (answers, l) ∧
    run_impl (impl map_to_list)
      [OpInsert 1 10; OpInsert 2 20; OpInsert 1 11; OpInsert 3 30; OpFind 1; OpFind 2; OpSize]
      (LastUsedCache_ctor 2) = Ret answers c ∧ stands_for 2 0 l c.
Proof.
  apply (LastUsedCache_history (K:=Z) (V:=Z) map_to_list (λ m, Permutation_refl _) 2
    [OpInsert 1 10; OpInsert 2 20; OpInsert 1 11; OpInsert 3 30; OpFind 1; OpFind 2; OpSize]).
  reflexivity.
Defined.
Lemma caches_disagree_on_reinsert_witness :
  (∃ c, run_impl LruCache.impl [OpInsert 1 10; OpInsert 1 11; OpFind 1]
          (LruCache.lru_cache_ctor (K:=Z) (V:=Z) 2) = Ret [Done; Done; Found (Some 11)] c) ∧
  (∃ c, run_impl (impl map_to_list) [OpInsert 1 10; OpInsert 1 11; OpFind 1]
          (LastUsedCache_ctor (K:=Z) (V:=Z) 2) = Ret [Done; Done; Found (Some 10)] c).
Proof.
  apply (caches_disagree_on_reinsert (K:=Z) (V:=Z) map_to_list (λ m, Permutation_refl _) 2 1 10 11).
  lia.
Defined.
Definition memo (k : Z) : Z := k * k.
Definition memo_history : list (op Z Z) :=
  [OpInsert 1 1; OpInsert 2 4; OpInsert 1 1; OpInsert 3 9; OpFind 1; OpFind 2; OpSize].
Lemma caches_equivalent_witness :
  ∃ answers answers' c c',
    run_impl LruCache.impl memo_history (LruCache.lru_cache_ctor 2) = Ret answers c ∧
    run_impl (impl map_to_list) memo_history (LastUsedCache_ctor 2) = Ret answers' c' ∧
    shape <$> answers = shape <$> answers' ∧
    (∀ data, Forall (functional data) memo_history → answers = answers').
Proof.
  apply (caches_equivalent (K:=Z) (V:=Z) map_to_list (λ m, Permutation_refl _) 2 memo_history).
  reflexivity.
Defined.
Lemma memo_history_functional : Forall (functional memo) memo_history.
Proof. by repeat constructor. Qed.
