(* ===== verification/Posix.v ===== *)
(** * The operating system seen by the network programs

    The programs under net/ talk to the kernel by system calls. The kernel, the
    peers and the timing are a parameter: a function from the calls made so far
    and the next call to its reply. The calls and replies of a run are recorded,
    so that theorems speak about what a program does to its sockets. *)

From S2P Require Import Prelude.
From Stdlib Require Export Ascii.

(** Contents of buffers and of std::string objects. *)
Abbreviation bytes := (list ascii).
Definition b (s : string) : bytes := String.list_ascii_of_string s.
Definition text (l : bytes) : string := String.string_of_list_ascii l.

Definition NUL : ascii := ascii_of_nat 0.
Definition LF : ascii := ascii_of_nat 10.
Definition CR : ascii := ascii_of_nat 13.

Inductive call : Type :=
  | Socket
  | Setsockopt (sd : Z) (option : string)
  | Bind (sd port : Z)
  | Listen (sd queue : Z)
  | Accept (sd : Z)
  | Connect (sd : Z) (ip port : Z)
  | Close (sd : Z)
  | Getfl (sd : Z)
  | Setfl (sd flags : Z)
  | Select (nfds : Z) (rd wr : list Z) (timeout : option Z)
  | Poll (fds : list (Z * Z)) (timeout : Z)
  | Read (sd count : Z)
  | Recv (sd count flags : Z)
  | Write (sd : Z) (buf : bytes)
  | Send (sd : Z) (buf : bytes) (flags : Z)
  | EpollCreate (size : Z)
  | EpollCtl (epfd op sd events : Z) (user : Z)
  | EpollWait (epfd maxevents : Z)
  | Usleep (usec : Z)
  | Gethostbyname (host : string)
  | Fork
  | Getpid
  | SocketUnix
  | BindUnix (sd : Z) (path : bytes) (size : Z)
  | Interleave (point : Z).   (* a point where other threads of the program may run *)

#[export] Instance call_eq_dec : EqDecision call.
Proof. solve_decision. Defined.

(** The return value, errno of a failed call, the bytes stored in the buffer of
    the call and the numbers it yields: the descriptors ready after select, the
    revents of poll, the pairs (events, user data) of epoll_wait, the addresses
    of a host, the connections other threads add. *)
Record reply : Type := mkReply {
  rc : Z;
  errno_of : Z;
  got : bytes;
  numbers : list Z
}.

Abbreviation history := (list (call * reply)).

Class OS := {
  answer_to : history → call → reply;
  strerror : Z → string
}.

(** A program state: its own objects, errno, the history of its system calls
    and what it wrote to the terminal. *)
Record net (T : Type) : Type := mkNet {
  own : T;
  errno : Z;
  trace : history;
  cerr : list (out False)
}.
Arguments mkNet {T} own errno trace cerr.
Arguments own {T} n.
Arguments errno {T} n.
Arguments trace {T} n.
Arguments cerr {T} n.

Section Calls.
Context {Os : OS} {T : Type}.

Definition sys (c : call) : M (net T) reply := λ s,
  let r := answer_to (trace s) c in
  Ret r (mkNet (own s) (if bool_decide (rc r = -1) then errno_of r else errno s)
           (trace s ++ [(c, r)]) (cerr s)).

Definition say (l : list (out False)) : M (net T) unit :=
  modify (λ s, mkNet (own s) (errno s) (trace s) (cerr s ++ l)).
Definition set_own (f : T → T) : M (net T) unit :=
  modify (λ s, mkNet (f (own s)) (errno s) (trace s) (cerr s)).

(** [throw std::runtime_error(prefix + strerror(errno))] *)
Definition throw_errno {A} (prefix : string) : M (net T) A :=
  let! s := get in throw (runtime_error (String.append prefix (strerror (errno s)))).

(** [perror(prefix)] *)
Definition perror (prefix : string) : M (net T) unit :=
  let! s := get in say [OStr prefix; OStr ": "; OStr (strerror (errno s)); OEndl].

(** FD_SET and FD_ISSET index an array of FD_SETSIZE bits. *)
Definition FD_SETSIZE : Z := 1024.
Definition fd_in_set (sd : Z) : M (net T) unit :=
  if bool_decide (0 ≤ sd < FD_SETSIZE) then ret tt else undef OutOfBounds.

(** Run [m] on an object of its own, starting as [init]. *)
Definition local {U A} (init : U) (m : M (net U) A) : M (net T) (A * U) := λ s,
  let back (s' : net U) := mkNet (own s) (errno s') (trace s') (cerr s') in
  match m (mkNet init (errno s) (trace s) (cerr s)) with
  | Ret a s' => Ret (a, own s') (back s')
  | Exc e s' => Exc e (back s')
  | Exit c s' => Exit c (back s')
  | Undef u => Undef u
  | NoFuel => NoFuel
  end.

(** The scope of an object whose destructor is [dtor]. *)
Definition finally {A} (m : M (net T) A) (dtor : M (net T) unit) : M (net T) A :=
  let! a := try_catch m (λ e, dtor ;; throw e) in
  dtor ;; ret a.

(** What an exception that leaves the function of a thread does, and one that
    destroys a thread which has not been joined: std::terminate aborts. *)
Definition or_terminate {A} (m : M (net T) A) : M (net T) A := try_catch m (λ _, exit_with 134).

(** The first [n] rounds of a loop that nothing but an exception, exit or
    undefined behaviour leaves. *)
Fixpoint rounds (n : nat) (round : M (net T) unit) : M (net T) unit :=
  match n with
  | O => ret tt
  | S n' => round ;; rounds n' round
  end.
End Calls.

(** ** Strings in buffers *)

(** std::string(buf): the bytes before the first zero byte. *)
Fixpoint c_str (l : bytes) : bytes :=
  match l with
  | [] => []
  | c :: l' => if decide (c = NUL) then [] else c :: c_str l'
  end.

(** [char buf[size]; ...; buf[r] = '\0'; std::string tmp(buf);] after [r] bytes
    were stored in [buf]. *)
Definition terminated {S} (size r : Z) (l : bytes) : M S bytes :=
  if bool_decide (0 ≤ r < size) then ret (c_str (take (Z.to_nat r) l)) else undef OutOfBounds.

Definition is_crlf (c : ascii) : bool := bool_decide (c = CR) || bool_decide (c = LF).

(** [while (tmp[tmp.size() - 1] == '\r' || tmp[tmp.size() - 1] == '\n')
    tmp.pop_back();] (or with back()): undefined once the string is empty. *)
Fixpoint strip_loop {S} (fuel : nat) (l : bytes) : M S bytes :=
  match fuel with
  | O => no_fuel
  | S fuel' =>
      match last l with
      | None => undef OutOfBounds
      | Some c => if is_crlf c then strip_loop fuel' (removelast l) else ret l
      end
  end.
Definition strip {S} (l : bytes) : M S bytes := strip_loop (Datatypes.S (length l)) l.

(** What is left of [l], when something is. *)
Fixpoint drop_crlf (l : bytes) : bytes :=
  match l with
  | [] => []
  | c :: l' => if is_crlf c then drop_crlf l' else l
  end.
Definition stripped (l : bytes) : bytes := rev (drop_crlf (rev l)).

Lemma strip_loop_spec {S} n : ∀ (l : bytes) (s : S),
  (length l < n)%nat →
  strip_loop n l s = if bool_decide (drop_crlf (rev l) = []) then Undef OutOfBounds
                     else Ret (stripped l) s.
Proof.
  induction n as [|n IH]; intros l s Hn; [lia|]. cbn [strip_loop].
  destruct l as [|c l _] using rev_ind; [done|].
  rewrite last_snoc, rev_app_distr. simpl. destruct (is_crlf c) eqn:Hc.
  - rewrite removelast_last, IH by (rewrite length_app in Hn; simpl in Hn; lia).
    unfold stripped. rewrite rev_app_distr. simpl. by rewrite Hc.
  - unfold stripped. rewrite rev_app_distr. simpl. rewrite Hc. simpl.
    by rewrite rev_involutive.
Qed.
(** The loop ends inside the string exactly when some character is neither CR
    nor LF. *)
Lemma strip_spec {S} (l : bytes) (s : S) :
  strip l s = if forallb is_crlf l then Undef OutOfBounds else Ret (stripped l) s.
Proof.
  unfold strip. rewrite strip_loop_spec by lia.
  assert (∀ l, drop_crlf l = [] ↔ forallb is_crlf l = true) as H.
  { induction l0 as [|c l0 IH]; simpl; [done|]. destruct (is_crlf c); simpl; [done|].
    split; discriminate. }
  assert (forallb is_crlf (rev l) = forallb is_crlf l) as Hr.
  { clear. induction l as [|c l IH]; [done|]. simpl. rewrite forallb_app, IH. simpl.
    rewrite andb_true_r. apply andb_comm. }
  rewrite <-Hr. specialize (H (rev l)). case_bool_decide as Hd.
  - apply H in Hd. by rewrite Hd.
  - destruct (forallb is_crlf (rev l)) eqn:E; [|done]. tauto.
Qed.

(** ** What the documentation of the calls promises *)

(** read and recv return -1 or the number of bytes they stored, which does not
    exceed the size of the buffer. *)
Definition reads_fit `{OS} : Prop := ∀ h c sd n,
  (c = Read sd n ∨ ∃ fl, c = Recv sd n fl) → 0 ≤ n →
  let r := answer_to h c in
  -1 ≤ rc r ≤ n ∧ (0 ≤ rc r → Z.of_nat (length (got r)) = rc r).

(** ** Executing calls *)

Definition after `{OS} {T} (c : call) (s : net T) : net T :=
  let r := answer_to (trace s) c in
  mkNet (own s) (if bool_decide (rc r = -1) then errno_of r else errno s)
    (trace s ++ [(c, r)]) (cerr s).
Lemma sys_eval `{OS} {T} c (s : net T) : sys c s = Ret (answer_to (trace s) c) (after c s).
Proof. reflexivity. Qed.
Lemma bind_sys `{OS} {T A} c (k : reply → M (net T) A) (s : net T) :
  bind (sys c) k s = k (answer_to (trace s) c) (after c s).
Proof. reflexivity. Qed.

(** An invariant of the history is kept by what does not extend it. *)
Definition on_trace {T} (P : history → Prop) : net T → Prop := λ s, P (trace s).

Lemma keeps_sys `{OS} {T} (P : net T → Prop) c :
  (∀ s, P s → P (after c s)) → keeps P (sys c).
Proof. intros Hc s Hs. rewrite sys_eval. by apply Hc. Qed.
Lemma keeps_say {T} P l : keeps (on_trace (T:=T) P) (say l).
Proof. by intros s Hs. Qed.
Lemma keeps_set_own {T} P f : keeps (on_trace (T:=T) P) (set_own f).
Proof. by intros s Hs. Qed.
Lemma keeps_throw_errno `{OS} {T A} P pre : keeps (on_trace (T:=T) P) (throw_errno (A:=A) pre).
Proof. by intros s Hs. Qed.
Lemma keeps_perror `{OS} {T} P pre : keeps (on_trace (T:=T) P) (perror pre).
Proof. by intros s Hs. Qed.
Lemma keeps_fd_in_set {T} P fd : keeps (on_trace (T:=T) P) (fd_in_set fd).
Proof. unfold fd_in_set. case_bool_decide; [apply keeps_ret|apply keeps_undef]. Qed.
Lemma keeps_terminated {S} (P : S → Prop) size r l : keeps P (terminated size r l).
Proof. unfold terminated. case_bool_decide; [apply keeps_ret|apply keeps_undef]. Qed.
Lemma keeps_strip {S} (P : S → Prop) l : keeps P (strip l).
Proof. intros s Hs. rewrite strip_spec. by destruct (forallb is_crlf l). Qed.
Lemma keeps_rounds {T} (P : net T → Prop) n m : keeps P m → keeps P (rounds n m).
Proof.
  intros Hm. induction n as [|n IH]; [apply keeps_ret|]. by apply keeps_bind.
Qed.
#[export] Hint Resolve keeps_sys keeps_say keeps_set_own keeps_throw_errno keeps_perror keeps_fd_in_set
  keeps_terminated keeps_strip keeps_rounds : keeps.

(** A property of the history crosses the border of an object. *)
Lemma keeps_local `{OS} {T U A} P (init : U) (m : M (net U) A) :
  keeps (on_trace P) m → keeps (on_trace (T:=T) P) (local init m).
Proof.
  intros Hm s Hs. specialize (Hm (mkNet init (errno s) (trace s) (cerr s)) Hs).
  unfold local. by destruct (m _).
Qed.
Lemma keeps_try_catch {S A} (P : S → Prop) (m : M S A) h :
  keeps P m → (∀ e, keeps P (h e)) → keeps P (try_catch m h).
Proof.
  intros Hm Hh s Hs. specialize (Hm s Hs). unfold try_catch. destruct (m s); try done. by apply Hh.
Qed.
Lemma keeps_finally {T A} (P : net T → Prop) (m : M (net T) A) dtor :
  keeps P m → keeps P dtor → keeps P (finally m dtor).
Proof.
  intros Hm Hd. unfold finally. apply keeps_bind.
  - apply keeps_try_catch; [done|]. intros e. apply keeps_bind; [done|]. intros _. apply keeps_throw.
  - intros a. apply keeps_bind; [done|]. intros _. apply keeps_ret.
Qed.
Lemma keeps_or_terminate {T A} (P : net T → Prop) (m : M (net T) A) :
  keeps P m → keeps P (or_terminate m).
Proof. intros Hm. apply keeps_try_catch; [done|]. intros _. apply keeps_exit. Qed.
#[export] Hint Resolve keeps_local keeps_try_catch keeps_finally keeps_or_terminate : keeps.

(** The same for runs that do not exit. *)
Definition steady {S A} (P : S → Prop) (m : M S A) : Prop :=
  ∀ s, P s → match m s with Ret _ s' | Exc _ s' => P s' | _ => True end.
Lemma keeps_steady {S A} (P : S → Prop) (m : M S A) : keeps P m → steady P m.
Proof. intros H s Hs. specialize (H s Hs). by destruct (m s). Qed.
Lemma steady_bind {S A B} (P : S → Prop) (m : M S A) (k : A → M S B) :
  steady P m → (∀ a, steady P (k a)) → steady P (bind m k).
Proof.
  intros Hm Hk s Hs. specialize (Hm s Hs). unfold bind. destruct (m s); try done.
  by apply Hk.
Qed.
Lemma steady_rounds {T} (P : net T → Prop) n m : steady P m → steady P (rounds n m).
Proof.
  intros Hm. induction n as [|n IH]; [apply keeps_steady, keeps_ret|]. by apply steady_bind.
Qed.

(** ** Open descriptors

    The descriptors a program holds after a history, most recent first: those
    that socket and accept returned and close was not called for. Zero is a
    descriptor like the others, which the kernel gives when the standard input
    is closed. *)
Fixpoint remove_first (x : Z) (l : list Z) : list Z :=
  match l with
  | [] => []
  | y :: l' => if bool_decide (y = x) then l' else y :: remove_first x l'
  end.
Definition hold1 (l : list Z) (e : call * reply) : list Z :=
  match e.1 with
  | Socket | SocketUnix | Accept _ => if bool_decide (0 ≤ rc e.2) then rc e.2 :: l else l
  | Close sd => remove_first sd l
  | _ => l
  end.
Definition held (h : history) : list Z := foldl hold1 [] h.

(** How often socket and accept have given the descriptor 0, which much of the
    code takes for a failure. *)
Definition zero1 (e : call * reply) : nat :=
  match e.1 with
  | Socket | SocketUnix | Accept _ => if bool_decide (rc e.2 = 0) then 1%nat else 0%nat
  | _ => 0%nat
  end.
Definition zeros (h : history) : nat := sum_list_with zero1 h.
(** The two together; a program that goes on from [z] and [l], and closes what
    it opens except the descriptors 0, ends with [left_with]. *)
Definition ledger (h : history) : nat * list Z := (zeros h, held h).
Definition left_with (l : nat * list Z) (h : history) : Prop :=
  ∃ k, ledger h = ((l.1 + k)%nat, replicate k 0 ++ l.2).

Lemma held_snoc h e : held (h ++ [e]) = hold1 (held h) e.
Proof. unfold held. by rewrite foldl_app. Qed.
Lemma held_other h c r :
  (match c with Socket | SocketUnix | Accept _ | Close _ => False | _ => True end) →
  held (h ++ [(c, r)]) = held h.
Proof. intros Hc. rewrite held_snoc. by destruct c. Qed.
Lemma held_close h r x l : held h = x :: l → held (h ++ [(Close x, r)]) = l.
Proof. intros E. rewrite held_snoc, E. unfold hold1. cbn [fst remove_first]. by rewrite bool_decide_eq_true_2. Qed.
Lemma zeros_snoc h e : zeros (h ++ [e]) = (zeros h + zero1 e)%nat.
Proof. unfold zeros. rewrite sum_list_with_app. simpl. lia. Qed.
Lemma ledger_other h c r :
  (match c with Socket | SocketUnix | Accept _ | Close _ => False | _ => True end) →
  ledger (h ++ [(c, r)]) = ledger h.
Proof.
  intros Hc. unfold ledger. rewrite held_other, zeros_snoc by done. by destruct c; simpl; rewrite ?Nat.add_0_r.
Qed.
Lemma ledger_close h r x n l : ledger h = (n, x :: l) → ledger (h ++ [(Close x, r)]) = (n, l).
Proof.
  intros [= Hz Hh]. unfold ledger. rewrite (held_close _ _ _ _ Hh), zeros_snoc, Hz. simpl. by rewrite Nat.add_0_r.
Qed.
Lemma left_with_same h : left_with (ledger h) h.
Proof. exists 0%nat. unfold ledger. simpl. by rewrite Nat.add_0_r. Qed.
Lemma left_with_eq l h : ledger h = l → left_with l h.
Proof. intros <-. apply left_with_same. Qed.
Lemma left_with_trans l h h' : left_with l h → left_with (ledger h) h' → left_with l h'.
Proof.
  intros (k & E) (k' & E'). exists (k' + k)%nat. rewrite E', E. simpl. f_equal; [lia|].
  by rewrite replicate_add, <-app_assoc.
Qed.
(** Closing a descriptor below some descriptors 0. *)
Lemma left_with_close h r x n l : x ≠ 0 → left_with (n, x :: l) h → left_with (n, l) (h ++ [(Close x, r)]).
Proof.
  intros Hx (k & [= Hz Hh]). exists k. unfold ledger. rewrite held_snoc, zeros_snoc, Hz, Hh.
  unfold hold1, zero1. simpl. f_equal; [lia|]. clear Hz Hh. induction k as [|k IH]; simpl.
  - by rewrite bool_decide_eq_true_2.
  - rewrite bool_decide_eq_false_2 by done. by f_equal.
Qed.

(** ** Histories and examples *)

(** The calls a run added to the history. *)
Definition calls_of (h : history) : list call := h.*1.

(** A scripted operating system, for examples: replies in order, then failure. *)
Definition scripted (l : list reply) : OS :=
  {| answer_to h _ := default (mkReply (-1) 0 [] []) (l !! length h);
     strerror _ := "error" |}.
Definition ok (n : Z) : reply := mkReply n 0 [] [].
Definition failed (e : Z) : reply := mkReply (-1) e [] [].
Definition data (s : bytes) : reply := mkReply (Z.of_nat (length s)) 0 s [].
Definition ready (l : list Z) : reply := mkReply (Z.of_nat (length l)) 0 [] l.

(** A system in which every read yields the start of [d], select and poll
    report [fds] and everything else succeeds with result 5. *)
Definition reading (d : bytes) (fds : list Z) : OS :=
  {| answer_to h c :=
       match c with
       | Read _ n | Recv _ n _ => data (take (Z.to_nat n) d)
       | Select _ _ _ _ | Poll _ _ => ready fds
       | _ => ok 5
       end;
     strerror _ := "error" |}.
Lemma reading_fits d fds : reads_fit (H:=reading d fds).
Proof.
  intros h c sd n [->|[fl ->]] Hn; simpl; rewrite length_take; (split; [lia|done]).
Qed.
