(* ===== verification/Text.v ===== *)
(** * std::string and numbers

    The functions of std::string that the network programs call, on lists of
    chars: stoi, to_string, find and substr, with the round trip of the first
    two; and the reading of a buffer as a C string. *)

From S2P Require Import Prelude Posix.

(** ** Decimal numbers *)

Definition is_space (c : ascii) : bool :=
  let n := nat_of_ascii c in (n =? 32)%nat || ((9 <=? n)%nat && (n <=? 13)%nat).
Definition digit (c : ascii) : option Z :=
  let n := Z.of_nat (nat_of_ascii c) in
  if bool_decide (48 ≤ n ≤ 57) then Some (n - 48) else None.
Definition digit_char (d : Z) : ascii := ascii_of_nat (Z.to_nat (48 + d)).

Fixpoint skip_spaces (l : bytes) : bytes :=
  match l with
  | [] => []
  | c :: l' => if is_space c then skip_spaces l' else l
  end.

(** The value of the longest prefix of digits, [None] without any. *)
Fixpoint digits_from (acc : Z) (l : bytes) : Z :=
  match l with
  | [] => acc
  | c :: l' => match digit c with Some d => digits_from (10 * acc + d) l' | None => acc end
  end.
Definition number (l : bytes) : option Z :=
  match l with
  | [] => None
  | c :: _ => match digit c with Some _ => Some (digits_from 0 l) | None => None end
  end.
Definition signed_number (l : bytes) : option Z :=
  match l with
  | [] => None
  | c :: l' =>
      if bool_decide (c = "-"%char) then Z.opp <$> number l'
      else if bool_decide (c = "+"%char) then number l'
      else number l
  end.

(** std::stoi, as strtol with base 10. *)
Definition stoi {S} (l : bytes) : M S Z :=
  match signed_number (skip_spaces l) with
  | None => throw (invalid_argument "stoi")
  | Some z => if bool_decide (INT_MIN ≤ z ≤ INT_MAX) then ret z else throw (out_of_range "stoi")
  end.

(** std::to_string. *)
Fixpoint digits (fuel : nat) (z : Z) : bytes :=
  match fuel with
  | O => []
  | S f => (if bool_decide (z < 10) then [] else digits f (z / 10)) ++ [digit_char (z mod 10)]
  end.
Definition to_string (z : Z) : bytes :=
  if bool_decide (z < 0) then "-"%char :: digits (S (Z.to_nat (- z))) (- z)
  else digits (S (Z.to_nat z)) z.

Lemma digit_digit_char d : 0 ≤ d < 10 → digit (digit_char d) = Some d.
Proof.
  intros H. unfold digit, digit_char. rewrite nat_ascii_embedding by lia.
  rewrite bool_decide_eq_true_2 by lia. f_equal. lia.
Qed.
Lemma digit_char_plain d :
  0 ≤ d < 10 → is_space (digit_char d) = false ∧ digit_char d ≠ "-"%char ∧ digit_char d ≠ "+"%char.
Proof.
  intros H. assert (d = 0 ∨ d = 1 ∨ d = 2 ∨ d = 3 ∨ d = 4 ∨ d = 5 ∨ d = 6 ∨ d = 7 ∨ d = 8 ∨ d = 9)
    as Hd by lia.
  repeat destruct Hd as [->|Hd]; [..|subst]; (split; [reflexivity|split; discriminate]).
Qed.

Lemma digits_nonneg_head n z :
  0 ≤ z → (0 < n)%nat → ∃ d l, digits n z = digit_char d :: l ∧ 0 ≤ d < 10.
Proof.
  revert z. induction n as [|n IH]; intros z Hz Hn; [lia|]. simpl. case_bool_decide as Hlt.
  - exists (z mod 10), []. split; [done|]. apply Z.mod_pos_bound. lia.
  - destruct n as [|n].
    + exists (z mod 10), []. split; [done|]. apply Z.mod_pos_bound. lia.
    + destruct (IH (z / 10)) as (d & l & E & Hd); [apply Z.div_pos; lia|lia|].
      rewrite E. by exists d, (l ++ [digit_char (z mod 10)]).
Qed.
Lemma digits_from_digits n : ∀ z acc rest,
  0 ≤ z → (Z.to_nat z < n)%nat →
  ∃ k, digits_from acc (digits n z ++ rest) = digits_from (acc * 10 ^ Z.of_nat k + z) rest.
Proof.
  induction n as [|n IH]; intros z acc rest Hz Hn; [lia|]. simpl.
  pose proof (Z.mod_pos_bound z 10 ltac:(lia)) as Hm.
  case_bool_decide as Hlt.
  - exists 1%nat. simpl. rewrite digit_digit_char by done.
    rewrite Z.mod_small by lia. f_equal. lia.
  - rewrite <-app_assoc.
    assert (0 ≤ z / 10 < z) by (split; [apply Z.div_pos; lia|apply Z.div_lt; lia]).
    destruct (IH (z / 10) acc (digit_char (z mod 10) :: rest)) as (k & E); [lia|lia|].
    exists (S k). change ([digit_char (z mod 10)] ++ rest) with (digit_char (z mod 10) :: rest). rewrite E. simpl. rewrite digit_digit_char by done. f_equal.
    rewrite Nat2Z.inj_succ, Z.pow_succ_r by lia. pose proof (Z.div_mod z 10). lia.
Qed.
Lemma number_digits z rest :
  0 ≤ z → number (digits (S (Z.to_nat z)) z ++ rest) = Some (digits_from z rest).
Proof.
  intros Hz. destruct (digits_nonneg_head (S (Z.to_nat z)) z Hz ltac:(lia)) as (d & l & E & Hd).
  destruct (digits_from_digits (S (Z.to_nat z)) z 0 rest Hz ltac:(lia)) as (k & Ek).
  rewrite E in Ek |- *. cbn [app] in Ek |- *. cbn [number]. rewrite digit_digit_char by done.
  rewrite Ek. by replace (0 * 10 ^ Z.of_nat k + z) with z by lia.
Qed.

(** A decimal followed by anything but a digit reads back. *)
Lemma signed_number_to_string z rest :
  (∀ c l, rest = c :: l → digit c = None) →
  signed_number (skip_spaces (to_string z ++ rest)) = Some z.
Proof.
  intros Hrest. assert (∀ x, digits_from x rest = x) as Hstop.
  { intros x. destruct rest as [|c l]; [done|]. simpl. by rewrite (Hrest c l). }
  unfold to_string. case_bool_decide as Hneg.
  - cbn [app skip_spaces]. change (is_space "-") with false. cbn [signed_number].
    rewrite bool_decide_eq_true_2 by done. rewrite number_digits by lia.
    rewrite Hstop. simpl. f_equal. lia.
  - pose proof (number_digits z rest ltac:(lia)) as Hn.
    destruct (digits_nonneg_head (S (Z.to_nat z)) z ltac:(lia) ltac:(lia)) as (d & l & E & Hd).
    rewrite E in Hn |- *. cbn [app] in Hn |- *. destruct (digit_char_plain d Hd) as (H1 & H2 & H3).
    cbn [skip_spaces]. rewrite H1. cbn [signed_number]. rewrite !bool_decide_eq_false_2 by done.
    rewrite Hn, Hstop. done.
Qed.
Lemma stoi_to_string {S} z (s : S) :
  INT_MIN ≤ z ≤ INT_MAX → stoi (to_string z) s = Ret z s.
Proof.
  intros H. unfold stoi. pose proof (signed_number_to_string z [] ltac:(done)) as E.
  rewrite app_nil_r in E. rewrite E. by rewrite bool_decide_eq_true_2.
Qed.

(** A decimal has digits and perhaps a sign. *)
Lemma to_string_chars z c : c ∈ to_string z → c = "-"%char ∨ is_Some (digit c).
Proof.
  assert (∀ n z, 0 ≤ z → ∀ c, c ∈ digits n z → is_Some (digit c)) as H.
  { induction n as [|n IH]; intros z' Hz c'; simpl; [by intros ?%elem_of_nil|].
    intros [Hc|Hc%list_elem_of_singleton]%elem_of_app.
    - case_bool_decide; [by apply elem_of_nil in Hc|].
      apply (IH (z' / 10)); [apply Z.div_pos; lia|done].
    - subst. rewrite digit_digit_char by (apply Z.mod_pos_bound; lia). by eexists. }
  unfold to_string. case_bool_decide.
  - intros [->|Hc]%elem_of_cons; [by left|right]. by apply H in Hc; [|lia].
  - intros Hc. right. by apply H in Hc; [|lia].
Qed.

(** ** Searching and cutting *)

Definition prefix_at (sub l : bytes) : bool := bool_decide (take (length sub) l = sub).

(** [l.find(sub, from)]; [None] is npos. *)
Fixpoint find_from (sub l : bytes) (from pos : nat) : option nat :=
  if (from <=? pos)%nat && prefix_at sub l then Some pos
  else match l with [] => None | _ :: l' => find_from sub l' from (S pos) end.
Definition find (sub l : bytes) (from : nat) : option nat := find_from sub l from 0.

(** [l.substr(pos, count)]; [None] is npos. *)
Definition substr {S} (l : bytes) (pos : nat) (count : option nat) : M S bytes :=
  if decide (pos ≤ length l)%nat then
    ret (match count with Some n => take n (drop pos l) | None => drop pos l end)
  else throw (out_of_range "basic_string::substr").

Lemma find_from_spec sub l : ∀ from pos,
  match find_from sub l from pos with
  | Some i => (from ≤ i)%nat ∧ (pos ≤ i)%nat ∧ prefix_at sub (drop (i - pos) l) = true ∧
      ∀ j, (from ≤ j)%nat → (pos ≤ j < i)%nat → prefix_at sub (drop (j - pos) l) = false
  | None => ∀ j, (from ≤ j)%nat → (pos ≤ j ≤ pos + length l)%nat →
      prefix_at sub (drop (j - pos) l) = false
  end.
Proof.
  induction l as [|c l IH]; intros from pos; cbn [find_from];
    destruct ((from <=? pos)%nat && prefix_at sub _) eqn:E.
  - apply andb_true_iff in E as [E1%Nat.leb_le E2]. rewrite Nat.sub_diag.
    split; [done|]. split; [done|]. split; [done|]. lia.
  - intros j Hj Hp. simpl in Hp. assert (j = pos) as -> by lia. rewrite Nat.sub_diag. simpl.
    apply andb_false_iff in E as [E%Nat.leb_gt|E]; [lia|done].
  - apply andb_true_iff in E as [E1%Nat.leb_le E2]. rewrite Nat.sub_diag.
    split; [done|]. split; [done|]. split; [done|]. lia.
  - specialize (IH from (S pos)). destruct (find_from sub l from (S pos)) as [i|].
    + destruct IH as (H1 & H2 & H3 & H4). split; [done|]. split; [lia|].
      replace (i - pos)%nat with (S (i - S pos)) by lia. split; [done|].
      intros j Hj Hp. destruct (decide (j = pos)) as [->|Hne].
      * rewrite Nat.sub_diag. apply andb_false_iff in E as [E%Nat.leb_gt|E]; [lia|done].
      * replace (j - pos)%nat with (S (j - S pos)) by lia. apply H4; lia.
    + intros j Hj Hp. simpl in Hp. destruct (decide (j = pos)) as [->|Hne].
      * rewrite Nat.sub_diag. apply andb_false_iff in E as [E%Nat.leb_gt|E]; [lia|done].
      * replace (j - pos)%nat with (S (j - S pos)) by lia. apply IH; lia.
Qed.

Lemma prefix_at_app sub l : prefix_at sub (sub ++ l) = true.
Proof. unfold prefix_at. rewrite take_app_length. by apply bool_decide_eq_true_2. Qed.

(** [l.substr(pos, count)] with a count of type size_t. *)
Definition substr_n {S} (l : bytes) (pos : nat) (count : Z) : M S bytes :=
  if decide (pos ≤ length l)%nat then
    ret (take (Z.to_nat (Z.min count (Z.of_nat (length l - pos)))) (drop pos l))
  else throw (out_of_range "basic_string::substr").
(** A position that find returned, as a size_t. *)
Definition npos (o : option nat) : Z := match o with Some i => Z.of_nat i | None => SIZE_MAX end.

Lemma find_from_first c sub s l : ∀ from pos,
  c ∉ s → (from ≤ pos)%nat →
  find_from (c :: sub) (s ++ (c :: sub) ++ l) from pos = Some (pos + length s)%nat.
Proof.
  induction s as [|d s IH]; intros from pos Hc Hp.
  - cbn [app]. change (c :: sub ++ l) with ((c :: sub) ++ l).
    assert ((from <=? pos)%nat && prefix_at (c :: sub) ((c :: sub) ++ l) = true) as H
      by (rewrite prefix_at_app, andb_true_r; by apply Nat.leb_le).
    destruct ((c :: sub) ++ l) eqn:E; cbn [find_from]; rewrite H; simpl; f_equal; lia.
  - apply not_elem_of_cons in Hc as [Hd Hc]. cbn [app find_from].
    assert (prefix_at (c :: sub) (d :: s ++ c :: sub ++ l) = false) as H.
    { unfold prefix_at. apply bool_decide_eq_false. simpl. congruence. }
    rewrite H, andb_false_r. change (c :: sub ++ l) with ((c :: sub) ++ l).
    rewrite IH by (done || lia). simpl. f_equal. lia.
Qed.
Lemma find_from_absent c sub l : ∀ from pos, c ∉ l → find_from (c :: sub) l from pos = None.
Proof.
  induction l as [|d l IH]; intros from pos Hc; cbn [find_from].
  - unfold prefix_at. simpl. by rewrite andb_false_r.
  - apply not_elem_of_cons in Hc as [Hd Hc].
    assert (prefix_at (c :: sub) (d :: l) = false) as H.
    { unfold prefix_at. apply bool_decide_eq_false. simpl. congruence. }
    rewrite H, andb_false_r. by apply IH.
Qed.
Lemma find_from_skip sub s l : ∀ from pos,
  (from = pos + length s)%nat → find_from sub (s ++ l) from pos = find_from sub l from from.
Proof.
  induction s as [|d s IH]; intros from pos Hf; simpl in Hf.
  - by replace pos with from by lia.
  - cbn [app find_from]. replace ((from <=? pos)%nat) with false
      by (symmetry; apply Nat.leb_gt; lia). cbn [andb]. apply IH. lia.
Qed.

(** ** Buffers read as C strings *)

(** The characters up to the terminating zero byte of a buffer. *)
Fixpoint c_string {S} (l : list (option ascii)) : M S bytes :=
  match l with
  | [] => undef OutOfBounds
  | None :: _ => undef Indeterminate
  | Some c :: l' =>
      if bool_decide (c = NUL) then ret []
      else let! t := c_string l' in ret (c :: t)
  end.

Lemma c_string_unterminated {S} d n (s : S) :
  NUL ∉ d → ∃ u, c_string ((map Some d) ++ replicate n None) s = Undef u.
Proof.
  induction d as [|c d IH]; intros Hd; simpl.
  - destruct n; by eexists.
  - apply not_elem_of_cons in Hd as [Hc Hd]. rewrite bool_decide_eq_false_2 by done.
    destruct (IH Hd) as [u E]. exists u. unfold bind. by rewrite E.
Qed.
Lemma c_string_terminated {S} d r (s : S) :
  NUL ∉ d → c_string ((Some <$> d) ++ Some NUL :: r) s = Ret d s.
Proof.
  induction d as [|c d IH]; intros Hd; simpl; [done|]. apply not_elem_of_cons in Hd as [Hc Hd].
  rewrite bool_decide_eq_false_2 by done. by rewrite (bind_eq_ret _ _ _ _ _ (IH Hd)).
Qed.
