(* ===== verification/Options.v ===== *)
(** * Options: the command line of libtpevent

    Models net/libtpevent/src/options.hpp, options.cpp and utils.cpp. boost's
    split and starts_with are parameters, with what their documentation
    promises as hypotheses of the theorems that need it. *)

From S2P Require Import Prelude Posix Text.

Inductive engine_t : Type := UNKNOWN | SELECT | POLL.
#[export] Instance engine_t_eq_dec : EqDecision engine_t.
Proof. solve_decision. Defined.

(** The fields have no initialisers: [None] is an indeterminate value. *)
Record Options : Type := mkOptions {
  m_Port : option Z;         (* uint16_t *)
  m_Engine : option engine_t;
  m_Async : option bool
}.
Abbreviation onet := (net Options).

Section Options.
(** boost::split with boost::is_any_of, and boost::starts_with. *)
Context (boost_split : bytes → bytes → list bytes).
Context (boost_starts_with : bytes → bytes → bool).

Definition opt_port : bytes := b "port".
Definition opt_engine : bytes := b "engine".
Definition opt_async : bytes := b "async".

Definition split (line delimiter : bytes) : list bytes := boost_split line delimiter.
Definition starts_with (s predicate : bytes) : bool := boost_starts_with s predicate.

(** The accessors: reading a field that was never set is undefined. *)
Definition port : M onet Z := let! s := get in or_undef Indeterminate (m_Port (own s)).
Definition engine : M onet engine_t := let! s := get in or_undef Indeterminate (m_Engine (own s)).
Definition async : M onet bool := let! s := get in or_undef Indeterminate (m_Async (own s)).

Definition set_port (p : Z) : M onet unit :=
  set_own (λ o, mkOptions (Some p) (m_Engine o) (m_Async o)).
Definition set_engine (e : engine_t) : M onet unit :=
  set_own (λ o, mkOptions (m_Port o) (Some e) (m_Async o)).
Definition set_async (a : bool) : M onet unit :=
  set_own (λ o, mkOptions (m_Port o) (m_Engine o) (Some a)).

Definition tab : string := String (ascii_of_nat 9) EmptyString.
Definition usage_text (progname : bytes) : list (out False) :=
  [OEndl; OStr tab; OStr "Usage: "; OStr (text progname); OStr " ";
   OStr "--"; OStr "port"; OStr "=port ";
   OStr "--"; OStr "engine"; OStr "=[select|poll] ";
   OStr "--"; OStr "async"; OStr "=[0|1]"; OEndl; OEndl;
   OStr tab; OStr "port"; OStr ": 1025..65536"; OEndl;
   OStr tab; OStr "engine"; OStr ": engine for event loop"; OEndl;
   OStr tab; OStr "async"; OStr ": sync or async (threaded) engine"; OEndl; OEndl; OEndl].
(** [progname] is [args[0]], null when the program has no arguments at all. *)
Definition usage (progname : option bytes) : M onet unit :=
  let! p := or_undef NullPointer progname in say (usage_text p).

Definition string2engine (s : bytes) : engine_t :=
  if bool_decide (s = b "select") then SELECT
  else if bool_decide (s = b "poll") then POLL
  else UNKNOWN.

Definition bad_options (args : list bytes) : M onet unit :=
  usage (args !! 0%nat) ;; throw (runtime_error "bad options").

(** The body of the loop over the arguments. *)
Definition parse_arg (args : list bytes) (arg : bytes) : M onet unit :=
  let opt := split arg (b "=") in
  match opt with
  | [opt_name; value] =>
      let! opt_name :=
        if starts_with opt_name (b "--") then substr opt_name 2 None else ret opt_name in
      if bool_decide (opt_name = opt_port) then
        let! n := stoi value in set_port (u16 n)
      else if bool_decide (opt_name = opt_engine) then
        set_engine (string2engine value) ;;
        let! e := engine in
        if bool_decide (e = UNKNOWN) then bad_options args else ret tt
      else if bool_decide (opt_name = opt_async) then
        let! async := stoi value in
        if bool_decide (async = 0) then set_async false
        else if bool_decide (async = 1) then set_async true
        else bad_options args
      else bad_options args
  | _ => bad_options args
  end.

(** [args] are the [count] strings the caller passes. *)
Definition Options_ctor (args : list bytes) : M onet unit :=
  if bool_decide (Z.of_nat (length args) < 4) then bad_options args
  else for_each (parse_arg args) (tail args).

(** ** What boost promises *)

Definition occurs (d : ascii) (l : bytes) : Prop := d ∈ l.
(** The pieces between the delimiters, joined back, are the line. *)
Fixpoint join (d : ascii) (l : list bytes) : bytes :=
  match l with
  | [] => []
  | [x] => x
  | x :: l' => x ++ d :: join d l'
  end.
Definition split_splits : Prop := ∀ line d,
  boost_split line [d] ≠ [] ∧ join d (boost_split line [d]) = line ∧
  Forall (λ piece, ¬ occurs d piece) (boost_split line [d]).
Definition starts_with_prefix : Prop := ∀ s p,
  boost_starts_with s p = true ↔ ∃ rest, s = p ++ rest.

Lemma split_two x y d :
  split_splits → ¬ occurs d x → ¬ occurs d y → boost_split (x ++ d :: y) [d] = [x; y].
Proof.
  intros Hs Hx Hy. destruct (Hs (x ++ d :: y) d) as (Hne & Hj & Hf).
  assert (∀ x x' y y', ¬ occurs d x → ¬ occurs d x' → x ++ d :: y = x' ++ d :: y' →
    x = x' ∧ y = y') as Hsplit.
  { clear. unfold occurs. induction x as [|c x IH]; intros [|c' x'] y y' Hx Hx'; simpl.
    - by intros [= ->].
    - intros [= <- _]. destruct Hx'. left.
    - intros [= -> _]. destruct Hx. left.
    - intros [= -> E]. destruct (IH x' y y') as [-> ->]; try done.
      + intros H; apply Hx; by right.
      + intros H; apply Hx'; by right. }
  destruct (boost_split (x ++ d :: y) [d]) as [|p l]; [done|].
  destruct l as [|q l]; simpl in Hj.
  - exfalso. rewrite Forall_singleton in Hf. apply Hf. rewrite Hj. unfold occurs.
    apply elem_of_app. right. left.
  - rewrite Forall_cons in Hf. destruct Hf as [Hp Hf].
    destruct (Hsplit p x (join d (q :: l)) y) as [-> Hq]; [done..|].
    destruct l as [|r l]; [by rewrite <-Hq|]. exfalso. apply Hy. rewrite <-Hq.
    apply elem_of_app. right. left.
Qed.

(** ** The options the usage text shows *)

Definition option_arg (name value : bytes) : bytes := b "--" ++ name ++ "="%char :: value.

Lemma parse_arg_named args name value (s : onet) :
  split_splits → starts_with_prefix → ¬ occurs "="%char name → ¬ occurs "="%char value →
  parse_arg args (option_arg name value) s =
    (if bool_decide (name = opt_port) then let! n := stoi value in set_port (u16 n)
     else if bool_decide (name = opt_engine) then
       set_engine (string2engine value) ;;
       let! e := engine in if bool_decide (e = UNKNOWN) then bad_options args else ret tt
     else if bool_decide (name = opt_async) then
       let! async := stoi value in
       if bool_decide (async = 0) then set_async false
       else if bool_decide (async = 1) then set_async true
       else bad_options args
     else bad_options args) s.
Proof.
  intros Hs Hp Hn Hv. unfold parse_arg, split, option_arg. rewrite app_assoc.
  change (b "=") with ["="%char]. rewrite split_two; [|done| |done].
  - assert (starts_with (b "--" ++ name) (b "--") = true) as -> by (apply Hp; by eexists).
    reflexivity.
  - unfold occurs in *. intros [H|H]%elem_of_app; [|done].
    change (b "--") with ["-"%char; "-"%char] in H.
    by repeat (apply elem_of_cons in H as [H|H]; [discriminate|]); apply elem_of_nil in H.
Qed.

Definition engine_name (e : engine_t) : bytes :=
  match e with SELECT => b "select" | POLL => b "poll" | UNKNOWN => b "?" end.
Definition async_name (a : bool) : bytes := if a then b "1" else b "0".

Lemma decimal_no_equals n : ¬ occurs "="%char (to_string n).
Proof. intros [H|[d H]]%to_string_chars; discriminate. Qed.

(** The three options as written in the usage text. *)
Lemma parse_port args n (s : onet) :
  split_splits → starts_with_prefix → INT_MIN ≤ n ≤ INT_MAX →
  parse_arg args (option_arg opt_port (to_string n)) s = set_port (u16 n) s.
Proof.
  intros Hs Hp Hn. rewrite parse_arg_named; [|done|done|by apply (bool_decide_unpack _)|apply decimal_no_equals].
  simpl. by rewrite (bind_eq_ret _ _ _ _ _ (stoi_to_string n s Hn)).
Qed.
Lemma parse_engine args e (s : onet) :
  split_splits → starts_with_prefix → e ≠ UNKNOWN →
  parse_arg args (option_arg opt_engine (engine_name e)) s = set_engine e s.
Proof.
  intros Hs Hp He. rewrite parse_arg_named;
    [|done|done|by apply (bool_decide_unpack _)|by destruct e; apply (bool_decide_unpack _)].
  by destruct e.
Qed.
Lemma parse_async args a (s : onet) :
  split_splits → starts_with_prefix →
  parse_arg args (option_arg opt_async (async_name a)) s = set_async a s.
Proof.
  intros Hs Hp. rewrite parse_arg_named;
    [|done|done|by apply (bool_decide_unpack _)|by destruct a; apply (bool_decide_unpack _)].
  by destruct a.
Qed.

Definition with_options (o : Options) (s : onet) : onet :=
  mkNet o (errno s) (trace s) (cerr s).

Lemma Options_ctor_parses prog n e a (s : onet) :
  split_splits → starts_with_prefix → INT_MIN ≤ n ≤ INT_MAX → e ≠ UNKNOWN →
  Options_ctor [prog; option_arg opt_port (to_string n); option_arg opt_engine (engine_name e);
                option_arg opt_async (async_name a)] s =
    Ret tt (with_options (mkOptions (Some (n mod 2 ^ 16)) (Some e) (Some a)) s).
Proof.
  intros Hs Hp Hn He. unfold Options_ctor. simpl.
  unfold bind. rewrite parse_port by done. simpl. rewrite parse_engine by done. simpl.
  by rewrite parse_async.
Qed.

(** C32. The command line of the usage text is parsed into its three settings;
    the port is any int, reduced modulo 2^16 and not checked against the
    documented range 1025..65536. *)
Theorem Options_parses prog n e a (s : onet) :
  split_splits → starts_with_prefix → INT_MIN ≤ n ≤ INT_MAX → e ≠ UNKNOWN →
  Options_ctor [prog; option_arg opt_port (to_string n); option_arg opt_engine (engine_name e);
                option_arg opt_async (async_name a)] s =
    Ret tt (with_options (mkOptions (Some (n mod 2 ^ 16)) (Some e) (Some a)) s).
Proof. apply Options_ctor_parses. Qed.

(** Three options of the right shape are accepted even when they are not
    the three different ones: after the same port three times the object is
    constructed with an indeterminate engine and async flag. *)
Theorem Options_repeated_leaves_indeterminate prog n (s : onet) :
  split_splits → starts_with_prefix → INT_MIN ≤ n ≤ INT_MAX →
  own s = mkOptions None None None →
  let p := option_arg opt_port (to_string n) in
  ∃ s', Options_ctor [prog; p; p; p] s = Ret tt s' ∧
    port s' = Ret (u16 n) s' ∧ engine s' = Undef Indeterminate ∧ async s' = Undef Indeterminate.
Proof.
  intros Hs Hp Hn Hown p. eexists. split.
  - unfold Options_ctor. simpl. unfold bind, p. rewrite parse_port by done. simpl.
    rewrite parse_port by done. simpl. rewrite parse_port by done. reflexivity.
  - unfold port, engine, async, bind, get. simpl. by rewrite Hown.
Qed.

(** ** What is accepted and what is refused *)

(** An argument that gives [value] to the option [name], with or without "--". *)
Definition written (name value arg : bytes) : Prop :=
  ¬ occurs "="%char value ∧
  (arg = option_arg name value ∧ ¬ occurs "="%char name ∨
   arg = name ++ "="%char :: value ∧ ¬ occurs "="%char name ∧ ¬ ∃ rest, name = b "--" ++ rest).

Inductive acceptable : bytes → Prop :=
  | a_port value arg n : written opt_port value arg → stoi value tt = Ret n tt → acceptable arg
  | an_engine value arg e : written opt_engine value arg → value = engine_name e → e ≠ UNKNOWN → acceptable arg
  | an_async value arg n :
      written opt_async value arg → stoi value tt = Ret n tt → n = 0 ∨ n = 1 → acceptable arg.

(** How an argument is refused: the exception, and what is printed before. *)
Inductive refused (prog : bytes) : bytes → exn → list (out False) → Prop :=
  | not_a_pair arg :
      (∀ name value, arg = name ++ "="%char :: value → occurs "="%char name ∨ occurs "="%char value) →
      refused prog arg (runtime_error "bad options") (usage_text prog)
  | unknown_name name value arg :
      written name value arg → name ≠ opt_port → name ≠ opt_engine → name ≠ opt_async →
      refused prog arg (runtime_error "bad options") (usage_text prog)
  | unknown_engine value arg :
      written opt_engine value arg → value ≠ b "select" → value ≠ b "poll" →
      refused prog arg (runtime_error "bad options") (usage_text prog)
  | unknown_async value arg n :
      written opt_async value arg → stoi value tt = Ret n tt → n ≠ 0 → n ≠ 1 →
      refused prog arg (runtime_error "bad options") (usage_text prog)
  | not_a_number name value arg e :
      name = opt_port ∨ name = opt_async → written name value arg → stoi value tt = Exc e tt →
      refused prog arg e [].

Lemma stoi_any l (s : onet) :
  match stoi l tt with Ret n _ => stoi l s = Ret n s | Exc e _ => stoi l s = Exc e s | _ => False end.
Proof. unfold stoi. destruct (signed_number (skip_spaces l)) as [n|]; [|done]. by destruct (bool_decide _). Qed.

(** The outcome of an argument: accepted, or refused as above. *)
Definition judged (prog arg : bytes) (s : onet) (r : result onet unit) : Prop :=
  match r with
  | Ret _ s' => acceptable arg ∧ cerr s' = cerr s ∧ trace s' = trace s
  | Exc e s' => ∃ printed, refused prog arg e printed ∧ cerr s' = cerr s ++ printed ∧ trace s' = trace s
  | _ => False
  end.
Lemma bad_options_judged prog args arg (s s0 : onet) :
  refused prog arg (runtime_error "bad options") (usage_text prog) →
  cerr s0 = cerr s → trace s0 = trace s → judged prog arg s (bad_options (prog :: args) s0).
Proof. intros Hr Hc Ht. exists (usage_text prog). simpl. by rewrite Hc. Qed.
Lemma named_judged prog args name value arg (s : onet) :
  written name value arg →
  judged prog arg s
    ((if bool_decide (name = opt_port) then let! n := stoi value in set_port (u16 n)
      else if bool_decide (name = opt_engine) then
        set_engine (string2engine value) ;;
        let! e := engine in if bool_decide (e = UNKNOWN) then bad_options (prog :: args) else ret tt
      else if bool_decide (name = opt_async) then
        let! async := stoi value in
        if bool_decide (async = 0) then set_async false
        else if bool_decide (async = 1) then set_async true
        else bad_options (prog :: args)
      else bad_options (prog :: args)) s).
Proof.
  intros Hw. pose proof (stoi_any value s) as Hn.
  case_bool_decide as H1; [subst name|case_bool_decide as H2; [subst name|case_bool_decide as H3; [subst name|]]].
  - unfold bind. destruct (stoi value tt) as [n []|e []|? ?|?|] eqn:E; try done; rewrite Hn.
    + split; [|done]. by eapply a_port.
    + exists []. rewrite app_nil_r. split; [|done]. eapply not_a_number; [by left|done..].
  - unfold string2engine. case_bool_decide as Hs; [|case_bool_decide as Hp].
    + split; [|done]. by eapply (an_engine _ _ SELECT).
    + split; [|done]. by eapply (an_engine _ _ POLL).
    + simpl. apply (bad_options_judged prog args arg s); [|done..]. by eapply unknown_engine.
  - unfold bind. destruct (stoi value tt) as [n []|e []|? ?|?|] eqn:E; try done; rewrite Hn.
    + case_bool_decide as H0; [split; [|done]; eapply an_async; [done..|by left]|].
      case_bool_decide; [split; [|done]; eapply an_async; [done..|by right]|].
      apply bad_options_judged; [|done..]. by eapply unknown_async.
    + exists []. rewrite app_nil_r. split; [|done]. eapply not_a_number; [by right|done..].
  - apply bad_options_judged; [|done..]. by eapply unknown_name.
Qed.
Lemma parse_arg_judged prog args arg (s : onet) :
  split_splits → starts_with_prefix → judged prog arg s (parse_arg (prog :: args) arg s).
Proof.
  intros Hs Hp. unfold parse_arg, split. change (b "=") with ["="%char].
  destruct (Hs arg "="%char) as (Hne & Hj & Hf).
  assert ((∀ x y, boost_split arg ["="%char] ≠ [x; y]) →
    refused prog arg (runtime_error "bad options") (usage_text prog)) as Hbad.
  { intros Hno. apply not_a_pair. intros name value ->.
    destruct (decide (occurs "="%char name)); [by left|]. destruct (decide (occurs "="%char value)); [by right|].
    by destruct (Hno name value); apply split_two. }
  destruct (boost_split arg ["="%char]) as [|x [|y [|z l]]];
    [done|by apply bad_options_judged; [apply Hbad|..]| |by apply bad_options_judged; [apply Hbad|..]].
  simpl in Hj. rewrite !Forall_cons in Hf. destruct Hf as (Hx & Hy & _).
  destruct (starts_with x (b "--")) eqn:Hd.
  - apply Hp in Hd as [name ->]. unfold substr. rewrite decide_True by (rewrite length_app; simpl; lia).
    rewrite bind_ret_l. change (drop 2 (b "--" ++ name)) with name. apply named_judged.
    split; [done|]. left. unfold option_arg. rewrite app_assoc. split; [done|].
    intros Ho. apply Hx, elem_of_app. by right.
  - rewrite bind_ret_l. apply named_judged. split; [done|]. right. split; [done|]. split; [done|].
    intros Hr. apply Hp in Hr. unfold starts_with in Hd. congruence.
Qed.
Lemma parse_all_judged prog args all : ∀ s : onet,
  split_splits → starts_with_prefix →
  match for_each (parse_arg (prog :: all)) args s with
  | Ret _ s' => Forall acceptable args ∧ cerr s' = cerr s ∧ trace s' = trace s
  | Exc e s' => ∃ good arg rest printed, args = good ++ arg :: rest ∧ Forall acceptable good ∧
      refused prog arg e printed ∧ cerr s' = cerr s ++ printed ∧ trace s' = trace s
  | _ => False
  end.
Proof.
  induction args as [|arg args IH]; intros s Hs Hp; [by simpl|]. cbn [for_each].
  pose proof (parse_arg_judged prog all arg s Hs Hp) as H. unfold bind.
  destruct (parse_arg (prog :: all) arg s) as [[] s1|e s1|? ?|?|]; try done.
  - destruct H as (Ha & Hc & Ht). specialize (IH s1 Hs Hp).
    destruct (for_each _ args s1) as [[] s2|e s2|? ?|?|]; try done; rewrite Hc, Ht in IH.
    + destruct IH as (? & ? & ?). split; [by constructor|done].
    + destruct IH as (good & arg' & rest & printed & -> & Hg & H). exists (arg :: good), arg', rest, printed.
      split; [done|]. split; [by constructor|done].
  - destruct H as (printed & Hr & H). by exists [], arg, args, printed.
Qed.

(** C33. The constructor accepts a command line exactly when it has three
    arguments or more and each gives a readable value to one of the options; else
    the first argument that does not is refused: an argument without exactly one
    "=", an unknown name, an unknown engine or an async flag other than 0 and 1
    prints the usage and throws "bad options", a port or async flag that is not an
    int throws the exception of stoi and prints nothing. *)
Theorem Options_refuses prog args (s : onet) :
  split_splits → starts_with_prefix →
  match Options_ctor (prog :: args) s with
  | Ret _ s' => (3 ≤ length args)%nat ∧ Forall acceptable args ∧ cerr s' = cerr s ∧ trace s' = trace s
  | Exc e s' => trace s' = trace s ∧ ∃ printed, cerr s' = cerr s ++ printed ∧
      ((length args < 3)%nat ∧ e = runtime_error "bad options" ∧ printed = usage_text prog ∨
       (3 ≤ length args)%nat ∧ ∃ good arg rest, args = good ++ arg :: rest ∧ Forall acceptable good ∧
         refused prog arg e printed)
  | _ => False
  end.
Proof.
  intros Hs Hp. unfold Options_ctor. cbn [length tail]. case_bool_decide as Hl.
  - simpl. split; [done|]. exists (usage_text prog). split; [done|]. left. split; [lia|done].
  - pose proof (parse_all_judged prog args args s Hs Hp) as H.
    destruct (for_each _ args s) as [[] s'|e s'|? ?|?|]; try done.
    + split; [lia|done].
    + destruct H as (good & arg & rest & printed & Ha & Hg & Hr & Hc & Ht). split; [done|].
      exists printed. split; [done|]. right. split; [lia|]. by exists good, arg, rest.
Qed.
End Options.

(** ** Witnesses, with simple splitting functions *)

Fixpoint split_on (d : ascii) (l : bytes) : list bytes :=
  match l with
  | [] => [[]]
  | c :: l' =>
      if decide (c = d) then [] :: split_on d l'
      else match split_on d l' with [] => [[c]] | p :: ps => (c :: p) :: ps end
  end.
Definition plain_split (line delimiter : bytes) : list bytes :=
  match delimiter with [d] => split_on d line | _ => [line] end.
Definition plain_starts_with (s p : bytes) : bool := prefix_at p s.

Lemma plain_split_splits : split_splits plain_split.
Proof.
  intros line d. simpl. induction line as [|c l (IH1 & IH2 & IH3)]; simpl.
  - split; [done|]. split; [done|]. constructor; [apply not_elem_of_nil|constructor].
  - case_decide as Hc.
    + subst c. split; [done|]. split.
      * simpl. destruct (split_on d l) as [|p ps] eqn:E; [done|]. by rewrite <-IH2.
      * constructor; [apply not_elem_of_nil|done].
    + destruct (split_on d l) as [|p ps]; [done|]. split; [done|]. split.
      * rewrite <-IH2. by destruct ps.
      * apply Forall_cons in IH3 as [Hp Hps]. constructor; [|done].
        unfold occurs in *. rewrite not_elem_of_cons. done.
Qed.
Lemma plain_starts_with_prefix : starts_with_prefix plain_starts_with.
Proof.
  intros s p. unfold plain_starts_with, prefix_at. rewrite bool_decide_eq_true. split.
  - intros H. exists (drop (length p) s). by rewrite <-H at 1; rewrite take_drop.
  - intros (rest & ->). apply take_app_length.
Qed.

Definition no_options : onet := mkNet (mkOptions None None None) 0 [] [].

Lemma Options_parses_witness :
  Options_ctor plain_split plain_starts_with
    [b "tpevent"; option_arg opt_port (to_string 70000); option_arg opt_engine (engine_name POLL);
     option_arg opt_async (async_name true)] no_options =
    Ret tt (with_options (mkOptions (Some (70000 mod 2 ^ 16)) (Some POLL) (Some true)) no_options).
Proof.
  apply (Options_parses plain_split plain_starts_with (b "tpevent") 70000 POLL true no_options
    plain_split_splits plain_starts_with_prefix); [vm_compute; split; discriminate|discriminate].
Defined.
Lemma Options_repeated_leaves_indeterminate_witness :
  let p := option_arg opt_port (to_string 8080) in
  ∃ s', Options_ctor plain_split plain_starts_with [b "tpevent"; p; p; p] no_options = Ret tt s' ∧
    port s' = Ret (u16 8080) s' ∧ engine s' = Undef Indeterminate ∧ async s' = Undef Indeterminate.
Proof.
  apply (Options_repeated_leaves_indeterminate plain_split plain_starts_with (b "tpevent") 8080
    no_options plain_split_splits plain_starts_with_prefix);
    [vm_compute; split; discriminate|reflexivity].
Defined.
(** The second argument names an engine that does not exist. *)
Definition unknown_second : list bytes :=
  [option_arg opt_port (to_string 8080); option_arg opt_engine (b "epoll"); option_arg opt_async (b "2")].
Lemma Options_refuses_witness :
  match Options_ctor plain_split plain_starts_with (b "tpevent" :: unknown_second) no_options with
  | Ret _ s' => (3 ≤ length unknown_second)%nat ∧ Forall acceptable unknown_second ∧ cerr s' = [] ∧ trace s' = []
  | Exc e s' => trace s' = [] ∧ ∃ printed, cerr s' = [] ++ printed ∧
      ((length unknown_second < 3)%nat ∧ e = runtime_error "bad options" ∧ printed = usage_text (b "tpevent") ∨
       (3 ≤ length unknown_second)%nat ∧ ∃ good arg rest, unknown_second = good ++ arg :: rest ∧
         Forall acceptable good ∧ refused (b "tpevent") arg e printed)
  | _ => False
  end.
Proof.
  exact (Options_refuses plain_split plain_starts_with (b "tpevent") unknown_second no_options
    plain_split_splits plain_starts_with_prefix).
Defined.
Example second_is_refused :
  match Options_ctor plain_split plain_starts_with (b "tpevent" :: unknown_second) no_options with
  | Exc e s' => e = runtime_error "bad options" ∧ cerr s' = usage_text (b "tpevent") ∧ m_Port (own s') = Some 8080
  | _ => False
  end.
Proof. vm_compute. repeat split; reflexivity. Qed.
