(* ===== verification/Engine.v ===== *)
(** * Engine: the listening socket of the libtpevent engines

    Models net/libtpevent/src/engine.hpp and engine.cpp. The descriptor that
    [listenSocket] yields is the result of the model's constructor; the
    engines keep it with their own state. *)

From S2P Require Import Prelude Posix.

Inductive client_state_t : Type := WANT_READ | WANT_WRITE.
#[export] Instance client_state_eq_dec : EqDecision client_state_t.
Proof. solve_decision. Defined.

Record Client : Type := mkClient { sd : Z; state : client_state_t }.
#[export] Instance Client_eq_dec : EqDecision Client.
Proof. solve_decision. Defined.

(** [Client(int _sd)] *)
Definition Client_ctor (_sd : Z) : Client := mkClient _sd WANT_READ.

Definition kListenQueueSize : Z := 25.

(** Calls appended one by one. *)
Lemma app_cons_snoc {A} (l : list A) x r : l ++ x :: r = (l ++ [x]) ++ r.
Proof. by rewrite <-app_assoc. Qed.

Section Engine.
Context {Os : OS} {T : Type}.

Definition listenSocket (port listen_queue_size : Z) : M (net T) Z :=
  let! r := sys Socket in
  let sd := rc r in
  if bool_decide (sd <= 0) then ret (-1)
  else
    let! r := sys (Setsockopt sd "SO_REUSEADDR") in
    if bool_decide (rc r = -1) then ret (-1)
    else
      let! r := sys (Bind sd (u16 port)) in
      if bool_decide (rc r < 0) then ret (-1)
      else
        let! _ := sys (Listen sd listen_queue_size) in
        ret sd.

(** The descriptor kept in [m_Listener]. *)
Definition Engine_ctor (port : Z) : M (net T) Z :=
  let! m_Listener := listenSocket port kListenQueueSize in
  if bool_decide (m_Listener <= 0) then throw_errno "error listen socket: "
  else ret m_Listener.

Definition Engine_dtor (m_Listener : Z) : M (net T) unit :=
  let! _ := sys (Close m_Listener) in ret tt.

(** The calls that succeed before [c] for a descriptor [fd]. *)
Definition setup_calls (fd port : Z) : list call :=
  [Socket; Setsockopt fd "SO_REUSEADDR"; Bind fd (u16 port); Listen fd kListenQueueSize].

(** What listenSocket takes for a failure; of listen it takes no notice. *)
Definition noticed (e : call * reply) : Prop :=
  match e.1 with
  | Socket => rc e.2 <= 0
  | Setsockopt _ _ => rc e.2 = -1
  | Bind _ _ => rc e.2 < 0
  | _ => False
  end.

(** C34. The constructor of an engine makes the listening socket or throws. When
    no call fails it makes them all and keeps the descriptor; the first call that
    fails - socket, setsockopt or bind: listen is not looked at - is the last one,
    and the exception tells its errno. In no case does it close anything: the
    descriptor that socket() gave is held also when the constructor throws, and
    nobody knows it. *)
Theorem Engine_ctor_outcomes port (s : net T) :
  let fd := rc (answer_to (trace s) Socket) in
  ∃ made, match Engine_ctor port s with
    | Ret l s' => trace s' = trace s ++ made ∧ l = fd ∧ calls_of made = setup_calls fd port ∧
        Forall (λ e, ¬ noticed e) made ∧ held (trace s') = fd :: held (trace s)
    | Exc e s' => trace s' = trace s ++ made ∧
        e = runtime_error (String.append "error listen socket: " (strerror (errno s'))) ∧
        (∃ before f, made = before ++ [f] ∧ calls_of made `prefix_of` setup_calls fd port ∧
           Forall (λ e, ¬ noticed e) before ∧ noticed f) ∧
        held (trace s') = (if bool_decide (0 ≤ fd) then [fd] else []) ++ held (trace s)
    | _ => False
    end.
Proof.
  intros fd. unfold Engine_ctor, listenSocket. rewrite bind_assoc, bind_sys. fold fd.
  assert (∃ l0, l0 = (if bool_decide (0 ≤ fd) then [fd] else []) ++ held (trace s) ∧
    held (trace s ++ [(Socket, answer_to (trace s) Socket)]) = l0 ∧ (¬ fd <= 0 → l0 = fd :: held (trace s)))
    as (l0 & <- & Hheld & Hfd).
  { eexists. split; [reflexivity|]. rewrite held_snoc. unfold hold1. simpl. fold fd.
    case_bool_decide; [done|]. split; [done|lia]. }
  case_bool_decide as H1.
  { eexists [_]. split; [reflexivity|]. split; [done|]. split; [|exact Hheld].
    eexists [], _. split; [reflexivity|]. split; [by eexists|]. by split. }
  rewrite bind_assoc, bind_sys. set (r1 := answer_to _ (Setsockopt _ _)). case_bool_decide as H2.
  { eexists [_; (Setsockopt fd _, r1)]. split; [by rewrite !(app_cons_snoc _ _ (_ :: _))|]. split; [done|]. split.
    - eexists [_], _. split; [reflexivity|]. split; [by eexists|].
      split; [|exact H2]. rewrite ?Forall_cons, Forall_nil; simpl; tauto.
    - simpl. rewrite held_other by done. exact Hheld. }
  rewrite bind_assoc, bind_sys. set (r2 := answer_to _ (Bind _ _)). case_bool_decide as H3.
  { eexists [_; (Setsockopt fd _, r1); (Bind fd _, r2)]. split; [by rewrite !(app_cons_snoc _ _ (_ :: _))|]. split; [done|]. split.
    - eexists [_; _], _. split; [reflexivity|]. split; [by eexists|].
      split; [|exact H3]. rewrite ?Forall_cons, Forall_nil; simpl; tauto.
    - simpl. rewrite !held_other by done. exact Hheld. }
  rewrite bind_assoc, bind_sys, bind_ret_l, bool_decide_eq_false_2 by done.
  eexists [_; (Setsockopt fd _, r1); (Bind fd _, r2); (Listen fd _, _)].
  split; [by rewrite !(app_cons_snoc _ _ (_ :: _))|]. split; [done|]. split; [done|].
  split; [rewrite ?Forall_cons, Forall_nil; simpl; tauto|]. simpl. rewrite !held_other by done. rewrite Hheld. by apply Hfd.
Qed.
End Engine.
