(* ===== verification/SelectEngine.v ===== *)
(** * SelectEngine: the echo server on select()

    Models net/libtpevent/src/select.hpp and select.cpp. One round of the loop
    of [manageConnections] is one program over the operating system of
    Posix.v. *)

From S2P Require Import Prelude Posix Engine.

Record SelectEngine : Type := mkSelectEngine { m_Listener : Z; m_Clients : list Client }.
Abbreviation snet := (net SelectEngine).

Definition newline : string := String LF EmptyString.

Section SelectEngine.
Context {Os : OS}.

Definition listener : M snet Z := gets (λ s, m_Listener (own s)).
Definition clients : M snet (list Client) := gets (λ s, m_Clients (own s)).
Definition set_clients (l : list Client) : M snet unit :=
  set_own (λ e, mkSelectEngine (m_Listener e) l).
Definition push_client (c : Client) : M snet unit :=
  let! l := clients in set_clients (l ++ [c]).

(** The answer to [tmp]. *)
Definition echo (tmp : bytes) : bytes := b "echo: " ++ tmp ++ [LF].

(** The branch of a ready client; yields disconnected_clients. *)
Definition read_client (fd : Z) (disconnected : list Z) : M snet (list Z) :=
  let! r := sys (Read fd 256) in
  if bool_decide (rc r < 0) then
    say [OStr "some read error!"; OStr newline] ;;
    ret (disconnected ++ [fd])
  else
    let! tmp := terminated 256 (rc r) (got r) in
    let! tmp := strip tmp in
    (if bool_decide (rc r > 0) then
       say [OStr "read: "; OInt (rc r); OStr " bytes ["; OStr (text tmp); OStr "]"; OStr newline] ;;
       let ans := echo tmp in
       let! _ := sys (Write fd ans) in ret tt
     else ret tt) ;;
    if bool_decide (rc r = 0) then
      say [OStr "client disconnected: "; OInt fd; OStr newline] ;;
      ret (disconnected ++ [fd])
    else ret disconnected.

(** [for (size_t i = 0; i < m_Clients.size(); ++i)]; the size changes only
    where the loop breaks. *)
Fixpoint service (fuel : nat) (i : nat) (read_fds : list Z) (disconnected : list Z) :
    M snet (list Z) :=
  match fuel with
  | O => no_fuel
  | S fuel' =>
      let! cs := clients in
      match cs !! i with
      | None => ret disconnected
      | Some c =>
          fd_in_set (sd c) ;;
          if negb (bool_decide (sd c ∈ read_fds)) then service fuel' (S i) read_fds disconnected
          else
            let! l := listener in
            if bool_decide (sd c = l) then
              let! r := sys (Accept l) in
              let cli_sd := rc r in
              say [OStr "new client: "; OInt cli_sd; OStr newline] ;;
              push_client (Client_ctor cli_sd) ;;
              ret disconnected
            else
              let! disconnected := read_client (sd c) disconnected in
              service fuel' (S i) read_fds disconnected
      end
  end.

(** Removing one disconnected client; a failing assert aborts (SIGABRT). *)
Fixpoint erase_sd (fd : Z) (l : list Client) : option (list Client) :=
  match l with
  | [] => None
  | c :: l' => if bool_decide (sd c = fd) then Some l' else cons c <$> erase_sd fd l'
  end.
Definition remove_client (fd : Z) : M snet unit :=
  let! cs := clients in
  match erase_sd fd cs with
  | None => exit_with 134
  | Some cs' =>
      let! _ := sys (Close fd) in
      fd_in_set fd ;;
      set_clients cs'
  end.

Definition round : M snet unit :=
  let! l := listener in
  fd_in_set l ;;
  let! cs := clients in
  let fdmax := foldl (λ m i, if bool_decide (sd i > m) then sd i else m) l cs in
  for_each (λ i, fd_in_set (sd i)) cs ;;
  let! sel := sys (Select (fdmax + 1) (l :: map sd cs) [] None) in
  if bool_decide (rc sel = -1) then exit_with 1
  else if bool_decide (rc sel = 0) then ret tt
  else
    let! n := gets (λ s, length (m_Clients (own s))) in
    let! disconnected := service (S n) 0 (numbers sel) [] in
    for_each remove_client disconnected.

(** The first [n] rounds of [while (1)]. *)
Definition manageConnections (n : nat) : M snet unit :=
  let! l := listener in
  push_client (Client_ctor l) ;;
  rounds n round.

(** The thread runs manageConnections and is joined. *)
Definition run (n : nat) : M snet unit :=
  say [OStr "select server starts"; OEndl] ;;
  manageConnections n.

(** ** One message *)

(** The server survives a message exactly when it is between 1 and 255 bytes
    with something before the first zero byte that is not CR or LF. *)
Definition survivable (r : reply) : bool :=
  bool_decide (0 < rc r < 256) && negb (forallb is_crlf (c_str (take (Z.to_nat (rc r)) (got r)))).

Definition message (r : reply) : bytes := stripped (c_str (take (Z.to_nat (rc r)) (got r))).

Lemma read_client_spec fd disc (s : snet) :
  let r := answer_to (trace s) (Read fd 256) in
  let s1 := after (Read fd 256) s in
  0 ≤ rc r →
  if survivable r then
    ∃ s' w, read_client fd disc s = Ret disc s' ∧ own s' = own s ∧
      trace s' = trace s ++ [(Read fd 256, r); (Write fd (echo (message r)), w)]
  else read_client fd disc s = Undef OutOfBounds.
Proof.
  intros r s1 Hr. unfold read_client. rewrite bind_sys. fold r s1.
  rewrite bool_decide_eq_false_2 by lia. unfold survivable, terminated.
  destruct (decide (rc r = 0)) as [E|E]; [|destruct (decide (rc r < 256)) as [Hlt|Hge]].
  - rewrite E. change (bool_decide (0 < 0 < 256)) with false.
    change (bool_decide (0 ≤ 0 < 256)) with true. cbn [andb]. rewrite bind_ret_l. unfold bind at 1. by rewrite strip_spec.
  - rewrite !bool_decide_eq_true_2 by lia. rewrite !bind_ret_l. cbn [andb].
    pose proof (strip_spec (c_str (take (Z.to_nat (rc r)) (got r))) s1) as Hs.
    destruct (forallb is_crlf _); simpl; [unfold bind at 1; by rewrite Hs|].
    rewrite (bind_eq_ret _ _ _ _ _ Hs). rewrite bind_assoc. unfold bind at 1, say, modify.
    rewrite bind_assoc, bind_sys, bind_ret_l. rewrite bool_decide_eq_false_2 by lia.
    eexists _, _. split; [reflexivity|]. split; [done|]. simpl. by rewrite <-app_assoc.
  - by rewrite !bool_decide_eq_false_2 by lia.
Qed.

(** The echo: a readable client that sends [survivable] data gets exactly
    "echo: ", the data up to the first zero byte without its trailing CRs and
    LFs, and one LF, in one write; every other outcome of read - end of file,
    256 bytes, a message of CRs and LFs only - runs into undefined behaviour,
    except an error, which disconnects the client. *)
Theorem read_client_echoes fd disc (s : snet) :
  reads_fit →
  let r := answer_to (trace s) (Read fd 256) in
  if bool_decide (rc r = -1) then
    ∃ s', read_client fd disc s = Ret (disc ++ [fd]) s' ∧ own s' = own s ∧
      trace s' = trace s ++ [(Read fd 256, r)]
  else if survivable r then
    ∃ s' w, read_client fd disc s = Ret disc s' ∧ own s' = own s ∧
      trace s' = trace s ++ [(Read fd 256, r); (Write fd (echo (message r)), w)]
  else read_client fd disc s = Undef OutOfBounds.
Proof.
  intros Hfit r. destruct (Hfit (trace s) (Read fd 256) fd 256 (or_introl eq_refl) ltac:(lia))
    as [Hr _]. fold r in Hr.
  case_bool_decide as Herr.
  - unfold read_client. rewrite bind_sys. fold r. rewrite bool_decide_eq_true_2 by lia.
    eexists. split; [reflexivity|]. by split.
  - apply (read_client_spec fd disc s). fold r. lia.
Qed.

(** A client that disconnects takes the server down: whenever the first
    ready descriptor of a round is a client whose read returns 0, the round is
    undefined, because the loop that strips line ends reads before the
    beginning of an empty string. *)
Theorem select_disconnect_is_undefined (s : snet) c cs :
  m_Clients (own s) = Client_ctor (m_Listener (own s)) :: c :: cs →
  Forall (λ i, 0 ≤ sd i < FD_SETSIZE) (m_Clients (own s)) → sd c ≠ m_Listener (own s) →
  (∀ h nfds rd, let sel := answer_to h (Select nfds rd [] None) in
     0 < rc sel ∧ (m_Listener (own s) ∉ numbers sel) ∧ sd c ∈ numbers sel) →
  (∀ h, rc (answer_to h (Read (sd c) 256)) = 0) →
  round s = Undef OutOfBounds.
Proof.
  intros Hcs Hfds Hne Hsel Hread. unfold round, listener, clients.
  assert (∀ c', 0 ≤ sd c' < FD_SETSIZE → fd_in_set (sd c') s = Ret tt s) as Hin
    by (intros c' Hc; unfold fd_in_set; by rewrite bool_decide_eq_true_2).
  unfold bind at 1, gets at 1. rewrite Hcs, !Forall_cons in Hfds. destruct Hfds as (Hl & Hc & Hrest).
  rewrite (bind_eq_ret _ _ _ _ _ (Hin _ Hl)). unfold bind at 1, gets at 1. rewrite Hcs.
  assert (for_each (λ i, fd_in_set (sd i)) (Client_ctor (m_Listener (own s)) :: c :: cs) s = Ret tt s)
    as Hall.
  { assert (Forall (λ i, 0 ≤ sd i < FD_SETSIZE) (Client_ctor (m_Listener (own s)) :: c :: cs))
      as HF by (constructor; [done|by constructor]).
    revert HF. generalize (Client_ctor (m_Listener (own s)) :: c :: cs). intros l.
    induction l as [|x l IH]; [done|]. intros [Hx HF]%Forall_cons. simpl.
    rewrite (bind_eq_ret _ _ _ _ _ (Hin _ Hx)). by apply IH. }
  rewrite (bind_eq_ret _ _ _ _ _ Hall), bind_sys.
  set (sel := answer_to _ _). set (s1 := after _ _).
  destruct (Hsel (trace s) (foldl (λ m i, if bool_decide (sd i > m) then sd i else m)
    (m_Listener (own s)) (Client_ctor (m_Listener (own s)) :: c :: cs) + 1)
    (m_Listener (own s) :: map sd (Client_ctor (m_Listener (own s)) :: c :: cs)))
    as (Hpos & Hnl & Hready). fold sel in Hpos, Hnl, Hready.
  rewrite !bool_decide_eq_false_2 by lia. unfold bind at 1, gets at 1.
  change (own s1) with (own s). rewrite Hcs. cbn [length service].
  assert (∀ c', 0 ≤ sd c' < FD_SETSIZE → fd_in_set (sd c') s1 = Ret tt s1) as Hin1
    by (intros c' Hc'; unfold fd_in_set; by rewrite bool_decide_eq_true_2).
  rewrite bind_assoc. unfold bind at 1, clients at 1, gets at 1. change (own s1) with (own s).
  rewrite Hcs. cbn [lookup list_lookup]. rewrite bind_assoc.
  rewrite (bind_eq_ret _ _ _ _ _ (Hin1 (Client_ctor (m_Listener (own s))) Hl)).
  rewrite (bool_decide_eq_false_2 (_ ∈ _)) by done. cbn [negb].
  rewrite bind_assoc. unfold bind at 1, clients at 1, gets at 1. change (own s1) with (own s).
  rewrite Hcs. cbn [lookup list_lookup]. rewrite bind_assoc.
  rewrite (bind_eq_ret _ _ _ _ _ (Hin1 c Hc)).
  rewrite (bool_decide_eq_true_2 (_ ∈ _)) by done. cbn [negb].
  rewrite bind_assoc. unfold bind at 1, listener, gets. change (own s1) with (own s).
  rewrite (bool_decide_eq_false_2 (sd c = _)) by done. rewrite bind_assoc. unfold bind at 1.
  pose proof (read_client_spec (sd c) [] s1) as Hspec. simpl in Hspec.
  unfold survivable in Hspec. rewrite Hread in Hspec.
  rewrite Hspec by lia. done.
Qed.

(** Every write answers the read just before it, from the same descriptor. *)
Definition echoes (h : history) : Prop := ∀ h1 fd buf w h2,
  h = h1 ++ (Write fd buf, w) :: h2 →
  ∃ h0 r, h1 = h0 ++ [(Read fd 256, r)] ∧ 0 < rc r < 256 ∧ buf = echo (message r).

Lemma echoes_snoc h c r : (∀ fd buf, c ≠ Write fd buf) → echoes h → echoes (h ++ [(c, r)]).
Proof.
  intros Hc Hh h1 fd buf w h2 E. destruct h2 as [|x h2 _] using rev_ind.
  - apply app_inj_tail in E as [_ [= E _]]. by destruct (Hc fd buf).
  - rewrite app_comm_cons, app_assoc in E. apply app_inj_tail in E as [E _]. by apply (Hh _ _ _ _ _ E).
Qed.
Lemma echoes_answer h fd r w :
  0 < rc r < 256 → echoes h → echoes (h ++ [(Read fd 256, r); (Write fd (echo (message r)), w)]).
Proof.
  intros Hr Hh h1 fd' buf w' h2 E. destruct h2 as [|x h2 _] using rev_ind.
  - change [(Read fd 256, r); (Write fd (echo (message r)), w)]
      with ([(Read fd 256, r)] ++ [(Write fd (echo (message r)), w)]) in E.
    rewrite app_assoc in E. apply app_inj_tail in E as [<- [= <- <- _]]. by exists h, r.
  - change [(Read fd 256, r); (Write fd (echo (message r)), w)]
      with ([(Read fd 256, r)] ++ [(Write fd (echo (message r)), w)]) in E.
    rewrite app_comm_cons, !app_assoc in E. apply app_inj_tail in E as [E _].
    assert (echoes (h ++ [(Read fd 256, r)])) as H by by apply echoes_snoc.
    by apply (H _ _ _ _ _ E).
Qed.
Lemma echoes_sys c : (∀ fd buf, c ≠ Write fd buf) → keeps (on_trace (T:=SelectEngine) echoes) (sys c).
Proof. intros Hc. apply keeps_sys. intros s Hs. by apply echoes_snoc. Qed.
Lemma echoes_read_client fd disc : keeps (on_trace echoes) (read_client fd disc).
Proof.
  intros s Hs. pose proof (read_client_spec fd disc s) as Hspec. simpl in Hspec.
  destruct (decide (0 ≤ rc (answer_to (trace s) (Read fd 256)))) as [Hr|Hr].
  - destruct (survivable _) eqn:Hsv; [|by rewrite Hspec].
    destruct (Hspec Hr) as (s' & w & -> & _ & E). unfold on_trace. rewrite E.
    apply andb_true_iff in Hsv as [Hsv%bool_decide_eq_true _]. by apply echoes_answer.
  - unfold read_client. rewrite bind_sys, bool_decide_eq_true_2 by lia. by apply echoes_snoc.
Qed.
#[local] Hint Resolve echoes_sys echoes_read_client : keeps.
#[local] Hint Extern 1 (∀ fd buf, _ ≠ Write fd buf) => discriminate : keeps.

Lemma echoes_clients : keeps (on_trace echoes) clients.
Proof. apply keeps_gets. Qed.
Lemma echoes_listener : keeps (on_trace echoes) listener.
Proof. apply keeps_gets. Qed.
Lemma echoes_push_client c : keeps (on_trace echoes) (push_client c).
Proof. apply keeps_bind; [apply echoes_clients|]. intros l. apply keeps_set_own. Qed.
#[local] Hint Resolve echoes_clients echoes_listener echoes_push_client : keeps.

Lemma echoes_service fuel : ∀ i rd disc, keeps (on_trace echoes) (service fuel i rd disc).
Proof.
  induction fuel as [|fuel IH]; intros i rd disc; cbn [service]; [apply keeps_no_fuel|].
  apply keeps_bind; [auto with keeps|]. intros cs. destruct (cs !! i) as [c|]; auto 10 with keeps.
Qed.
Lemma echoes_remove_client fd : keeps (on_trace echoes) (remove_client fd).
Proof.
  apply keeps_bind; [auto with keeps|]. intros cs. destruct (erase_sd fd cs); unfold set_clients;
    auto 10 with keeps.
Qed.
#[local] Hint Resolve echoes_service echoes_remove_client : keeps.

Lemma echoes_nil : echoes [].
Proof. intros [|??] fd buf w h2 E; discriminate. Qed.
Lemma echoes_run n : keeps (on_trace echoes) (run n).
Proof. unfold run, manageConnections, round. auto 20 with keeps. Qed.

(** Whatever the kernel and the clients do, however many rounds run and
    however the server ends, every byte it ever wrote is the echo of the read
    immediately before, sent to the same descriptor. *)
Theorem select_server_only_echoes n (s : snet) :
  trace s = [] →
  match run n s with
  | Ret _ s' | Exc _ s' | Exit _ s' => echoes (trace s')
  | _ => True
  end.
Proof. intros Ht. apply (echoes_run n s). unfold on_trace. rewrite Ht. apply echoes_nil. Qed.
End SelectEngine.

(** ** Witnesses *)

Definition one_client : snet :=
  mkNet (mkSelectEngine 3 [Client_ctor 3; Client_ctor 5]) 0 [] [].
Definition hello : bytes := b "hi" ++ [CR; LF].

Lemma read_client_echoes_witness :
  ∃ s' w, read_client (Os:=reading hello [5]) 5 [] one_client = Ret [] s' ∧ own s' = own one_client ∧
    trace s' = [] ++ [(Read 5 256, data hello); (Write 5 (echo (message (data hello))), w)].
Proof.
  exact (read_client_echoes (Os:=reading hello [5]) 5 [] one_client (reading_fits hello [5])).
Defined.
Lemma select_disconnect_is_undefined_witness :
  round (Os:=reading [] [5]) one_client = Undef OutOfBounds.
Proof.
  apply (select_disconnect_is_undefined (Os:=reading [] [5]) one_client (Client_ctor 5) []).
  - reflexivity.
  - by apply (bool_decide_unpack _).
  - discriminate.
  - intros h nfds rd. split; [reflexivity|]. by apply (bool_decide_unpack _).
  - reflexivity.
Defined.
Lemma select_server_only_echoes_witness :
  match run (Os:=reading hello [5]) 2 (mkNet (mkSelectEngine 3 [Client_ctor 5]) 0 [] []) with
  | Ret _ s' | Exc _ s' | Exit _ s' => echoes (trace s')
  | _ => True
  end.
Proof.
  exact (select_server_only_echoes (Os:=reading hello [5]) 2
    (mkNet (mkSelectEngine 3 [Client_ctor 5]) 0 [] []) eq_refl).
Defined.
