(* ===== verification/PollEngine.v ===== *)
(** * PollEngine: the server on poll() with an accepting thread

    Models net/libtpevent/src/poll.hpp and poll.cpp. [manageConnections] and
    [acceptNewConnections] run in two threads that share [m_Clients] without a
    lock. The model runs the managing thread; wherever it evaluates
    [m_Clients.size()] or [empty()], the accepting thread may have pushed
    clients: the call [Interleave point] yields their descriptors. *)

From S2P Require Import Prelude Posix Engine.

Record pollfd : Type := mkPollfd { fd : Z; events : Z; revents : Z }.

(** The engine, with the array [fds] of manageConnections. *)
Record PollEngine : Type := mkPollEngine {
  m_Listener : Z;
  m_Clients : list Client;
  fds : list (option pollfd)
}.
Abbreviation pnet := (net PollEngine).

(** <sys/poll.h> *)
Definition POLLIN : Z := 1.
Definition POLLOUT : Z := 4.
Definition POLLERR : Z := 8.
Definition POLLHUP : Z := 16.
Definition POLLNVAL : Z := 32.
Definition has (revents flag : Z) : bool := bool_decide (Z.land revents flag ≠ 0).

Definition fds_size : Z := 32768.
Definition newline : string := String LF EmptyString.

(** The bytes of [char buf[] = "hello from server!\n"], the final zero
    included, as [sizeof(buf)] counts them. *)
Definition hello : bytes := b "hello from server!" ++ [LF; NUL].

Section PollEngine.
Context {Os : OS}.

Definition listener : M pnet Z := gets (λ s, m_Listener (own s)).
Definition set_clients (l : list Client) : M pnet unit :=
  set_own (λ e, mkPollEngine (m_Listener e) l (fds e)).
Definition push_client (c : Client) : M pnet unit :=
  let! l := gets (λ s, m_Clients (own s)) in set_clients (l ++ [c]).
Definition set_fds (l : list (option pollfd)) : M pnet unit :=
  set_own (λ e, mkPollEngine (m_Listener e) (m_Clients e) l).

(** One round of acceptNewConnections. *)
Definition accept_round : M pnet unit :=
  let! l := listener in
  let! poll_ret := sys (Poll [(l, POLLIN)] 3000) in
  if bool_decide (rc poll_ret = 0) then ret tt
  else if bool_decide (rc poll_ret = -1) then throw_errno "poll: "
  else
    let! l := listener in
    let! r := sys (Accept l) in
    let cli_sd := rc r in
    say [OStr "new client: "; OInt cli_sd; OStr newline] ;;
    push_client (Client_ctor cli_sd).
Definition acceptNewConnections (n : nat) : M pnet unit := rounds n accept_round.

(** [m_Clients.size()]; 0: before the round, 1: filling, 2: poll, 3: serving. *)
Definition clients_size (point : Z) : M pnet nat :=
  let! r := sys (Interleave point) in
  let! l := gets (λ s, m_Clients (own s)) in
  set_clients (l ++ map Client_ctor (numbers r)) ;;
  gets (λ s, length (m_Clients (own s))).

(** [m_Clients[i]] and [fds[i]]. *)
Definition client_at (i : nat) : M pnet Client :=
  let! s := get in or_undef OutOfBounds (m_Clients (own s) !! i).
Definition fd_at (i : nat) : M pnet pollfd :=
  let! s := get in load (Some (fds (own s))) (Z.of_nat i).
Definition set_fd (i : nat) (f : pollfd) : M pnet unit :=
  let! s := get in
  let! l := store (Some (fds (own s))) (Z.of_nat i) f in set_fds l.
Definition set_state (i : nat) (st : client_state_t) : M pnet unit :=
  let! c := client_at i in
  let! s := get in
  set_clients (<[i := mkClient (sd c) st]> (m_Clients (own s))).

(** [for (size_t i = 0; i < m_Clients.size(); ++i)] before poll. *)
Fixpoint fill_loop (fuel i : nat) : M pnet unit :=
  match fuel with
  | O => no_fuel
  | S fuel' =>
      let! n := clients_size 1 in
      if decide (i < n)%nat then
        let! c := client_at i in
        set_fd i (mkPollfd (sd c) (if bool_decide (state c = WANT_READ) then POLLIN else POLLOUT) 0) ;;
        fill_loop fuel' (S i)
      else ret tt
  end.

(** poll(fds, n, 100) reads and updates the first [n] entries. *)
Fixpoint poll_args (l : list (option pollfd)) : option (list (Z * Z)) :=
  match l with
  | [] => Some []
  | None :: _ => None
  | Some f :: l' => cons (fd f, events f) <$> poll_args l'
  end.
Fixpoint with_revents (l : list (option pollfd)) (r : list Z) : list (option pollfd) :=
  match l, r with
  | Some f :: l', x :: r' => Some (mkPollfd (fd f) (events f) x) :: with_revents l' r'
  | _, _ => l
  end.
Definition poll_clients (n : nat) : M pnet Z :=
  let! s := get in
  if decide (n ≤ length (fds (own s)))%nat then
    let! args := or_undef Indeterminate (poll_args (take n (fds (own s)))) in
    let! r := sys (Poll args 100) in
    set_fds (with_revents (fds (own s)) (take n (numbers r))) ;;
    ret (rc r)
  else undef OutOfBounds.

(** The body of the loop over the polled clients; yields disconnected_clients. *)
Definition read_client (i : nat) (f : pollfd) (disconnected : list Z) : M pnet (list Z) :=
  let! r := sys (Read (fd f) 256) in
  if bool_decide (rc r < 0) then
    say [OStr "some read error!"; OStr newline] ;;
    let! _ := sys (Close (fd f)) in
    ret (disconnected ++ [fd f])
  else
    let! tmp := terminated 256 (rc r) (got r) in
    let! tmp := strip tmp in
    (if bool_decide (rc r > 0) then
       say [OStr "read: "; OInt (rc r); OStr " bytes ["; OStr (text tmp); OStr "]"; OStr newline] ;;
       set_state i WANT_WRITE
     else ret tt) ;;
    if bool_decide (rc r = 0) then
      say [OStr "client disconnected: "; OInt (fd f); OStr newline] ;;
      let! _ := sys (Close (fd f)) in
      ret (disconnected ++ [fd f])
    else ret disconnected.

Definition serve_client (i : nat) (disconnected : list Z) : M pnet (list Z) :=
  let! f := fd_at i in
  if bool_decide (revents f = 0) then ret disconnected
  else if has (revents f) POLLHUP then
    say [OStr "client hup"; OStr newline] ;;
    ret (disconnected ++ [fd f])
  else if has (revents f) POLLIN then
    let! c := client_at i in
    if bool_decide (state c ≠ WANT_READ) then ret disconnected
    else read_client i f disconnected
  else if has (revents f) POLLOUT then
    let! c := client_at i in
    if bool_decide (state c ≠ WANT_WRITE) then ret disconnected
    else
      let! _ := sys (Write (fd f) hello) in
      set_state i WANT_READ ;;
      ret disconnected
  else if has (revents f) POLLNVAL then
    say [OStr "POLLNVAL !!! need remove this descriptor: "; OInt (fd f); OStr newline] ;;
    ret (disconnected ++ [fd f])
  else
    (if has (revents f) POLLERR then
       say [OStr "WARNING> revents = POLLERR. [SD = "; OInt (fd f); OStr "]"; OStr newline]
     else
       say [OStr "WARNIG> revent = UNKNOWN_EVENT: "; OInt (revents f); OStr " [SD = ";
            OInt (fd f); OStr "]"; OStr newline]) ;;
    ret disconnected.

Fixpoint serve_loop (fuel i : nat) (disconnected : list Z) : M pnet (list Z) :=
  match fuel with
  | O => no_fuel
  | S fuel' =>
      let! n := clients_size 3 in
      if decide (i < n)%nat then
        let! disconnected := serve_client i disconnected in
        serve_loop fuel' (S i) disconnected
      else ret disconnected
  end.

(** Removing one disconnected client; a failing assert aborts (SIGABRT). *)
Fixpoint erase_sd (x : Z) (l : list Client) : option (list Client) :=
  match l with
  | [] => None
  | c :: l' => if bool_decide (sd c = x) then Some l' else cons c <$> erase_sd x l'
  end.
Definition remove_client (x : Z) : M pnet unit :=
  let! s := get in
  match erase_sd x (m_Clients (own s)) with
  | None => exit_with 134
  | Some cs => set_clients cs
  end.

(** The array bounds the rounds of both loops. *)
Definition loop_fuel : nat := Z.to_nat (fds_size + 2).

Definition manage_round : M pnet unit :=
  let! n := clients_size 0 in
  if decide (n = 0%nat) then let! _ := sys (Usleep 1000) in ret tt
  else
    fill_loop loop_fuel 0 ;;
    let! n := clients_size 2 in
    let! poll_ret := poll_clients n in
    if bool_decide (poll_ret = 0) then ret tt
    else if bool_decide (poll_ret = -1) then throw_errno "poll: "
    else
      let! disconnected := serve_loop loop_fuel 0 [] in
      for_each remove_client disconnected.

Definition manageConnections (n : nat) : M pnet unit :=
  set_fds (replicate (Z.to_nat fds_size) None) ;;
  rounds n manage_round.

(** [run] starts both threads and joins them; the managing one is observed. *)
Definition run (n : nat) : M pnet unit :=
  say [OStr "poll server starts"; OEndl] ;;
  or_terminate (manageConnections n).

(** ** The protocol

    [heard x h] counts the messages read from [x], [told x h] the answers
    written to it, and [owed x l] the clients of [l] on [x] that wait for
    one. *)
Definition heard1 (x : Z) (e : call * reply) : nat :=
  match e with
  | (Read y _, r) => if bool_decide (y = x ∧ 0 < rc r) then 1%nat else 0%nat
  | _ => 0%nat
  end.
Definition told1 (x : Z) (e : call * reply) : nat :=
  match e with (Write y _, _) => if bool_decide (y = x) then 1%nat else 0%nat | _ => 0%nat end.
Definition owed1 (x : Z) (c : Client) : nat :=
  if bool_decide (sd c = x ∧ state c = WANT_WRITE) then 1%nat else 0%nat.
Definition heard (x : Z) (h : history) : nat := sum_list_with (heard1 x) h.
Definition told (x : Z) (h : history) : nat := sum_list_with (told1 x) h.
Definition owed (x : Z) (l : list Client) : nat := sum_list_with (owed1 x) l.

(** What a history shows of a server that greets only who has spoken: at no
    moment had it answered more often than it was spoken to. *)
Definition polite (h : history) : Prop :=
  (∀ h1 x, h1 `prefix_of` h → (told x h1 ≤ heard x h1)%nat) ∧
  (∀ x buf r, (Write x buf, r) ∈ h → buf = hello).
(** The array has no more cells than at the start. *)
Definition capacity : nat := Z.to_nat fds_size.
Definition small (s : pnet) : Prop := (length (fds (own s)) ≤ capacity)%nat.
(** Every answer written or still owed has been asked for. *)
Definition fair (s : pnet) : Prop :=
  (∀ x, told x (trace s) + owed x (m_Clients (own s)) ≤ heard x (trace s))%nat ∧
  polite (trace s) ∧ small s.
(** The array describes the clients. *)
Definition linked (s : pnet) : Prop := ∀ i c f,
  m_Clients (own s) !! i = Some c → fds (own s) !! i = Some (Some f) → fd f = sd c.

(** The accepting thread adds clients only before a round: what the comments of
    poll.cpp call the need for a lock. *)
Definition no_race : Prop := ∀ h p, p ≠ 0 → numbers (answer_to h (Interleave p)) = [].

Definition good (s : pnet) : Prop := fair s ∧ linked s.
(** One more message has been heard from [x] than [fair] asks for. *)
Definition slack (x : Z) (s : pnet) : Prop :=
  (∀ y, told y (trace s) + owed y (m_Clients (own s)) + (if decide (y = x) then 1 else 0)
    ≤ heard y (trace s))%nat ∧ polite (trace s) ∧ small s.

Lemma heard_snoc x h e : heard x (h ++ [e]) = (heard x h + heard1 x e)%nat.
Proof. unfold heard. rewrite sum_list_with_app. simpl. lia. Qed.
Lemma told_snoc x h e : told x (h ++ [e]) = (told x h + told1 x e)%nat.
Proof. unfold told. rewrite sum_list_with_app. simpl. lia. Qed.
Lemma polite_nil : polite [].
Proof.
  split; [|by intros x buf r Hin%elem_of_nil]. by intros h1 x ->%prefix_nil_inv.
Qed.
Lemma prefix_snoc_cases {A} (l1 l2 : list A) x :
  l1 `prefix_of` l2 ++ [x] → l1 `prefix_of` l2 ∨ l1 = l2 ++ [x].
Proof.
  intros [k E]. destruct k as [|y k _] using rev_ind; [right; by rewrite app_nil_r in E|].
  left. rewrite app_assoc in E. apply app_inj_tail in E as [-> _]. by exists k.
Qed.
Lemma polite_step h e :
  polite h → (∀ x, (told x (h ++ [e]) ≤ heard x (h ++ [e]))%nat) →
  (∀ x buf, e.1 = Write x buf → buf = hello) → polite (h ++ [e]).
Proof.
  intros [H1 H2] He Hw. split.
  - intros h1 x [Hp|Hp]%prefix_snoc_cases; [by apply H1|subst; apply He].
  - intros x buf r [Hin|<-%list_elem_of_singleton]%elem_of_app; [by apply (H2 x buf r)|by apply (Hw x)].
Qed.
Lemma polite_now h : polite h → ∀ x, (told x h ≤ heard x h)%nat.
Proof. intros [H _] x. by apply H. Qed.
Lemma polite_snoc h c r : (∀ fd buf, c ≠ Write fd buf) → polite h → polite (h ++ [(c, r)]).
Proof.
  intros Hc Hh. apply polite_step; [done| |by intros x buf Hx; destruct (Hc x buf)].
  intros x. rewrite heard_snoc, told_snoc. pose proof (polite_now h Hh x).
  destruct c; simpl; try lia. by destruct (Hc sd buf).
Qed.
Lemma owed_elem x (l : list Client) i c : l !! i = Some c → (owed1 x c ≤ owed x l)%nat.
Proof.
  unfold owed. revert i. induction l as [|d l IH]; intros [|i] Hi; simpl in *; try done.
  - injection Hi as ->. lia.
  - specialize (IH i Hi). lia.
Qed.
Lemma owed_insert x (l : list Client) i c c' :
  l !! i = Some c → (owed x (<[i := c']> l) + owed1 x c = owed x l + owed1 x c')%nat.
Proof.
  unfold owed. revert i. induction l as [|d l IH]; intros [|i] Hi; simpl in *; try done.
  - injection Hi as ->. lia.
  - specialize (IH i Hi). lia.
Qed.
Lemma owed_erase x y l l' : erase_sd y l = Some l' → (owed x l' ≤ owed x l)%nat.
Proof.
  unfold owed. revert l'. induction l as [|c l IH]; intros l'; simpl; [done|].
  case_bool_decide.
  - intros [= ->]. lia.
  - destruct (erase_sd y l) as [l0|]; [|done]. intros [= <-]. simpl.
    specialize (IH l0 eq_refl). lia.
Qed.

Definition quiet (c : call) : Prop :=
  match c with Read _ _ | Write _ _ => False | _ => True end.

Lemma fair_quiet (s : pnet) c : quiet c → fair s → fair (after c s).
Proof.
  intros Hc [H1 H2]. split; simpl.
  - intros x. rewrite heard_snoc, told_snoc. specialize (H1 x). destruct c; simpl in *; try done; lia.
  - destruct H2 as [H2 Hsm]. split; [|done]. apply polite_snoc; [|done]. by intros fd buf ->.
Qed.
Lemma good_sys c : quiet c → keeps good (sys c).
Proof. intros Hc. apply keeps_sys. intros s [H1 H2]. split; [by apply fair_quiet|done]. Qed.
Lemma good_say l : keeps good (say l).
Proof. by intros s Hs. Qed.
Lemma good_throw_errno {A} pre : keeps good (throw_errno (A:=A) pre).
Proof. by intros s Hs. Qed.
#[local] Hint Resolve good_sys good_say good_throw_errno : keeps.
#[local] Hint Extern 1 (quiet _) => exact I : keeps.

(** Changing the state of a client keeps the array in step. *)
Lemma linked_set_state s i c st :
  m_Clients (own s) !! i = Some c → linked s →
  ∀ e t cr, linked (mkNet (mkPollEngine (m_Listener (own s))
    (<[i := mkClient (sd c) st]> (m_Clients (own s))) (fds (own s))) e t cr).
Proof.
  intros Hi Hl e t cr j d f. simpl. destruct (decide (j = i)) as [->|Hne].
  - rewrite list_lookup_insert_eq by by eapply lookup_lt_Some. intros [= <-]. simpl. by apply Hl.
  - rewrite list_lookup_insert_ne by done. apply Hl.
Qed.
Lemma set_state_eval i st (s : pnet) c :
  m_Clients (own s) !! i = Some c →
  set_state i st s = Ret tt (mkNet (mkPollEngine (m_Listener (own s))
    (<[i := mkClient (sd c) st]> (m_Clients (own s))) (fds (own s))) (errno s) (trace s) (cerr s)).
Proof. intros Hi. unfold set_state, client_at, bind, get. by rewrite Hi. Qed.
Lemma set_state_owes i (s : pnet) c :
  m_Clients (own s) !! i = Some c → slack (sd c) s → linked s →
  ∃ s', set_state i WANT_WRITE s = Ret tt s' ∧ good s'.
Proof.
  intros Hi [H1 H2] Hl. rewrite (set_state_eval _ _ _ _ Hi). eexists. split; [reflexivity|].
  split; [|by apply linked_set_state]. split; [|done]. simpl. intros x. specialize (H1 x).
  pose proof (owed_insert x _ _ _ (mkClient (sd c) WANT_WRITE) Hi) as Ho.
  assert (owed1 x (mkClient (sd c) WANT_WRITE) ≤ if decide (x = sd c) then 1 else 0)%nat.
  { unfold owed1. simpl. case_bool_decide as Hx; [|lia]. destruct Hx as [<- _].
    by rewrite decide_True. }
  lia.
Qed.

(** [Q] holds after [m], however it ends. *)
Definition outcome {A} (Q : pnet → Prop) (r : result pnet A) : Prop :=
  match r with Ret _ s' | Exc _ s' | Exit _ s' => Q s' | Undef _ => True | NoFuel => False end.

Lemma keeps_outcome {A} Q (m : M pnet A) s : keeps Q m → m s ≠ NoFuel → Q s → outcome Q (m s).
Proof. intros H Hn Hs. specialize (H s Hs). by destruct (m s). Qed.
Lemma read_client_good i f c disc (s : pnet) :
  good s → m_Clients (own s) !! i = Some c → fd f = sd c →
  outcome good (read_client i f disc s).
Proof.
  intros [[H1 H2] Hl] Hi Hf. unfold read_client. rewrite bind_sys.
  set (r := answer_to (trace s) (Read (fd f) 256)). set (s1 := after (Read (fd f) 256) s).
  assert (polite (trace s1) ∧ small s1) as H2' by (destruct H2; split; [by apply polite_snoc|done]).
  assert (linked s1) as Hl1 by done.
  assert (good s1) as Hg.
  { split; [|done]. split; [|done]. intros x. simpl. rewrite heard_snoc, told_snoc.
    specialize (H1 x). simpl. lia. }
  case_bool_decide as Hneg.
  { assert (keeps good (say [OStr "some read error!"; OStr newline] ;;
      let! _ := sys (Close (fd f)) in ret (disc ++ [fd f]))) as Hk by auto with keeps.
    by apply keeps_outcome. }
  unfold terminated. case_bool_decide; [|done]. rewrite bind_ret_l. unfold bind at 1.
  rewrite strip_spec. destruct (forallb is_crlf _); [done|].
  case_bool_decide as Hpos.
  - rewrite bool_decide_eq_false_2 by lia. rewrite bind_assoc. unfold bind at 1, say, modify.
    set (s2 := mkNet (own s1) _ _ _).
    destruct (set_state_owes i s2 c) as (s3 & E & Hg3); [done| |done|].
    + split; [|done]. intros x. change (trace s2) with (trace s ++ [(Read (fd f) 256, r)]).
      rewrite heard_snoc, told_snoc. change (own s2) with (own s). specialize (H1 x).
      simpl. case_decide as Hx; case_bool_decide as Hy; lia.
    + by rewrite (bind_eq_ret _ _ _ _ _ E).
  - rewrite bind_ret_l. assert (keeps good (if bool_decide (rc r = 0)
      then say [OStr "client disconnected: "; OInt (fd f); OStr newline] ;;
        (let! _ := sys (Close (fd f)) in ret (disc ++ [fd f])) else ret disc)) as Hk
      by auto 10 with keeps.
    apply keeps_outcome; [done|by case_bool_decide|done].
Qed.

Lemma write_good i f c (s : pnet) :
  good s → m_Clients (own s) !! i = Some c → fd f = sd c → state c = WANT_WRITE →
  ∃ s', (let! _ := sys (Write (fd f) hello) in set_state i WANT_READ) s = Ret tt s' ∧ good s'.
Proof.
  intros [[H1 H2] Hl] Hi Hf Hst. rewrite bind_sys.
  rewrite (set_state_eval _ _ _ c) by done. eexists. split; [reflexivity|].
  split; [|by apply (linked_set_state s)]. split; simpl.
  - intros x. rewrite heard_snoc, told_snoc. specialize (H1 x). simpl.
    pose proof (owed_insert x _ _ _ (mkClient (sd c) WANT_READ) Hi) as Ho.
    assert (owed1 x c = if bool_decide (fd f = x) then 1%nat else 0%nat) as Hc.
    { unfold owed1. rewrite Hf. by repeat case_bool_decide; try tauto. }
    assert (owed1 x (mkClient (sd c) WANT_READ) = 0%nat) as H0.
    { unfold owed1. rewrite bool_decide_eq_false_2; [done|]. intros [_ ?]. done. }
    lia.
  - destruct H2 as [H2 Hsm]. split; [|done]. apply polite_step; [done| |by intros x buf [= _ <-]]. intros x. rewrite heard_snoc, told_snoc. simpl.
    specialize (H1 x). case_bool_decide as Hx; [|lia]. pose proof (owed_elem x _ _ _ Hi) as Ho.
    unfold owed1 in Ho. rewrite bool_decide_eq_true_2 in Ho by (by rewrite <-Hf). lia.
Qed.

Lemma outcome_bind {A B} Q (m : M pnet A) (k : A → M pnet B) s :
  outcome Q (m s) → (∀ a s', m s = Ret a s' → Q s' → outcome Q (k a s')) → outcome Q (bind m k s).
Proof. unfold bind. destruct (m s); simpl; intros H1 H2; try done. by apply H2. Qed.

Lemma load_fd i (s : pnet) :
  match fd_at i s with
  | Ret f s' => s' = s ∧ fds (own s) !! i = Some (Some f) | Undef _ => True | _ => False
  end.
Proof.
  unfold fd_at, bind, get, load. rewrite zget_nat. by destruct (fds (own s) !! i) as [[f|]|].
Qed.

Lemma serve_client_good i disc (s : pnet) :
  good s → is_Some (m_Clients (own s) !! i) → outcome good (serve_client i disc s).
Proof.
  intros Hg [c Hi]. unfold serve_client. pose proof (load_fd i s) as Hf.
  unfold bind at 1. destruct (fd_at i s) as [f s'|? ?|? ?|?|]; try done. destruct Hf as [-> Hf].
  assert (fd f = sd c) as Hfd by by destruct Hg as [_ Hl]; apply (Hl i c f).
  assert (∀ {A} (m : M pnet A), keeps good m → m s ≠ NoFuel → outcome good (m s)) as Hk
    by (intros A m Hm Hm'; by apply keeps_outcome).
  assert (client_at i s = Ret c s) as Hc by (unfold client_at, bind, get; by rewrite Hi).
  case_bool_decide; [by apply Hk; [apply keeps_ret|]|].
  destruct (has (revents f) POLLHUP); [apply Hk; [auto with keeps|done]|].
  destruct (has (revents f) POLLIN).
  { rewrite (bind_eq_ret _ _ _ _ _ Hc). case_bool_decide; [by apply Hk; [apply keeps_ret|]|].
    by apply (read_client_good i f c). }
  destruct (has (revents f) POLLOUT).
  { rewrite (bind_eq_ret _ _ _ _ _ Hc). case_bool_decide as Hst; [by apply Hk; [apply keeps_ret|]|].
    destruct (write_good i f c s) as (s2 & E & Hg2); try done.
    rewrite <-(bind_assoc _ (λ _, set_state i WANT_READ) (λ _, ret disc)).
    by rewrite (bind_eq_ret _ _ _ _ _ E). }
  destruct (has (revents f) POLLNVAL); [apply Hk; [auto with keeps|done]|].
  destruct (has (revents f) POLLERR); (apply Hk; [auto with keeps|done]).
Qed.

Lemma clients_size_still p (s : pnet) :
  no_race → p ≠ 0 →
  clients_size p s = Ret (length (m_Clients (own s))) (after (Interleave p) s).
Proof.
  intros Hn Hp. unfold clients_size. rewrite bind_sys. rewrite Hn by done. simpl.
  unfold bind, gets, set_clients, set_own, modify. simpl. rewrite app_nil_r.
  by destruct s as [[???]???].
Qed.

(** Serving a client looks at its cell. *)
Lemma serve_client_cell i disc s d s' :
  small s → serve_client i disc s = Ret d s' → (i < capacity)%nat.
Proof.
  intros Hs. unfold serve_client. pose proof (load_fd i s) as Hf. unfold bind at 1.
  destruct (fd_at i s) as [f s1|? ?|? ?|?|]; try done. destruct Hf as [_ Hf%lookup_lt_Some].
  unfold small in Hs. lia.
Qed.
Lemma serve_loop_good fuel : ∀ i disc s,
  no_race → good s → (i ≤ capacity < i + fuel)%nat → outcome good (serve_loop fuel i disc s).
Proof.
  induction fuel as [|fuel IH]; intros i disc s Hn Hg Hfuel; [lia|]. cbn [serve_loop].
  rewrite (bind_eq_ret _ _ _ _ _ (clients_size_still 3 s Hn ltac:(done))).
  assert (good (after (Interleave 3) s)) as Hg1.
  { destruct Hg. split; [by apply fair_quiet|done]. }
  case_decide as Hi; [|done]. apply outcome_bind.
  - apply serve_client_good; [done|]. by apply lookup_lt_is_Some_2.
  - intros disc' s' E Hg'. apply serve_client_cell in E; [|apply Hg1]. apply IH; [done..|lia].
Qed.

(** The array agrees with the first [k] clients. *)
Definition linked_to (k : nat) (s : pnet) : Prop := ∀ i c f, (i < k)%nat →
  m_Clients (own s) !! i = Some c → fds (own s) !! i = Some (Some f) → fd f = sd c.

Lemma fill_loop_good fuel : ∀ i s,
  no_race → fair s → linked_to i s → (i ≤ capacity < i + fuel)%nat → outcome good (fill_loop fuel i s).
Proof.
  induction fuel as [|fuel IH]; intros i s Hn Hf Hl Hfuel; [lia|]. cbn [fill_loop].
  rewrite (bind_eq_ret _ _ _ _ _ (clients_size_still 1 s Hn ltac:(done))).
  set (s1 := after (Interleave 1) s). assert (fair s1) as Hf1 by by apply fair_quiet.
  case_decide as Hi.
  - apply lookup_lt_is_Some_2 in Hi as [c Hc].
    assert (client_at i s1 = Ret c s1) as Ec
      by (unfold client_at, bind, get; simpl; by rewrite Hc).
    rewrite (bind_eq_ret _ _ _ _ _ Ec).
    set (f := mkPollfd _ _ _). unfold set_fd, store. rewrite bind_assoc.
    unfold bind at 1, get. change (fds (own s1)) with (fds (own s)).
    destruct (decide (i < length (fds (own s)))%nat) as [Hlt|Hge].
    + rewrite zset_nat by done. unfold or_undef, ret, bind, set_fds, set_own, modify.
      destruct Hf1 as (H1 & H2 & Hsm). unfold small in Hsm. simpl in Hsm.
      apply IH; [done|split; [done|split; [done|]]; unfold small; simpl; by rewrite length_insert| |lia].
      intros j d g Hj. simpl.
      destruct (decide (j = i)) as [->|Hne].
      * rewrite list_lookup_insert_eq by done. rewrite Hc. intros [= <-] [= <-]. done.
      * rewrite list_lookup_insert_ne by done. apply Hl. lia.
    + rewrite zset_None by lia. done.
  - split; [done|]. intros j d f Hd. assert (j < i)%nat as Hj.
    { apply lookup_lt_Some in Hd. simpl in Hd. lia. }
    by apply (Hl j).
Qed.

Lemma with_revents_lookup l : ∀ r i f,
  with_revents l r !! i = Some (Some f) → ∃ g, l !! i = Some (Some g) ∧ fd g = fd f.
Proof.
  induction l as [|[g|] l IH]; intros r i f; simpl; [done| |].
  - destruct r as [|x r]; [by eexists|]. destruct i as [|i]; simpl; [|apply IH].
    intros [= <-]. by exists g.
  - by eexists.
Qed.
Lemma with_revents_length l : ∀ r, length (with_revents l r) = length l.
Proof. induction l as [|[f|] l IH]; intros [|x r]; simpl; [done..| |done|done]. by rewrite IH. Qed.
Lemma poll_clients_good n s : good s → outcome good (poll_clients n s).
Proof.
  intros Hg. unfold poll_clients. unfold bind at 1, get. case_decide; [|done].
  destruct (poll_args _) as [args|]; [|done].
  change (or_undef Indeterminate (Some args)) with (@ret pnet _ args).
  rewrite bind_ret_l, bind_sys.
  unfold bind, set_fds, set_own, modify, ret. simpl. destruct Hg as [Hf Hl].
  pose proof (fair_quiet s (Poll args 100) I Hf) as (H1 & H2 & Hsm).
  split; [split; [exact H1|split; [exact H2|]]; unfold small; simpl; by rewrite with_revents_length|].
  intros i c f Hi Hfd. simpl in *. apply with_revents_lookup in Hfd as (g & Hg & <-).
  by apply (Hl i).
Qed.
Lemma remove_client_fair x : keeps fair (remove_client x).
Proof.
  intros s [H1 H2]. unfold remove_client, bind, get.
  destruct (erase_sd x (m_Clients (own s))) as [l|] eqn:E; [|done]. split; [|done]. simpl.
  intros y. pose proof (owed_erase y _ _ _ E). specialize (H1 y). lia.
Qed.

Lemma manage_round_fair s : no_race → fair s → outcome fair (manage_round s).
Proof.
  intros Hn Hf. unfold manage_round. unfold clients_size at 1. rewrite bind_assoc, bind_sys.
  set (new := map Client_ctor _). set (s1 := after (Interleave 0) s).
  rewrite bind_assoc. unfold bind at 1, gets at 1. rewrite bind_assoc.
  unfold bind at 1, set_clients, set_own, modify. unfold bind at 1, gets.
  set (s2 := mkNet _ _ _ _). assert (fair s2) as Hf2.
  { destruct (fair_quiet s (Interleave 0) I Hf) as [H1 H2]. split; [|done]. intros x. simpl.
    specialize (H1 x). simpl in H1. unfold owed. rewrite sum_list_with_app.
    assert (sum_list_with (owed1 x) new = 0%nat) as ->; [|unfold owed in H1; lia].
    unfold new. generalize (numbers (answer_to (trace s) (Interleave 0))). clear.
    induction l as [|y l IH]; simpl; [done|]. rewrite IH. unfold owed1.
    rewrite bool_decide_eq_false_2; [done|]. by intros []. }
  clearbody s2. clear s1 new Hf. case_decide.
  { rewrite bind_sys. by apply fair_quiet. }
  assert (∀ r : result pnet (), outcome good r → outcome fair r) as Hgf
    by by intros [? ?|? ?|? ?|?|] ; simpl; try done; intros [].
  assert (∀ r : result pnet (list Z), outcome good r → outcome fair r) as Hgf'
    by by intros [? ?|? ?|? ?|?|] ; simpl; try done; intros [].
  assert (0 ≤ capacity < 0 + loop_fuel)%nat as Hfuel by (unfold capacity, loop_fuel, fds_size; lia).
  pose proof (fill_loop_good loop_fuel 0 s2 Hn Hf2 ltac:(intros i; lia) Hfuel) as Hfill.
  unfold bind at 1. destruct (fill_loop loop_fuel 0 s2) as [[] s3|? ?|? ?|?|]; try done;
    [|by destruct Hfill..].
  rewrite (bind_eq_ret _ _ _ _ _ (clients_size_still 2 s3 Hn ltac:(done))).
  assert (good (after (Interleave 2) s3)) as Hg3.
  { destruct Hfill. split; [by apply fair_quiet|done]. }
  set (s4 := after (Interleave 2) s3) in *. clearbody s4.
  pose proof (poll_clients_good (length (m_Clients (own s3))) s4 Hg3) as Hpoll.
  unfold bind at 1.
  destruct (poll_clients _ s4) as [pr s5|? ?|? ?|?|]; try done; [|by destruct Hpoll..].
  case_bool_decide; [by destruct Hpoll|]. case_bool_decide; [by destruct Hpoll|].
  pose proof (serve_loop_good loop_fuel 0 [] s5 Hn Hpoll Hfuel) as Hserve.
  unfold bind. destruct (serve_loop loop_fuel 0 [] s5) as [disc s6|? ?|? ?|?|]; try done;
    [|by destruct Hserve..].
  destruct Hserve as [Hfair _]. clear -Hfair. revert s6 Hfair.
  induction disc as [|x disc IH]; intros s6 Hfair; [done|]. cbn [for_each]. apply outcome_bind; [|intros ? s' _; apply IH].
  apply keeps_outcome; [apply remove_client_fair| |done].
  unfold remove_client, bind, get. by destruct (erase_sd _ _).
Qed.

Lemma run_polite n (s : pnet) :
  no_race → polite (trace s) → m_Clients (own s) = [] →
  outcome (on_trace polite) (run n s).
Proof.
  intros Hn Ht Hc.
  assert (∀ m s0, fair s0 → outcome fair (rounds m manage_round s0)) as Hrounds.
  { induction m as [|m IH]; intros s0 H0; [done|]. cbn [rounds].
    apply outcome_bind; [by apply manage_round_fair|]. intros [] s1 _ H1. by apply IH. }
  unfold run, or_terminate, try_catch, manageConnections. unfold bind at 1, say, modify. unfold bind, set_fds, set_own, modify.
  set (s0 := mkNet _ _ _ _). assert (fair s0) as H0.
  { split; simpl; [|split; [done|]].
    - intros x. rewrite Hc. simpl. pose proof (polite_now _ Ht x). lia.
    - unfold small. cbn [own fds s0]. by rewrite length_replicate. }
  clearbody s0. pose proof (Hrounds n s0 H0) as H.
  destruct (rounds n manage_round s0) as [? s'|? s'|? s'|?|]; try done;
    by destruct H as (? & ? & ?).
Qed.

(** Whatever the kernel and the clients do, as long as the accepting thread
    adds clients only between rounds, at every moment of a run the managing
    thread has written to a descriptor at most as many answers as it had read
    messages from it, and every answer is the 20 bytes of the greeting, its zero
    byte included; none of its loops over the clients goes on for ever. *)
Theorem poll_answers_are_asked_for n (s : pnet) :
  no_race → trace s = [] → m_Clients (own s) = [] →
  match run n s with
  | Ret _ s' | Exc _ s' | Exit _ s' => polite (trace s')
  | Undef _ => True
  | NoFuel => False
  end.
Proof.
  intros Hn Ht Hc. pose proof (run_polite n s Hn) as H. rewrite Ht in H.
  specialize (H polite_nil Hc). unfold outcome in H. by destruct (run n s).
Qed.
End PollEngine.

(** ** The race on m_Clients *)

(** Client 6 hangs up in the first round; in the second, while client 5 is
    served, the accepting thread adds client 7. *)
Definition quiet_point : reply := ok 0.
Definition race : OS := scripted (
  [ready [5; 6]; quiet_point; quiet_point; quiet_point; quiet_point; mkReply 1 0 [] [0; POLLHUP];
   quiet_point; quiet_point; quiet_point] ++
  [quiet_point; quiet_point; quiet_point; quiet_point; mkReply 1 0 [] [POLLIN];
   quiet_point; data (b "hi"); ready [7]; quiet_point]).
Definition start : pnet := mkNet (mkPollEngine 3 [] []) 0 [] [].

(** The missing lock is not harmless even if the accesses themselves were
    atomic: client 7, added between poll and the loop over its results, is
    paired with the entry of the array that client 6 left there, whose stale
    POLLHUP makes the server look for client 6 among its clients and abort on
    the failing assertion. On a fresh array the entry is indeterminate. *)
Theorem poll_race_aborts :
  match manageConnections (Os:=race) 2 start with
  | Exit code s' => code = 134 ∧
      m_Clients (own s') = [mkClient 5 WANT_WRITE; mkClient 7 WANT_READ]
  | _ => False
  end ∧
  manageConnections (Os:=scripted [ready [5]; quiet_point; quiet_point; quiet_point;
    mkReply 1 0 [] [0]; quiet_point; ready [7]]) 1 start = Undef Indeterminate.
Proof. split; vm_compute; [split; reflexivity|reflexivity]. Qed.

(** ** Witness *)

(** A visitor, on descriptor 7, is accepted before the first round; it is ready
    for whatever poll is asked about and says hi whenever it is read. *)
Definition visited : OS :=
  {| answer_to h c :=
       match c with
       | Socket => ok 3
       | Interleave p => ready (if bool_decide (p = 0 ∧ Interleave 0 ∉ calls_of h) then [7] else [])
       | Poll args _ => ready (map snd args)
       | Read _ _ => data (b "hi")
       | Write _ buf => ok (Z.of_nat (length buf))
       | _ => ok 0
       end;
     strerror _ := "error" |}.
Lemma visited_no_race : no_race (Os:=visited).
Proof. intros h p Hp. simpl. by rewrite bool_decide_eq_false_2 by (by intros [-> _]). Qed.

(** The calls of a conversation. *)
Definition talk (c : call) : bool := match c with Read _ _ | Write _ _ => true | _ => false end.
(** Every second round greets. *)
Example visitor_is_greeted :
  match run (Os:=visited) 5 start with
  | Ret _ s' => List.filter talk (calls_of (trace s')) =
      [Read 7 256; Write 7 hello; Read 7 256; Write 7 hello; Read 7 256]
  | _ => False
  end.
Proof. vm_compute. reflexivity. Qed.
Lemma poll_answers_are_asked_for_witness :
  match run (Os:=visited) 5 start with
  | Ret _ s' | Exc _ s' | Exit _ s' => polite (trace s')
  | Undef _ => True
  | NoFuel => False
  end.
Proof.
  exact (poll_answers_are_asked_for (Os:=visited) 5 start visited_no_race eq_refl eq_refl).
Defined.
