(* ===== verification/AsyncPoll.v ===== *)
(** * AsyncPollEngine: the event loop with worker threads

    Models net/libtpevent/src/poll_async.hpp and poll_async.cpp: connections
    kept alive by the callbacks of their pending events, the vector of events
    that wait for the descriptor, the queue of events that can be worked on,
    the connection manager that moves events from the first to the second, and
    the workers that do the read or write and call back. One event of a worker
    and one accepted connection are the turns of their threads; they happen
    wherever the manager looks at the vector, which it does without a lock. *)

From S2P Require Import Prelude Posix Engine.
From S2P Require Import PollEngine.

(** The handler an event calls back, on its connection. *)
Inductive handler : Type := readHandler_of | writeHandler_of.

(** [_data] refers to [m_ReadBuf] or [m_WriteBuf] of the connection that the
    callback keeps alive. *)
Record Event : Type := mkEvent { _client : Client; _conn : positive; _callback : handler }.
Record Connection : Type := mkConnection { m_Sd : Z; m_ReadBuf : bytes; m_WriteBuf : bytes }.

Record EventLoop : Type := mkEventLoop {
  m_ClientsWantWork : list Event;
  m_ClientsHaveWork : list Event;
  conns : gmap positive Connection;
  next_conn : positive;
  fds : list (option pollfd)         (* the array of manageConnections *)
}.
Abbreviation enet := (net EventLoop).

Section AsyncPoll.
Context {Os : OS}.

(** pthread_self(), as printed. *)
Definition thread : out False := OStr "0x7f".

Definition upd_want (f : list Event → list Event) : M enet unit :=
  set_own (λ e, mkEventLoop (f (m_ClientsWantWork e)) (m_ClientsHaveWork e) (conns e) (next_conn e) (fds e)).
Definition upd_have (f : list Event → list Event) : M enet unit :=
  set_own (λ e, mkEventLoop (m_ClientsWantWork e) (f (m_ClientsHaveWork e)) (conns e) (next_conn e) (fds e)).
Definition upd_conns (f : gmap positive Connection → gmap positive Connection) : M enet unit :=
  set_own (λ e, mkEventLoop (m_ClientsWantWork e) (m_ClientsHaveWork e) (f (conns e)) (next_conn e) (fds e)).
Definition set_fds (l : list (option pollfd)) : M enet unit :=
  set_own (λ e, mkEventLoop (m_ClientsWantWork e) (m_ClientsHaveWork e) (conns e) (next_conn e) l).

Definition conn_at (c : positive) : M enet Connection :=
  let! s := get in or_undef UseAfterFree (conns (own s) !! c).

(** std::make_shared<Connection>(sd, ev) *)
Definition Connection_ctor (sd : Z) : M enet positive :=
  let! s := get in
  let c := next_conn (own s) in
  set_own (λ e, mkEventLoop (m_ClientsWantWork e) (m_ClientsHaveWork e)
             (<[c := mkConnection sd [] []]> (conns e)) (c + 1) (fds e)) ;;
  say [OStr "+Connection: "; OInt sd; OStr newline] ;;
  ret c.
Definition Connection_dtor (c : positive) : M enet unit :=
  let! con := conn_at c in
  say [OStr "~Connection: "; OInt (m_Sd con); OStr newline] ;;
  let! _ := sys (Close (m_Sd con)) in
  upd_conns (base.delete c).

(** An event ceases to exist: its connection goes with its last reference. *)
Definition drop_ref (c : positive) : M enet unit :=
  let! s := get in
  if bool_decide (Exists (λ e, _conn e = c) (m_ClientsWantWork (own s) ++ m_ClientsHaveWork (own s)))
  then ret tt else Connection_dtor c.

Definition asyncRead (sd : Z) (c : positive) : M enet unit :=
  upd_want (λ l, l ++ [mkEvent (mkClient sd WANT_READ) c readHandler_of]).
Definition asyncWrite (sd : Z) (c : positive) : M enet unit :=
  upd_want (λ l, l ++ [mkEvent (mkClient sd WANT_WRITE) c writeHandler_of]).

Definition read (c : positive) : M enet unit :=
  let! con := conn_at c in asyncRead (m_Sd con) c.
Definition write (c : positive) (s : bytes) : M enet unit :=
  let! con := conn_at c in
  upd_conns (<[c := mkConnection (m_Sd con) (m_ReadBuf con) s]>) ;;
  asyncWrite (m_Sd con) c.

Definition readHandler (c : positive) (error : Z) : M enet unit :=
  let! con := conn_at c in
  let s := m_ReadBuf con in
  if bool_decide (s = []) then
    say [OStr "thread: "; thread; OStr ". readHandler: abort connection! [sd: ";
         OInt (m_Sd con); OStr "]"; OEndl]
  else
    let! tmp := strip s in
    say [OStr "thread: "; thread; OStr ". readHandler: "; OInt (Z.of_nat (length s));
         OStr " bytes ["; OStr (text tmp); OStr "] [sd: "; OInt (m_Sd con); OStr "]"; OEndl] ;;
    write c (b "server: " ++ tmp ++ [LF]).
Definition writeHandler (c : positive) (error : Z) : M enet unit := read c.

Definition call_back (e : Event) (error : Z) : M enet unit :=
  match _callback e with
  | readHandler_of => readHandler (_conn e) error
  | writeHandler_of => writeHandler (_conn e) error
  end.

(** ** The workers *)

Definition set_read_buf (c : positive) (d : bytes) : M enet unit :=
  let! con := conn_at c in
  upd_conns (<[c := mkConnection (m_Sd con) d (m_WriteBuf con)]>).

(** The work of one event. *)
Definition do_read (event : Event) : M enet unit :=
  let! r := sys (Read (sd (_client event)) 256) in
  if bool_decide (rc r < 0) then
    say [OStr "some read error!"; OStr newline] ;;
    let! _ := sys (Usleep 1000000) in
    let! _ := sys (Close (sd (_client event))) in
    ret tt
  else
    let! _ := terminated 256 (rc r) (got r) in
    let! s := get in
    if bool_decide (rc r > 0) then
      set_read_buf (_conn event) (take (Z.to_nat (rc r)) (got r)) ;;
      say [OStr "before call callback read"; OStr newline] ;;
      call_back event (errno s)
    else
      set_read_buf (_conn event) [] ;;
      call_back event (errno s).
Definition do_write (event : Event) : M enet unit :=
  let! con := conn_at (_conn event) in
  let! _ := sys (Write (sd (_client event)) (m_WriteBuf con)) in
  say [OStr "before call callback write"; OStr newline] ;;
  let! s := get in
  call_back event (errno s).

(** One round of EventLoop::run. *)
Definition worker_round : M enet unit :=
  let! s := get in
  match m_ClientsHaveWork (own s) with
  | [] => let! _ := sys (Usleep 1000) in ret tt
  | event :: rest =>
      upd_have (λ _, rest) ;;
      match state (_client event) with
      | WANT_READ => do_read event
      | WANT_WRITE => do_write event
      end ;;
      drop_ref (_conn event)
  end.

(** ** The accepting thread *)

(** One round of accept_work. *)
Definition accept_work (listener : Z) : M enet (option positive) :=
  let! poll_ret := sys (Poll [(listener, POLLIN)] 3000) in
  if bool_decide (rc poll_ret = 0) then ret None
  else if bool_decide (rc poll_ret = -1) then throw (runtime_error "poll error")
  else
    let! r := sys (Accept listener) in
    let! c := Connection_ctor (rc r) in
    ret (Some c).
Definition serve_round (listener : Z) : M enet unit :=
  let! conn := accept_work listener in
  match conn with None => ret tt | Some c => read c end.

(** ** The connection manager

    It reads the vector of waiting events without a lock; wherever it does, the
    other threads may have run. *)
Section Manager.
(** What the other threads do there; the points are 0: [empty()], 1: filling,
    2: poll, 3: dispatching, 4: deleting. *)
Context (others : Z → M enet unit).

Fixpoint find_event (x : Z) (l : list Event) : option (Event * list Event) :=
  match l with
  | [] => None
  | e :: l' =>
      if bool_decide (sd (_client e) = x) then Some (e, l')
      else match find_event x l' with Some (e', r) => Some (e', e :: r) | None => None end
  end.
(** A failing assert aborts (SIGABRT). *)
Definition deleteClient (x : Z) : M enet unit :=
  others 4 ;;
  let! s := get in
  say [OStr "delete: "; OInt x; OStr newline] ;;
  match find_event x (m_ClientsWantWork (own s)) with
  | None => exit_with 134
  | Some (e, rest) => upd_want (λ _, rest) ;; drop_ref (_conn e)
  end.

Definition event_at (i : nat) : M enet Event :=
  let! s := get in or_undef OutOfBounds (m_ClientsWantWork (own s) !! i).
Definition fd_at (i : nat) : M enet pollfd :=
  let! s := get in load (Some (fds (own s))) (Z.of_nat i).

Fixpoint fill_loop (fuel i : nat) : M enet unit :=
  match fuel with
  | O => no_fuel
  | S fuel' =>
      others 1 ;;
      let! s := get in
      if decide (i < length (m_ClientsWantWork (own s)))%nat then
        let! e := event_at i in
        let f := mkPollfd (sd (_client e))
          (if bool_decide (state (_client e) = WANT_READ) then POLLIN else POLLOUT) 0 in
        let! l := store (Some (fds (own s))) (Z.of_nat i) f in
        set_fds l ;;
        fill_loop fuel' (S i)
      else ret tt
  end.

Definition poll_clients : M enet Z :=
  others 2 ;;
  let! s := get in
  let n := length (m_ClientsWantWork (own s)) in
  if decide (n ≤ length (fds (own s)))%nat then
    let! args := or_undef Indeterminate (poll_args (take n (fds (own s)))) in
    let! r := sys (Poll args 10) in
    set_fds (with_revents (fds (own s)) (take n (numbers r))) ;;
    ret (rc r)
  else undef OutOfBounds.

(** Handing event [i] to the workers. *)
Definition hand_over (i : nat) (f : pollfd) : M enet unit :=
  let! e := event_at i in
  upd_have (λ l, l ++ [e]) ;;
  deleteClient (fd f).

Fixpoint dispatch_loop (fuel i : nat) (disconnected : list Z) : M enet (list Z) :=
  match fuel with
  | O => no_fuel
  | S fuel' =>
      others 3 ;;
      let! s := get in
      if decide (i < length (m_ClientsWantWork (own s)))%nat then
        let! f := fd_at i in
        let! e := event_at i in
        if bool_decide (revents f = 0) then dispatch_loop fuel' (S i) disconnected
        else if has (revents f) POLLHUP then
          say [OStr "client hup"; OStr newline] ;;
          dispatch_loop fuel' (S i) (disconnected ++ [fd f])
        else if has (revents f) POLLIN then
          (if bool_decide (state (_client e) ≠ WANT_READ) then ret tt else hand_over i f) ;;
          dispatch_loop fuel' (S i) disconnected
        else if has (revents f) POLLOUT then
          (if bool_decide (state (_client e) ≠ WANT_WRITE) then ret tt else hand_over i f) ;;
          dispatch_loop fuel' (S i) disconnected
        else if has (revents f) POLLNVAL then
          say [OStr "POLLNVAL !!! need remove this descriptor: "; OInt (fd f); OEndl] ;;
          dispatch_loop fuel' (S i) (disconnected ++ [fd f])
        else
          (if has (revents f) POLLERR then
             say [OStr "WARNING> revents = POLLERR. [SD = "; OInt (fd f); OStr "]"; OEndl]
           else
             say [OStr "WARNIG> revent = UNKNOWN_EVENT: "; OInt (revents f); OStr " [SD = ";
                  OInt (fd f); OStr "]"; OEndl]) ;;
          dispatch_loop fuel' (S i) disconnected
      else ret disconnected
  end.

(** One round of manageConnections; [true] when the loop returns -1. *)
Definition manage_round : M enet bool :=
  others 0 ;;
  let! s := get in
  if bool_decide (m_ClientsWantWork (own s) = []) then
    let! _ := sys (Usleep 1000) in ret false
  else
    fill_loop loop_fuel 0 ;;
    let! poll_ret := poll_clients in
    if bool_decide (poll_ret = 0) then ret false
    else if bool_decide (poll_ret = -1) then say [OStr "poll error!"; OStr newline] ;; ret true
    else
      let! disconnected := dispatch_loop loop_fuel 0 [] in
      for_each deleteClient disconnected ;;
      ret false.
End Manager.

(** ** All threads *)

(** Whose turn it is; the four workers run the same code. *)
Definition turn (listener who : Z) : M enet unit :=
  if bool_decide (who = 0) then serve_round listener else worker_round.
(** The turns that the schedule has for the others at a point of the manager. *)
Definition turns (listener point : Z) : M enet unit :=
  let! r := sys (Interleave point) in for_each (turn listener) (numbers r).

(** [n] rounds of the manager, with the turns of the others in between; when a
    poll error has ended the manager, the others go on. *)
Fixpoint system (listener : Z) (managed : bool) (n : nat) : M enet unit :=
  match n with
  | O => ret tt
  | S n' =>
      if managed then
        let! stop := manage_round (turns listener) in system listener (negb stop) n'
      else turns listener 0 ;; system listener false n'
  end.

(** The first worker starts the manager, with its array on the stack. *)
Definition start_manager : M enet unit :=
  say [OStr "start connection manager thread: "; thread; OEndl] ;;
  set_fds (replicate (Z.to_nat fds_size) None) ;;
  let! _ := sys (Usleep 1000) in ret tt.
Definition start_worker (i : nat) : M enet unit :=
  (if decide (i = 0%nat) then start_manager else ret tt) ;;
  say [OStr "start worker thread: "; thread; OStr newline] ;;
  let! _ := sys (Usleep 1000) in ret tt.

(** AsyncPollEngine::run starts four workers and then accepts connections; an
    exception there destroys the threads, which are not joined. *)
Definition run (listener : Z) (n : nat) : M enet unit :=
  say [OStr "async poll server starts"; OEndl] ;;
  or_terminate (for_each start_worker (seq 0 4) ;; system listener true n).

(** ** One event of a worker *)

(** No pending event keeps connection [c] alive. *)
Definition last_reference (c : positive) (s : enet) (rest : list Event) : Prop :=
  Forall (λ e, _conn e ≠ c) (m_ClientsWantWork (own s) ++ rest).

Lemma drop_ref_last c con (s : enet) :
  Forall (λ e, _conn e ≠ c) (m_ClientsWantWork (own s) ++ m_ClientsHaveWork (own s)) →
  conns (own s) !! c = Some con →
  ∃ s', drop_ref c s = Ret tt s' ∧ conns (own s') = base.delete c (conns (own s)) ∧
    m_ClientsWantWork (own s') = m_ClientsWantWork (own s) ∧
    m_ClientsHaveWork (own s') = m_ClientsHaveWork (own s) ∧
    calls_of (trace s') = calls_of (trace s) ++ [Close (m_Sd con)].
Proof.
  intros Hno Hc. unfold drop_ref. unfold bind at 1, get. rewrite bool_decide_eq_false_2.
  - unfold Connection_dtor, conn_at, bind, get. simpl. rewrite Hc. simpl.
    eexists. split; [reflexivity|]. simpl. unfold calls_of. rewrite fmap_app. done.
  - intros (e & He & Hin)%Exists_exists. rewrite Forall_forall in Hno. by apply (Hno e).
Qed.
Lemma drop_ref_kept c e (s : enet) :
  e ∈ m_ClientsWantWork (own s) → _conn e = c → drop_ref c s = Ret tt s.
Proof.
  intros Hin He. unfold drop_ref, bind, get. rewrite bool_decide_eq_true_2; [done|].
  apply Exists_exists. exists e. split; [|done]. apply elem_of_app. by left.
Qed.

(** The state of a worker between the read and the callback. *)
Lemma conn_at_live c con (s : enet) : conns (own s) !! c = Some con → conn_at c s = Ret con s.
Proof. unfold conn_at, bind, get. by intros ->. Qed.

Definition answer_text (d : bytes) : bytes := b "server: " ++ stripped d ++ [LF].

(** The worker's part after a read that yielded [d]. *)
Lemma readHandler_nonempty c con (s : enet) err :
  conns (own s) !! c = Some con → m_ReadBuf con ≠ [] → forallb is_crlf (m_ReadBuf con) = false →
  ∃ s', readHandler c err s = Ret tt s' ∧ trace s' = trace s ∧
    m_ClientsWantWork (own s') =
      m_ClientsWantWork (own s) ++ [mkEvent (mkClient (m_Sd con) WANT_WRITE) c writeHandler_of] ∧
    m_ClientsHaveWork (own s') = m_ClientsHaveWork (own s) ∧
    conns (own s') = <[c := mkConnection (m_Sd con) (m_ReadBuf con) (answer_text (m_ReadBuf con))]>
                       (conns (own s)).
Proof.
  intros Hc Hne Hcr. unfold readHandler. rewrite (bind_eq_ret _ _ _ _ _ (conn_at_live _ _ _ Hc)).
  rewrite bool_decide_eq_false_2 by done. unfold bind at 1. rewrite strip_spec, Hcr.
  unfold say, bind at 1, modify. unfold write.
  erewrite bind_eq_ret by (apply conn_at_live; exact Hc).
  eexists. split; [reflexivity|]. done.
Qed.

(** The state in which a worker starts on an event it took from the queue. *)
Definition taken (rest : list Event) (s : enet) : enet :=
  mkNet (mkEventLoop (m_ClientsWantWork (own s)) rest (conns (own s)) (next_conn (own s))
    (fds (own s))) (errno s) (trace s) (cerr s).

Lemma worker_round_takes (s : enet) e rest :
  m_ClientsHaveWork (own s) = e :: rest →
  worker_round s =
    (match state (_client e) with WANT_READ => do_read e | WANT_WRITE => do_write e end ;;
     drop_ref (_conn e)) (taken rest s).
Proof. intros H. unfold worker_round. unfold bind at 1, get. by rewrite H. Qed.

Lemma do_read_error e (s : enet) :
  rc (answer_to (trace s) (Read (sd (_client e)) 256)) < 0 →
  ∃ s', do_read e s = Ret tt s' ∧ own s' = own s ∧
    calls_of (trace s') = calls_of (trace s) ++
      [Read (sd (_client e)) 256; Usleep 1000000; Close (sd (_client e))].
Proof.
  intros H. unfold do_read. rewrite bind_sys, bool_decide_eq_true_2 by done.
  eexists. split; [reflexivity|]. split; [done|]. simpl. unfold calls_of.
  rewrite !fmap_app, <-!app_assoc. done.
Qed.
Lemma do_read_eof e c con (s : enet) :
  rc (answer_to (trace s) (Read (sd (_client e)) 256)) = 0 →
  _conn e = c → _callback e = readHandler_of → conns (own s) !! c = Some con →
  ∃ s', do_read e s = Ret tt s' ∧
    m_ClientsWantWork (own s') = m_ClientsWantWork (own s) ∧
    m_ClientsHaveWork (own s') = m_ClientsHaveWork (own s) ∧
    conns (own s') = <[c := mkConnection (m_Sd con) [] (m_WriteBuf con)]> (conns (own s)) ∧
    calls_of (trace s') = calls_of (trace s) ++ [Read (sd (_client e)) 256].
Proof.
  intros H Hc Hcb Hcon. unfold do_read. rewrite bind_sys, H.
  change (bool_decide (0 < 0)) with false. change (bool_decide (0 > 0)) with false.
  unfold terminated. change (bool_decide (0 ≤ 0 < 256)) with true. cbv iota. rewrite bind_ret_l.
  unfold bind at 1, get. unfold set_read_buf. rewrite bind_assoc.
  erewrite bind_eq_ret by (apply conn_at_live; simpl; rewrite Hc; exact Hcon).
  unfold bind at 1, upd_conns, set_own, modify. unfold call_back. rewrite Hcb, Hc.
  unfold readHandler. erewrite bind_eq_ret by (apply conn_at_live; simpl; apply lookup_insert_eq).
  eexists. split; [reflexivity|]. do 3 (split; [done|]). simpl. unfold calls_of.
  by rewrite fmap_app.
Qed.
Lemma do_read_message e c con d (s : enet) :
  answer_to (trace s) (Read (sd (_client e)) 256) = d →
  0 < rc d < 256 → Z.of_nat (length (got d)) = rc d →
  _conn e = c → _callback e = readHandler_of → conns (own s) !! c = Some con →
  if forallb is_crlf (got d) then do_read e s = Undef OutOfBounds else
  ∃ s', do_read e s = Ret tt s' ∧
    m_ClientsWantWork (own s') =
      m_ClientsWantWork (own s) ++ [mkEvent (mkClient (m_Sd con) WANT_WRITE) c writeHandler_of] ∧
    m_ClientsHaveWork (own s') = m_ClientsHaveWork (own s) ∧
    conns (own s') = <[c := mkConnection (m_Sd con) (got d) (answer_text (got d))]> (conns (own s)) ∧
    calls_of (trace s') = calls_of (trace s) ++ [Read (sd (_client e)) 256].
Proof.
  intros Hd Hr Hlen Hc Hcb Hcon.
  assert (∃ s1 err, do_read e s = readHandler c err s1 ∧
    conns (own s1) = <[c := mkConnection (m_Sd con) (got d) (m_WriteBuf con)]> (conns (own s)) ∧
    m_ClientsWantWork (own s1) = m_ClientsWantWork (own s) ∧
    m_ClientsHaveWork (own s1) = m_ClientsHaveWork (own s) ∧
    calls_of (trace s1) = calls_of (trace s) ++ [Read (sd (_client e)) 256])
    as (s1 & err & -> & Hconns & Hwant & Hhave & Htr).
  { unfold do_read. rewrite bind_sys, Hd.
    rewrite bool_decide_eq_false_2 by lia. rewrite (bool_decide_eq_true_2 (rc d > 0)) by lia.
    unfold terminated. rewrite bool_decide_eq_true_2 by lia. rewrite bind_ret_l.
    unfold bind at 1, get. unfold set_read_buf. rewrite bind_assoc.
    erewrite bind_eq_ret by (apply conn_at_live; simpl; rewrite Hc; exact Hcon).
    unfold bind at 1, upd_conns, set_own, modify. unfold bind at 1, say, modify.
    unfold call_back. rewrite Hcb, Hc. eexists _, _. split; [reflexivity|]. simpl.
    rewrite take_ge by lia. do 3 (split; [done|]). unfold calls_of. by rewrite fmap_app. }
  destruct (forallb is_crlf (got d)) eqn:Hcr.
  - unfold readHandler. erewrite bind_eq_ret
      by (apply conn_at_live; rewrite Hconns; apply lookup_insert_eq). simpl.
    rewrite bool_decide_eq_false_2 by (intros Hg; rewrite Hg in Hlen; simpl in Hlen; lia).
    unfold bind at 1. by rewrite strip_spec, Hcr.
  - destruct (readHandler_nonempty c (mkConnection (m_Sd con) (got d) (m_WriteBuf con)) s1 err)
      as (s' & E & Ht & Hw & Hh & Hcs); [rewrite Hconns; apply lookup_insert_eq|simpl|done|].
    { intros Hg. rewrite Hg in Hlen. simpl in Hlen. lia. }
    exists s'. split; [done|]. rewrite Hw, Hh, Hcs, Ht, Hwant, Hconns. simpl.
    by rewrite insert_insert_eq.
Qed.

End AsyncPoll.

(** ** The manager and its shifted indices *)

(** The manager without the other threads. *)
Definition alone (point : Z) : M enet unit := ret tt.

(** Three connections wait for data; a small array is enough for them. *)
Definition waiting (n : Z) (c : positive) : Event :=
  mkEvent (mkClient n WANT_READ) c readHandler_of.
Definition three_waiting : enet :=
  mkNet (mkEventLoop [waiting 5 1; waiting 6 2; waiting 7 3] []
    {[1%positive := mkConnection 5 [] []; 2%positive := mkConnection 6 [] [];
      3%positive := mkConnection 7 [] []]} 4 (replicate 8 None)) 0 [] [].
(** poll reports the first two; everything else succeeds. *)
Definition first_two_ready : OS := scripted [mkReply 2 0 [] [POLLIN; POLLIN; 0]].
Definition only_second_ready : OS := scripted [mkReply 1 0 [] [0; POLLIN; 0]].

(** The manager erases a ready event from the vector it indexes: with one
    ready connection it is handed to the workers, but with the first two of
    three ready, the events handed over are the first and the third, which has
    no data, while the second, which has, is dropped and its connection
    closed. *)
Theorem manager_drops_second_ready :
  (∃ s, manage_round (Os:=only_second_ready) alone three_waiting = Ret false s ∧
     m_ClientsHaveWork (own s) = [waiting 6 2] ∧
     m_ClientsWantWork (own s) = [waiting 5 1; waiting 7 3] ∧
     Close 6 ∉ calls_of (trace s)) ∧
  (∃ s, manage_round (Os:=first_two_ready) alone three_waiting = Ret false s ∧
     m_ClientsHaveWork (own s) = [waiting 5 1; waiting 7 3] ∧
     m_ClientsWantWork (own s) = [waiting 7 3] ∧
     conns (own s) !! 2%positive = None ∧ Close 6 ∈ calls_of (trace s)).
Proof.
  split; (eexists; split; [vm_compute; reflexivity|]; repeat split);
    by apply (bool_decide_unpack _); vm_compute.
Qed.

(** ** Witness *)

Definition one_ready : enet :=
  mkNet (mkEventLoop [] [waiting 5 1] {[1%positive := mkConnection 5 [] []]} 2 []) 0 [] [].
Definition greeting : bytes := b "hi" ++ [CR; LF].
