(* ===== verification/AsyncSystem.v ===== *)
(** * The threads of AsyncPollEngine together

    The manager, the workers and the accepting thread of
    net/libtpevent/src/poll_async.cpp in any interleaving of AsyncPoll.v: the
    invariant that holds after every turn. No connection is used after its
    destruction, whatever is written to a descriptor is the answer to a message
    read from it before, and the loops of the manager end. *)

From S2P Require Import Prelude Posix Engine PollEngine AsyncPoll.

Section System.
Context {Os : OS}.

(** ** The invariant *)

(** [d] is the answer to a message read from [x] before. *)
Definition answered (h : history) (x : Z) (d : bytes) : Prop :=
  ∃ r, (Read x 256, r) ∈ h ∧ 0 < rc r ∧ d = answer_text (take (Z.to_nat (rc r)) (got r)).
Definition only_answers (h : history) : Prop :=
  ∀ h1 x d r h2, h = h1 ++ (Write x d, r) :: h2 → answered h1 x d.

Lemma answered_app h h' x d : answered h x d → answered (h ++ h') x d.
Proof. intros (r & Hr & H). exists r. split; [|done]. apply elem_of_app. by left. Qed.
Lemma only_answers_nil : only_answers [].
Proof. by intros [|] x d r h2. Qed.
Lemma only_answers_snoc h c r :
  only_answers h → (∀ x d, c = Write x d → answered h x d) → only_answers (h ++ [(c, r)]).
Proof.
  intros Hh Hc h1 x d q h2 E. destruct h2 as [|e h2 _] using rev_ind.
  - apply app_inj_tail in E as [-> [= -> ->]]. by apply Hc.
  - rewrite app_comm_cons, app_assoc in E. apply app_inj_tail in E as [-> _]. by eapply Hh.
Qed.

(** A pending event holds a live connection, on its descriptor; one that wants
    to write has an answer to write. *)
Definition event_ok (cs : gmap positive Connection) (h : history) (e : Event) : Prop :=
  ∃ con, cs !! _conn e = Some con ∧ sd (_client e) = m_Sd con ∧
    match state (_client e), _callback e with
    | WANT_READ, readHandler_of => True
    | WANT_WRITE, writeHandler_of => answered h (m_Sd con) (m_WriteBuf con)
    | _, _ => False
    end.
Record inv (s : enet) : Prop := mkInv {
  inv_want : Forall (event_ok (conns (own s)) (trace s)) (m_ClientsWantWork (own s));
  inv_have : Forall (event_ok (conns (own s)) (trace s)) (m_ClientsHaveWork (own s));
  inv_fresh c : (next_conn (own s) ≤ c)%positive → conns (own s) !! c = None;
  inv_answers : only_answers (trace s);
  inv_fds : (length (fds (own s)) ≤ Z.to_nat fds_size)%nat
}.
(** With one event in hand, besides those in the queues. *)
Definition inv_with (e : Event) (s : enet) : Prop := inv s ∧ event_ok (conns (own s)) (trace s) e.

(** Every outcome of [m] from [P]: [Q] after a normal end, nothing but answers
    after an exception or exit, no use of a destroyed connection, and no loop
    that goes on. *)
Definition guards {A} (P : enet → Prop) (m : M enet A) (Q : A → enet → Prop) : Prop :=
  ∀ s, P s → match m s with
             | Ret a s' => Q a s'
             | Exc _ s' | Exit _ s' => only_answers (trace s')
             | Undef u => u ≠ UseAfterFree
             | NoFuel => False
             end.
Lemma guards_ret {A} (P : enet → Prop) (a : A) (Q : A → enet → Prop) : (∀ s, P s → Q a s) → guards P (ret a) Q.
Proof. intros H s Hs. by apply H. Qed.
Lemma guards_bind {A B} P (m : M enet A) R (k : A → M enet B) Q :
  guards P m R → (∀ a, guards (R a) (k a) Q) → guards P (bind m k) Q.
Proof.
  intros Hm Hk s Hs. specialize (Hm s Hs). unfold bind. destruct (m s); try done. by apply Hk.
Qed.
Lemma guards_conseq {A} (P P' : enet → Prop) (m : M enet A) (Q Q' : A → enet → Prop) :
  guards P' m Q' → (∀ s, P s → P' s) → (∀ a s, Q' a s → Q a s) → guards P m Q.
Proof.
  intros Hm HP HQ s Hs. specialize (Hm s (HP s Hs)). destruct (m s); try done. by apply HQ.
Qed.
Lemma guards_get {A} P (k : enet → M enet A) Q :
  (∀ s0, guards (λ s, s = s0 ∧ P s) (k s0) Q) → guards P (bind get k) Q.
Proof. intros H s Hs. by apply (H s s). Qed.
Lemma guards_if {A} P (c : bool) (m m' : M enet A) Q :
  (c = true → guards P m Q) → (c = false → guards P m' Q) → guards P (if c then m else m') Q.
Proof. destruct c; auto. Qed.
Lemma guards_pure {A} P (φ : Prop) (m : M enet A) Q :
  (∀ s, P s → φ) → (φ → guards P m Q) → guards P m Q.
Proof. intros HP H s Hs. apply H; [by apply (HP s)|done]. Qed.
Lemma guards_assume {A} P (φ : Prop) (m : M enet A) Q : (φ → guards P m Q) → guards (λ s, P s ∧ φ) m Q.
Proof. intros H s [Hs Hφ]. by apply H. Qed.
Lemma guards_ub {A} P u (Q : A → enet → Prop) : u ≠ UseAfterFree → guards P (undef u) Q.
Proof. by intros Hu s _. Qed.
Lemma guards_same {A} P (m : M enet A) :
  (∀ s, match m s with Ret _ s' => s' = s | Undef u => u ≠ UseAfterFree | _ => False end) →
  guards P m (λ _, P).
Proof. intros H s Hs. specialize (H s). destruct (m s); try done. by subst. Qed.

(** What only prints, and system calls. *)
Definition stable (P : enet → Prop) : Prop := ∀ s s', own s = own s' → trace s = trace s' → P s → P s'.
Lemma guards_say P l : stable P → guards P (say l) (λ _, P).
Proof. intros HP s Hs. simpl. by apply (HP s). Qed.
Lemma inv_stable : stable inv.
Proof. intros s s' Ho Ht [H1 H2 H3 H4 H5]. split; by rewrite <-?Ho, <-?Ht. Qed.
Lemma inv_with_stable e : stable (inv_with e).
Proof. intros s s' Ho Ht [Hs He]. split; [by apply (inv_stable s)|]. by rewrite <-Ho, <-Ht. Qed.
Lemma event_ok_app cs h h' e : event_ok cs h e → event_ok cs (h ++ h') e.
Proof.
  intros (con & Hc & Hs & H). exists con. split; [done|]. split; [done|].
  destruct (state _), (_callback e); try done. by apply answered_app.
Qed.
Lemma inv_sys c s : inv s → (∀ x d, c = Write x d → answered (trace s) x d) → inv (after c s).
Proof.
  intros [H1 H2 H3 H4 H5] Hc. split; cbn [own trace after].
  - eapply Forall_impl; [exact H1|]. intros e. apply event_ok_app.
  - eapply Forall_impl; [exact H2|]. intros e. apply event_ok_app.
  - done.
  - by apply only_answers_snoc.
  - done.
Qed.
Lemma inv_with_sys e c s :
  inv_with e s → (∀ x d, c = Write x d → answered (trace s) x d) → inv_with e (after c s).
Proof. intros [Hs He] Hc. split; [by apply inv_sys|]. by apply event_ok_app. Qed.
Lemma guards_sys (P : enet → Prop) c :
  (∀ s, P s → P (after c s)) → guards P (sys c) (λ _, P).
Proof. intros H s Hs. rewrite sys_eval. by apply H. Qed.
Lemma guards_own (P : enet → Prop) (Q : unit → enet → Prop) f :
  (∀ s, P s → Q tt (mkNet (f (own s)) (errno s) (trace s) (cerr s))) → guards P (set_own f) Q.
Proof. intros H s Hs. by apply H. Qed.

(** ** The workers *)

Lemma drop_ref_inv e : guards (inv_with e) (drop_ref (_conn e)) (λ _, inv).
Proof.
  intros s [Hs (con & Hc & _)]. unfold drop_ref. unfold bind at 1, get. case_bool_decide as Href; [done|].
  unfold Connection_dtor. rewrite (bind_eq_ret _ _ _ _ _ (conn_at_live _ _ _ Hc)).
  unfold say, upd_conns, set_own. run_step. rewrite bind_sys. unfold modify.
  assert (∀ e', e' ∈ m_ClientsWantWork (own s) ++ m_ClientsHaveWork (own s) → _conn e' ≠ _conn e) as Hother.
  { intros e' He' Heq. apply Href, Exists_exists. by exists e'. }
  pose proof (inv_sys (Close (m_Sd con)) s Hs ltac:(done)) as [H1 H2 H3 H4 H5].
  assert (∀ l, Forall (event_ok (conns (own s)) (trace (after (Close (m_Sd con)) s))) l →
    (∀ e', e' ∈ l → _conn e' ≠ _conn e) →
    Forall (event_ok (base.delete (_conn e) (conns (own s))) (trace (after (Close (m_Sd con)) s))) l) as Hl.
  { intros l Hl Hne. apply Forall_forall. intros e' He'. apply (proj1 (Forall_forall _ _) Hl) in He' as Hok.
    destruct Hok as (con' & Hc' & H). exists con'. rewrite lookup_delete_ne by (symmetry; auto). done. }
  split; cbn [own trace after] in *.
  - apply Hl; [done|]. intros e' He'. apply Hother, elem_of_app. by left.
  - apply Hl; [done|]. intros e' He'. apply Hother, elem_of_app. by right.
  - intros c Hcn. cbn. rewrite lookup_delete_None. right. by apply H3.
  - done.
  - done.
Qed.
Lemma guards_say_then {A} P l (k : M enet A) Q : stable P → guards P k Q → guards P (say l ;; k) Q.
Proof. intros HP Hk. eapply guards_bind; [by apply guards_say|]. by intros []. Qed.
(** The buffer of the connection holds a message read from its descriptor. *)
Definition has_read (h : history) (con : Connection) : Prop :=
  ∃ r, (Read (m_Sd con) 256, r) ∈ h ∧ 0 < rc r ∧ m_ReadBuf con = take (Z.to_nat (rc r)) (got r).

(** Replacing a connection by one with the same descriptor, and an answer in the
    write buffer if there was one. *)
Definition replaces (h : history) (con con' : Connection) : Prop :=
  m_Sd con' = m_Sd con ∧ (answered h (m_Sd con) (m_WriteBuf con) → answered h (m_Sd con) (m_WriteBuf con')).
Lemma replaced_event cs h c con con' e :
  cs !! c = Some con → replaces h con con' → event_ok cs h e → event_ok (<[c := con']> cs) h e.
Proof.
  intros Hc [Hsd Hw] (con0 & H0 & Hs & H). destruct (decide (c = _conn e)) as [->|Hne].
  - exists con'. rewrite lookup_insert_eq. simplify_eq. split; [done|]. rewrite Hsd. split; [done|].
    destruct (state _), (_callback e); auto.
  - exists con0. by rewrite lookup_insert_ne.
Qed.
Lemma replace_inv e c con con' (s : enet) :
  inv_with e s → conns (own s) !! c = Some con → replaces (trace s) con con' →
  inv_with e (mkNet (mkEventLoop (m_ClientsWantWork (own s)) (m_ClientsHaveWork (own s))
    (<[c := con']> (conns (own s))) (next_conn (own s)) (fds (own s))) (errno s) (trace s) (cerr s)).
Proof.
  intros [[H1 H2 H3 H4 H5] He] Hc Hr. split; [split|]; cbn [own trace conns next_conn m_ClientsWantWork m_ClientsHaveWork].
  - eapply Forall_impl; [exact H1|]. intros e'. by apply (replaced_event _ _ _ con).
  - eapply Forall_impl; [exact H2|]. intros e'. by apply (replaced_event _ _ _ con).
  - intros c' Hc'. rewrite lookup_insert_ne; [by apply H3|]. intros ->. by rewrite H3 in Hc.
  - done.
  - done.
  - by apply (replaced_event _ _ _ con).
Qed.
(** A new event joins those that wait. *)
Lemma push_inv e e' (s : enet) :
  inv_with e s → event_ok (conns (own s)) (trace s) e' →
  inv_with e (mkNet (mkEventLoop (m_ClientsWantWork (own s) ++ [e']) (m_ClientsHaveWork (own s))
    (conns (own s)) (next_conn (own s)) (fds (own s))) (errno s) (trace s) (cerr s)).
Proof.
  intros [[H1 H2 H3 H4 H5] He] He'. split; [split|]; cbn [own trace conns next_conn m_ClientsWantWork m_ClientsHaveWork]; try done.
  apply Forall_app. split; [done|]. by constructor.
Qed.
Lemma read_inv e c con : guards (λ s, inv_with e s ∧ conns (own s) !! c = Some con) (AsyncPoll.read c) (λ _, inv_with e).
Proof.
  intros s [Hs Hc]. unfold AsyncPoll.read. rewrite (bind_eq_ret _ _ _ _ _ (conn_at_live _ _ _ Hc)).
  apply push_inv; [done|]. by exists con.
Qed.
Lemma write_inv e c con d :
  guards (λ s, inv_with e s ∧ conns (own s) !! c = Some con ∧ answered (trace s) (m_Sd con) d)
    (AsyncPoll.write c d) (λ _, inv_with e).
Proof.
  intros s (Hs & Hc & Hd). unfold AsyncPoll.write. rewrite (bind_eq_ret _ _ _ _ _ (conn_at_live _ _ _ Hc)).
  unfold upd_conns, set_own, asyncWrite, upd_want, set_own. run_step. unfold modify.
  set (con' := mkConnection (m_Sd con) (m_ReadBuf con) d).
  pose proof (replace_inv e c con con' s Hs Hc) as H. destruct H as [H He]; [by split|].
  apply (push_inv e _ _ (conj H He)). exists con'. cbn [own conns]. by rewrite lookup_insert_eq.
Qed.
Lemma readHandler_inv e c con err :
  guards (λ s, inv_with e s ∧ conns (own s) !! c = Some con ∧ (m_ReadBuf con = [] ∨ has_read (trace s) con))
    (readHandler c err) (λ _, inv_with e).
Proof.
  intros s (Hs & Hc & Hr). unfold readHandler. rewrite (bind_eq_ret _ _ _ _ _ (conn_at_live _ _ _ Hc)).
  case_bool_decide as Hempty; [by apply (inv_with_stable e s)|]. destruct Hr as [|(r & Hin & Hpos & Hbuf)]; [done|].
  unfold bind at 1. rewrite strip_spec. destruct (forallb is_crlf _); [done|]. unfold say. run_step.
  apply (write_inv e c con). cbn [own trace]. split; [by apply (inv_with_stable e s)|]. split; [done|].
  exists r. split; [done|]. split; [done|]. by rewrite Hbuf.
Qed.
(** An event in hand whose connection has nothing in its read buffer, or a
    message. *)
Definition ready_for (e : Event) (s : enet) : Prop :=
  inv_with e s ∧ ∃ con, conns (own s) !! _conn e = Some con ∧ (m_ReadBuf con = [] ∨ has_read (trace s) con).
Lemma ready_for_stable e : stable (ready_for e).
Proof.
  intros s s' Ho Ht [Hs (con & Hc & H)]. split; [by apply (inv_with_stable e s)|]. exists con. by rewrite <-Ho, <-Ht.
Qed.
Lemma read_callback_inv e err : guards (ready_for e) (call_back e err) (λ _, inv_with e).
Proof.
  intros s [Hs (con & Hc & Hr)]. unfold call_back. destruct (_callback e).
  - by apply (readHandler_inv e (_conn e) con).
  - by apply (read_inv e (_conn e) con).
Qed.
(** What a read stores in the buffer of the connection. *)
Lemma set_read_buf_inv e sd_ r d :
  (d = [] ∨ (0 < rc r ∧ d = take (Z.to_nat (rc r)) (got r))) →
  guards (λ s, inv_with e s ∧ sd (_client e) = sd_ ∧ (Read sd_ 256, r) ∈ trace s)
    (set_read_buf (_conn e) d) (λ _, ready_for e).
Proof.
  intros Hd s (Hs & <- & Hin). pose proof Hs as [_ (con & Hc & Hsd & _)]. unfold set_read_buf.
  rewrite (bind_eq_ret _ _ _ _ _ (conn_at_live _ _ _ Hc)). unfold upd_conns, set_own, modify.
  split; [by apply (replace_inv e (_conn e) con)|]. eexists. cbn [own conns trace]. rewrite lookup_insert_eq.
  split; [reflexivity|]. destruct Hd as [->|[Hpos ->]]; [by left|]. right. exists r. cbn [m_Sd m_ReadBuf].
  by rewrite <-Hsd.
Qed.
Lemma do_read_inv e : guards (inv_with e) (do_read e) (λ _, inv_with e).
Proof.
  intros s Hs. unfold do_read. rewrite bind_sys.
  set (c := Read (sd (_client e)) 256). set (r := answer_to (trace s) c).
  assert (inv_with e (after c s)) as Hs1 by (by apply inv_with_sys).
  assert ((c, r) ∈ trace (after c s)) as Hin by (apply elem_of_app; right; by left).
  case_bool_decide.
  - unfold say. run_step. rewrite !bind_sys. unfold ret.
    apply (inv_with_sys e (Close (sd (_client e)))); [|done]. apply (inv_with_sys e (Usleep 1000000)); [|done].
    by apply (inv_with_stable e (after c s)).
  - unfold terminated. case_bool_decide; [|done]. run_step. unfold bind at 1, get. case_bool_decide as Hpos.
    + assert (0 < rc r) as Hr by lia.
      apply (guards_bind _ _ (λ _, ready_for e) _ _ (set_read_buf_inv e (sd (_client e)) r _ (or_intror (conj Hr eq_refl)))); [|done]. intros _. apply guards_say_then; [apply ready_for_stable|]. apply read_callback_inv.
    + apply (guards_bind _ _ (λ _, ready_for e) _ _ (set_read_buf_inv e (sd (_client e)) r _ (or_introl eq_refl))); [|done].
      intros _. apply read_callback_inv.
Qed.
(** The write of an event that wants to write sends an answer. *)
Lemma do_write_inv e : state (_client e) = WANT_WRITE → guards (inv_with e) (do_write e) (λ _, inv_with e).
Proof.
  intros Hw s Hs. pose proof Hs as [_ (con & Hc & Hsd & Hst)]. rewrite Hw in Hst. unfold do_write.
  rewrite (bind_eq_ret _ _ _ _ _ (conn_at_live _ _ _ Hc)), bind_sys. unfold say. run_step. unfold bind at 1, get.
  destruct (_callback e) eqn:Hcb; [done|]. unfold call_back. rewrite Hcb. unfold writeHandler.
  apply (read_inv e (_conn e) con). split; [|done].
  apply (inv_with_stable e (after (Write (sd (_client e)) (m_WriteBuf con)) s)); [done..|].
  apply inv_with_sys; [done|]. intros x d [= <- <-]. by rewrite Hsd.
Qed.
Lemma worker_round_inv : guards inv worker_round (λ _, inv).
Proof.
  intros s Hs. destruct (m_ClientsHaveWork (own s)) as [|e rest] eqn:E.
  - unfold worker_round, bind at 1, get. rewrite E, bind_sys. by apply (inv_sys (Usleep 1000)).
  - rewrite (worker_round_takes s e rest E).
    assert (inv_with e (taken rest s)) as Ht.
    { destruct Hs as [H1 H2 H3 H4 H5]. rewrite E in H2. apply Forall_cons in H2 as [He H2]. by split; [split|]. }
    destruct (state (_client e)) eqn:Hst;
      [apply (guards_bind _ _ (λ _, inv_with e) _ _ (do_read_inv e))
      |apply (guards_bind _ _ (λ _, inv_with e) _ _ (do_write_inv e Hst))]; try done; intros _; apply drop_ref_inv.
Qed.

(** ** The accepting thread *)
Lemma serve_round_inv l : guards inv (serve_round l) (λ _, inv).
Proof.
  intros s Hs. unfold serve_round, accept_work. rewrite bind_assoc, bind_sys.
  assert (inv (after (Poll [(l, POLLIN)] 3000) s)) as H1 by (by apply inv_sys).
  case_bool_decide; [by run_step|]. case_bool_decide; [by destruct H1|].
  rewrite bind_assoc, bind_sys. set (s2 := after (Accept l) _). assert (inv s2) as H2 by (by apply inv_sys).
  set (sd_ := rc _). unfold Connection_ctor, set_own, say. repeat run_step.
  unfold AsyncPoll.read. erewrite bind_eq_ret; [|apply conn_at_live; cbn [own conns]; apply lookup_insert_eq].
  unfold asyncRead, upd_want, set_own, modify. cbn [own trace].
  destruct H2 as [I1 I2 I3 I4 I5].
  assert (∀ e con, event_ok (conns (own s2)) (trace s2) e →
    event_ok (<[next_conn (own s2) := con]> (conns (own s2))) (trace s2) e) as Hnew.
  { intros e con (con' & Hc & H'). exists con'. rewrite lookup_insert_ne; [done|].
    intros Heq. rewrite <-Heq, I3 in Hc by lia. done. }
  split; cbn [own trace conns next_conn m_ClientsWantWork m_ClientsHaveWork].
  - apply Forall_app. split; [eapply Forall_impl; [exact I1|]; intros e; apply Hnew|]. constructor; [|constructor].
    eexists. cbn [_conn]. rewrite lookup_insert_eq. done.
  - eapply Forall_impl; [exact I2|]. intros e. apply Hnew.
  - intros c Hc. rewrite lookup_insert_ne by lia. apply I3. lia.
  - done.
  - done.
Qed.

(** ** The connection manager *)

Section Manager.
Context (others : Z → M enet unit).
Context (Hothers : ∀ point, guards inv (others point) (λ _, inv)).
#[local] Set Default Proof Using "Type*".

Lemma guards_others {A} point (k : M enet A) Q : guards inv k Q → guards inv (others point ;; k) Q.
Proof. intros Hk. eapply guards_bind; [apply Hothers|]. by intros []. Qed.
Lemma set_fds_inv l : (length l ≤ Z.to_nat fds_size)%nat → guards inv (set_fds l) (λ _, inv).
Proof. intros Hl. apply guards_own. intros s Hs. by destruct Hs. Qed.
Lemma length_with_revents l r : length (with_revents l r) = length l.
Proof. revert r. induction l as [|[f|] l IH]; intros [|x r]; simpl; auto. Qed.
Lemma event_at_inv i : guards inv (event_at i) inv_with.
Proof.
  intros s Hs. unfold event_at, bind, get. destruct (m_ClientsWantWork (own s) !! i) as [e|] eqn:E; [|done].
  split; [done|]. destruct Hs as [H1 _ _ _ _]. by apply (Forall_lookup_1 _ _ _ _ H1 E).
Qed.
(** An access to the array that is defined is within its bounds. *)
Lemma fd_at_inv i : guards inv (fd_at i) (λ _ s, inv s ∧ (i < Z.to_nat fds_size)%nat).
Proof.
  intros s Hs. unfold fd_at, load, bind, get. destruct (zget _ _) as [[f|]|] eqn:E; try done.
  split; [done|]. destruct Hs as [_ _ _ _ H5]. apply zget_Some in E. lia.
Qed.
Lemma store_inv (l : list (option pollfd)) i f : (length l ≤ Z.to_nat fds_size)%nat →
  guards inv (store (Some l) (Z.of_nat i) f)
    (λ l' s, inv s ∧ (length l' ≤ Z.to_nat fds_size ∧ i < Z.to_nat fds_size)%nat).
Proof.
  intros Hl s Hs. unfold store, or_undef, zset. case_bool_decide as Hi; [|done].
  split; [done|]. rewrite length_insert. lia.
Qed.
Lemma find_event_some x l e rest : find_event x l = Some (e, rest) → e ∈ l ∧ rest ⊆ l.
Proof.
  revert rest. induction l as [|e' l IH]; intros rest; simpl; [done|]. case_bool_decide.
  - intros [= <- <-]. split; [by left|]. by apply list_subseteq_cons.
  - destruct (find_event x l) as [[e1 r]|]; [|done]. intros [= <- <-].
    destruct (IH r eq_refl) as [Hin Hsub]. split; [by right|]. by apply list_subseteq_skip.
Qed.
Lemma deleteClient_inv x : guards inv (deleteClient others x) (λ _, inv).
Proof.
  apply guards_others. intros s Hs. unfold say. unfold bind at 1, get. run_step.
  destruct (find_event x _) as [[e rest]|] eqn:E; [|by destruct Hs]. apply find_event_some in E as [He Hrest].
  unfold upd_want, set_own. run_step. apply (drop_ref_inv e). destruct Hs as [H1 H2 H3 H4 H5]. split; [split|]; try done.
  - cbn [own m_ClientsWantWork conns trace]. apply Forall_forall. intros e' He'. apply (proj1 (Forall_forall _ _) H1). auto.
  - by apply (proj1 (Forall_forall _ _) H1).
Qed.
Lemma hand_over_inv i f : guards inv (hand_over others i f) (λ _, inv).
Proof.
  unfold hand_over. eapply guards_bind; [apply event_at_inv|]. intros e. cbn beta.
  eapply guards_bind; [|intros ?; apply deleteClient_inv].
  apply guards_own. intros s [[H1 H2 H3 H4 H5] He]. split; try done. cbn [own m_ClientsHaveWork].
  apply Forall_app. split; [done|]. by constructor.
Qed.
(** The array bounds the rounds of both loops. *)
Lemma fill_loop_inv fuel : ∀ i, (i ≤ Z.to_nat fds_size < fuel + i)%nat →
  guards inv (AsyncPoll.fill_loop others fuel i) (λ _, inv).
Proof.
  induction fuel as [|fuel IH]; intros i Hi; [lia|]. cbn [AsyncPoll.fill_loop]. apply guards_others, guards_get.
  intros s0. apply (guards_pure _ (length (fds (own s0)) ≤ Z.to_nat fds_size)%nat); [by intros s [-> []]|]. intros H0.
  apply (guards_conseq _ inv _ _ (λ _, inv)); [|tauto|done]. destruct (decide _); [|by apply guards_ret].
  eapply guards_bind; [apply event_at_inv|]. intros e. cbn beta.
  apply (guards_conseq _ inv _ _ (λ _, inv)); [|by intros s [Hs _]|done].
  eapply guards_bind; [by apply store_inv|]. intros l1. cbn beta. apply guards_assume. intros [Hl Hlt].
  eapply guards_bind; [by apply set_fds_inv|]. intros ?. apply IH. lia.
Qed.
Lemma poll_clients_inv : guards inv (AsyncPoll.poll_clients others) (λ _, inv).
Proof.
  unfold AsyncPoll.poll_clients. apply guards_others, guards_get. intros s0. cbv zeta. case_decide; [|by apply guards_ub].
  destruct (poll_args _) as [args|]; [|by apply guards_ub].
  intros s [<- Hs]. cbn [or_undef]. run_step. rewrite bind_sys. unfold bind at 1.
  pose proof (set_fds_inv (with_revents (fds (own s)) (take (length (m_ClientsWantWork (own s)))
    (numbers (answer_to (trace s) (Poll args 10)))))) as Hf.
  specialize (Hf ltac:(rewrite length_with_revents; apply Hs) _ (inv_sys (Poll args 10) s Hs ltac:(done))).
  by destruct (AsyncPoll.set_fds _ _).
Qed.
Lemma dispatch_loop_inv fuel : ∀ i d, (i ≤ Z.to_nat fds_size < fuel + i)%nat →
  guards inv (AsyncPoll.dispatch_loop others fuel i d) (λ _, inv).
Proof.
  induction fuel as [|fuel IH]; intros i d Hi; [lia|]. cbn [AsyncPoll.dispatch_loop]. apply guards_others, guards_get.
  intros s0. apply (guards_conseq _ inv _ _ (λ _, inv)); [|tauto|done].
  destruct (decide _); [|by apply guards_ret]. eapply guards_bind; [apply fd_at_inv|]. intros f. cbn beta.
  apply guards_assume. intros Hlt. eapply guards_bind; [apply event_at_inv|]. intros e. cbn beta.
  apply (guards_conseq _ inv _ _ (λ _, inv)); [|by intros s [Hs _]|done].
  pose proof inv_stable as Hst.
  repeat match goal with
    | |- guards _ (if _ then _ else _) _ => apply guards_if; intros _
    | |- guards _ (say _ ;; _) _ => apply guards_say_then; [done|]
    | |- guards _ (AsyncPoll.dispatch_loop _ _ _ _) _ => apply IH; lia
    | |- guards _ (_ ;; AsyncPoll.dispatch_loop _ _ _ _) _ => apply (guards_bind _ _ (λ _, inv)); [|intros ?; apply IH; lia]
    | |- guards _ (hand_over _ _ _) _ => apply hand_over_inv
    | |- guards _ (ret _) _ => by apply guards_ret
    | |- guards _ (say _) _ => by apply guards_say
    end.
Qed.
Lemma for_each_deletes l : guards inv (for_each (deleteClient others) l) (λ _, inv).
Proof.
  induction l as [|x l IH]; [by apply guards_ret|]. eapply guards_bind; [apply deleteClient_inv|]. by intros [].
Qed.
Lemma manage_round_inv : guards inv (manage_round others) (λ _, inv).
Proof.
  assert (0 ≤ Z.to_nat fds_size < loop_fuel + 0)%nat as Hfuel by (unfold loop_fuel, fds_size; lia).
  apply guards_others, guards_get. intros s0. apply (guards_conseq _ inv _ _ (λ _, inv)); [|tauto|done].
  apply guards_if; intros _.
  - eapply guards_bind; [apply guards_sys; intros s Hs; by apply (inv_sys (Usleep 1000))|].
    intros r. by apply guards_ret.
  - eapply guards_bind; [by apply fill_loop_inv|]. intros ?. cbn beta. eapply guards_bind; [apply poll_clients_inv|].
    intros n. cbn beta. apply guards_if; intros _; [by apply guards_ret|]. apply guards_if; intros _.
    + apply guards_say_then; [exact inv_stable|]. by apply guards_ret.
    + eapply guards_bind; [by apply dispatch_loop_inv|]. intros l. cbn beta.
      eapply guards_bind; [apply for_each_deletes|]. intros ?. by apply guards_ret.
Qed.

End Manager.


(** ** All threads *)
Lemma turn_inv l who : guards inv (turn l who) (λ _, inv).
Proof. apply guards_if; intros _; [apply serve_round_inv|apply worker_round_inv]. Qed.
Lemma turns_inv l point : guards inv (turns l point) (λ _, inv).
Proof.
  apply (guards_bind _ _ (λ _, inv)); [apply guards_sys; intros s Hs; by apply inv_sys|]. intros r.
  induction (numbers r) as [|who ws IH]; [by apply guards_ret|].
  apply (guards_bind _ _ (λ _, inv) _ _ (turn_inv l who)). by intros [].
Qed.
Lemma system_inv l n : ∀ managed, guards inv (system l managed n) (λ _, inv).
Proof.
  induction n as [|n IH]; intros managed; [by apply guards_ret|]. cbn [system]. destruct managed.
  - apply (guards_bind _ _ (λ _, inv) _ _ (manage_round_inv _ (turns_inv l))). intros stop. apply IH.
  - apply (guards_bind _ _ (λ _, inv) _ _ (turns_inv l 0)). intros ?. apply IH.
Qed.
Lemma start_worker_inv i : guards inv (start_worker i) (λ _, inv).
Proof.
  assert (∀ t, guards inv (let! _ := sys (Usleep t) in ret tt) (λ _, inv)) as Hsleep.
  { intros t. apply (guards_bind _ _ (λ _, inv)); [apply guards_sys; intros s Hs; by apply inv_sys|].
    intros r. by apply guards_ret. }
  apply (guards_bind _ _ (λ _, inv)); [|intros ?; by apply guards_say_then; [exact inv_stable|]].
  destruct (decide _); [|by apply guards_ret]. apply guards_say_then; [exact inv_stable|].
  eapply guards_bind; [apply set_fds_inv|intros ?; apply Hsleep]. by rewrite length_replicate.
Qed.
End System.

(** The engine before [run]. *)
Definition idle : EventLoop := mkEventLoop [] [] ∅ 1 [].

(** The run of the engine, on its own. *)
Lemma run_answers `{OS} listener n h en out :
  only_answers h →
  match AsyncPoll.run listener n (mkNet idle en h out) with
  | Ret _ s | Exit _ s => only_answers (trace s)
  | Exc _ _ | NoFuel => False
  | Undef u => u ≠ UseAfterFree
  end.
Proof.
  intros Hh. assert (inv (mkNet idle en h out)) as Hi.
  { split; [constructor|constructor|by intros|done|]. simpl. lia. }
  assert (guards inv (for_each start_worker (seq 0 4) ;; system listener true n) (λ _, inv)) as Hg.
  { apply (guards_bind _ _ (λ _, inv)); [|intros ?; apply system_inv].
    generalize (seq 0 4). intros l. induction l as [|i l IH]; [by apply guards_ret|].
    apply (guards_bind _ _ (λ _, inv) _ _ (start_worker_inv i)). by intros []. }
  unfold AsyncPoll.run, or_terminate, try_catch, say, modify. unfold bind at 1.
  specialize (Hg _ (inv_stable (mkNet idle en h out) (mkNet idle en h (out ++ [OStr "async poll server starts"; OEndl])) eq_refl eq_refl Hi)).
  cbn [own errno trace cerr] in *. destruct ((_ ;; _) _); try done. by destruct Hg.
Qed.

(** ** A conversation *)

(** One client connects, is answered, and closes; at the start of each round of
    the manager the accepting thread has a turn until it has accepted, then a
    worker. *)
Definition one_client : OS :=
  {| answer_to h c :=
       match c with
       | Interleave 0 =>
           mkReply 0 0 [] (if bool_decide (Accept 3 ∈ calls_of h) then [1] else [0])
       | Poll [(3, _)] _ => ok 1
       | Accept _ => ok 7
       | Poll l _ => ready (map snd l)
       | Read _ _ => if bool_decide (Write 7 (b "server: hi" ++ [LF]) ∈ calls_of h) then data []
                     else data (b "hi" ++ [CR; LF])
       | Write _ _ => ok 11
       | _ => ok 0
       end;
     strerror _ := "error" |}.
(** The calls that say something of the clients. *)
Definition is_waiting (c : call) : bool :=
  match c with Interleave _ | Usleep _ => true | _ => false end.
Example one_conversation :
  match AsyncPoll.run (Os:=one_client) 3 4 (mkNet idle 0 [] []) with
  | Ret _ s => bool_decide (conns (own s) = ∅) &&
      bool_decide (List.filter (λ c, negb (is_waiting c)) (calls_of (trace s)) =
      [Poll [(3, POLLIN)] 3000; Accept 3; Poll [(7, POLLIN)] 10; Read 7 256; Poll [(7, POLLOUT)] 10;
       Write 7 (b "server: hi" ++ [LF]); Poll [(7, POLLIN)] 10; Read 7 256; Close 7])
  | _ => false
  end = true.
Proof. vm_compute. reflexivity. Qed.

(** ** The missing lock *)

(** A second client connects while the manager handles what poll reported of
    the first. *)
Definition late_client : OS :=
  {| answer_to h c :=
       match c with
       | Interleave 0 => mkReply 0 0 [] (if bool_decide (Accept 3 ∈ calls_of h) then [] else [0])
       | Interleave 3 => mkReply 0 0 [] [0]
       | Poll [(7, _)] _ => mkReply 1 0 [] [0]
       | Poll _ _ => ok 1
       | Accept _ => ok 7
       | _ => ok 0
       end;
     strerror _ := "error" |}.
(** The manager looks at the size of the vector again after poll: for a client
    that joined since then it reads an entry of its array that it has never
    written, even if each access to the vector were atomic. *)
Lemma late_client_is_undefined :
  AsyncPoll.run (Os:=late_client) 3 1 (mkNet idle 0 [] []) = Undef Indeterminate.
Proof. vm_compute. reflexivity. Qed.
