(* ===== verification/EpollEngine.v ===== *)
(** * EpollEngine: the server on epoll

    Models net/libtpevent/src/epoll.hpp and epoll.cpp. The user data of an
    epoll event is a 64-bit union: the descriptor of the listener in its low
    half, or the address of a Client. Clients live in a store indexed by their
    addresses, which the allocator chooses. The invariant relates them to the
    interest list of the kernel. *)

From S2P Require Import Prelude Posix Engine.
From S2P Require Import PollEngine.

Record EpollEngine : Type := mkEpollEngine { m_Listener : Z; heap : gmap Z Client }.
Abbreviation epnet := (net EpollEngine).

(** <sys/epoll.h> *)
Definition EPOLLIN : Z := 1.
Definition EPOLLOUT : Z := 4.
Definition EPOLLERR : Z := 8.
Definition EPOLLHUP : Z := 16.
Definition EPOLL_CTL_ADD : Z := 1.
Definition EPOLL_CTL_DEL : Z := 2.
Definition EPOLL_CTL_MOD : Z := 3.
Definition max_epoll_clients : Z := 32768.

Section EpollEngine.
Context {Os : OS}.

(** The address of [new Client], given the live ones. *)
Context (new_address : gmap Z Client → Z).

Definition listener : M epnet Z := gets (λ s, m_Listener (own s)).
Definition set_heap (f : gmap Z Client → gmap Z Client) : M epnet unit :=
  set_own (λ e, mkEpollEngine (m_Listener e) (f (heap e))).
Definition deref (p : Z) : M epnet Client :=
  let! s := get in or_undef UseAfterFree (heap (own s) !! p).
Definition set_client (p : Z) (c : Client) : M epnet unit := set_heap (<[p := c]>).

Definition set_desire_events (epfd cli_fd events c : Z) : M epnet bool :=
  let! r := sys (EpollCtl epfd EPOLL_CTL_MOD cli_fd events c) in
  ret (bool_decide (rc r = 0)).

Definition accept_action (epfd listener : Z) : M epnet unit :=
  let! r := sys (Accept listener) in
  let cli_sd := rc r in
  let! s := get in
  let p := new_address (heap (own s)) in
  set_client p (Client_ctor cli_sd) ;;
  say [OStr "new client: "; OInt cli_sd; OStr ", ptr: "; OInt p; OStr newline] ;;
  let! _ := sys (EpollCtl epfd EPOLL_CTL_ADD cli_sd EPOLLIN p) in
  ret tt.

(** [data.fd], the low half of the union as an int. *)
Definition data_fd (user : Z) : Z := s32 user.

(** One event; yields disconnected_clients. *)
Definition serve_event (epfd events user : Z) (disconnected : list Z) : M epnet (list Z) :=
  let! l := listener in
  if bool_decide (data_fd user = l) then
    accept_action epfd l ;; ret disconnected
  else if has events EPOLLHUP then
    say [OStr "client hup"; OStr newline] ;;
    ret (disconnected ++ [user])
  else if has events EPOLLIN then
    let! cs := deref user in
    if bool_decide (state cs ≠ WANT_READ) then ret disconnected
    else
      let sock := sd cs in
      let! r := sys (Read sock 256) in
      if bool_decide (rc r < 0) then
        say [OStr "some read error!"; OStr newline] ;;
        ret (disconnected ++ [user])
      else
        let! tmp := terminated 256 (rc r) (got r) in
        let! tmp := strip tmp in
        if bool_decide (rc r > 0) then
          say [OStr "read: "; OInt (rc r); OStr " bytes ["; OStr (text tmp); OStr "]"; OStr newline] ;;
          set_client user (mkClient (sd cs) WANT_WRITE) ;;
          let! ok := set_desire_events epfd sock EPOLLOUT user in
          if negb ok then throw_errno "epoll_ctl error: " else ret disconnected
        else
          say [OStr "client disconnected: "; OInt sock; OStr newline] ;;
          ret (disconnected ++ [user])
  else if has events EPOLLOUT then
    let! cs := deref user in
    if bool_decide (state cs ≠ WANT_WRITE) then ret disconnected
    else
      let! _ := sys (Write (sd cs) hello) in
      set_client user (mkClient (sd cs) WANT_READ) ;;
      let! ok := set_desire_events epfd (sd cs) EPOLLIN user in
      if negb ok then throw_errno "epoll_ctl error: " else ret disconnected
  else
    let! cs := deref user in
    (if has events EPOLLERR then
       say [OStr "WARNING> events = EPOLLERR. [SD = "; OInt (sd cs); OStr "]"; OStr newline]
     else
       say [OStr "WARNING> event = UNKNOWN_EVENT: "; OInt events; OStr " [SD = ";
            OInt (sd cs); OStr "]"; OStr newline]) ;;
    ret disconnected.

(** The events that epoll_wait stored: masks and user data in turn. *)
Fixpoint serve_events (epfd : Z) (l : list Z) (disconnected : list Z) : M epnet (list Z) :=
  match l with
  | events :: user :: l' =>
      let! disconnected := serve_event epfd events user disconnected in
      serve_events epfd l' disconnected
  | _ => ret disconnected
  end.

Definition remove_client (p : Z) : M epnet unit :=
  let! c := deref p in
  say [OStr "close: "; OInt (sd c); OStr ", delete: "; OInt p; OEndl] ;;
  let! _ := sys (Close (sd c)) in
  set_heap (base.delete p).

Definition round (epfd : Z) : M epnet unit :=
  let! r := sys (EpollWait epfd max_epoll_clients) in
  if bool_decide (rc r = 0) then ret tt
  else if bool_decide (rc r = -1) then throw_errno "epoll: "
  else
    let! disconnected := serve_events epfd (take (2 * Z.to_nat (rc r)) (numbers r)) [] in
    (if bool_decide (disconnected ≠ []) then
       say [OStr "GC start. disconnect: "; OInt (Z.of_nat (length disconnected)); OStr " clients"; OEndl]
     else ret tt) ;;
    for_each remove_client disconnected.

Definition eventLoop (n : nat) : M epnet unit :=
  let! r := sys (EpollCreate max_epoll_clients) in
  let epfd := rc r in
  let! l := listener in
  let! _ := sys (EpollCtl epfd EPOLL_CTL_ADD l EPOLLIN (u64 l)) in
  rounds n (round epfd).

Definition run (n : nat) : M epnet unit :=
  say [OStr "epoll server starts"; OEndl] ;;
  eventLoop n.

(** ** The interest list of the kernel

    What epoll(7) says an epoll instance [ep] watches after a history: per
    descriptor the events and the user data. ADD adds a descriptor that is not
    watched, MOD changes one that is, both if they succeed; closing a
    descriptor removes it. [Some None] marks a descriptor whose ADD was
    refused. *)
Abbreviation watch_list := (gmap Z (option (Z * Z))).
Definition watch1 (ep : Z) (w : watch_list) (e : call * reply) : watch_list :=
  match e.1 with
  | EpollCreate _ => if bool_decide (rc e.2 = ep) then ∅ else w
  | EpollCtl ep' op fd ev user =>
      if bool_decide (ep' = ep) then
        match w !! fd with
        | Some (Some _) =>
            if bool_decide (rc e.2 = 0) then
              if bool_decide (op = EPOLL_CTL_MOD) then <[fd := Some (ev, user)]> w
              else if bool_decide (op = EPOLL_CTL_DEL) then base.delete fd w else w
            else w
        | _ =>
            if bool_decide (op = EPOLL_CTL_ADD)
            then <[fd := if bool_decide (rc e.2 = 0) then Some (ev, user) else None]> w else w
        end
      else w
  | Close fd => if bool_decide (0 ≤ fd) then base.delete fd w else w
  | _ => w
  end.
Definition watch (ep : Z) (h : history) : watch_list := foldl (watch1 ep) ∅ h.
Definition wanted (c : Client) : Z :=
  match state c with WANT_READ => EPOLLIN | WANT_WRITE => EPOLLOUT end.

(** What is relied on: the allocator returns memory that is free; accept
    returns a descriptor that is not open; epoll_ctl refuses what is not a
    descriptor. *)
Definition fresh_addresses : Prop := ∀ m, m !! new_address m = None.
Definition fresh_descriptors : Prop := ∀ h l, rc (answer_to h (Accept l)) ∉ held h.
Definition bad_refused : Prop := ∀ h ep op fd ev user,
  fd < 0 → rc (answer_to h (EpollCtl ep op fd ev user)) ≠ 0.

(** The list watches the listener and the clients, each of them for what its
    state waits for and with its own address, and nothing else. *)
Definition watches_clients (ep : Z) (s : epnet) : Prop :=
  (∀ p c, heap (own s) !! p = Some c →
     watch ep (trace s) !! sd c = Some (Some (wanted c, p)) ∨ watch ep (trace s) !! sd c = Some None) ∧
  (∀ fd ev user, watch ep (trace s) !! fd = Some (Some (ev, user)) →
     (fd = m_Listener (own s) ∧ ev = EPOLLIN ∧ user = u64 fd) ∨
     ∃ c, heap (own s) !! user = Some c ∧ sd c = fd ∧ ev = wanted c) ∧
  (let l := m_Listener (own s) in
   watch ep (trace s) !! l = Some (Some (EPOLLIN, u64 l)) ∨ watch ep (trace s) !! l = Some None).
(** The last call is one whose failure the loop looks at, and it failed. *)
Definition gave_up (ep : Z) (h : history) : Prop :=
  ∃ before c r, h = before ++ [(c, r)] ∧
    match c with
    | EpollWait ep' _ => ep' = ep ∧ rc r = -1
    | EpollCtl ep' op _ _ _ => ep' = ep ∧ op = EPOLL_CTL_MOD ∧ rc r ≠ 0
    | _ => False
    end.

(** The invariant: the descriptors involved are open, and no two clients share
    one. *)
Record table (ep : Z) (s : epnet) : Prop := mkTable {
  tb_watch : watches_clients ep s;
  tb_listener : m_Listener (own s) ∈ held (trace s);
  tb_open p c : heap (own s) !! p = Some c → 0 ≤ sd c →
    sd c ∈ held (trace s) ∧ sd c ≠ m_Listener (own s);
  tb_own p q c d : heap (own s) !! p = Some c → heap (own s) !! q = Some d →
    0 ≤ sd c → sd c = sd d → p = q;
  tb_fds fd x : watch ep (trace s) !! fd = Some (Some x) → 0 ≤ fd
}.
Definition table_with (ep p : Z) (c : Client) (s : epnet) : Prop :=
  table ep s ∧ heap (own s) !! p = Some c.

Lemma watch_snoc ep h e : watch ep (h ++ [e]) = watch1 ep (watch ep h) e.
Proof. unfold watch. by rewrite foldl_app. Qed.
Lemma remove_first_other x y l : y ≠ x → y ∈ l → y ∈ remove_first x l.
Proof.
  intros Hne. induction l as [|z l IH]; simpl; [done|]. rewrite elem_of_cons.
  intros [->|Hy]; case_bool_decide as Hz; [done|by left|done|right; by apply IH].
Qed.
Lemma remove_first_incl x y l : y ∈ remove_first x l → y ∈ l.
Proof.
  induction l as [|z l IH]; simpl; [done|]. case_bool_decide as Hz; rewrite !elem_of_cons; [by right|].
  intros [?|?]; auto.
Qed.
Lemma held_nonneg h y : y ∈ held h → 0 ≤ y.
Proof.
  induction h as [|[c r] h IH] using rev_ind; [by intros ?%elem_of_nil|]. rewrite held_snoc. unfold hold1.
  destruct c; simpl; try done; try (case_bool_decide as Hrc; [rewrite elem_of_cons; intros [->|?]; auto|done]).
  intros ?%remove_first_incl. auto.
Qed.

(** Calls that neither the list nor the descriptors depend on. *)
Definition plain (c : call) : Prop :=
  match c with
  | Socket | SocketUnix | Accept _ | Close _ | EpollCreate _ | EpollCtl _ _ _ _ _ => False
  | _ => True
  end.
Lemma table_same ep s s' :
  own s' = own s → watch ep (trace s') = watch ep (trace s) → held (trace s') = held (trace s) →
  table ep s → table ep s'.
Proof.
  intros Ho Hw Hh [[H1 [H2 H7]] H3 H4 H5 H6].
  by split; [split; [|split]|..]; rewrite ?Ho, ?Hw, ?Hh.
Qed.
Lemma table_plain ep c s : plain c → table ep s → table ep (after c s).
Proof.
  intros Hc. apply table_same; [done| |]; simpl.
  - rewrite watch_snoc. by destruct c.
  - rewrite held_snoc. by destruct c.
Qed.

(** From [P], [m] ends normally in [Q], by an exception after a failure that
    the code looks at, or in undefined behaviour. *)
Definition safe {A} (ep : Z) (P : epnet → Prop) (m : M epnet A) (Q : epnet → Prop) : Prop :=
  ∀ s, P s → match m s with
             | Ret _ s' => Q s'
             | Exc _ s' => gave_up ep (trace s')
             | Undef _ => True
             | Exit _ _ | NoFuel => False
             end.
Lemma safe_bind {A B} ep P R Q (m : M epnet A) (k : A → M epnet B) :
  safe ep P m R → (∀ a, safe ep R (k a) Q) → safe ep P (bind m k) Q.
Proof.
  intros Hm Hk s Hs. specialize (Hm s Hs). unfold bind. destruct (m s); try done. by apply Hk.
Qed.
Lemma safe_if {A} ep P Q (c : bool) (m m' : M epnet A) :
  safe ep P m Q → safe ep P m' Q → safe ep P (if c then m else m') Q.
Proof. by destruct c. Qed.
Lemma safe_ret {A} ep P (a : A) : safe ep P (ret a) P.
Proof. by intros s Hs. Qed.
Lemma safe_weaken {A} ep (P P' Q : epnet → Prop) (m : M epnet A) :
  safe ep P' m Q → (∀ s, P s → P' s) → safe ep P m Q.
Proof. intros Hm HP s Hs. by apply Hm, HP. Qed.
(** What does not touch the clients, with and without one in hand. *)
Lemma safe_say ep p c l : safe ep (table_with ep p c) (say l) (table_with ep p c).
Proof. by intros s [Hs ?]; split; [apply (table_same ep s)|]. Qed.
Lemma safe_say_table ep l : safe ep (table ep) (say l) (table ep).
Proof. intros s Hs. by apply (table_same ep s). Qed.
Lemma safe_plain ep p c k : plain k → safe ep (table_with ep p c) (sys k) (table_with ep p c).
Proof. intros Hk s [Hs ?]. split; [by apply table_plain|done]. Qed.
Lemma safe_terminated ep P size r l : safe ep P (terminated size r l) P.
Proof. intros s Hs. unfold terminated. by case_bool_decide. Qed.
Lemma safe_strip ep P l : safe ep P (strip l) P.
Proof. intros s Hs. rewrite strip_spec. by destruct (forallb _ _). Qed.
Lemma safe_deref {A} ep p (k : Client → M epnet A) Q :
  (∀ c, safe ep (table_with ep p c) (k c) Q) → safe ep (table ep) (bind (deref p) k) Q.
Proof.
  intros Hk s Hs. unfold bind at 1, deref. unfold bind at 1, get.
  destruct (heap (own s) !! p) as [c|] eqn:E; [by apply Hk|exact I].
Qed.
Lemma safe_done {A} ep p c (a : A) : safe ep (table_with ep p c) (ret a) (table ep).
Proof. by intros s [Hs _]. Qed.

Lemma safe_listener {A} ep (k : Z → M epnet A) Q :
  (∀ l, safe ep (λ s, table ep s ∧ m_Listener (own s) = l) (k l) Q) → safe ep (table ep) (bind listener k) Q.
Proof. intros Hk s Hs. unfold bind, listener, gets. by apply (Hk _ s). Qed.

(** A new client. *)
Lemma watch_add ep h x p l r0 r :
  (∀ z, watch ep h !! x ≠ Some (Some z)) →
  watch ep ((h ++ [(Accept l, r0)]) ++ [(EpollCtl ep EPOLL_CTL_ADD x EPOLLIN p, r)]) =
  <[x := if bool_decide (rc r = 0) then Some (EPOLLIN, p) else None]> (watch ep h).
Proof.
  intros Hno. rewrite !watch_snoc. unfold watch1. simpl. rewrite bool_decide_eq_true_2 by done.
  destruct (watch ep h !! x) as [[z|]|] eqn:E; [by destruct (Hno z)|done..].
Qed.
Lemma table_accept ep s p x l r0 r e' cr :
  table ep s → heap (own s) !! p = None → x ∉ held (trace s) → rc r0 = x → (x < 0 → rc r ≠ 0) →
  table ep (mkNet (mkEpollEngine (m_Listener (own s)) (<[p := Client_ctor x]> (heap (own s)))) e'
    ((trace s ++ [(Accept l, r0)]) ++ [(EpollCtl ep EPOLL_CTL_ADD x EPOLLIN p, r)]) cr).
Proof.
  intros [[H1 [H2 H7]] H3 H4 H5 H6] Hp Hx Hr0 Hr.
  assert (∀ z, watch ep (trace s) !! x ≠ Some (Some z)) as Hno.
  { intros [ev u] E. destruct (H2 x ev u E) as [(-> & _)|(c & Hc & Hsd & _)]; [done|].
    destruct (H4 u c Hc) as [Hc' _]; [rewrite Hsd; by eapply H6|]. congruence. }
  assert (∀ q d, heap (own s) !! q = Some d → sd d = x → x < 0) as Hold.
  { intros q d Hq E. destruct (decide (0 ≤ x)); [|lia]. destruct (H4 q d Hq) as [Hq' _]; [lia|congruence]. }
  assert (∀ y, y ∈ held (trace s) ∨ (0 ≤ y ∧ y = x) → y ∈ held ((trace s ++ [(Accept l, r0)]) ++
    [(EpollCtl ep EPOLL_CTL_ADD x EPOLLIN p, r)])) as Hin.
  { intros y Hy. rewrite held_other, held_snoc by done. unfold hold1. simpl. rewrite Hr0.
    case_bool_decide; [rewrite elem_of_cons; tauto|]. destruct Hy as [?|[? ->]]; done. }
  pose proof (watch_add ep (trace s) x p l r0 r Hno) as Hw.
  set (h' := (trace s ++ [(Accept l, r0)]) ++ _) in *. clearbody h'. clear Hno.
  split; [split; [|split]|..]; cbn [own heap m_Listener trace]; rewrite ?Hw.
  - intros q d [(<- & <-)|(Hne & Hq)]%lookup_insert_Some; cbn [sd Client_ctor].
    + rewrite lookup_insert_eq. case_bool_decide; auto.
    + destruct (decide (sd d = x)) as [E|E]; [|rewrite lookup_insert_ne by done; auto].
      rewrite E, lookup_insert_eq, bool_decide_eq_false_2 by (by apply Hr, (Hold q d)). by right.
  - intros y ev u [(<- & E)|(Hne & E)]%lookup_insert_Some.
    + right. case_bool_decide; [|done]. injection E as <- <-. eexists. by rewrite lookup_insert_eq.
    + destruct (H2 y ev u E) as [?|(c & Hc & Hs)]; [by left|right; exists c]. split; [|done].
      rewrite lookup_insert_ne; [done|]. intros ->. congruence.
  - rewrite lookup_insert_ne; [done|]. by intros ->.
  - apply Hin. by left.
  - intros q d [(<- & <-)|(Hne & Hq)]%lookup_insert_Some Hpos; cbn [sd Client_ctor] in *.
    + split; [apply Hin; by right|]. by intros ->.
    + destruct (H4 q d Hq Hpos). split; [apply Hin; by left|done].
  - intros q1 q2 d1 d2 [(<- & <-)|(Hne1 & Hq1)]%lookup_insert_Some [(<- & <-)|(Hne2 & Hq2)]%lookup_insert_Some Hpos E;
      cbn [sd Client_ctor] in *; [done| | |by eapply H5].
    + specialize (Hold _ _ Hq2 (eq_sym E)). lia.
    + specialize (Hold _ _ Hq1 E). lia.
  - intros y z [(<- & E)|(_ & E)]%lookup_insert_Some; [|by eapply H6].
    case_bool_decide; [|done]. destruct (decide (0 ≤ x)); [done|]. exfalso. apply Hr; [lia|done].
Qed.
Lemma safe_accept ep l :
  fresh_addresses → fresh_descriptors → bad_refused →
  safe ep (λ s, table ep s ∧ m_Listener (own s) = l) (accept_action ep l) (table ep).
Proof.
  intros Hf Hd Hb s [Hs <-]. unfold accept_action. rewrite bind_sys. unfold set_client, set_heap.
  unfold bind, get, say, set_own, modify, sys, ret.
  apply (table_accept ep s); [done|apply Hf|apply Hd|done|intros Hx; by apply Hb].
Qed.

(** A client removed. *)
Lemma watch_close ep h x r : x < 0 ∧ watch ep (h ++ [(Close x, r)]) = watch ep h ∨
  0 ≤ x ∧ watch ep (h ++ [(Close x, r)]) = base.delete x (watch ep h).
Proof. rewrite watch_snoc. unfold watch1. simpl. case_bool_decide; [right|left]; (split; [lia|done]). Qed.
Lemma table_remove ep s p c r e' cr :
  table ep s → heap (own s) !! p = Some c →
  table ep (mkNet (mkEpollEngine (m_Listener (own s)) (base.delete p (heap (own s)))) e'
    (trace s ++ [(Close (sd c), r)]) cr).
Proof.
  intros [[H1 [H2 H7]] H3 H4 H5 H6] Hc.
  assert (∀ y, y ≠ sd c → y ∈ held (trace s) → y ∈ held (trace s ++ [(Close (sd c), r)])) as Hin.
  { intros y Hne Hy. rewrite held_snoc. by apply remove_first_other. }
  assert (∀ y, y ≠ sd c ∨ sd c < 0 → watch ep (trace s ++ [(Close (sd c), r)]) !! y = watch ep (trace s) !! y) as Hw.
  { intros y Hy. destruct (watch_close ep (trace s) (sd c) r) as [[_ ->]|[? ->]]; [done|].
    rewrite lookup_delete_ne; [done|]. intros <-. destruct Hy; [done|lia]. }
  assert (m_Listener (own s) ≠ sd c) as Hl.
  { intros E. destruct (decide (0 ≤ sd c)); [by destruct (H4 p c)|]. apply held_nonneg in H3. lia. }
  assert (∀ q d, q ≠ p → heap (own s) !! q = Some d → sd d ≠ sd c ∨ sd c < 0) as Hother.
  { intros q d Hne Hq. destruct (decide (sd c < 0)); [by right|]. left. intros E. apply Hne.
    apply (H5 q p d c); [done..|lia|done]. }
  assert (∀ y x, watch ep (trace s ++ [(Close (sd c), r)]) !! y = Some (Some x) →
    watch ep (trace s) !! y = Some (Some x) ∧ y ≠ sd c) as Hback.
  { intros y x. destruct (watch_close ep (trace s) (sd c) r) as [[? ->]|[? ->]].
    - intros E. split; [done|]. intros ->. apply H6 in E. lia.
    - by intros [? ?]%lookup_delete_Some. }
  assert (∀ q d, heap (own s) !! q = Some d → 0 ≤ sd d → q ≠ p → sd d ≠ sd c) as Hsd.
  { intros q d Hq Hpos Hne E. by destruct (Hother q d Hne Hq); [|lia]. }
  split; [split; [|split]|..]; cbn [own heap m_Listener trace after].
  - intros q d [Hne Hq]%lookup_delete_Some. rewrite Hw; [by apply H1|]. by eapply Hother.
  - intros y ev u [E Hy]%Hback. destruct (H2 y ev u E) as [?|(d & Hd & Hs & He)]; [by left|right; exists d].
    split; [|done]. rewrite lookup_delete_ne; [done|]. intros <-. congruence.
  - by rewrite Hw by (by left).
  - by apply Hin.
  - intros q d [Hne Hq]%lookup_delete_Some Hpos. destruct (H4 q d Hq Hpos). split; [|done].
    apply Hin; [by eapply Hsd|done].
  - intros q1 q2 d1 d2 [_ Hq1]%lookup_delete_Some [_ Hq2]%lookup_delete_Some. by eapply H5.
  - intros y z [E _]%Hback. by eapply H6.
Qed.
Lemma safe_remove ep p : safe ep (table ep) (remove_client p) (table ep).
Proof.
  apply safe_deref. intros c. eapply safe_bind; [apply safe_say|]. intros _ s [Hs Hc].
  rewrite bind_sys. by apply (table_remove ep s).
Qed.

(** A client whose state and registration change together. *)
Lemma table_rearm ep s p c c' r e' cr :
  table ep s → heap (own s) !! p = Some c → sd c' = sd c → rc r = 0 → 0 ≤ sd c →
  table ep (mkNet (mkEpollEngine (m_Listener (own s)) (<[p := c']> (heap (own s)))) e'
    (trace s ++ [(EpollCtl ep EPOLL_CTL_MOD (sd c) (wanted c') p, r)]) cr).
Proof.
  intros [[H1 [H2 H7]] H3 H4 H5 H6] Hc Hsd Hr Hpos.
  assert (watch ep (trace s ++ [(EpollCtl ep EPOLL_CTL_MOD (sd c) (wanted c') p, r)]) =
    match watch ep (trace s) !! sd c with
    | Some (Some _) => <[sd c := Some (wanted c', p)]> (watch ep (trace s))
    | _ => watch ep (trace s)
    end) as Hw.
  { rewrite watch_snoc. unfold watch1. simpl. rewrite bool_decide_eq_true_2 by done.
    destruct (watch ep (trace s) !! sd c) as [[z|]|]; [|done..]. by rewrite bool_decide_eq_true_2. }
  assert (∀ q d, q ≠ p → heap (own s) !! q = Some d → sd c ≠ sd d) as Hother.
  { intros q d Hne Hq E. by apply Hne, (H5 q p d c); [..|lia|]. }
  split; [split; [|split]|..]; cbn [own heap m_Listener trace]; rewrite ?held_other by done; try done.
  - intros q d [(<- & <-)|(Hne & Hq)]%lookup_insert_Some; rewrite Hw.
    + rewrite Hsd. destruct (H1 p c Hc) as [E|E]; rewrite E; [left; by rewrite lookup_insert_eq|by right].
    + destruct (H1 p c Hc) as [E|E]; rewrite E; [|by apply H1].
      rewrite lookup_insert_ne; [by apply H1|]. by apply (Hother q).
  - intros y ev u. rewrite Hw. intros E.
    destruct (decide (y = sd c)) as [->|Hy].
    + destruct (H1 p c Hc) as [E'|E']; rewrite E' in E; [|congruence].
      rewrite lookup_insert_eq in E. injection E as <- <-. right. exists c'. by rewrite lookup_insert_eq.
    + assert (watch ep (trace s) !! y = Some (Some (ev, u))) as E'.
      { destruct (H1 p c Hc) as [E'|E']; rewrite E' in E; [|done]. by rewrite lookup_insert_ne in E. }
      destruct (H2 y ev u E') as [?|(d & Hd & Hs & He)]; [by left|right; exists d].
      split; [|done]. rewrite lookup_insert_ne; [done|]. intros <-. congruence.
  - destruct (H4 p c Hc Hpos) as [_ Hl]. rewrite Hw.
    destruct (H1 p c Hc) as [E|E]; rewrite E; [by rewrite lookup_insert_ne|done].
  - intros q d [(<- & <-)|(Hne & Hq)]%lookup_insert_Some; [rewrite Hsd; by apply (H4 p)|by apply (H4 q)].
  - intros q1 q2 d1 d2 [(<- & <-)|(Hne1 & Hq1)]%lookup_insert_Some [(<- & <-)|(Hne2 & Hq2)]%lookup_insert_Some;
      rewrite ?Hsd; [done|intros; by eapply H5..].
  - intros y z. rewrite Hw. destruct (H1 p c Hc) as [E|E]; rewrite E; [|by apply H6].
    by intros [[<- _]|[_ ?%H6]]%lookup_insert_Some.
Qed.
Lemma safe_rearm {A} ep p c c' (k : M epnet A) Q :
  bad_refused → sd c' = sd c → safe ep (table ep) k Q →
  safe ep (table_with ep p c) (set_client p c' ;;
    let! ok := set_desire_events ep (sd c) (wanted c') p in
    if negb ok then throw_errno "epoll_ctl error: " else k) Q.
Proof.
  intros Hb Hsd Hk s [Hs Hc]. unfold set_client, set_heap, set_desire_events. unfold bind at 1, set_own, modify.
  rewrite bind_assoc, bind_sys, bind_ret_l. set (r := answer_to _ _).
  assert (sd c < 0 → rc r ≠ 0) as Hr by apply Hb. case_bool_decide as E; simpl.
  - apply (Hk (mkNet _ _ _ _)). apply (table_rearm ep s p c); try done. destruct (decide (0 ≤ sd c)); [done|].
    destruct Hr; [lia|done].
  - unfold throw_errno. by eexists _, _, _.
Qed.

Lemma safe_serve_event ep events user disc :
  fresh_addresses → fresh_descriptors → bad_refused →
  safe ep (table ep) (serve_event ep events user disc) (table ep).
Proof.
  intros Hf Hd Hb. unfold serve_event. apply safe_listener. intros l.
  apply safe_if; [eapply safe_bind; [by apply safe_accept|intros; apply safe_ret]|].
  eapply safe_weaken; [|by intros s [Hs _]; exact Hs].
  apply safe_if; [eapply safe_bind; [apply safe_say_table|intros; apply safe_ret]|].
  apply safe_if; [|apply safe_if]; apply safe_deref; intros cs.
  - apply safe_if; [apply safe_done|]. eapply safe_bind; [by apply safe_plain|]. intros r.
    apply safe_if; [eapply safe_bind; [apply safe_say|intros; apply safe_done]|].
    eapply safe_bind; [apply safe_terminated|]. intros t0. eapply safe_bind; [apply safe_strip|]. intros tmp.
    apply safe_if; (eapply safe_bind; [apply safe_say|]; intros _); [|apply safe_done].
    by apply (safe_rearm ep user cs (mkClient (sd cs) WANT_WRITE)), safe_ret.
  - apply safe_if; [apply safe_done|]. eapply safe_bind; [by apply safe_plain|]. intros _.
    by apply (safe_rearm ep user cs (mkClient (sd cs) WANT_READ)), safe_ret.
  - eapply safe_bind; [apply safe_if; apply safe_say|]. intros _. apply safe_done.
Qed.
Lemma safe_serve_events ep n : ∀ l disc,
  (length l ≤ n)%nat → fresh_addresses → fresh_descriptors → bad_refused →
  safe ep (table ep) (serve_events ep l disc) (table ep).
Proof.
  induction n as [|n IH]; intros [|ev [|user l]] disc Hn Hf Hd Hb; simpl in *; try apply safe_ret; try lia.
  eapply safe_bind; [by apply safe_serve_event|]. intros disc'. apply IH; [lia|done..].
Qed.
Lemma safe_for_each {A} ep P (f : A → M epnet unit) l :
  (∀ a, safe ep P (f a) P) → safe ep P (for_each f l) P.
Proof. intros Hf. induction l as [|a l IH]; [apply safe_ret|]. by eapply safe_bind. Qed.
Lemma safe_round ep :
  fresh_addresses → fresh_descriptors → bad_refused → safe ep (table ep) (round ep) (table ep).
Proof.
  intros Hf Hd Hb s Hs. unfold round. rewrite bind_sys. set (r := answer_to _ _).
  pose proof (table_plain ep (EpollWait ep max_epoll_clients) s I Hs) as H1.
  case_bool_decide; [done|]. case_bool_decide as E; [by eexists _, _, _|].
  match goal with |- context [after ?c s] => revert H1; generalize (after c s) end.
  change (safe ep (table ep) (let! disc := serve_events ep (take (2 * Z.to_nat (rc r)) (numbers r)) [] in
    (if bool_decide (disc ≠ []) then
       say [OStr "GC start. disconnect: "; OInt (Z.of_nat (length disc)); OStr " clients"; OEndl]
     else ret tt) ;; for_each remove_client disc) (table ep)).
  eapply safe_bind; [by eapply safe_serve_events|]. intros disc.
  eapply safe_bind; [apply safe_if; [apply safe_say_table|apply safe_ret]|]. intros _.
  apply safe_for_each. intros p. apply safe_remove.
Qed.
Lemma safe_rounds ep n :
  fresh_addresses → fresh_descriptors → bad_refused → safe ep (table ep) (rounds n (round ep)) (table ep).
Proof.
  intros Hf Hd Hb. induction n as [|n IH]; [apply safe_ret|]. eapply safe_bind; [by apply safe_round|]. by intros.
Qed.

(** The loop starts with the listener in the list. *)
Lemma table_start s :
  heap (own s) = ∅ → m_Listener (own s) ∈ held (trace s) →
  let l := m_Listener (own s) in
  let ep := rc (answer_to (trace s) (EpollCreate max_epoll_clients)) in
  table ep (after (EpollCtl ep EPOLL_CTL_ADD l EPOLLIN (u64 l)) (after (EpollCreate max_epoll_clients) s)).
Proof.
  intros He Hl l ep. set (r0 := answer_to _ _) in ep.
  assert (watch ep (trace s ++ [(EpollCreate max_epoll_clients, r0)]) = ∅) as Hw0.
  { rewrite watch_snoc. unfold watch1. simpl. by rewrite bool_decide_eq_true_2. }
  set (s2 := after _ (after _ _)).
  assert (watch ep (trace s2) = {[ l := if bool_decide (rc (answer_to (trace s ++ [(EpollCreate max_epoll_clients, r0)])
      (EpollCtl ep EPOLL_CTL_ADD l EPOLLIN (u64 l))) = 0) then Some (EPOLLIN, u64 l) else None ]}) as Hw.
  { unfold s2. cbn [trace after]. fold r0. rewrite watch_snoc, Hw0. unfold watch1. simpl.
    by rewrite bool_decide_eq_true_2. }
  assert (heap (own s2) = ∅) as He2 by done. assert (m_Listener (own s2) = l) as Hl2 by done.
  assert (held (trace s2) = held (trace s)) as Hh.
  { unfold s2. cbn [trace after]. by rewrite !held_other. }
  assert (∀ fd x, watch ep (trace s2) !! fd = Some (Some x) → fd = l ∧ x = (EPOLLIN, u64 l)) as Hx.
  { intros fd x. rewrite Hw. intros [<- E]%lookup_singleton_Some. by case_bool_decide; simplify_eq. }
  split; [split; [|split]|..]; rewrite ?He2, ?Hl2; try (intros ? ? E; by apply lookup_empty_Some in E).
  - intros fd ev user [-> [= -> ->]]%Hx. by left.
  - cbv zeta. rewrite Hw, lookup_singleton_eq. case_bool_decide; auto.
  - by rewrite Hh.
  - intros p q c d E. by apply lookup_empty_Some in E.
  - intros fd x [-> _]%Hx. by eapply held_nonneg.
Qed.

(** C16. Starting with no client and an open listener, after any number of
    rounds, whatever the kernel reports, the interest list of the epoll instance
    is in step with the clients: every live client's descriptor is watched for
    exactly what its state waits for - reading in WANT_READ, writing in
    WANT_WRITE - with the client's own address, and the listener for reading,
    unless the kernel refused their registration when they came; nothing else is
    watched, and no closed client. The loop ends by an exception only after a
    failure of epoll_wait or of the change of a registration. *)
Theorem epoll_interest_follows_state n (s : epnet) :
  fresh_addresses → fresh_descriptors → bad_refused →
  heap (own s) = ∅ → m_Listener (own s) ∈ held (trace s) →
  let ep := rc (answer_to (trace s) (EpollCreate max_epoll_clients)) in
  match run n s with
  | Ret _ s' => watches_clients ep s'
  | Exc _ s' => gave_up ep (trace s')
  | Undef _ => True
  | Exit _ _ | NoFuel => False
  end.
Proof.
  intros Hf Hd Hb He Hl ep.
  set (s0 := mkNet (own s) (errno s) (trace s) (cerr s ++ [OStr "epoll server starts"; OEndl])).
  pose proof (safe_rounds ep n Hf Hd Hb _ (table_start s0 He Hl)) as H.
  set (s1 := after _ _) in H. change (run n s) with (rounds n (round ep) s1).
  destruct (rounds n (round ep) s1); try done. by destruct H.
Qed.
End EpollEngine.

(** ** A client that looks like the listener *)

(** The allocator returns an address whose low half is the descriptor 3 of the
    listener; the second round reports data on that client. *)
Definition unlucky (m : gmap Z Client) : Z := 2 ^ 33 + 3.
Definition confused : OS := scripted
  [ok 4; ok 0; mkReply 1 0 [] [EPOLLIN; 3]; ok 5; ok 0; mkReply 1 0 [] [EPOLLIN; 2 ^ 33 + 3]; ok 6].
Definition listening : epnet := mkNet (mkEpollEngine 3 ∅) 0 [] [].

(** The union is read as a descriptor before anything says it is one: when
    the low half of a client's address equals the listener's descriptor, data
    on the client makes the server accept a connection and read nothing. *)
Theorem epoll_confuses_client_with_listener :
  match run (Os:=confused) unlucky 2 listening with
  | Ret _ s' => take 2 (drop 5 (calls_of (trace s'))) = [EpollWait 4 max_epoll_clients; Accept 3] ∧
      Read 5 256 ∉ calls_of (trace s')
  | _ => False
  end.
Proof.
  destruct (run (Os:=confused) unlucky 2 listening) as [[] s'|? ?|? ?|?|] eqn:E;
    [|vm_compute in E; discriminate E..].
  assert (calls_of (trace s') = [EpollCreate 32768; EpollCtl 4 1 3 1 3; EpollWait 4 32768; Accept 3;
    EpollCtl 4 1 5 1 8589934595; EpollWait 4 32768; Accept 3; EpollCtl 4 1 6 1 8589934595]) as ->
    by (vm_compute in E; injection E as <-; reflexivity).
  split; [reflexivity|]. by apply (bool_decide_unpack _).
Qed.

(** ** Witness *)

Definition next_free (m : gmap Z Client) : Z := fresh ((map_to_list m).*1).
Lemma next_free_fresh : fresh_addresses next_free.
Proof.
  intros m. destruct (m !! next_free m) as [c|] eqn:E; [|done]. exfalso.
  apply (infinite_is_fresh ((map_to_list m).*1)). apply list_elem_of_fmap.
  exists (next_free m, c). split; [done|]. by apply elem_of_map_to_list.
Qed.
(** A kernel for an engine that listens on 3: the epoll instance is 4; a
    client, for which accept gives 5, sends a message, takes the answer and ends
    the connection. Every other accept fails, and so does epoll_ctl on what is
    not a descriptor. *)
Definition client_address : Z := next_free ∅.
Definition epoll_event (ev user : Z) : reply := mkReply 1 0 [] [ev; user].
Definition epoll_kernel : OS :=
  {| answer_to h c :=
       match c with
       | Socket => ok 3
       | EpollCreate _ => ok 4
       | EpollCtl _ _ fd _ _ => if bool_decide (fd < 0) then failed 9 else ok 0
       | EpollWait _ _ =>
           match length (List.filter (λ c, match c with EpollWait _ _ => true | _ => false end) (calls_of h)) with
           | 0 => epoll_event EPOLLIN 3
           | 2 => epoll_event EPOLLOUT client_address
           | _ => epoll_event EPOLLIN client_address
           end%nat
       | Accept _ => if bool_decide (5 ∈ held h) then failed 24 else ok 5
       | Read _ _ => if bool_decide (Write 5 hello ∈ calls_of h) then failed 104 else data (b "hi")
       | _ => ok 0
       end;
     strerror _ := "error" |}.
Lemma epoll_kernel_fresh : fresh_descriptors (Os:=epoll_kernel).
Proof.
  intros h l Hin. pose proof (held_nonneg h _ Hin). simpl in *. case_bool_decide; [simpl in *; lia|done].
Qed.
Lemma epoll_kernel_refuses : bad_refused (Os:=epoll_kernel).
Proof. intros h ep op fd ev user Hfd. simpl. by rewrite bool_decide_eq_true_2. Qed.
Definition open_listener : epnet := mkNet (mkEpollEngine 3 ∅) 0 [(Socket, ok 3)] [].

(** What the list holds after each round. *)
Definition watched_after (n : nat) : list (Z * option (Z * Z)) * bool :=
  match run (Os:=epoll_kernel) next_free n open_listener with
  | Ret _ s' => (map_to_list (watch 4 (trace s')), bool_decide (heap (own s') = ∅))
  | _ => ([], false)
  end.
Example list_follows_the_client :
  map watched_after [0; 1; 2; 3; 4]%nat =
  let listener := (3, Some (EPOLLIN, 3)) in
  [([listener], true);
   ([(5, Some (EPOLLIN, client_address)); listener], false);
   ([(5, Some (EPOLLOUT, client_address)); listener], false);
   ([(5, Some (EPOLLIN, client_address)); listener], false);
   ([listener], true)].
Proof. vm_compute. reflexivity. Qed.
Lemma epoll_interest_follows_state_witness :
  let ep := rc (answer_to (OS:=epoll_kernel) [(Socket, ok 3)] (EpollCreate max_epoll_clients)) in
  ep = 4 ∧
  match run (Os:=epoll_kernel) next_free 3 open_listener with
  | Ret _ s' => watches_clients ep s'
  | Exc _ s' => gave_up ep (trace s')
  | Undef _ => True
  | Exit _ _ | NoFuel => False
  end.
Proof.
  split; [reflexivity|].
  apply (epoll_interest_follows_state (Os:=epoll_kernel) next_free 3 open_listener next_free_fresh
    epoll_kernel_fresh epoll_kernel_refuses eq_refl).
  left.
Defined.
