(* ===== verification/Server.v ===== *)
(** * Server: choosing the engine and the main program of libtpevent

    Models net/libtpevent/src/server.hpp, server.cpp and main.cpp. *)

From S2P Require Import Prelude Posix Text Options Engine.
From S2P Require SelectEngine PollEngine AsyncPoll AsyncSystem.

(** The object an Engine pointer points to, with its class. *)
Inductive engine_object : Type :=
  | ASelectEngine (listener : Z)
  | AnAsyncPollEngine (listener : Z)
  | APollEngine (listener : Z).

Section Server.
Context {Os : OS} {T : Type}.
Context (boost_split : bytes → bytes → list bytes).
Context (boost_starts_with : bytes → bytes → bool).

(** The case of engine_t::EPOLL names a constant that options.hpp does not
    declare; it is left out, as on __APPLE__. *)
Definition get_engine (type : engine_t) (port : Z) (async : bool) : M (net T) engine_object :=
  match type with
  | SELECT => let! l := Engine_ctor port in ret (ASelectEngine l)
  | POLL =>
      if async then let! l := Engine_ctor port in ret (AnAsyncPollEngine l)
      else let! l := Engine_ctor port in ret (APollEngine l)
  | UNKNOWN => throw (logic_error "unknown engine type")
  end.

Definition Server_ctor (opt : Options) : M (net T) engine_object :=
  let! p := local opt (let! e := engine in let! p := port in let! a := async in ret (e, p, a)) in
  let '((e, p, a), _) := p in
  get_engine e p a.

(** [m_Engine->run()], [n] rounds of its loop. *)
Definition Server_run (m_Engine : engine_object) (n : nat) : M (net T) unit :=
  match m_Engine with
  | ASelectEngine l =>
      let! _ := local (SelectEngine.mkSelectEngine l []) (SelectEngine.run n) in ret tt
  | AnAsyncPollEngine l =>
      let! _ := local (AsyncPoll.mkEventLoop [] [] ∅ 1 []) (AsyncPoll.run l n) in ret tt
  | APollEngine l =>
      let! _ := local (PollEngine.mkPollEngine l [] []) (PollEngine.run n) in ret tt
  end.
Definition listener_of (e : engine_object) : Z :=
  match e with ASelectEngine l | AnAsyncPollEngine l | APollEngine l => l end.

Definition main (argv : list bytes) (n : nat) : M (net T) Z :=
  try_catch (
    let! o := local (mkOptions None None None) (Options_ctor boost_split boost_starts_with argv) in
    let! e := Server_ctor o.2 in
    finally (Server_run e n) (Engine_dtor (listener_of e)) ;;
    ret 0)
    (λ e, say [OStr "Terminated: "; OStr (what e); OEndl] ;; ret 0).

(** The main program reports every exception, from the command line to the
    event loop, on the terminal and returns 0: its exit status never tells a
    failure, and no exception escapes. *)
Theorem main_returns_0 argv n s :
  match main argv n s with Ret code _ => code = 0 | Exc _ _ => False | _ => True end.
Proof.
  unfold main, try_catch, bind at 1.
  destruct (local _ _ s) as [o s1|e s1|c s1|u|]; try done.
  unfold bind at 1. destruct (Server_ctor o.2 s1) as [e s2|e s2|c s2|u|]; try done.
  unfold bind at 1. by destruct (finally _ _ s2) as [? s3|e' s3|c s3|u|].
Qed.

(** With well-formed options and a kernel that cannot bind, the program
    leaves the socket open, prints the error and returns 0; nothing is ever
    accepted. *)
Theorem main_bind_failure prog n e a k (s : net T) :
  split_splits boost_split → starts_with_prefix boost_starts_with →
  INT_MIN ≤ n ≤ INT_MAX → e ≠ UNKNOWN → trace s = [] →
  (∀ h, rc (answer_to h Socket) = 5) → (∀ h, rc (answer_to h (Setsockopt 5 "SO_REUSEADDR")) = 0) →
  (∀ h p, rc (answer_to h (Bind 5 p)) = -1) →
  ∃ s', main [prog; option_arg opt_port (to_string n); option_arg opt_engine (engine_name e);
              option_arg opt_async (async_name a)] k s = Ret 0 s' ∧
    calls_of (trace s') = [Socket; Setsockopt 5 "SO_REUSEADDR"; Bind 5 (u16 (n mod 2 ^ 16))].
Proof.
  intros Hs Hp Hn He Ht Hsock Hopt Hbind. unfold main, try_catch, local. unfold bind at 1.
  rewrite Options_ctor_parses by done. simpl. unfold bind at 1, Server_ctor, local.
  unfold bind at 1. simpl.
  assert (∀ s : net T, trace s = [] →
    ∃ s', Engine_ctor (n mod 2 ^ 16) s = Exc (runtime_error (String.append "error listen socket: "
      (strerror (errno s')))) s' ∧
    calls_of (trace s') = [Socket; Setsockopt 5 "SO_REUSEADDR"; Bind 5 (u16 (n mod 2 ^ 16))])
    as Hctor.
  { clear s Ht. intros s Ht. unfold Engine_ctor, listenSocket. rewrite bind_assoc, bind_sys. simpl.
    rewrite Hsock. simpl. rewrite bind_assoc, bind_sys, Hopt. simpl.
    rewrite bind_assoc, bind_sys, Hbind. simpl. eexists. split; [reflexivity|].
    unfold calls_of. simpl. by rewrite Ht. }
  destruct (Hctor (mkNet (own s) (errno s) (trace s) (cerr s)) Ht) as (s' & E & Hc).
  unfold get_engine. destruct e; [done|..]; [|destruct a];
    unfold bind at 1; rewrite E; eexists; (split; [reflexivity|exact Hc]).
Qed.

(** ** A property of the history, from the engine to the program *)

(** [P] holds of the empty history and survives calls that write nothing. *)
Definition unaffected (P : history → Prop) : Prop :=
  P [] ∧ ∀ h c r, (∀ fd buf, c ≠ Write fd buf) → P h → P (h ++ [(c, r)]).

Lemma unaffected_sys P c :
  unaffected P → (∀ fd buf, c ≠ Write fd buf) → keeps (on_trace (T:=T) P) (sys c).
Proof. intros [_ HP] Hc. apply keeps_sys. intros s. by apply HP. Qed.
Lemma unaffected_Engine_dtor P l : unaffected P → keeps (on_trace P) (Engine_dtor (T:=T) l).
Proof. intros HP. apply keeps_bind; [by apply unaffected_sys|auto with keeps]. Qed.

(** The object that get_engine makes. *)
Definition engine_of (e : engine_t) (a : bool) (l : Z) : engine_object :=
  match e with
  | SELECT => ASelectEngine l
  | POLL | UNKNOWN => if a then AnAsyncPollEngine l else APollEngine l
  end.
Lemma get_engine_of e port a s : e ≠ UNKNOWN →
  get_engine e port a s = bind (Engine_ctor (T:=T) port) (λ l, ret (engine_of e a l)) s.
Proof. by destruct e, a. Qed.

(** How a run may end: [P] of the history, whenever there is one, and [U] of
    the undefined behaviour, with [None] for a loop out of fuel. *)
Definition ends {S A} (P : S → Prop) (U : option ub → Prop) (r : result S A) : Prop :=
  match r with
  | Ret _ s | Exc _ s | Exit _ s => P s
  | Undef u => U (Some u)
  | NoFuel => U None
  end.
Lemma keeps_ends {S A} (P : S → Prop) (m : M S A) s : keeps P m → P s → ends P (λ _, True) (m s).
Proof. intros Hm Hs. specialize (Hm s Hs). by destruct (m s). Qed.
Lemma ends_bind {S A B} (P : S → Prop) U (m : M S A) (k : A → M S B) s :
  ends P U (m s) → (∀ a s', P s' → ends P U (k a s')) → ends P U (bind m k s).
Proof. intros Hm Hk. unfold bind. destruct (m s); try done. by apply Hk. Qed.
Lemma ends_finally P U (m : M (net T) unit) d s :
  ends (on_trace P) U (m s) → (∀ s', P (trace s') → ends (on_trace P) U (d s')) →
  ends (on_trace P) U (finally m d s).
Proof.
  intros Hm Hd. apply ends_bind.
  - unfold try_catch. destruct (m s); try done. apply ends_bind; [by apply Hd|]. by intros.
  - intros [] s' Hs'. apply ends_bind; [by apply Hd|]. by intros.
Qed.
Lemma ends_Engine_ctor P U port s :
  unaffected P → P (trace s) → ends (on_trace P) U (Engine_ctor (T:=T) port s).
Proof.
  intros HP Hs.
  assert (∀ c s', (∀ fd buf, c ≠ Write fd buf) → P (trace s') → ends (on_trace (T:=T) P) U (sys c s')) as Hsys.
  { intros c s' Hc Hs'. exact (unaffected_sys P c HP Hc s' Hs'). }
  unfold Engine_ctor, listenSocket, throw_errno.
  repeat first [apply ends_bind; [|intros ? ? ?] | by apply Hsys | case_bool_decide | done].
Qed.
Lemma ends_Engine_dtor P U l s :
  unaffected P → P (trace s) → ends (on_trace P) U (Engine_dtor (T:=T) l s).
Proof. intros HP Hs. exact (unaffected_Engine_dtor P l HP s Hs). Qed.

(** A run of the program with well-formed options: what the event loop ensures
    of the history and of the ways to end, the program does, from the command
    line to the close of the listening socket; no exception escapes it, and a
    normal end has status 0. *)
Lemma main_ends P U e prog n a k (s : net T) :
  split_splits boost_split → starts_with_prefix boost_starts_with →
  INT_MIN ≤ n ≤ INT_MAX → e ≠ UNKNOWN → trace s = [] → unaffected P →
  (∀ l s', P (trace s') → ends (on_trace P) U (Server_run (engine_of e a l) k s')) →
  match main [prog; option_arg opt_port (to_string n); option_arg opt_engine (engine_name e);
              option_arg opt_async (async_name a)] k s with
  | Ret code s' => code = 0 ∧ P (trace s')
  | Exit _ s' => P (trace s')
  | Exc _ _ => False
  | Undef u => U (Some u)
  | NoFuel => U None
  end.
Proof.
  intros Hs Hp Hn He Ht HP Hrun. unfold main, try_catch, local. unfold bind at 1.
  rewrite Options_ctor_parses by done. cbn [fst snd own errno trace cerr with_options].
  set (s1 := mkNet (own s) (errno s) (trace s) (cerr s)).
  assert (P (trace s1)) as H0 by (simpl; rewrite Ht; apply HP). unfold bind at 1.
  change (Server_ctor _ s1) with (get_engine e (n mod 2 ^ 16) a s1). rewrite get_engine_of by done.
  pose proof (ends_Engine_ctor P U (n mod 2 ^ 16) s1 HP H0) as Hc.
  unfold bind at 1. destruct (Engine_ctor (n mod 2 ^ 16) s1) as [l s2|x s2|c s2|u|]; try done.
  cbn [ret]. replace (listener_of (engine_of e a l)) with l by (by destruct e, a).
  pose proof (ends_finally P U _ (Engine_dtor l) s2 (Hrun l s2 Hc)
    (λ s', ends_Engine_dtor P U l s' HP)) as Hf.
  unfold bind. by destruct (finally (Server_run (engine_of e a l) k) (Engine_dtor l) s2) as [[] s3|x s3|c s3|u|].
Qed.

(** C18. The whole program, started with the select engine: whatever the kernel
    and the clients do, from the command line to the close of the listening
    socket, everything it ever writes to a descriptor is the echo of the read
    immediately before on that descriptor; no exception escapes it, and a
    normal end has status 0. *)
Theorem main_select_only_echoes prog n a k (s : net T) :
  split_splits boost_split → starts_with_prefix boost_starts_with →
  INT_MIN ≤ n ≤ INT_MAX → trace s = [] →
  match main [prog; option_arg opt_port (to_string n); option_arg opt_engine (engine_name SELECT);
              option_arg opt_async (async_name a)] k s with
  | Ret code s' => code = 0 ∧ SelectEngine.echoes (trace s')
  | Exit _ s' => SelectEngine.echoes (trace s')
  | Exc _ _ => False
  | _ => True
  end.
Proof.
  intros Hs Hp Hn Ht. apply (main_ends SelectEngine.echoes (λ _, True) SELECT); try done.
  - split; [apply SelectEngine.echoes_nil|]. intros. by apply SelectEngine.echoes_snoc.
  - intros l s' Hs'. apply (keeps_ends (on_trace SelectEngine.echoes)); [|done].
    apply keeps_bind; [|auto with keeps]. apply keeps_local, SelectEngine.echoes_run.
Qed.

(** C17. The whole program, started with the poll engine: as long as the
    accepting thread adds clients only between rounds, whatever the kernel and
    the clients do, at every moment from the command line to the close of the
    listening socket the program has written to any descriptor at most as many
    answers as it had read messages from it, and every answer is the greeting;
    none of its loops over the clients goes on for ever, no exception escapes it,
    and a normal end has status 0. *)
Theorem main_poll_polite prog n k (s : net T) :
  split_splits boost_split → starts_with_prefix boost_starts_with →
  INT_MIN ≤ n ≤ INT_MAX → trace s = [] → PollEngine.no_race →
  match main [prog; option_arg opt_port (to_string n); option_arg opt_engine (engine_name POLL);
              option_arg opt_async (async_name false)] k s with
  | Ret code s' => code = 0 ∧ PollEngine.polite (trace s')
  | Exit _ s' => PollEngine.polite (trace s')
  | Exc _ _ | NoFuel => False
  | Undef _ => True
  end.
Proof.
  intros Hs Hp Hn Ht Hrace. apply (main_ends PollEngine.polite (λ u, match u with Some _ => True | None => False end) POLL); try done.
  - split; [apply PollEngine.polite_nil|]. intros. by apply PollEngine.polite_snoc.
  - intros l s0 H0. apply ends_bind; [|by intros]. unfold local.
    match goal with |- context [PollEngine.run k ?s1] =>
      pose proof (PollEngine.run_polite k s1 Hrace H0 eq_refl) as H; by destruct (PollEngine.run k s1) end.
Qed.

(** C19. The whole program, started with the asynchronous poll engine: however
    its manager, its workers and the accepting thread take turns, whatever the
    kernel and the clients do, and wherever it ends, everything it has ever
    written to a descriptor is the answer "server: " with the stripped text of a
    message read from that descriptor before. It never uses a connection that it
    has destroyed, none of its loops over the clients goes on for ever, no
    exception escapes it, and a normal end has status 0. *)
Theorem main_async_answers prog n k (s : net T) :
  split_splits boost_split → starts_with_prefix boost_starts_with →
  INT_MIN ≤ n ≤ INT_MAX → trace s = [] →
  match main [prog; option_arg opt_port (to_string n); option_arg opt_engine (engine_name POLL);
              option_arg opt_async (async_name true)] k s with
  | Ret code s' => code = 0 ∧ AsyncSystem.only_answers (trace s')
  | Exit _ s' => AsyncSystem.only_answers (trace s')
  | Exc _ _ | NoFuel => False
  | Undef u => u ≠ UseAfterFree
  end.
Proof.
  intros Hs Hp Hn Ht.
  apply (main_ends AsyncSystem.only_answers (λ u, match u with Some u => u ≠ UseAfterFree | None => False end) POLL); try done.
  - split; [apply AsyncSystem.only_answers_nil|]. intros h c r Hc Hh. apply AsyncSystem.only_answers_snoc; [done|].
    intros x d ->. by destruct (Hc x d).
  - intros l s0 H0. apply ends_bind; [|by intros]. unfold local.
    pose proof (AsyncSystem.run_answers l k (trace s0) (errno s0) (cerr s0) H0) as H.
    unfold AsyncSystem.idle in H. by destruct (AsyncPoll.run l k _).
Qed.
End Server.

(** ** Witness *)

(** The kernel has no port to bind. *)
Definition busy : OS :=
  {| answer_to h c := match c with Bind _ _ => failed 98 | Socket => ok 5 | _ => ok 0 end;
     strerror _ := "Address already in use" |}.
Definition outside : net unit := mkNet tt 0 [] [].
Lemma main_bind_failure_witness :
  ∃ s', main (Os:=busy) plain_split plain_starts_with
      [b "tpevent"; option_arg opt_port (to_string 8080); option_arg opt_engine (engine_name POLL);
       option_arg opt_async (async_name false)] 3 outside = Ret 0 s' ∧
    calls_of (trace s') = [Socket; Setsockopt 5 "SO_REUSEADDR"; Bind 5 (u16 (8080 mod 2 ^ 16))].
Proof.
  apply (main_bind_failure (Os:=busy) plain_split plain_starts_with (b "tpevent") 8080 POLL false 3
    outside plain_split_splits plain_starts_with_prefix); try reflexivity;
    [vm_compute; split; discriminate|discriminate].
Defined.

(** The command lines of the three engines. *)
Definition argv_of (e : engine_t) (a : bool) : list bytes :=
  [b "tpevent"; option_arg opt_port (to_string 8080); option_arg opt_engine (engine_name e);
   option_arg opt_async (async_name a)].
(** What a run reads, accepts, writes and closes. *)
Definition conversation (c : call) : bool :=
  match c with Accept _ | Read _ _ | Write _ _ | Close _ => true | _ => false end.
Definition conversations (r : result (net unit) Z) : list call :=
  match r with Ret _ s' => List.filter conversation (calls_of (trace s')) | _ => [] end.

(** The first select reports the listener, the others the client accepted. *)
Definition select_kernel : OS :=
  {| answer_to h c :=
       match c with
       | Socket => ok 3
       | Select _ _ _ _ => ready [if bool_decide (Accept 3 ∈ calls_of h) then 7 else 3]
       | Accept _ => ok 7
       | Read _ _ => data (b "hi" ++ [CR; LF])
       | Write _ buf => ok (Z.of_nat (length buf))
       | _ => ok 0
       end;
     strerror _ := "error" |}.
Example select_echoes_twice :
  conversations (main (Os:=select_kernel) plain_split plain_starts_with (argv_of SELECT false) 3 outside) =
  [Accept 3; Read 7 256; Write 7 (SelectEngine.echo (b "hi")); Read 7 256; Write 7 (SelectEngine.echo (b "hi"));
   Close 3].
Proof. vm_compute. reflexivity. Qed.
Lemma main_select_only_echoes_witness :
  match main (Os:=select_kernel) plain_split plain_starts_with (argv_of SELECT false) 3 outside with
  | Ret code s' => code = 0 ∧ SelectEngine.echoes (trace s')
  | Exit _ s' => SelectEngine.echoes (trace s')
  | Exc _ _ => False
  | _ => True
  end.
Proof.
  apply (main_select_only_echoes (Os:=select_kernel) plain_split plain_starts_with (b "tpevent") 8080 false 3
    outside plain_split_splits plain_starts_with_prefix); [vm_compute; split; discriminate|reflexivity].
Defined.

(** A visitor comes before the first round and is greeted in every second one. *)
Example poll_greets_twice :
  conversations (main (Os:=PollEngine.visited) plain_split plain_starts_with (argv_of POLL false) 5 outside) =
  [Read 7 256; Write 7 PollEngine.hello; Read 7 256; Write 7 PollEngine.hello; Read 7 256; Close 3].
Proof. vm_compute. reflexivity. Qed.
Lemma main_poll_polite_witness :
  match main (Os:=PollEngine.visited) plain_split plain_starts_with (argv_of POLL false) 5 outside with
  | Ret code s' => code = 0 ∧ PollEngine.polite (trace s')
  | Exit _ s' => PollEngine.polite (trace s')
  | Exc _ _ | NoFuel => False
  | Undef _ => True
  end.
Proof.
  apply (main_poll_polite (Os:=PollEngine.visited) plain_split plain_starts_with (b "tpevent") 8080 5
    outside plain_split_splits plain_starts_with_prefix); [vm_compute; split; discriminate|reflexivity|].
  exact PollEngine.visited_no_race.
Defined.

(** The turns of [AsyncSystem.one_client], on a listening socket 3. *)
Definition async_kernel : OS :=
  {| answer_to h c := match c with Socket => ok 3 | _ => answer_to (OS:=AsyncSystem.one_client) h c end;
     strerror _ := "error" |}.
Example async_answers_once :
  conversations (main (Os:=async_kernel) plain_split plain_starts_with (argv_of POLL true) 4 outside) =
  [Accept 3; Read 7 256; Write 7 (b "server: hi" ++ [LF]); Read 7 256; Close 7; Close 3].
Proof. vm_compute. reflexivity. Qed.
Lemma main_async_answers_witness :
  match main (Os:=async_kernel) plain_split plain_starts_with (argv_of POLL true) 4 outside with
  | Ret code s' => code = 0 ∧ AsyncSystem.only_answers (trace s')
  | Exit _ s' => AsyncSystem.only_answers (trace s')
  | Exc _ _ | NoFuel => False
  | Undef u => u ≠ UseAfterFree
  end.
Proof.
  apply (main_async_answers (Os:=async_kernel) plain_split plain_starts_with (b "tpevent") 8080 4
    outside plain_split_splits plain_starts_with_prefix); [vm_compute; split; discriminate|reflexivity].
Defined.
