(* ===== verification/Socket.v ===== *)
(** * Socket: the wrapper of stream sockets used by the small programs

    Models net/common/socket.hpp and socket.cpp. A Socket is its descriptor
    [m_Sd]; its methods run on a [net] whose own object is the Socket. The two
    member functions called recv are [recv_bytes] (with a number of bytes) and
    [recv]. Loops that a peer can keep going for ever take fuel. *)

From S2P Require Import Prelude Posix Text.

Record Socket_object : Type := mkSocket { m_Sd : Z }.
Abbreviation sonet := (net Socket_object).

(** errno values and flags (Linux). *)
Definition EAGAIN : Z := 11.
Definition EINPROGRESS : Z := 115.
Definition O_NONBLOCK : Z := 2048.
Definition MSG_PEEK : Z := 2.
Definition MSG_NOSIGNAL : Z := 16384.

Definition newline : string := String LF EmptyString.
Definition crlf : bytes := [CR; LF].
Definition header_end : bytes := [CR; LF; CR; LF].
Definition content_length_field : bytes := b "Content-Length: ".

Definition int2ipv4 (ip : Z) : bytes :=
  to_string (Z.land ip 0xFF) ++ b "." ++
  to_string (Z.shiftr (Z.land ip 0xFF00) 8) ++ b "." ++
  to_string (Z.shiftr (Z.land ip 0xFF0000) 16) ++ b "." ++
  to_string (Z.shiftr (Z.land ip 0xFF000000) 24).

Section Calls.
Context {Os : OS} {T : Type}.

(** The address and the port of the sockaddr_in; the reply of gethostbyname
    lists the addresses of the host, and is 0 for NULL. *)
Definition resolve (host : bytes) (port : Z) : M (net T) (Z * Z) :=
  let! hp := sys (Gethostbyname (text (c_str host))) in
  if bool_decide (rc hp = 0) then throw_errno "resolve error: "
  else
    for_each (λ ip, say [OStr "resolved: "; OStr (text (int2ipv4 ip)); OEndl]) (numbers hp) ;;
    let! h_addr := or_undef NullPointer (head (numbers hp)) in
    ret (h_addr, u16 port).

Definition set_non_blocked_impl (sd : Z) (opt : bool) : M (net T) unit :=
  let! r := sys (Getfl sd) in
  let flags := rc r in
  let new_flags := if opt then Z.lor flags O_NONBLOCK
                   else Z.land flags (Z.lnot O_NONBLOCK) in
  let! r := sys (Setfl sd new_flags) in
  if bool_decide (rc r = -1) then throw_errno "make nonblocked: " else ret tt.

Definition setReuseAddr (sd : Z) : M (net T) unit :=
  let! r := sys (Setsockopt sd "SO_REUSEADDR") in
  if bool_decide (rc r = -1) then
    let! _ := sys (Close sd) in throw_errno "setopt: "
  else ret tt.
End Calls.

(** The option of setsockopt with its value. *)
Definition rcvtimeo (sec microsec : Z) : string :=
  text (b "SO_RCVTIMEO " ++ to_string sec ++ b "s " ++ to_string microsec ++ b "us").

Section Socket.
Context {Os : OS}.

Definition sd : M sonet Z := gets (λ s, m_Sd (own s)).
Definition set_sd (x : Z) : M sonet unit := set_own (λ _, mkSocket x).

Definition Socket_ctor : Socket_object := mkSocket (-1).
Definition Socket_dtor : M sonet unit :=
  let! x := sd in
  if bool_decide (0 < x) then let! _ := sys (Close x) in ret tt else ret tt.
Definition close : M sonet unit :=
  let! x := sd in let! _ := sys (Close x) in ret tt.

Definition setNonBlocked (opt : bool) : M sonet unit :=
  let! x := sd in set_non_blocked_impl x opt.

Definition setRcvTimeout (sec microsec : Z) : M sonet unit :=
  let! x := sd in
  let! r := sys (Setsockopt x (rcvtimeo sec microsec)) in
  if bool_decide (rc r ≠ 0) then throw_errno "set rcvtimeout: " else ret tt.

Definition connect (host : bytes) (port : Z) : M sonet unit :=
  let! addr := resolve host port in
  let! r := sys Socket in
  let x := rc r in
  if bool_decide (x <= 0) then throw_errno "error to create socket: "
  else
    let! r := sys (Connect x addr.1 addr.2) in
    if bool_decide (rc r = -1) then
      let! _ := sys (Close x) in throw_errno "connect error: "
    else set_sd x.

Definition connect_timeout (host : bytes) (port timeout : Z) : M sonet unit :=
  let! addr := resolve host port in
  let! r := sys Socket in
  let x := rc r in
  if bool_decide (x <= 0) then throw_errno "error to create socket: "
  else
    set_non_blocked_impl x true ;;
    let! r := sys (Connect x addr.1 addr.2) in
    let! e := gets errno in
    if bool_decide (rc r = -1) && bool_decide (e ≠ EINPROGRESS) then
      let! _ := sys (Close x) in throw_errno "connect error: "
    else
      fd_in_set x ;;
      let! sel := sys (Select (x + 1) [] [x] (Some timeout)) in
      if bool_decide (rc sel ≠ 1) then
        let! _ := sys (Close x) in throw (runtime_error "connect timeout")
      else set_sd x.

(** The loop of send: [left] bytes to go, [sent] by the preceding call. *)
Fixpoint send_loop (fuel : nat) (str : bytes) (left sent : Z) : M sonet unit :=
  match fuel with
  | O => no_fuel
  | S fuel' =>
      if bool_decide (0 < left) then
        let! x := sd in
        let! r := sys (Send x (drop (Z.to_nat sent) str) 0) in
        let sent' := rc r in
        if bool_decide (sent' = -1) then throw_errno "write failed: "
        else send_loop fuel' str (u64 (left - sent')) sent'
      else ret tt
  end.
Definition send (fuel : nat) (str : bytes) : M sonet unit :=
  send_loop fuel str (Z.of_nat (length str)) 0.

(** The loop of recv(bytes): [buf] is what was stored so far, [r] of it. *)
Fixpoint recv_bytes_loop (fuel : nat) (n : Z) (buf : bytes) (r : Z) : M sonet bytes :=
  match fuel with
  | O => no_fuel
  | S fuel' =>
      if bool_decide (r ≠ n) then
        let! x := sd in
        let! rp := sys (Recv x (n - r) 0) in
        say [OStr "recv_ex: "; OInt (rc rp); OStr " bytes"; OStr newline] ;;
        if bool_decide (rc rp = -1) || bool_decide (rc rp = 0) then throw_errno "read failed: "
        else recv_bytes_loop fuel' n (buf ++ got rp) (u64 (r + rc rp))
      else ret buf
  end.
Definition recv_bytes `{Al : Allocator} (fuel : nat) (n : Z) : M sonet bytes :=
  let! _ := new_array (A:=ascii) n 1 in
  recv_bytes_loop fuel n [] 0.

Definition recv : M sonet bytes :=
  let! x := sd in
  let! r := sys (Recv x 128 MSG_NOSIGNAL) in
  let n := rc r in
  let! e := gets errno in
  say [OStr "errno is "; OInt e; OEndl] ;;
  if bool_decide (n = -1) && bool_decide (e ≠ EAGAIN) then throw_errno "read failed: "
  else if bool_decide (n = 0) then
    throw (runtime_error (text (b "client: " ++ to_string x ++ b " disconnected")))
  else if bool_decide (n = -1) && bool_decide (e = EAGAIN) then
    throw (runtime_error (text (b "client: " ++ to_string x ++ b " timeouted")))
  else
    let! l := strip (got r) in
    say [OStr "client: "; OInt x; OStr ", recv: "; OStr newline; OStr (text l); OStr " [";
         OInt n; OStr " bytes]"; OEndl] ;;
    ret l.

Fixpoint recv_loop_from (fuel : nat) (l : bytes) : M sonet bytes :=
  match fuel with
  | O => no_fuel
  | S fuel' =>
      let! x := sd in
      let! r := sys (Recv x 256 MSG_NOSIGNAL) in
      let n := rc r in
      let! e := gets errno in
      if bool_decide (n = -1) && bool_decide (e ≠ EAGAIN) then throw_errno "read failed: "
      else if bool_decide (n = 0) || bool_decide (n = -1) then ret l
      else
        let! l' := strip (l ++ got r) in
        recv_loop_from fuel' l'
  end.
Definition recv_loop (fuel : nat) : M sonet bytes := recv_loop_from fuel [].

Definition recvTimed (timeout : Z) : M sonet bytes :=
  let! x := sd in
  fd_in_set x ;;
  let! sel := sys (Select (x + 1) [x] [] (Some timeout)) in
  if bool_decide (rc sel ≠ 1) then throw (runtime_error "read timeout")
  else recv.

Definition hasData : M sonet bool :=
  let! x := sd in
  let! r := sys (Recv x 1 MSG_PEEK) in
  ret (bool_decide (0 < rc r)).

Definition createServerSocket (port listen_queue_size : Z) : M sonet unit :=
  let! r := sys Socket in
  let x := rc r in
  if bool_decide (x <= 0) then throw_errno "socket: "
  else
    setReuseAddr x ;;
    let! r := sys (Bind x (u16 port)) in
    if bool_decide (rc r < 0) then
      let! _ := sys (Close x) in throw_errno "bind: "
    else
      let! _ := sys (Listen x listen_queue_size) in
      set_sd x.

(** The reply of accept carries the address of the peer. *)
Definition accept : M sonet (option Socket_object) :=
  say [OStr "ready for accpet new clients: "; OEndl] ;;
  let! x := sd in
  let! r := sys (Accept x) in
  if bool_decide (rc r = -1) then ret None
  else
    say [OStr "new client: "; OInt (rc r); OStr ", from: ";
         OStr (text (int2ipv4 (default 0 (head (numbers r))))); OEndl] ;;
    ret (Some (mkSocket (rc r))).

Definition httpQuery (fuel : nat) (query : bytes) (cb : bytes → M sonet unit) : M sonet unit :=
  send fuel query ;;
  let! res := recv_loop fuel in
  let! x := sd in
  say [OStr "client: "; OInt x; OStr ", recv: "; OStr newline; OStr (text res); OEndl] ;;
  cb res.
End Socket.

(** The result and the new value of [bytes_left], [None] when it keeps the old
    one. *)
Definition parse_protocol {S} (buf : bytes) : M S (bool * option Z) :=
  match find header_end buf 0 with
  | None => ret (false, None)
  | Some hdr_end_pos =>
      let! body := substr buf (hdr_end_pos + 4) None in
      match find content_length_field buf 0 with
      | None => throw (runtime_error "http broken")
      | Some pos =>
          let length_pos := (pos + length content_length_field)%nat in
          let! field := substr buf length_pos (find crlf buf length_pos) in
          let! content_length := stoi field in
          ret (true, Some (u64 (u64 content_length - Z.of_nat (length body))))
      end
  end.

(** ** What the kernel took and gave *)

(** The bytes of [buf] that a call to send on [x] reports as taken, and those
    that a call to recv on [x] stored. *)
Definition taken1 (x : Z) (e : call * reply) : bytes :=
  match e.1 with
  | Send y buf _ => if bool_decide (y = x) then take (Z.to_nat (rc e.2)) buf else []
  | _ => []
  end.
Definition taken (x : Z) (h : history) : bytes := flat_map (taken1 x) h.
Definition given1 (x : Z) (e : call * reply) : bytes :=
  match e.1 with
  | Recv y _ _ => if bool_decide (y = x) then take (Z.to_nat (rc e.2)) (got e.2) else []
  | _ => []
  end.
Definition given (x : Z) (h : history) : bytes := flat_map (given1 x) h.

Lemma taken_snoc x h e : taken x (h ++ [e]) = taken x h ++ taken1 x e.
Proof. unfold taken. rewrite flat_map_app. simpl. by rewrite app_nil_r. Qed.
Lemma given_snoc x h e : given x (h ++ [e]) = given x h ++ given1 x e.
Proof. unfold given. rewrite flat_map_app. simpl. by rewrite app_nil_r. Qed.

Ltac srun := repeat first
  [ rewrite bind_assoc | rewrite bind_sys | rewrite bind_ret_l | progress run_step ];
  cbn [own errno trace cerr after].

(** ** Sending *)

(** The kernel takes the chunks of the given sizes from calls of send that start
    at [off] and then where the size of the chunk before says. *)
Fixpoint accepts `{OS} (h : history) (x : Z) (str : bytes) (off : nat) (sizes : list nat) : Prop :=
  match sizes with
  | [] => True
  | n :: ns =>
      let c := Send x (drop off str) 0 in
      let r := answer_to h c in
      rc r = Z.of_nat n ∧ accepts (h ++ [(c, r)]) x str n ns
  end.
(** What the peer then gets. *)
Fixpoint restarts (str : bytes) (off : nat) (sizes : list nat) : bytes :=
  match sizes with
  | [] => []
  | n :: ns => take n (drop off str) ++ restarts str n ns
  end.

Lemma send_loop_restarts `{Os : OS} str sizes : ∀ off fuel (s : sonet),
  accepts (trace s) (m_Sd (own s)) str off sizes → Forall (λ n, 0 < n)%nat sizes →
  Z.of_nat (sum_list sizes) < 2 ^ 64 → (length sizes < fuel)%nat →
  ∃ s', send_loop fuel str (Z.of_nat (sum_list sizes)) (Z.of_nat off) s = Ret tt s' ∧ own s' = own s ∧
    taken (m_Sd (own s)) (trace s') = taken (m_Sd (own s)) (trace s) ++ restarts str off sizes.
Proof.
  induction sizes as [|n ns IH]; intros off fuel s Ha Hp Hl Hf;
    (destruct fuel as [|fuel]; [simpl in Hf; lia|]); cbn [send_loop].
  { exists s. simpl. by rewrite app_nil_r. }
  apply Forall_cons in Hp as [Hn Hp]. destruct Ha as [Hr Ha]. cbn [length] in Hf.
  change (sum_list (n :: ns)) with (n + sum_list ns)%nat in Hl |- *.
  rewrite bool_decide_eq_true_2 by lia. unfold sd. srun. rewrite Nat2Z.id.
  rewrite Hr, bool_decide_eq_false_2 by lia.
  replace (Z.of_nat (n + sum_list ns) - Z.of_nat n) with (Z.of_nat (sum_list ns)) by lia.
  rewrite u64_small by lia.
  destruct (IH n fuel (after (Send (m_Sd (own s)) (drop off str) 0) s)) as (s' & E & Ho & Ht);
    [done|done|lia|lia|].
  exists s'. split; [exact E|]. split; [exact Ho|]. cbn [own after trace] in Ht. rewrite Ht.
  rewrite taken_snoc. unfold taken1. cbn [fst snd]. rewrite bool_decide_eq_true_2 by done.
  rewrite Hr, Nat2Z.id. cbn [restarts]. by rewrite app_assoc.
Qed.

(** C29. When the kernel takes a string in chunks that add up to its length, send
    returns, but every chunk after the second starts where the size of the one
    before it says, not where that one ended: the peer gets the string itself
    when there are at most two chunks, and in general the pieces
    [restarts str 0 sizes]. *)
Theorem send_restarts_chunks `{Os : OS} str sizes fuel (s : sonet) :
  accepts (trace s) (m_Sd (own s)) str 0 sizes → Forall (λ n, 0 < n)%nat sizes →
  sum_list sizes = length str → Z.of_nat (length str) < 2 ^ 64 → (length sizes < fuel)%nat →
  ∃ s' got_by_peer, send fuel str s = Ret tt s' ∧
    taken (m_Sd (own s)) (trace s') = taken (m_Sd (own s)) (trace s) ++ got_by_peer ∧
    got_by_peer = restarts str 0 sizes ∧ ((length sizes ≤ 2)%nat → got_by_peer = str).
Proof.
  intros Ha Hp Hs Hl Hf. unfold send. rewrite <-Hs.
  destruct (send_loop_restarts str sizes 0 fuel s Ha Hp ltac:(lia) Hf) as (s' & E & _ & Ht).
  exists s', (restarts str 0 sizes). split; [exact E|]. split; [done|]. split; [done|].
  intros H2. destruct sizes as [|n1 [|n2 [|]]]; simpl in *; try lia.
  - symmetry in Hs. by apply nil_length_inv in Hs.
  - rewrite app_nil_r, drop_0, take_ge by lia. done.
  - rewrite app_nil_r, drop_0, (take_ge (drop n1 str)) by (rewrite length_drop; lia).
    apply take_drop.
Qed.

(** ** Receiving a number of bytes *)

Lemma recv_bytes_loop_total `{Os : OS} n (Hfit : reads_fit) : ∀ fuel buf r (s : sonet),
  0 ≤ r ≤ n → n < 2 ^ 64 → (Z.to_nat (n - r) < fuel)%nat →
  match recv_bytes_loop fuel n buf r s with
  | Ret l s' => ∃ l', l = buf ++ l' ∧ Z.of_nat (length l') = n - r ∧
      given (m_Sd (own s)) (trace s') = given (m_Sd (own s)) (trace s) ++ l'
  | Exc e s' => e = runtime_error (String.append "read failed: " (strerror (errno s'))) ∧
      ∃ h k r', trace s' = h ++ [(Recv (m_Sd (own s)) k 0, r')] ∧ (rc r' = 0 ∨ rc r' = -1)
  | _ => False
  end.
Proof.
  induction fuel as [|fuel IH]; intros buf r s Hrn Hn Hf; [lia|]. cbn [recv_bytes_loop].
  case_bool_decide as Hd.
  2:{ exists []. rewrite !app_nil_r. simpl. split; [done|]. split; [lia|done]. }
  unfold sd, say. srun. set (c := Recv (m_Sd (own s)) (n - r) 0).
  destruct (Hfit (trace s) c (m_Sd (own s)) (n - r)) as [Hrc Hgot]; [right; by eexists|lia|].
  set (rp := answer_to (trace s) c) in *.
  destruct (bool_decide (rc rp = -1) || bool_decide (rc rp = 0)) eqn:Hz.
  { simpl. split; [done|]. exists (trace s), (n - r), rp. split; [done|].
    apply orb_true_iff in Hz as [?%bool_decide_eq_true|?%bool_decide_eq_true]; tauto. }
  apply orb_false_iff in Hz as [H1%bool_decide_eq_false H2%bool_decide_eq_false].
  rewrite u64_small by lia.
  specialize (IH (buf ++ got rp) (r + rc rp)
    (mkNet (own s) (errno (after c s)) (trace s ++ [(c, rp)]) (cerr s ++ [OStr "recv_ex: "; OInt (rc rp); OStr " bytes"; OStr newline]))
    ltac:(lia) Hn ltac:(lia)).
  cbn [own trace] in IH. cbn [errno after] in IH. fold rp in IH.
  destruct (recv_bytes_loop fuel n (buf ++ got rp) (r + rc rp) _) as [l s'|e s'|? ?|?|]; try done.
  destruct IH as (l' & -> & Hl & Hg). exists (got rp ++ l'). rewrite app_assoc. split; [done|].
  rewrite length_app. split; [lia|]. rewrite Hg, given_snoc. unfold given1. cbn [fst snd].
  unfold c at 1. rewrite bool_decide_eq_true_2 by done. rewrite take_ge by lia. by rewrite <-app_assoc.
Qed.

(** C30. recv with a number of bytes ends: it returns exactly that many bytes,
    the ones the kernel gave, in order, or it throws because a recv it made
    failed or found the end of the stream. *)
Theorem recv_bytes_exact `{Os : OS} `{Al : Allocator} n (s : sonet) :
  reads_fit → 0 ≤ n ≤ PTRDIFF_MAX → can_alloc n = true →
  match recv_bytes (S (Z.to_nat n)) n s with
  | Ret l s' => Z.of_nat (length l) = n ∧
      given (m_Sd (own s)) (trace s') = given (m_Sd (own s)) (trace s) ++ l
  | Exc e s' => e = runtime_error (String.append "read failed: " (strerror (errno s'))) ∧
      ∃ h k r, trace s' = h ++ [(Recv (m_Sd (own s)) k 0, r)] ∧ (rc r = 0 ∨ rc r = -1)
  | _ => False
  end.
Proof.
  intros Hfit Hn Hal. unfold recv_bytes, new_array. rewrite Z.mul_1_r.
  rewrite bool_decide_eq_false_2 by lia. rewrite Hal, bind_ret_l.
  pose proof (recv_bytes_loop_total n Hfit (S (Z.to_nat n)) [] 0 s ltac:(lia)
    ltac:(unfold PTRDIFF_MAX in *; lia) ltac:(lia)) as H.
  destruct (recv_bytes_loop _ n [] 0 s) as [l s'|e s'|? ?|?|]; try done.
  destruct H as (l' & -> & Hl & Hg). simpl. split; [lia|done].
Qed.

(** ** Receiving until the stream ends *)

(** The kernel gives the chunks [cs] and then the end of the stream or the
    timeout. *)
Fixpoint gives `{OS} (h : history) (x : Z) (cs : list bytes) : Prop :=
  let c := Recv x 256 MSG_NOSIGNAL in
  let r := answer_to h c in
  match cs with
  | [] => rc r = 0 ∨ rc r = -1 ∧ errno_of r = EAGAIN
  | d :: cs' => r = data d ∧ d ≠ [] ∧ gives (h ++ [(c, r)]) x cs'
  end.
(** What recv_loop makes of them: [None] when it runs off the string. *)
Fixpoint collect (acc : bytes) (cs : list bytes) : option bytes :=
  match cs with
  | [] => Some acc
  | d :: cs' => if forallb is_crlf (acc ++ d) then None else collect (stripped (acc ++ d)) cs'
  end.

Lemma recv_loop_collect `{Os : OS} cs : ∀ acc fuel (s : sonet),
  gives (trace s) (m_Sd (own s)) cs → (length cs < fuel)%nat →
  match recv_loop_from fuel acc s with
  | Ret l s' => collect acc cs = Some l ∧ own s' = own s
  | Undef u => collect acc cs = None ∧ u = OutOfBounds
  | _ => False
  end.
Proof.
  induction cs as [|d cs IH]; intros acc fuel s Hg Hf; (destruct fuel as [|fuel]; [simpl in Hf; lia|]);
    cbn [recv_loop_from]; unfold sd; srun; set (c := Recv _ _ _) in *.
  - cbn [gives] in Hg. fold c in Hg. destruct Hg as [H0|[H0 He]].
    + rewrite !H0. by simpl.
    + rewrite !H0, He. by simpl.
  - destruct Hg as (Hr & Hd & Hg). fold c in Hr, Hg. rewrite Hr. unfold data. cbn [rc got].
    assert (length d ≠ 0%nat) by (destruct d; [done|discriminate]).
    rewrite (bool_decide_eq_false_2 (Z.of_nat (length d) = -1)) by lia.
    rewrite (bool_decide_eq_false_2 (Z.of_nat (length d) = 0)) by lia. cbn [andb orb].
    unfold bind at 1. rewrite strip_spec. cbn [collect].
    destruct (forallb is_crlf (acc ++ d)) eqn:E; [done|].
    apply (IH (stripped (acc ++ d)) fuel (after c s)); [|simpl in Hf; lia].
    cbn [trace own after]. by rewrite Hr in *.
Qed.

Definition open_ended (d : bytes) : bool :=
  match last d with Some c => negb (is_crlf c) | None => false end.

Lemma stripped_open_ended l : open_ended l = true → stripped l = l ∧ forallb is_crlf l = false.
Proof.
  unfold open_ended. destruct l as [|c l _] using rev_ind; [done|]. rewrite last_snoc.
  intros H%negb_true_iff. unfold stripped. rewrite rev_app_distr. simpl. rewrite H. simpl.
  rewrite rev_involutive, forallb_app. simpl. by rewrite H, andb_false_r.
Qed.
Lemma open_ended_app l d : open_ended d = true → open_ended (l ++ d) = true.
Proof.
  unfold open_ended. destruct d as [|c d _] using rev_ind; [done|].
  by rewrite app_assoc, !last_snoc.
Qed.
Lemma collect_open_ended cs : ∀ acc d,
  Forall (λ d, open_ended d = true) cs →
  collect acc (cs ++ [d]) =
    (let l := acc ++ concat cs ++ d in if forallb is_crlf l then None else Some (stripped l)).
Proof.
  induction cs as [|c cs IH]; intros acc d H; simpl.
  - by destruct (forallb is_crlf (acc ++ d)).
  - apply Forall_cons in H as [Hc H].
    destruct (stripped_open_ended (acc ++ c)) as [-> ->]; [by apply open_ended_app|].
    rewrite IH by done. simpl. by rewrite <-!app_assoc.
Qed.

(** recv_loop gathers a stream whose chunks, the last one apart, do not end
    with CR or LF: it returns their concatenation without its trailing CRs and
    LFs, and leaves its string when nothing else came. *)
Theorem recv_loop_gathers `{Os : OS} cs d fuel (s : sonet) :
  gives (trace s) (m_Sd (own s)) (cs ++ [d]) → Forall (λ d, open_ended d = true) cs →
  (S (length cs) < fuel)%nat →
  let l := concat cs ++ d in
  if forallb is_crlf l then recv_loop fuel s = Undef OutOfBounds
  else ∃ s', recv_loop fuel s = Ret (stripped l) s'.
Proof.
  intros Hg Ho Hf l. unfold recv_loop.
  pose proof (recv_loop_collect (cs ++ [d]) [] fuel s Hg) as H.
  rewrite length_app in H. specialize (H ltac:(simpl; lia)). rewrite collect_open_ended in H by done.
  cbn [app] in H. fold l in H. cbv zeta in H.
  destruct (recv_loop_from fuel [] s) as [l' s'|e s'|? ?|u|]; try done;
    destruct H as [H H']; destruct (forallb is_crlf l); try done.
  - injection H as <-. by exists s'.
  - by subst.
Qed.

(** ** The unused parser of answers *)

Lemma find_in_range sub l from i :
  find sub l from = Some i → (from ≤ i)%nat ∧ prefix_at sub (drop i l) = true.
Proof.
  unfold find. intros E. pose proof (find_from_spec sub l from 0) as H. rewrite E in H.
  rewrite Nat.sub_0_r in H. tauto.
Qed.
Lemma prefix_at_cons c sub l : prefix_at (c :: sub) l = true → ∃ l', l = c :: l'.
Proof.
  unfold prefix_at. rewrite bool_decide_eq_true. destruct l as [|c' l]; [done|].
  simpl. intros [= -> _]. by exists l.
Qed.
Lemma prefix_at_length sub l i :
  prefix_at sub (drop i l) = true → (i ≤ length l)%nat → (i + length sub ≤ length l)%nat.
Proof.
  unfold prefix_at. rewrite bool_decide_eq_true. intros E%(f_equal length) Hi.
  rewrite length_take, length_drop in E. lia.
Qed.
Lemma CR_not_decimal z : ¬ CR ∈ to_string z.
Proof. intros [H|[d H]]%to_string_chars; discriminate. Qed.

(** The field cut out for the length starts with the whole number. *)
Lemma length_field buf p n rest :
  drop p buf = to_string n ++ CR :: rest →
  ∃ rest', (∀ c l, rest' = c :: l → digit c = None) ∧
    match find crlf buf p with Some k => take k (drop p buf) | None => drop p buf end =
      to_string n ++ rest'.
Proof.
  intros Hd. destruct (find crlf buf p) as [k|] eqn:E.
  2:{ exists (CR :: rest). split; [|done]. by intros c l [= <- _]. }
  apply find_in_range in E as [Hpk E]. apply prefix_at_cons in E as [l' E].
  assert (length (to_string n) ≤ k - p)%nat as Hk.
  { destruct (le_lt_dec (length (to_string n)) (k - p)) as [|Hlt]; [done|]. exfalso.
    assert (to_string n !! (k - p)%nat = Some CR) as Hin%list_elem_of_lookup_2.
    { assert (buf !! k = Some CR) as Hb.
      { pose proof (lookup_drop buf k 0) as Hl. rewrite E, Nat.add_0_r in Hl. done. }
      replace k with (p + (k - p))%nat in Hb by lia. rewrite <-lookup_drop, Hd in Hb.
      by rewrite lookup_app_l in Hb. }
    by apply CR_not_decimal in Hin. }
  rewrite Hd, take_app_ge by lia. eexists. split; [|reflexivity].
  intros c l. destruct (k - length (to_string n))%nat; [done|]. by intros [= <- _].
Qed.


(** ** Descriptors *)

(** gethostbyname returns NULL or a host with an address. *)
Definition hosts_have_addresses `{OS} : Prop := ∀ h host,
  let r := answer_to h (Gethostbyname host) in rc r = 0 ∨ numbers r ≠ [].

(** The descriptor that a history ends by not taking: 0 from socket(). *)
Definition refused (h : history) : list Z :=
  match last h with
  | Some (Socket, r) => if bool_decide (rc r = 0) then [0] else []
  | _ => []
  end.

(** A method acquires the descriptor of its object: it returns holding exactly
    one more, in [m_Sd], or throws with its object unchanged and holding what it
    held before, and the descriptor 0 if socket() gave that. *)
Definition acquired (s : sonet) (r : result sonet unit) : Prop :=
  match r with
  | Ret _ s' => 0 < m_Sd (own s') ∧ held (trace s') = m_Sd (own s') :: held (trace s)
  | Exc _ s' => own s' = own s ∧ held (trace s') = refused (trace s') ++ held (trace s)
  | _ => False
  end.
(** The same with the number of descriptors 0. *)
Definition acquires (s : sonet) (r : result sonet unit) : Prop :=
  match r with
  | Ret _ s' => 0 < m_Sd (own s') ∧ ledger (trace s') = (zeros (trace s), m_Sd (own s') :: held (trace s))
  | Exc _ s' => own s' = own s ∧
      ledger (trace s') = ((zeros (trace s) + length (refused (trace s')))%nat, refused (trace s') ++ held (trace s))
  | _ => False
  end.
Lemma acquires_acquired s r : acquires s r → acquired s r.
Proof. by destruct r as [? s'|? s'|? ?|?|]; simpl; try done; intros [? [= ? ?]]. Qed.
Lemma refused_other h c r : c ≠ Socket → refused (h ++ [(c, r)]) = [].
Proof. unfold refused. rewrite last_snoc. by destruct c. Qed.

Section Descriptors.
Context {Os : OS}.

Lemma say_all {A T} (f : A → list (out False)) l : ∀ s : net T,
  ∃ o, for_each (λ x, say (f x)) l s = Ret tt (mkNet (own s) (errno s) (trace s) o).
Proof.
  induction l as [|x l IH]; intros s; simpl; [by exists (cerr s); destruct s|].
  apply (IH (mkNet (own s) (errno s) (trace s) (cerr s ++ f x))).
Qed.

(** The outcomes of resolve: one call, and the address of the host. *)
Lemma resolve_outcomes {T} host port (s : net T) :
  hosts_have_addresses →
  let c := Gethostbyname (text (c_str host)) in
  let h := trace s ++ [(c, answer_to (trace s) c)] in
  match resolve host port s with
  | Ret a s' => own s' = own s ∧ trace s' = h ∧ a.2 = u16 port
  | Exc _ s' => own s' = own s ∧ trace s' = h
  | _ => False
  end.
Proof.
  intros Hh c h. unfold resolve. rewrite bind_sys. fold c.
  case_bool_decide as H0; [done|]. destruct (Hh (trace s) (text (c_str host))) as [|Hn]; [done|].
  fold c in Hn. unfold bind at 1.
  destruct (say_all (λ ip, [OStr "resolved: "; OStr (text (int2ipv4 ip)); OEndl])
    (numbers (answer_to (trace s) c)) (after c s)) as [o ->].
  destruct (numbers (answer_to (trace s) c)); [done|]. simpl. done.
Qed.

Lemma ledger_socket h r x : rc r = x → 0 < x → ledger (h ++ [(Socket, r)]) = (zeros h, x :: held h).
Proof.
  intros <- Hx. unfold ledger. rewrite held_snoc, zeros_snoc. unfold hold1, zero1. simpl.
  by rewrite bool_decide_eq_false_2, bool_decide_eq_true_2, Nat.add_0_r by lia.
Qed.
Lemma ledger_no_socket h r : rc r <= 0 →
  ledger (h ++ [(Socket, r)]) =
  ((zeros h + length (refused (h ++ [(Socket, r)])))%nat, refused (h ++ [(Socket, r)]) ++ held h).
Proof.
  intros Hx. unfold ledger, refused. rewrite held_snoc, zeros_snoc, last_snoc. unfold hold1, zero1. simpl.
  destruct (decide (rc r = 0)) as [->|H0]; [done|]. by rewrite !bool_decide_eq_false_2 by lia.
Qed.
(** An exception with nothing opened, or with all closed again. *)
Lemma acquires_not {s : sonet} {e s'} :
  own s' = own s → ledger (trace s') = ledger (trace s) → refused (trace s') = [] → acquires s (Exc e s').
Proof. intros Ho Hl Hr. split; [done|]. rewrite Hr, Hl. unfold ledger. simpl. by rewrite Nat.add_0_r. Qed.

Ltac hold := repeat rewrite ledger_other by exact I.

Lemma connect_acquires host port (s : sonet) :
  hosts_have_addresses → acquires s (connect host port s).
Proof.
  intros Hh. unfold connect. unfold bind at 1.
  pose proof (resolve_outcomes host port s Hh) as H.
  destruct (resolve host port s) as [a s1|e s1|? ?|u|]; try done.
  - destruct H as (Ho & Ht & _). rewrite bind_sys. set (x := rc _).
    assert (ledger (trace s1) = ledger (trace s)) as Hl by (rewrite Ht; by hold). injection Hl as Hz Hd.
    case_bool_decide as Hx; [|rewrite bind_sys; case_bool_decide as Hc].
    + split; [done|]. cbn [trace after]. rewrite <-Hz, <-Hd. by apply ledger_no_socket.
    + rewrite bind_sys. apply acquires_not; [done| |by apply refused_other]. cbn [trace after].
      erewrite ledger_close; [|hold; apply (ledger_socket _ _ x); [done|lia]]. unfold ledger. by rewrite Hz, Hd.
    + simpl. split; [lia|]. hold. rewrite (ledger_socket _ _ x) by (done || lia). by rewrite Hz, Hd.
  - destruct H as [Ho Ht]. apply acquires_not; [done|rewrite Ht; by hold|rewrite Ht; by apply refused_other].
Qed.

Lemma createServerSocket_acquires port q (s : sonet) : acquires s (createServerSocket port q s).
Proof.
  unfold createServerSocket, setReuseAddr. rewrite bind_sys. set (x := rc _).
  case_bool_decide as Hx.
  { split; [done|]. cbn [trace after]. by apply ledger_no_socket. }
  assert (ledger (trace s ++ [(Socket, answer_to (trace s) Socket)]) = (zeros (trace s), x :: held (trace s))) as Hs
    by (apply ledger_socket; [done|lia]).
  rewrite bind_assoc, bind_sys. case_bool_decide as Ho.
  { rewrite bind_assoc, bind_sys. apply acquires_not; [done| |by apply refused_other].
    cbn [trace after]. apply ledger_close. hold. exact Hs. }
  rewrite bind_ret_l, bind_sys. case_bool_decide as Hb.
  { rewrite bind_sys. apply acquires_not; [done| |by apply refused_other].
    cbn [trace after]. apply ledger_close. hold. exact Hs. }
  rewrite bind_sys. simpl. split; [lia|]. hold. by rewrite Hs.
Qed.

(** C28. A socket that connects, or that starts to listen, holds exactly one new
    descriptor, its own; when any step fails - the resolution of the name, the
    making of the socket, its options, connect or bind - the exception leaves
    the Socket as it was and no descriptor open, except where socket() gave the
    descriptor 0: the code takes it for a failure and never closes it. *)
Theorem Socket_acquires_or_leaves_nothing host port q (s : sonet) :
  hosts_have_addresses →
  acquired s (connect host port s) ∧ acquired s (createServerSocket port q s).
Proof.
  intros Hh. split; apply acquires_acquired; [by apply connect_acquires|apply createServerSocket_acquires].
Qed.

(** connect with a timeout does the same, except that it leaks its
    descriptor when the socket cannot be made non-blocking, and leaves fd_set
    with a descriptor of FD_SETSIZE or more. *)
Theorem connect_timeout_leak host port timeout (s : sonet) :
  hosts_have_addresses →
  match connect_timeout host port timeout s with
  | Exc e s' => own s' = own s ∧
      (held (trace s') = refused (trace s') ++ held (trace s) ∨
       ∃ h x fl r, trace s' = h ++ [(Setfl x fl, r)] ∧ rc r = -1 ∧ held (trace s') = x :: held (trace s))
  | Undef u => u = OutOfBounds ∧ ∃ h, FD_SETSIZE <= rc (answer_to h Socket)
  | r => acquired s r
  end.
Proof.
  intros Hh. unfold connect_timeout. unfold bind at 1.
  pose proof (resolve_outcomes host port s Hh) as H.
  destruct (resolve host port s) as [a s1|e s1|? ?|u|]; try done.
  2:{ destruct H as [Ho Ht]. simpl. split; [done|]. left. by rewrite Ht, refused_other, held_other. }
  destruct H as (Ho & Ht & _). rewrite bind_sys. set (x := rc _).
  assert (ledger (trace s1) = ledger (trace s)) as Hl by (rewrite Ht; by hold). injection Hl as Hz Hd.
  case_bool_decide as Hx.
  { simpl. split; [done|]. left. rewrite <-Hd.
    by pose proof (ledger_no_socket (trace s1) (answer_to (trace s1) Socket) Hx) as [= _ ->]. }
  assert (ledger (trace s1 ++ [(Socket, answer_to (trace s1) Socket)]) = (zeros (trace s), x :: held (trace s))) as Hs.
  { rewrite (ledger_socket _ _ x) by (done || lia). by rewrite Hz, Hd. }
  assert (∀ h, ledger h = (zeros (trace s), x :: held (trace s)) → held h = x :: held (trace s)) as Hheld
    by by intros h [= _ ->].
  assert (∀ h e, ledger h = (zeros (trace s), x :: held (trace s)) →
    held (h ++ [(Close x, e)]) = refused (h ++ [(Close x, e)]) ++ held (trace s)) as Hclosed.
  { intros h e Hhe%Hheld. rewrite refused_other by done. by apply held_close. }
  unfold set_non_blocked_impl. rewrite !bind_assoc, !bind_sys, !bind_assoc, bind_sys.
  case_bool_decide as Hf.
  { simpl. split; [done|]. right. do 4 eexists. split; [reflexivity|]. split; [exact Hf|].
    apply Hheld. hold. exact Hs. }
  rewrite bind_ret_l, bind_sys. run_step.
  destruct (bool_decide _ && _) eqn:Hc.
  { rewrite bind_sys. simpl. split; [done|]. left. apply Hclosed. hold. exact Hs. }
  clear Hc. unfold fd_in_set. case_bool_decide as Hfd.
  2:{ simpl. split; [done|]. exists (trace s1). unfold FD_SETSIZE in *. fold x. lia. }
  rewrite bind_ret_l, bind_sys. case_bool_decide as Hsel.
  - rewrite bind_sys. simpl. split; [done|]. left. apply Hclosed. hold. exact Hs.
  - simpl. split; [lia|]. apply Hheld. hold. exact Hs.
Qed.
End Descriptors.

(** ** What a method without open and close keeps *)

Section Holding.
Context {Os : OS}.

(** A Socket with the descriptor [x] in a program with the ledger [l]; and in
    one that has [l], but for descriptors 0. *)
Definition holding (x : Z) (l : nat * list Z) (s : sonet) : Prop :=
  m_Sd (own s) = x ∧ ledger (trace s) = l.
Definition keeping (x : Z) (l : nat * list Z) (s : sonet) : Prop :=
  m_Sd (own s) = x ∧ left_with l (trace s).
Lemma steady_keeping {A} x l (m : M sonet A) :
  (∀ l, steady (holding x l) m) → steady (keeping x l) m.
Proof.
  intros Hm s [Ho Hl]. specialize (Hm (ledger (trace s)) s (conj Ho eq_refl)).
  destruct (m s) as [a s'|e s'|? ?|?|]; try done; destruct Hm as [Ho' Hl'];
    (split; [done|]); (eapply left_with_trans; [exact Hl|]); by apply left_with_eq.
Qed.

Lemma holding_sys x l c :
  match c with Socket | SocketUnix | Accept _ | Close _ => False | _ => True end →
  keeps (holding x l) (sys c).
Proof. intros Hc. apply keeps_sys. intros s [Ho Hh]. split; [done|]. simpl. by rewrite ledger_other. Qed.
Lemma holding_say x l o : keeps (holding x l) (say o).
Proof. by intros s Hs. Qed.
Lemma holding_throw_errno {A} x l pre : keeps (holding x l) (throw_errno (A:=A) pre).
Proof. by intros s Hs. Qed.
Lemma holding_sd x l : keeps (holding x l) sd.
Proof. by intros s Hs. Qed.
Local Hint Resolve holding_say holding_throw_errno holding_sd : keeps.
Local Hint Extern 1 (keeps (holding _ _) (sys _)) => apply holding_sys; exact I : keeps.

Lemma holding_setRcvTimeout x l sec us : keeps (holding x l) (setRcvTimeout sec us).
Proof. unfold setRcvTimeout. auto 10 with keeps. Qed.
Lemma holding_setNonBlocked x l o : keeps (holding x l) (setNonBlocked o).
Proof. unfold setNonBlocked, set_non_blocked_impl. auto 10 with keeps. Qed.
Lemma holding_send x l fuel str : keeps (holding x l) (send fuel str).
Proof.
  unfold send. generalize (Z.of_nat (length str)) 0. induction fuel as [|n IH]; intros le st;
    cbn [send_loop]; auto 10 with keeps.
Qed.
Lemma holding_recv x l : keeps (holding x l) recv.
Proof. unfold recv. auto 20 with keeps. Qed.
Lemma holding_hasData x l : keeps (holding x l) hasData.
Proof. unfold hasData. auto 20 with keeps. Qed.
Lemma holding_recvTimed x l t : keeps (holding x l) (recvTimed t).
Proof.
  pose proof (holding_recv x l). unfold recvTimed.
  assert (∀ y, keeps (holding x l) (fd_in_set y)).
  { intros y. unfold fd_in_set. case_bool_decide; auto with keeps. }
  auto 20 with keeps.
Qed.
Lemma holding_recv_loop x l fuel : keeps (holding x l) (recv_loop fuel).
Proof.
  unfold recv_loop. generalize ([] : bytes). induction fuel as [|n IH]; intros acc;
    cbn [recv_loop_from]; auto 20 with keeps.
Qed.
Lemma holding_httpQuery x l fuel q cb :
  (∀ r, keeps (holding x l) (cb r)) → keeps (holding x l) (httpQuery fuel q cb).
Proof.
  intros Hcb. pose proof (holding_send x l fuel q). pose proof (holding_recv_loop x l fuel).
  unfold httpQuery. auto 20 with keeps.
Qed.

(** A Socket that acquires its descriptor in [m], and works with it, leaves none
    when its scope ends. *)
Definition released (l : nat * list Z) {A} (r : result sonet A) : Prop :=
  match r with
  | Ret _ s' | Exc _ s' => left_with l (trace s')
  | _ => True
  end.
Lemma scope_releases {A} (m : M sonet unit) (work : M sonet A) (s : sonet) :
  own s = Socket_ctor → acquires s (m s) →
  (∀ x n l, steady (keeping x (n, x :: l)) work) →
  released (ledger (trace s)) (finally (m ;; work) Socket_dtor s).
Proof.
  intros Ho Hm Hw. unfold finally, try_catch. unfold bind at 1 2.
  destruct (m s) as [[] s1|e s1|? ?|u|]; try done; destruct Hm as [Hx Hh].
  - specialize (Hw (m_Sd (own s1)) (zeros (trace s)) (held (trace s)) s1 (conj eq_refl (left_with_eq _ _ Hh))).
    destruct (work s1) as [a s2|e s2|? ?|u|]; try done; destruct Hw as [Ho2 Hh2];
      unfold Socket_dtor, sd; srun; rewrite Ho2, bool_decide_eq_true_2 by done; srun;
      simpl; apply left_with_close; [lia|done|lia|done].
  - unfold Socket_dtor, sd. srun. rewrite Hx, Ho. simpl. exists (length (refused (trace s1))). rewrite Hh. simpl.
    f_equal. f_equal. unfold refused. destruct (last _) as [[[] r]|]; try done. by destruct (bool_decide _).
Qed.
End Holding.

(** ** Witnesses *)

Definition unconnected : sonet := mkNet Socket_ctor 0 [] [].
Definition connected : sonet := mkNet (mkSocket 5) 0 [] [].
#[local] Instance enough_memory : Allocator := λ n, bool_decide (n < 2 ^ 40).

(** Two bytes at a time: the peer of [send("abcdef")] gets "abcdcd". *)
Definition two_by_two : OS := scripted [ok 2; ok 2; ok 2].
Lemma send_restarts_chunks_witness :
  ∃ s' got_by_peer, send (Os:=two_by_two) 4 (b "abcdef") connected = Ret tt s' ∧
    taken 5 (trace s') = [] ++ got_by_peer ∧
    got_by_peer = b "abcdcd" ∧ ((3 ≤ 2)%nat → got_by_peer = b "abcdef").
Proof.
  apply (send_restarts_chunks (Os:=two_by_two) (b "abcdef") [2; 2; 2]%nat 4 connected).
  - vm_compute. repeat split.
  - repeat constructor.
  - reflexivity.
  - reflexivity.
  - simpl. lia.
Defined.

Definition hello_stream : OS := reading (b "hello") [].
Lemma recv_bytes_exact_witness :
  match recv_bytes (Os:=hello_stream) 9 8 connected with
  | Ret l s' => Z.of_nat (length l) = 8 ∧ given 5 (trace s') = [] ++ l
  | Exc e s' => e = runtime_error (String.append "read failed: " (strerror (OS:=hello_stream) (errno s'))) ∧
      ∃ h k r, trace s' = h ++ [(Recv 5 k 0, r)] ∧ (rc r = 0 ∨ rc r = -1)
  | _ => False
  end.
Proof.
  apply (recv_bytes_exact (Os:=hello_stream) 8 connected (reading_fits (b "hello") []));
    [vm_compute; split; discriminate|reflexivity].
Defined.

Definition two_chunks : OS := scripted [data (b "hel"); data (b "lo" ++ crlf); ok 0].
Lemma recv_loop_gathers_witness :
  ∃ s', recv_loop (Os:=two_chunks) 3 connected = Ret (b "hello") s'.
Proof.
  apply (recv_loop_gathers (Os:=two_chunks) [b "hel"] (b "lo" ++ crlf) 3 connected).
  - vm_compute. repeat split; try discriminate. by left.
  - repeat constructor.
  - simpl. lia.
Defined.

Definition answer : bytes :=
  b "HTTP/1.1 200 OK" ++ crlf ++ content_length_field ++ b "13" ++ header_end ++ b "hello".

(** A host with one address, and a kernel that makes descriptor 5. *)
Definition one_host : OS :=
  {| answer_to h c := match c with
                      | Gethostbyname _ => mkReply 1 0 [] [16777343]
                      | Setfl _ _ => failed 9
                      | _ => ok 5
                      end;
     strerror _ := "error" |}.
Lemma one_host_has_address : hosts_have_addresses (H:=one_host).
Proof. intros h host. by right. Qed.
Lemma Socket_acquires_or_leaves_nothing_witness :
  acquired unconnected (connect (Os:=one_host) (b "localhost") 80 unconnected) ∧
  acquired unconnected (createServerSocket (Os:=one_host) 80 25 unconnected).
Proof.
  apply (Socket_acquires_or_leaves_nothing (Os:=one_host) (b "localhost") 80 25 unconnected).
  exact one_host_has_address.
Defined.
(** With the standard input closed, socket() gives 0. *)
Definition no_stdin : OS :=
  {| answer_to h c := match c with Gethostbyname _ => mkReply 1 0 [] [16777343] | _ => ok 0 end;
     strerror _ := "Success" |}.
Example descriptor_zero_is_left_open :
  match connect (Os:=no_stdin) (b "localhost") 80 unconnected with
  | Exc e s' => e = runtime_error "error to create socket: Success" ∧ held (trace s') = [0]
  | _ => False
  end.
Proof. split; reflexivity. Qed.
Lemma connect_timeout_leak_witness :
  match connect_timeout (Os:=one_host) (b "localhost") 80 10 unconnected with
  | Exc e s' => own s' = Socket_ctor ∧
      (held (trace s') = refused (trace s') ++ [] ∨
       ∃ h x fl r, trace s' = h ++ [(Setfl x fl, r)] ∧ rc r = -1 ∧ held (trace s') = [x])
  | Undef u => u = OutOfBounds ∧ ∃ h, FD_SETSIZE <= rc (answer_to (OS:=one_host) h Socket)
  | r => acquired unconnected r
  end.
Proof.
  apply (connect_timeout_leak (Os:=one_host) (b "localhost") 80 10 unconnected).
  exact one_host_has_address.
Defined.
