(* ===== verification/HttpClient.v ===== *)
(** * The HTTP client

    Models net/http_client/http_client.cpp on top of Socket: [make_query] takes
    a URL apart, [main] connects to the host, sends the query and prints the
    headers of the answer. *)

From S2P Require Import Prelude Posix Text Socket.

Record HttpQuery : Type := mkHttpQuery { query : bytes; host : bytes }.

Definition make_query {S} (response : bytes) : M S HttpQuery :=
  match find (b "//") response 0 with
  | None => throw (runtime_error "bad query")
  | Some pos =>
      let! host := substr_n response (pos + 2)
        (u64 (npos (find (b "/") response (pos + 2)) - Z.of_nat pos - 2)) in
      if bool_decide (host = []) then throw (runtime_error "bad query")
      else
        let query := b "GET " ++ response ++ b " HTTP/1.1" ++ crlf ++
                     b "Host: " ++ host ++ crlf ++ crlf in
        ret (mkHttpQuery query host)
  end.

Section HttpClient.
Context {Os : OS}.

(** The function that [main] hands to httpQuery. *)
Definition print_headers (resp : bytes) : M sonet unit :=
  match find header_end resp 0 with
  | None => throw (runtime_error "exception: error getting headers")
  | Some pos =>
      let! headers := substr resp 0 (Some pos) in
      say [OStr "headers:"; OEndl; OStr (text headers); OEndl]
  end.

(** The life of the Socket [s] of [main]. *)
Definition ask (fuel : nat) (q : HttpQuery) : M sonet unit :=
  finally (
    connect (host q) 80 ;;
    setRcvTimeout 1 0 ;;
    httpQuery fuel (query q) print_headers)
    Socket_dtor.

Definition main {T} (argv : list bytes) (fuel : nat) : M (net T) Z :=
  match argv with
  | [_; url] =>
      try_catch (
        let! q := make_query url in
        let! _ := local Socket_ctor (ask fuel q) in ret tt)
        (λ e, say [OStr (what e); OEndl]) ;;
      ret 0
  | _ =>
      let! p := or_undef NullPointer (head argv) in
      say [OStr "usage: "; OStr (text p); OStr " query"; OEndl] ;;
      say [OStr "e.g.: http://ya.ru"; OEndl] ;;
      ret 0
  end.

(** ** Taking a URL apart *)

Lemma take_first_part {A} (l rest : list A) n k :
  n = Z.of_nat (length l) → Z.of_nat (length l) ≤ k →
  take (Z.to_nat (Z.min n k)) (l ++ rest) = l.
Proof. intros -> H. rewrite Z.min_l by done. rewrite Nat2Z.id. by rewrite take_app_length. Qed.

(** The substring that [make_query] takes for the host of a URL. *)
Lemma url_host scheme hostname rest :
  "/"%char ∉ scheme → "/"%char ∉ hostname → rest = [] ∨ head rest = Some "/"%char →
  let url := scheme ++ b "//" ++ hostname ++ rest in
  Z.of_nat (length url) < 2 ^ 63 →
  find (b "//") url 0 = Some (length scheme) ∧
  ∀ S (s : S), substr_n url (length scheme + 2)
    (u64 (npos (find (b "/") url (length scheme + 2)) - Z.of_nat (length scheme) - 2)) s = Ret hostname s.
Proof.
  intros Hs Hh Hr url Hl.
  assert (find (b "//") url 0 = Some (length scheme)) as Hpos.
  { unfold find, url. change (b "//") with ("/"%char :: b "/").
    rewrite find_from_first by (done || lia). done. }
  assert (drop (length scheme + 2) url = hostname ++ rest) as Hd.
  { unfold url. change (scheme ++ b "//" ++ hostname ++ rest) with
      (scheme ++ (b "//" ++ (hostname ++ rest))).
    rewrite drop_app_ge by lia. by replace (length scheme + 2 - length scheme)%nat with 2%nat by lia. }
  assert (find (b "/") url (length scheme + 2) = if bool_decide (rest = []) then None
          else Some (length scheme + 2 + length hostname)%nat) as Hf.
  { unfold find, url. rewrite app_assoc, find_from_skip by (rewrite length_app; simpl; lia).
    change (b "/") with ["/"%char]. destruct Hr as [->|Hr].
    - rewrite app_nil_r. by apply find_from_absent.
    - destruct rest as [|c rest]; [done|]. injection Hr as ->.
      change (hostname ++ "/"%char :: rest) with (hostname ++ (["/"%char] ++ rest)).
      by rewrite find_from_first by (done || lia). }
  assert (length url = length scheme + 2 + length hostname + length rest)%nat as Hlen.
  { unfold url. rewrite !length_app. simpl. lia. }
  split; [done|]. intros S s. unfold substr_n. rewrite decide_True by lia. rewrite Hd, Hf.
  unfold ret. f_equal. case_bool_decide as He.
  - subst rest. unfold npos. rewrite u64_small by (unfold SIZE_MAX; lia).
    rewrite app_nil_r. apply take_ge. simpl in Hlen. unfold SIZE_MAX. lia.
  - unfold npos. rewrite u64_small by lia. apply take_first_part; lia.
Qed.

(** C26. The host of a URL is what stands between the first two slashes together
    and the next slash, or the end: make_query builds the request for it, with
    the whole URL as its target. It refuses a URL without a host. *)
Theorem make_query_url {S} scheme hostname rest (s : S) :
  "/"%char ∉ scheme → "/"%char ∉ hostname → rest = [] ∨ head rest = Some "/"%char →
  let url := scheme ++ b "//" ++ hostname ++ rest in
  Z.of_nat (length url) < 2 ^ 63 →
  make_query url s =
    if bool_decide (hostname = []) then Exc (runtime_error "bad query") s
    else Ret (mkHttpQuery
      (b "GET " ++ url ++ b " HTTP/1.1" ++ crlf ++ b "Host: " ++ hostname ++ crlf ++ crlf) hostname) s.
Proof.
  intros Hs Hh Hr url Hl. destruct (url_host scheme hostname rest Hs Hh Hr Hl) as [Hpos Hhost].
  fold url in Hpos, Hhost. unfold make_query. rewrite Hpos, (bind_eq_ret _ _ _ _ _ (Hhost S s)).
  by destruct (bool_decide (hostname = [])).
Qed.

(** ** What the peer's segmentation does to the answer *)

(** An answer whose header ends where a chunk ends loses the empty line that
    ends it: the client has the headers but reports that it cannot get them,
    and prints none. *)
Theorem headers_lost_at_chunk_end q header body sizes fuel (s : sonet) :
  accepts (trace s) (m_Sd (own s)) q 0 sizes → Forall (λ n, 0 < n)%nat sizes →
  sum_list sizes = length q → Z.of_nat (length q) < 2 ^ 64 → (length sizes < fuel)%nat →
  (2 < fuel)%nat →
  (∀ s', send fuel q s = Ret tt s' → own s' = own s →
     gives (trace s') (m_Sd (own s)) [header ++ header_end; body]) →
  open_ended header = true → open_ended body = true → find header_end (header ++ body) 0 = None →
  ∃ s', httpQuery fuel q print_headers s =
    Exc (runtime_error "exception: error getting headers") s'.
Proof.
  intros Ha Hp Hs Hl Hf Hf2 Hg Hh Hb Hn. unfold httpQuery.
  destruct (send_loop_restarts q sizes 0 fuel s Ha Hp ltac:(lia) Hf) as (s1 & E & Ho & _).
  unfold send in *. rewrite Hs in E. change (Z.of_nat 0) with 0 in E.
  unfold bind at 1. rewrite E. specialize (Hg s1 E Ho).
  rewrite <-Ho in Hg. unfold recv_loop. unfold bind at 1.
  pose proof (recv_loop_collect [header ++ header_end; body] [] fuel s1 Hg ltac:(done)) as Hc.
  assert (collect [] [header ++ header_end; body] = Some (header ++ body)) as Hcol.
  { destruct (stripped_open_ended header Hh) as [H1 H2].
    cbn [collect app]. assert (forallb is_crlf (header ++ header_end) = false) as ->.
    { by rewrite forallb_app, H2. }
    assert (stripped (header ++ header_end) = header) as ->.
    { unfold stripped in H1 |- *. by rewrite rev_app_distr. }
    destruct (stripped_open_ended (header ++ body)) as [-> ->]; [by apply open_ended_app|done]. }
  destruct (recv_loop_from fuel [] s1) as [l s2|e s2|? ?|u|]; try done.
  2:{ destruct Hc. congruence. }
  destruct Hc as [Hc _]. rewrite Hcol in Hc. injection Hc as <-.
  unfold sd, say. srun. unfold print_headers. rewrite Hn. by eexists.
Qed.

(** ** The program as a whole *)

Lemma ask_releases fuel q (s : sonet) :
  hosts_have_addresses → own s = Socket_ctor → released (ledger (trace s)) (ask fuel q s).
Proof.
  intros Hh Ho. unfold ask. apply scope_releases; [done|by apply connect_acquires|].
  intros x n l. apply steady_keeping. intros l'.
  apply keeps_steady, keeps_bind; [apply holding_setRcvTimeout|]. intros _.
  apply holding_httpQuery. intros r. unfold print_headers, substr.
  pose proof (@holding_say x l'). case_match; [|auto with keeps].
  apply keeps_bind; [|auto with keeps]. case_decide; auto with keeps.
Qed.

Lemma make_query_pure {S} url (s : S) :
  match make_query url s with Ret _ s' | Exc _ s' => s' = s | _ => False end.
Proof.
  unfold make_query, substr_n. destruct (find (b "//") url 0); [|done].
  destruct (decide _); [|done]. rewrite bind_ret_l. by destruct (bool_decide _).
Qed.

(** A peer whose every message has something besides CR and LF; a kernel that
    takes the whole of what is sent, or fails, as a blocking socket does; and
    one that has no more for the program after [n] messages. *)
Definition speaks : Prop := ∀ h x n fl, let r := answer_to h (Recv x n fl) in
  0 < rc r → forallb is_crlf (got r) = false.
Definition sends_whole : Prop := ∀ h x buf fl, let r := answer_to h (Send x buf fl) in
  rc r = -1 ∨ rc r = Z.of_nat (length buf).
Definition received1 (e : call * reply) : nat :=
  match e.1 with Recv _ _ _ => if bool_decide (0 < rc e.2) then 1%nat else 0%nat | _ => 0%nat end.
Definition received (h : history) : nat := sum_list_with received1 h.
Definition stops_after (n : nat) : Prop := ∀ h x k fl,
  (n ≤ received h)%nat → rc (answer_to h (Recv x k fl)) <= 0.

(** The ways in which a run that has [n] rounds for each loop can fail to end. *)
Definition tame {S A} (n : nat) (r : result S A) : Prop :=
  match r with
  | Ret _ _ | Exc _ _ => True
  | Exit _ _ => False
  | Undef u => u = OutOfBounds ∧ ¬ speaks
  | NoFuel => ¬ (sends_whole ∧ stops_after n)
  end.
Lemma tame_bind {S A B} n (m : M S A) (k : A → M S B) s :
  tame n (m s) → (∀ a s', tame n (k a s')) → tame n (bind m k s).
Proof. unfold bind. intros Hm Hk. by destruct (m s). Qed.
Lemma tame_finally {A} n (m : M sonet A) s : tame n (m s) → tame n (finally m Socket_dtor s).
Proof.
  assert (∀ s', ∃ s'', Socket_dtor s' = Ret tt s'') as Hd.
  { intros s'. unfold Socket_dtor, sd. srun. case_bool_decide; by eexists. }
  intros Hm. unfold finally, try_catch, bind. destruct (m s) as [a s1|e s1|? ?|?|]; try done;
    by destruct (Hd s1) as [s2 ->].
Qed.

Lemma send_loop_outcomes f str : ∀ l p (s : sonet),
  match send_loop f str l p s with Exit _ _ | Undef _ => False | _ => True end.
Proof.
  induction f as [|f IH]; intros l p s; cbn [send_loop]; [done|]. case_bool_decide; [|done].
  unfold sd. srun. case_bool_decide; [done|apply IH].
Qed.
Lemma send_tame n fuel str (s : sonet) : (2 ≤ fuel)%nat → tame n (send fuel str s).
Proof.
  intros Hf. unfold send. pose proof (send_loop_outcomes fuel str (Z.of_nat (length str)) 0 s) as H.
  destruct (send_loop _ _ _ _ s) eqn:E; try done. intros [Hs _]. revert E.
  destruct fuel as [|[|fuel]]; [lia..|]. cbn [send_loop]. case_bool_decide; [|done]. unfold sd. srun.
  destruct (Hs (trace s) (m_Sd (own s)) (drop (Z.to_nat 0) str) 0) as [Hr|Hr]; rewrite Hr; [done|].
  rewrite drop_0, bool_decide_eq_false_2, Z.sub_diag by lia. done.
Qed.
Lemma recv_loop_tame n fuel : ∀ l (s : sonet),
  reads_fit → (0 < fuel)%nat → (n < received (trace s) + fuel)%nat → tame n (recv_loop_from fuel l s).
Proof.
  induction fuel as [|fuel IH]; intros l s Hfit Hf Hn; [lia|]. cbn [recv_loop_from]. unfold sd. srun.
  set (c := Recv (m_Sd (own s)) 256 MSG_NOSIGNAL). set (r := answer_to (trace s) c).
  destruct (Hfit (trace s) c (m_Sd (own s)) 256) as [Hr _]; [right; by eexists|lia|]. fold r in Hr.
  destruct (bool_decide (rc r = -1) && _); [done|].
  destruct (bool_decide (rc r = 0) || bool_decide (rc r = -1)) eqn:Hz; [done|].
  apply orb_false_iff in Hz as [H0%bool_decide_eq_false H1%bool_decide_eq_false].
  unfold bind at 1. rewrite strip_spec. destruct (forallb is_crlf (l ++ got r)) eqn:Hc.
  { split; [done|]. intros Hs. rewrite forallb_app in Hc. apply andb_true_iff in Hc as [_ Hc].
    specialize (Hs (trace s) (m_Sd (own s)) 256 MSG_NOSIGNAL). fold c r in Hs.
    by rewrite Hs in Hc by lia. }
  assert (received (trace (after c s)) = S (received (trace s))) as Hrec.
  { cbn [trace after]. unfold received. rewrite sum_list_with_app. cbn [sum_list_with foldr].
    unfold received1 at 2. cbn [fst snd c]. fold c r. rewrite bool_decide_eq_true_2 by lia. lia. }
  destruct fuel as [|fuel].
  - intros [_ Hst]. specialize (Hst (trace s) (m_Sd (own s)) 256 MSG_NOSIGNAL ltac:(lia)). fold c r in Hst. lia.
  - apply IH; [done|lia|]. change (n < received (trace (after c s)) + S fuel)%nat. rewrite Hrec. lia.
Qed.
Lemma print_headers_tame n resp (s : sonet) : tame n (print_headers resp s).
Proof.
  unfold print_headers, substr, say. destruct (find header_end resp 0); [|done].
  case_decide; [|done]. by repeat run_step.
Qed.
Lemma ask_tame fuel q (s : sonet) :
  hosts_have_addresses → reads_fit → (2 ≤ fuel)%nat → tame (fuel - 1) (ask fuel q s).
Proof.
  intros Hh Hfit Hf. apply tame_finally, tame_bind.
  { pose proof (connect_acquires (host q) 80 s Hh) as H. by destruct (connect _ _ s). }
  intros _ s1. apply tame_bind.
  { unfold setRcvTimeout, sd. srun. by case_bool_decide. }
  intros _ s2. apply tame_bind; [by apply send_tame|]. intros _ s3. apply tame_bind; [apply recv_loop_tame; [done|lia..]|].
  intros resp s4. unfold sd, say. srun. apply print_headers_tame.
Qed.

(** C27. The client returns 0, after printing what went wrong if anything did, and
    then it holds no descriptor that it did not hold at the start, except for 0 if
    socket() gave that. What can keep it from returning is only its peer: a message
    of nothing but CR and LF, which is undefined behaviour, or one that takes the
    query in pieces or never stops sending; no exception escapes. *)
Theorem main_ends_and_closes {T} argv fuel (s : net T) :
  hosts_have_addresses → reads_fit → argv ≠ [] → (2 ≤ fuel)%nat →
  match main argv fuel s with
  | Ret code s' => code = 0 ∧ left_with (ledger (trace s)) (trace s')
  | Exc _ _ | Exit _ _ => False
  | Undef u => u = OutOfBounds ∧ ¬ speaks
  | NoFuel => ¬ (sends_whole ∧ stops_after (fuel - 1))
  end.
Proof.
  intros Hh Hfit Hargv Hf. pose proof (left_with_same (trace s)) as Hsame.
  unfold main. destruct argv as [|p0 [|url [|]]]; try done.
  pose proof (make_query_pure url s) as Hq. unfold bind, try_catch, local.
  destruct (make_query url s) as [q s1|e s1|? ?|u|]; subst; try done.
  set (s1 := mkNet Socket_ctor (errno s) (trace s) (cerr s)).
  pose proof (ask_releases fuel q s1 Hh eq_refl) as H. pose proof (ask_tame fuel q s1 Hh Hfit Hf) as Ht.
  by destruct (ask fuel q s1) as [a s2|e s2|? ?|u|].
Qed.
End HttpClient.

(** ** Witnesses *)

Lemma make_query_url_witness :
  make_query (b "http://www.any.com/sdsad") tt =
    Ret (mkHttpQuery (b "GET http://www.any.com/sdsad HTTP/1.1" ++ crlf ++
      b "Host: www.any.com" ++ crlf ++ crlf) (b "www.any.com")) tt.
Proof.
  apply (make_query_url (b "http:") (b "www.any.com") (b "/sdsad") tt).
  - apply (bool_decide_unpack _). reflexivity.
  - apply (bool_decide_unpack _). reflexivity.
  - by right.
  - vm_compute. reflexivity.
Defined.

(** The query is taken at once; the answer comes as header and body. *)
Definition two_segments : OS :=
  scripted [ok 3; data (b "HTTP/1.1 200 OK" ++ header_end); data (b "hello"); ok 0].
Lemma headers_lost_at_chunk_end_witness :
  ∃ s', httpQuery (Os:=two_segments) 5 (b "GET") print_headers connected =
    Exc (runtime_error "exception: error getting headers") s'.
Proof.
  apply (headers_lost_at_chunk_end (Os:=two_segments) (b "GET") (b "HTTP/1.1 200 OK") (b "hello")
    [3]%nat 5 connected).
  - vm_compute. repeat split.
  - repeat constructor.
  - reflexivity.
  - reflexivity.
  - simpl. lia.
  - lia.
  - intros s' E _. vm_compute in E. injection E as <-. vm_compute. repeat split; try discriminate.
    by left.
  - reflexivity.
  - reflexivity.
  - reflexivity.
Defined.

(** A server that answers with its header and a body, and closes. *)
Definition web_server (answer : bytes) : OS :=
  {| answer_to h c := match c with
                      | Gethostbyname _ => mkReply 1 0 [] [16777343]
                      | Socket => ok 3
                      | Send _ buf _ => ok (Z.of_nat (length buf))
                      | Recv _ n _ => if bool_decide (received h = 0)%nat then data (take (Z.to_nat n) answer)
                                      else ok 0
                      | _ => ok 0
                      end;
     strerror _ := "Success" |}.
Lemma web_server_fits answer : hosts_have_addresses (H:=web_server answer) ∧ reads_fit (H:=web_server answer).
Proof.
  split; [intros h host; by right|]. intros h c x n [->|[fl ->]] Hn; simpl.
  - split; [lia|]. done.
  - case_bool_decide; simpl; [rewrite length_take; split; lia|split; [lia|done]].
Qed.
Lemma web_server_prompt answer : sends_whole (Os:=web_server answer) ∧ stops_after (Os:=web_server answer) 1.
Proof.
  split; [intros h x buf fl; by right|]. intros h x k fl Hh. simpl. by rewrite bool_decide_eq_false_2 by lia.
Qed.
Definition page : bytes := b "HTTP/1.1 200 OK" ++ header_end ++ b "hello".
Definition browse : list bytes := [b "http_client"; b "http://ya.ru"].
Definition outside : net unit := mkNet tt 0 [] [].
Lemma main_ends_and_closes_witness :
  match main (Os:=web_server page) browse 2 outside with
  | Ret code s' => code = 0 ∧ left_with (0%nat, []) (trace s')
  | Exc _ _ | Exit _ _ => False
  | Undef u => u = OutOfBounds ∧ ¬ speaks (Os:=web_server page)
  | NoFuel => ¬ (sends_whole (Os:=web_server page) ∧ stops_after (Os:=web_server page) 1)
  end.
Proof.
  apply (main_ends_and_closes (Os:=web_server page) browse 2 outside (proj1 (web_server_fits page))
    (proj2 (web_server_fits page)) ltac:(discriminate) (Nat.le_refl 2)).
Defined.
Example browse_prints :
  match main (Os:=web_server page) browse 2 outside with
  | Ret code s' => code = 0 ∧ held (trace s') = [] ∧
      calls_of (trace s') = [Gethostbyname "ya.ru"; Socket; Connect 3 16777343 80;
        Setsockopt 3 (rcvtimeo 1 0); Send 3 (b "GET http://ya.ru HTTP/1.1" ++ crlf ++ b "Host: ya.ru" ++ crlf ++ crlf) 0;
        Recv 3 256 MSG_NOSIGNAL; Recv 3 256 MSG_NOSIGNAL; Close 3] ∧
      drop 9 (cerr s') = [OStr "headers:"; OEndl; OStr "HTTP/1.1 200 OK"; OEndl]
  | _ => False
  end.
Proof. vm_compute. repeat split; reflexivity. Qed.
(** A server that sends an empty line only. *)
Example empty_line_is_undefined : main (Os:=web_server crlf) browse 2 outside = Undef OutOfBounds.
Proof. vm_compute. reflexivity. Qed.
