(* ===== verification/Libevent.v ===== *)
(** * The echo server over libevent

    Models net/libevent/main.cpp. libevent itself is a parameter: how a line is
    taken from a buffer, whether its objects can be made, and the order of its
    events. The callbacks run on the bufferevents by descriptor. *)

From S2P Require Import Prelude Posix Text Socket.

(** The objects of libevent that the callbacks work on: the input and output
    buffers of a bufferevent, the descriptors it closed (BEV_OPT_CLOSE_ON_FREE)
    and whether the loop was told to end. *)
Record bufferevent : Type := mkBufferevent { input : bytes; output : bytes }.
Record state : Type := mkState {
  bevs : gmap Z bufferevent;
  closed : list Z;
  stopped : bool
}.
Abbreviation lnet := (net state).

Definition BEV_EVENT_EOF : Z := 16.
Definition BEV_EVENT_ERROR : Z := 32.
Definition has (events flag : Z) : bool := bool_decide (Z.land events flag ≠ 0).

(** What the loop reports. *)
Inductive event : Type :=
  | Accepted (fd ip : Z)
  | Arrived (fd : Z) (d : bytes)
  | Reported (fd events : Z)
  | ListenerError (error : Z).

Section Callbacks.
Context {Os : OS}.
(** evbuffer_readln with EVBUFFER_EOL_CRLF: the line and what is left. *)
Context (evbuffer_readln : bytes → option (bytes * bytes)).
Context (pthread_self : Z).

Definition bev (fd : Z) : M lnet bufferevent :=
  let! s := get in or_undef UseAfterFree (bevs (own s) !! fd).
Definition set_bev (fd : Z) (b : bufferevent) : M lnet unit :=
  set_own (λ o, mkState (<[fd := b]> (bevs o)) (closed o) (stopped o)).
Definition bufferevent_free (fd : Z) : M lnet unit :=
  set_own (λ o, mkState (base.delete fd (bevs o)) (closed o ++ [fd]) (stopped o)).

Definition echo (line : bytes) : bytes := b "echo: " ++ c_str line ++ crlf.

Definition echo_read_cb (buf_ev : Z) : M lnet unit :=
  let! e := bev buf_ev in
  match evbuffer_readln (input e) with
  | None => ret tt
  | Some (request_line, rest) =>
      say [OStr "thread id : "; OInt pthread_self] ;;
      say [OStr "read: "; OStr (text (c_str request_line)); OEndl] ;;
      set_bev buf_ev (mkBufferevent rest (output e ++ echo request_line))
  end.

Definition echo_event_cb (buf_ev events : Z) : M lnet unit :=
  (if has events BEV_EVENT_ERROR then
     let! s := get in say [OStr "bufferevent error: "; OStr (strerror (errno s)); OEndl]
   else ret tt) ;;
  if has events (Z.lor BEV_EVENT_EOF BEV_EVENT_ERROR) then
    say [OStr "client close connection"; OEndl] ;;
    bufferevent_free buf_ev
  else ret tt.

Definition accept_connection_cb (fd ip : Z) : M lnet unit :=
  say [OStr "accepted from: "; OStr (text (int2ipv4 ip)); OEndl] ;;
  set_bev fd (mkBufferevent [] []).

Definition accept_error_cb (error : Z) : M lnet unit :=
  say [OStr "listener error: "; OInt error; OStr " ("; OStr (strerror error); OStr ")"; OEndl] ;;
  set_own (λ o, mkState (bevs o) (closed o) true).

(** The loop appends what arrives to the input buffer before it calls back. *)
Definition deliver (e : event) : M lnet unit :=
  match e with
  | Accepted fd ip => accept_connection_cb fd ip
  | Arrived fd d =>
      let! e := bev fd in
      set_bev fd (mkBufferevent (input e ++ d) (output e)) ;;
      echo_read_cb fd
  | Reported fd events => echo_event_cb fd events
  | ListenerError error => accept_error_cb error
  end.

Fixpoint event_base_dispatch (l : list event) : M lnet unit :=
  match l with
  | [] => ret tt
  | e :: l' =>
      deliver e ;;
      let! s := get in
      if stopped (own s) then ret tt else event_base_dispatch l'
  end.

(** What libevent answers to the calls of [main]. *)
Record library : Type := mkLibrary {
  event_base_new : bool;
  event_get_version : bytes;
  event_get_supported_methods : list bytes;
  event_base_get_method : bytes;
  evconnlistener_new_bind : Z → bool
}.

(** atoi: 0 without a number, undefined out of range. *)
Definition atoi {S} (l : bytes) : M S Z :=
  let n := default 0 (signed_number (skip_spaces l)) in
  if bool_decide (INT_MIN ≤ n ≤ INT_MAX) then ret n else undef SignedOverflow.

Definition main (lib : library) (argv : list bytes) (l : list event) : M lnet Z :=
  let! port := match argv with _ :: arg :: _ => atoi arg | _ => ret 5001 end in
  if bool_decide (port < 0) || bool_decide (port > 65535) then
    say [OStr "bad port"; OEndl] ;; ret (-1)
  else if negb (event_base_new lib) then
    say [OStr "error to create event_loop base"; OEndl] ;; ret (-1)
  else
    say [OStr "Starting Libevent "; OStr (text (event_get_version lib));
         OStr ".  Available methods are:"; OStr newline] ;;
    for_each (λ m, say [OStr "    "; OStr (text m); OStr newline]) (event_get_supported_methods lib) ;;
    say [OStr "default method for Libevent is "; OStr (text (event_base_get_method lib)); OStr newline] ;;
    if negb (evconnlistener_new_bind lib (u16 port)) then
      say [OStr "error to create event listener"; OEndl] ;; ret (-1)
    else
      say [OStr "start listen on port: "; OInt port; OEndl] ;;
      event_base_dispatch l ;;
      ret 0.

(** ** Lines *)

(** What the documentation of evbuffer_readln promises for EVBUFFER_EOL_CRLF: a
    line ends with a linefeed, and a carriage return just before is dropped. *)
Definition chomp (l : bytes) : bytes :=
  match last l with Some c => if bool_decide (c = CR) then removelast l else l | None => l end.
Definition readln_splits : Prop :=
  (∀ l, LF ∉ l → evbuffer_readln l = None) ∧
  (∀ l rest, LF ∉ l → evbuffer_readln (l ++ LF :: rest) = Some (chomp l, rest)).

(** The lines of a text that are complete, and the rest. *)
Fixpoint split_lines (l cur : bytes) : list bytes * bytes :=
  match l with
  | [] => ([], cur)
  | c :: l' =>
      if bool_decide (c = LF) then let '(ls, r) := split_lines l' [] in (chomp cur :: ls, r)
      else split_lines l' (cur ++ [c])
  end.
Definition lines (l : bytes) : list bytes := (split_lines l []).1.
Definition partial (l : bytes) : bytes := (split_lines l []).2.

Lemma split_lines_partial l : ∀ cur, LF ∉ l → split_lines l cur = ([], cur ++ l).
Proof.
  induction l as [|c l IH]; intros cur H; simpl; [by rewrite app_nil_r|].
  apply not_elem_of_cons in H as [Hc H]. rewrite bool_decide_eq_false_2 by done.
  rewrite IH by done. by rewrite <-app_assoc.
Qed.
Lemma split_lines_line l : ∀ cur rest, LF ∉ l →
  split_lines (l ++ LF :: rest) cur =
    (chomp (cur ++ l) :: lines rest, partial rest).
Proof.
  induction l as [|c l IH]; intros cur rest H; simpl.
  - rewrite app_nil_r. unfold lines, partial. by destruct (split_lines rest []).
  - apply not_elem_of_cons in H as [Hc H]. rewrite bool_decide_eq_false_2 by done.
    rewrite IH by done. by rewrite <-app_assoc.
Qed.
Lemma split_lines_app l : ∀ d cur,
  split_lines (l ++ d) cur =
    let '(ls, r) := split_lines l cur in
    let '(ls', r') := split_lines d r in (ls ++ ls', r').
Proof.
  induction l as [|c l IH]; intros d cur; simpl.
  - by destruct (split_lines d cur).
  - case_bool_decide; rewrite IH; [|done]. destruct (split_lines l []) as [ls r].
    by destruct (split_lines d r).
Qed.
Lemma find_line (l : bytes) : LF ∉ l ∨ ∃ l1 rest, l = l1 ++ LF :: rest ∧ LF ∉ l1.
Proof.
  destruct (decide (LF ∈ l)) as [H|H]; [right|by left].
  by apply list_elem_of_split_l in H as (l1 & rest & -> & H); exists l1, rest.
Qed.
Lemma lines_app l d : lines (l ++ d) = lines l ++ (split_lines d (partial l)).1.
Proof.
  unfold lines, partial. rewrite split_lines_app. destruct (split_lines l []) as [ls r]. simpl.
  by destruct (split_lines d r).
Qed.
Lemma partial_app l d : partial (l ++ d) = (split_lines d (partial l)).2.
Proof.
  unfold partial. rewrite split_lines_app. destruct (split_lines l []) as [ls r]. simpl.
  by destruct (split_lines d r).
Qed.
Definition linefeeds (l : bytes) : nat := length (filter (λ c, c = LF) l).
Lemma split_lines_count l : ∀ cur, length (split_lines l cur).1 = linefeeds l.
Proof.
  unfold linefeeds. induction l as [|c l IH]; intros cur; simpl; [done|]. case_bool_decide as H.
  - rewrite filter_cons_True by done. specialize (IH []). destruct (split_lines l []). simpl in *.
    by rewrite IH.
  - rewrite filter_cons_False by done. apply IH.
Qed.

(** ** What the server answers *)

(** A read callback: at most one line is taken and answered. *)
Lemma deliver_arrived fd d i o (s : lnet) :
  readln_splits → bevs (own s) !! fd = Some (mkBufferevent i o) →
  ∃ s' i' o', deliver (Arrived fd d) s = Ret tt s' ∧ stopped (own s') = stopped (own s) ∧
    bevs (own s') !! fd = Some (mkBufferevent i' o') ∧ partial i' = partial (i ++ d) ∧
    ((lines (i ++ d) = [] ∧ lines i' = [] ∧ o' = o) ∨
     ∃ x, lines (i ++ d) = x :: lines i' ∧ o' = o ++ echo x).
Proof.
  intros [Hnone Hsome] Hb. unfold deliver, bev, set_bev, set_own, echo_read_cb, bev. srun.
  rewrite Hb. unfold or_undef. srun. cbn [own bevs]. rewrite lookup_insert_eq. srun.
  cbn [input output]. destruct (find_line (i ++ d)) as [Hn|(l1 & rest & E & Hn)].
  - rewrite (Hnone _ Hn). unfold ret. eexists _, (i ++ d), o. split; [reflexivity|].
    split; [done|]. split; [cbn; by rewrite lookup_insert_eq|]. split; [done|]. left.
    unfold lines. by rewrite split_lines_partial.
  - rewrite E, (Hsome _ _ Hn). unfold say, set_bev, set_own.
    eexists _, rest, (o ++ echo (chomp l1)). split; [reflexivity|]. split; [done|].
    split; [cbn; by rewrite lookup_insert_eq|].
    unfold lines, partial. rewrite split_lines_line by done. split; [done|]. right.
    by exists (chomp l1).
Qed.

(** C22. The server answers the lines of a client in order and none twice: at any
    time what it wrote, followed by the answers to the complete lines that still
    stand in its input buffer, is the answer to every complete line received.
    But a read answers one line only: the lines that stand there are counted
    down by one per read, so that the second line of a packet waits for the
    next packet. *)
Theorem echo_lines_in_order fd cs i o (s : lnet) :
  readln_splits → stopped (own s) = false → bevs (own s) !! fd = Some (mkBufferevent i o) →
  ∃ s' i' o', event_base_dispatch (map (Arrived fd) cs) s = Ret tt s' ∧
    bevs (own s') !! fd = Some (mkBufferevent i' o') ∧
    o' ++ flat_map echo (lines i') = o ++ flat_map echo (lines (i ++ concat cs)) ∧
    partial i' = partial (i ++ concat cs) ∧
    length (lines i') = foldl (λ n c, (n + linefeeds c) - 1)%nat (linefeeds i) cs.
Proof.
  intros Hs. revert i o s. induction cs as [|c cs IH]; intros i o s Hst Hb.
  - exists s, i, o. simpl. rewrite app_nil_r. split; [done|]. split; [done|]. split; [done|].
    split; [done|]. apply split_lines_count.
  - destruct (deliver_arrived fd c i o s Hs Hb) as (s1 & i1 & o1 & E & Hst1 & Hb1 & Hp & Hl).
    rewrite Hst in Hst1.
    destruct (IH i1 o1 s1 Hst1 Hb1) as (s2 & i2 & o2 & E2 & Hb2 & Ho & Hp2 & Hn).
    exists s2, i2, o2. cbn [map event_base_dispatch]. rewrite (bind_eq_ret _ _ _ _ _ E). run_step.
    rewrite Hst1. split; [exact E2|]. split; [done|].
    assert (linefeeds i1 = (linefeeds i + linefeeds c) - 1)%nat as Hc.
    { rewrite <-!(split_lines_count _ []). fold (lines i1) (lines i).
      pose proof (f_equal length (lines_app i c)) as H. rewrite length_app, !split_lines_count in H.
      rewrite split_lines_count, <-H. destruct Hl as [(H1 & -> & _)|(x & -> & _)].
      - by rewrite H1.
      - simpl. lia. }
    cbn [concat foldl]. rewrite Hn, Hc, Ho, Hp2, (app_assoc i c).
    rewrite (lines_app (i ++ c)), (lines_app i1), (partial_app (i ++ c)), (partial_app i1), <-Hp.
    split; [|by split]. destruct Hl as [(H1 & H2 & ->)|(x & H1 & ->)]; rewrite H1.
    + by rewrite H2.
    + cbn [app flat_map]. by rewrite !flat_map_app, <-!app_assoc.
Qed.

(** The descriptors whose clients go, up to the end of the loop. *)
Fixpoint closings (l : list event) : list Z :=
  match l with
  | [] => []
  | ListenerError _ :: _ => []
  | Reported fd ev :: l' =>
      (if has ev (Z.lor BEV_EVENT_EOF BEV_EVENT_ERROR) then [fd] else []) ++ closings l'
  | _ :: l' => closings l'
  end.

Lemma deliver_outcomes e (s : lnet) :
  match deliver e s with
  | Ret _ s' =>
      closed (own s') = closed (own s) ++
        match e with
        | Reported fd ev => if has ev (Z.lor BEV_EVENT_EOF BEV_EVENT_ERROR) then [fd] else []
        | _ => []
        end ∧
      stopped (own s') = match e with ListenerError _ => true | _ => stopped (own s) end
  | Undef u => u = UseAfterFree
  | _ => False
  end.
Proof.
  destruct e as [fd ip|fd d|fd ev|err]; unfold deliver.
  - unfold accept_connection_cb, set_bev, set_own, say. srun. simpl. by rewrite app_nil_r.
  - unfold bev, set_bev, set_own, echo_read_cb, bev. srun.
    destruct (bevs (own s) !! fd) as [b0|]; [|done]. unfold or_undef. srun. cbn [own bevs].
    rewrite lookup_insert_eq. srun. rewrite app_nil_r. by destruct (evbuffer_readln _) as [[x y]|].
  - unfold echo_event_cb, bufferevent_free, set_own, say.
    destruct (has ev BEV_EVENT_ERROR); srun;
      destruct (has ev (Z.lor BEV_EVENT_EOF BEV_EVENT_ERROR)); srun; simpl; by rewrite ?app_nil_r.
  - unfold accept_error_cb, set_own, say. srun. simpl. by rewrite app_nil_r.
Qed.

Lemma dispatch_loop_closes l : ∀ s : lnet,
  stopped (own s) = false →
  match event_base_dispatch l s with
  | Ret _ s' => closed (own s') = closed (own s) ++ closings l
  | Undef u => u = UseAfterFree
  | _ => False
  end.
Proof.
  induction l as [|e l IH]; intros s Hs; [simpl; by rewrite app_nil_r|].
  cbn [event_base_dispatch]. unfold bind at 1. pose proof (deliver_outcomes e s) as H.
  destruct (deliver e s) as [[] s1|? ?|? ?|u|]; try done. run_step. destruct H as [Hc Hst].
  destruct e as [fd ip|fd d|fd ev|err]; rewrite Hst, ?Hs; cbn [closings];
    [..|rewrite app_nil_r in Hc; by rewrite app_nil_r];
    (specialize (IH s1 ltac:(congruence)); destruct (event_base_dispatch l s1); try done;
     rewrite IH, Hc, <-?app_assoc; done).
Qed.

(** Descriptors are closed exactly for the clients that are reported at end
    of file or in error, in that order and each at its report, until an error
    of the listener ends the loop; nothing else goes wrong as long as libevent
    reports nothing about a client that was freed. *)
Theorem dispatch_closes l (s : lnet) :
  stopped (own s) = false →
  match event_base_dispatch l s with
  | Ret _ s' => closed (own s') = closed (own s) ++ closings l
  | Undef u => u = UseAfterFree
  | _ => False
  end.
Proof. apply dispatch_loop_closes. Qed.

(** main ends with -1, before any callback runs, for a port out of
    0..65535 or when libevent cannot make its base or its listener - and with 0
    after the loop otherwise. *)
Theorem libevent_main_status lib prog n l (s : lnet) :
  INT_MIN ≤ n ≤ INT_MAX → stopped (own s) = false →
  let good := bool_decide (0 ≤ n ≤ 65535) && event_base_new lib && evconnlistener_new_bind lib n in
  match main lib [prog; to_string n] l s with
  | Ret code s' =>
      code = (if good then 0 else -1) ∧
      closed (own s') = closed (own s) ++ (if good then closings l else [])
  | Undef u => u = UseAfterFree ∧ good = true
  | _ => False
  end.
Proof.
  intros Hn Hs good. unfold main, atoi.
  pose proof (signed_number_to_string n [] ltac:(done)) as Hd. rewrite app_nil_r in Hd. rewrite Hd.
  unfold default, id. rewrite (bool_decide_eq_true_2 (INT_MIN ≤ n ≤ INT_MAX)) by done. srun.
  destruct (bool_decide (n < 0) || bool_decide (n > 65535)) eqn:E.
  { assert (good = false) as Hg.
    { unfold good. rewrite bool_decide_eq_false_2; [done|].
      apply orb_true_iff in E as [E%bool_decide_eq_true|E%bool_decide_eq_true]; lia. }
    unfold say. srun. rewrite Hg. simpl. split; [done|]. by rewrite app_nil_r. }
  apply orb_false_iff in E as [E1%bool_decide_eq_false E2%bool_decide_eq_false].
  unfold good. rewrite (bool_decide_eq_true_2 (0 ≤ n ≤ 65535)) by lia. cbn [andb].
  destruct (event_base_new lib); cbn [negb andb].
  2:{ unfold say. srun. simpl. split; [done|]. by rewrite app_nil_r. }
  rewrite u16_small by lia. unfold bind at 1, say at 1, modify at 1. unfold bind at 1.
  match goal with |- context [for_each ?f ?l ?st] =>
    destruct (say_all (λ m, [OStr "    "; OStr (text m); OStr newline]) l st) as [o ->] end.
  unfold say at 1. srun. destruct (evconnlistener_new_bind lib n); cbn [negb].
  2:{ unfold say. srun. simpl. split; [done|]. by rewrite app_nil_r. }
  unfold say. srun. match goal with |- context [bind (event_base_dispatch l) _ ?st] =>
    pose proof (dispatch_loop_closes l st Hs) as H; unfold bind;
    destruct (event_base_dispatch l st); try done end.
Qed.
End Callbacks.

(** ** Witnesses *)

Fixpoint plain_readln_from (cur l : bytes) : option (bytes * bytes) :=
  match l with
  | [] => None
  | c :: l' => if bool_decide (c = LF) then Some (chomp cur, l') else plain_readln_from (cur ++ [c]) l'
  end.
Definition plain_readln : bytes → option (bytes * bytes) := plain_readln_from [].
Lemma plain_readln_splits : readln_splits plain_readln.
Proof.
  unfold plain_readln. split.
  - intros l. generalize ([] : bytes). induction l as [|c l IH]; intros cur H; [done|]. simpl.
    apply not_elem_of_cons in H as [Hc H]. rewrite bool_decide_eq_false_2 by done. by apply IH.
  - intros l rest. assert (∀ cur, LF ∉ l → plain_readln_from cur (l ++ LF :: rest) = Some (chomp (cur ++ l), rest))
      as H; [|by apply (H [])].
    induction l as [|c l IH]; intros cur H; simpl; [by rewrite app_nil_r|].
    apply not_elem_of_cons in H as [Hc H]. rewrite bool_decide_eq_false_2 by done.
    rewrite IH by done. by rewrite <-app_assoc.
Qed.

Definition one_bev : lnet := mkNet (mkState {[ 5 := mkBufferevent [] [] ]} [] false) 0 [] [].
(** Two lines in the first packet: one answer is missing after it. *)
Definition packets : list bytes := [b "a" ++ crlf ++ b "b" ++ crlf ++ b "c"].
Lemma echo_lines_in_order_witness :
  ∃ s' i' o', event_base_dispatch (Os:=scripted []) plain_readln 7 (map (Arrived 5) packets) one_bev
      = Ret tt s' ∧
    bevs (own s') !! 5 = Some (mkBufferevent i' o') ∧
    o' ++ flat_map echo (lines i') = [] ++ flat_map echo [b "a"; b "b"] ∧
    partial i' = b "c" ∧ length (lines i') = 1%nat.
Proof.
  apply (echo_lines_in_order (Os:=scripted []) plain_readln 7 5 packets [] [] one_bev
    plain_readln_splits); reflexivity.
Defined.
Lemma dispatch_closes_witness :
  match event_base_dispatch (Os:=scripted []) plain_readln 7
      [Arrived 5 (b "x"); Reported 5 BEV_EVENT_EOF; Accepted 6 0; ListenerError 24; Reported 6 48] one_bev with
  | Ret _ s' => closed (own s') = [5]
  | Undef u => u = UseAfterFree
  | _ => False
  end.
Proof.
  apply (dispatch_closes (Os:=scripted []) plain_readln 7
    [Arrived 5 (b "x"); Reported 5 BEV_EVENT_EOF; Accepted 6 0; ListenerError 24; Reported 6 48] one_bev).
  reflexivity.
Defined.
Definition installed : library :=
  mkLibrary true (b "2.1") [b "epoll"; b "poll"] (b "epoll") (λ _, true).
Lemma libevent_main_status_witness :
  match main (Os:=scripted []) plain_readln 7 installed [b "echo"; to_string 70000]
      [Reported 5 BEV_EVENT_EOF] one_bev with
  | Ret code s' => code = -1 ∧ closed (own s') = []
  | Undef u => u = UseAfterFree ∧ false = true
  | _ => False
  end.
Proof.
  apply (libevent_main_status (Os:=scripted []) plain_readln 7 installed (b "echo") 70000
    [Reported 5 BEV_EVENT_EOF] one_bev); [vm_compute; split; discriminate|reflexivity].
Defined.
