(* ===== verification/Asio.v ===== *)
(** * The clients over boost::asio

    Models the clients and the queue of handlers of net/asio/main.cpp:
    [HttpStream], the clients that read an answer from a socket or a stream, and
    [IoService], the handlers posted to an io_service. Asio is a parameter: the
    results of connecting and the order in which posted handlers run. *)

From S2P Require Import Prelude Posix Text Socket.
From S2P Require HttpClient.

Module HttpStream.

(** The stream of a connection, with what was sent over it, and the terminal. *)
Record state : Type := mkState {
  rest : bytes;          (* not yet extracted *)
  eofbit : bool;
  failbit : bool;
  sent : bytes;
  cout : bytes
}.
Abbreviation hm := (M state).

Definition print (l : bytes) : hm unit :=
  modify (λ s, mkState (rest s) (eofbit s) (failbit s) (sent s) (cout s ++ l)).
Definition send (l : bytes) : hm unit :=
  modify (λ s, mkState (rest s) (eofbit s) (failbit s) (sent s ++ l) (cout s)).
Definition set_stream (r : bytes) (e f : bool) : hm unit :=
  modify (λ s, mkState r e f (sent s) (cout s)).
Definition good : hm bool := gets (λ s, negb (failbit s)).

(** The sentry of an extraction; true when it may go on. *)
Definition sentry (skipws : bool) : hm bool :=
  let! s := get in
  if eofbit s || failbit s then set_stream (rest s) (eofbit s) true ;; ret false
  else
    let r := if skipws then skip_spaces (rest s) else rest s in
    if skipws && bool_decide (r = []) then set_stream [] true true ;; ret false
    else set_stream r (eofbit s) (failbit s) ;; ret true.

Fixpoint word (l : bytes) : bytes * bytes :=
  match l with
  | [] => ([], [])
  | c :: l' => if is_space c then ([], l) else let '(w, r) := word l' in (c :: w, r)
  end.
(** [s >> str]: the old value stays when nothing can be extracted. *)
Definition read_string (old : bytes) : hm bytes :=
  let! ok := sentry true in
  if ok : bool then
    let! s := get in
    let '(w, r) := word (rest s) in
    set_stream r (bool_decide (r = [])) (failbit s) ;; ret w
  else ret old.

Fixpoint digits_prefix (l : bytes) : bytes * bytes :=
  match l with
  | [] => ([], [])
  | c :: l' => match digit c with
               | Some _ => let '(w, r) := digits_prefix l' in (c :: w, r)
               | None => ([], l)
               end
  end.
Definition UINT_MAX : Z := 2 ^ 32 - 1.
Definition is_sign (c : ascii) : bool := bool_decide (c = "-"%char) || bool_decide (c = "+"%char).
Definition split_sign (l : bytes) : bool * bytes :=
  match l with
  | c :: l' => if is_sign c then (bool_decide (c = "-"%char), l') else (false, l)
  | [] => (false, [])
  end.
(** [s >> n] for an unsigned int; without a value yet it is [None]. *)
Definition read_unsigned (old : option Z) : hm (option Z) :=
  let! ok := sentry true in
  if ok : bool then
    let! s := get in
    let '(neg, l) := split_sign (rest s) in
    let '(ds, r) := digits_prefix l in
    let n := digits_from 0 ds in
    let bad := bool_decide (ds = []) || bool_decide (UINT_MAX < n) in
    set_stream r (bool_decide (r = [])) bad ;;
    ret (Some (if bool_decide (ds = []) then 0
               else if bool_decide (UINT_MAX < n) then UINT_MAX
               else if neg : bool then (- n) mod 2 ^ 32 else n))
  else ret old.

Fixpoint line (l : bytes) : bytes * option bytes :=
  match l with
  | [] => ([], None)
  | c :: l' => if bool_decide (c = LF) then ([], Some l')
               else let '(w, r) := line l' in (c :: w, r)
  end.
Definition getline (old : bytes) : hm bytes :=
  let! ok := sentry false in
  if ok : bool then
    let! s := get in
    match line (rest s) with
    | (w, Some r) => set_stream r false false ;; ret w
    | (w, None) => set_stream [] true (bool_decide (w = [])) ;; ret w
    end
  else ret old.

(** [while (std::getline(s, header) && header != "\r") std::cout << header << "\n";] *)
Fixpoint headers_loop (fuel : nat) (header : bytes) : hm unit :=
  match fuel with
  | O => no_fuel
  | S fuel' =>
      let! header := getline header in
      let! ok := good in
      if ok && bool_decide (header ≠ [CR]) then
        print (header ++ [LF]) ;; headers_loop fuel' header
      else ret tt
  end.

(** From the status line on. *)
Definition read_answer (fuel : nat) : hm unit :=
  let! http_version := read_string [] in
  let! status_code := read_unsigned None in
  let! status_message := getline [] in
  let! ok := good in
  let! five := (if ok : bool then substr http_version 0 (Some 5%nat) else ret []) in
  if negb ok || bool_decide (five ≠ b "HTTP/") then print (b "Invalid response" ++ [LF])
  else
    let! code := or_undef Indeterminate status_code in
    if bool_decide (code ≠ 200) then
      print (b "Response returned with status code " ++ to_string code ++ [LF])
    else
      headers_loop fuel [] ;;
      print [LF] ;;
      let! s := get in
      print (rest s).

(** The error message of a connection, or the whole answer of the server. *)
Definition sync_http_full (connect : bytes → bytes + bytes) (url : bytes) : hm unit :=
  try_catch (
    match find (b "//") url 0 with
    | None => throw (runtime_error "bad query")
    | Some pos =>
        let! host := substr_n url (pos + 2)
          (u64 (npos (find (b "/") url (pos + 2)) - Z.of_nat pos - 2)) in
        if bool_decide (host = []) then throw (runtime_error "bad query")
        else
          match connect (c_str host) with
          | inl message => print (b "Unable to connect: " ++ message ++ [LF])
          | inr answer =>
              set_stream answer false false ;;
              send (b "GET " ++ c_str url ++ b " HTTP/1.0" ++ crlf) ;;
              send (b "Host: " ++ c_str host ++ crlf) ;;
              send (b "Accept: */*" ++ crlf) ;;
              send (b "Connection: close" ++ crlf ++ crlf) ;;
              read_answer (S (S (length answer)))
          end
    end)
    (λ e, print (b "Exception: " ++ b (what e) ++ [LF])).

(** The error of resolving or connecting, if any, and what read_some stores in
    [reply], if anything. *)
Definition sync (resolve connect : option string) (received : bytes) : hm unit :=
  match resolve with
  | Some message => throw (runtime_error message)
  | None =>
      match connect with
      | Some message => throw (runtime_error message)
      | None =>
          send (b "LOGIN" ++ crlf) ;;
          let r := take 1024 received in
          let reply := (Some <$> r) ++ replicate (1024 - length r) None in
          print (b "Reply is: ") ;;
          let! t := c_string reply in
          print (t ++ [LF])
      end
  end.

(** A stream that could not be connected ([None]) takes and gives nothing. *)
Definition sync_http (connect : option bytes) : hm unit :=
  match connect with
  | None => ret tt
  | Some answer =>
      set_stream answer false false ;;
      send (b "GET /LICENSE_1_0.txt HTTP/1.0" ++ crlf) ;;
      send (b "Host: www.boost.org" ++ crlf) ;;
      send (b "Accept: */*" ++ crlf) ;;
      send (b "Connection: close" ++ crlf ++ crlf) ;;
      let! s := get in
      print (rest s) ;;
      set_stream [] false false
  end.

(** [sync] prints the reply only when the peer itself ends it with a zero byte;
    otherwise the print runs into what the buffer never got. *)
Lemma sync_prints_terminated r r' s :
  NUL ∉ r → (length r < 1024)%nat →
  sync None None (r ++ NUL :: r') s =
    Ret tt (mkState (rest s) (eofbit s) (failbit s) (sent s ++ b "LOGIN" ++ crlf)
              (cout s ++ b "Reply is: " ++ r ++ [LF])).
Proof.
  intros Hr Hl. unfold sync, send, print. repeat run_step.
  rewrite (take_app_ge r) by lia. rewrite fmap_app, <-app_assoc.
  replace (1024 - length r)%nat with (S (1023 - length r)) by lia. cbn [take fmap list_fmap app].
  rewrite (bind_eq_ret _ _ _ _ _ (c_string_terminated r _ _ Hr)).
  unfold modify. cbn [rest eofbit failbit sent cout]. by rewrite <-!app_assoc.
Qed.
Lemma sync_unterminated r s : NUL ∉ r → ∃ u, sync None None r s = Undef u.
Proof.
  intros Hr. unfold sync, send, print. repeat run_step.
  match goal with |- context [bind (c_string ?l) _ ?st] =>
    destruct (c_string_unterminated (take 1024 r) (1024 - length (take 1024 r)) st) as [u E] end.
  { intros H. apply Hr. apply elem_of_take in H as (i & H & _). by apply list_elem_of_lookup_2 in H. }
  exists u. change (map Some) with (fmap (M:=list) (@Some ascii)) in E. unfold bind at 1. by rewrite E.
Qed.

(** ** Totality *)

Lemma skip_spaces_length l : (length (skip_spaces l) ≤ length l)%nat.
Proof. induction l as [|c l IH]; simpl; [done|]. destruct (is_space c); simpl; lia. Qed.
Lemma word_length l : (length (word l).2 ≤ length l)%nat.
Proof.
  induction l as [|c l IH]; simpl; [done|]. destruct (is_space c); simpl; [done|].
  destruct (word l). simpl in *. lia.
Qed.
Lemma line_length l w r : line l = (w, Some r) → (length r < length l)%nat.
Proof.
  revert w. induction l as [|c l IH]; intros w; simpl; [done|]. case_bool_decide.
  - intros [= _ ->]. lia.
  - destruct (line l) as [w' r']. intros [= _ ->]. specialize (IH w' eq_refl). lia.
Qed.

Lemma split_sign_length l : (length (split_sign l).2 ≤ length l)%nat.
Proof. destruct l as [|c l]; simpl; [done|]. destruct (is_sign c); simpl; lia. Qed.
Lemma digits_prefix_length l : (length (digits_prefix l).2 ≤ length l)%nat.
Proof.
  induction l as [|c l IH]; simpl; [done|]. destruct (digit c); simpl; [|done].
  destruct (digits_prefix l). simpl in *. lia.
Qed.

(** The status code is read whenever the stream is still good after it. *)
Lemma read_unsigned_outcomes old s :
  ∃ v s', read_unsigned old s = Ret v s' ∧ (v = None → failbit s' = true) ∧
    (length (rest s') ≤ length (rest s))%nat.
Proof.
  pose proof (skip_spaces_length (rest s)).
  unfold read_unsigned, sentry, set_stream. repeat run_step. destruct (eofbit s || failbit s).
  { repeat run_step. do 2 eexists. split; [reflexivity|]. done. }
  destruct (true && bool_decide (skip_spaces (rest s) = [])).
  { repeat run_step. do 2 eexists. split; [reflexivity|]. split; [done|simpl; lia]. }
  repeat run_step. unfold bind at 1, get. cbn [rest failbit].
  pose proof (split_sign_length (skip_spaces (rest s))).
  destruct (split_sign (skip_spaces (rest s))) as [neg l]. pose proof (digits_prefix_length l).
  destruct (digits_prefix l) as [ds r]. do 2 eexists. split; [reflexivity|]. simpl in *.
  split; [done|lia].
Qed.
Lemma read_string_returns old s : ∃ v s', read_string old s = Ret v s' ∧
  (length (rest s') ≤ length (rest s))%nat.
Proof.
  unfold read_string, sentry, set_stream. repeat run_step. pose proof (skip_spaces_length (rest s)).
  destruct (eofbit s || failbit s); [|destruct (true && bool_decide (skip_spaces (rest s) = []))];
    repeat run_step.
  - do 2 eexists. split; [reflexivity|]. done.
  - do 2 eexists. split; [reflexivity|]. simpl. lia.
  - unfold bind at 1, get. cbn [rest failbit]. pose proof (word_length (skip_spaces (rest s))).
    destruct (word (skip_spaces (rest s))) as [w r]. do 2 eexists. split; [reflexivity|]. simpl in *. lia.
Qed.
(** getline shortens the stream or leaves it unable to go on. *)
Lemma getline_returns old s : ∃ v s', getline old s = Ret v s' ∧
  (failbit s' = true ∨ eofbit s' = true ∨ (length (rest s') < length (rest s))%nat) ∧
  (failbit s = true → failbit s' = true) ∧ (eofbit s = true → failbit s' = true) ∧
  (length (rest s') ≤ length (rest s))%nat.
Proof.
  unfold getline, sentry, set_stream. repeat run_step.
  destruct (eofbit s || failbit s) eqn:E; repeat run_step.
  - do 2 eexists. split; [reflexivity|]. simpl. split; [by left|]. done.
  - apply orb_false_iff in E as [Ee Ef]. cbn [andb]. repeat run_step. unfold bind at 1, get. cbn [rest failbit].
    destruct (line (rest s)) as [w [r|]] eqn:El; do 2 eexists; (split; [reflexivity|]); simpl;
      rewrite Ee, Ef.
    + apply line_length in El. split; [right; right; done|]. split; [done|]. split; [done|lia].
    + split; [right; by left|]. split; [done|]. split; [done|lia].
Qed.
Lemma headers_loop_returns fuel : ∀ old s,
  (length (rest s) + 1 < fuel)%nat ∨ (eofbit s = true ∧ 0 < fuel)%nat ∨ (failbit s = true ∧ 0 < fuel)%nat →
  ∃ s', headers_loop fuel old s = Ret tt s'.
Proof.
  induction fuel as [|fuel IH]; intros old s Hf; [lia|]. cbn [headers_loop].
  destruct (getline_returns old s) as (v & s1 & E & Hl & H1 & H2 & H3).
  rewrite (bind_eq_ret _ _ _ _ _ E). unfold good, print. repeat run_step.
  destruct (failbit s1) eqn:Ef; cbn [negb andb]; [by eexists|].
  destruct (bool_decide _); [|by eexists]. repeat run_step. apply IH. cbn [rest eofbit failbit].
  destruct (eofbit s) eqn:Ee; [by specialize (H2 eq_refl)|].
  destruct (failbit s) eqn:Ef'; [by specialize (H1 eq_refl)|].
  destruct Hf as [Hf|[[? _]|[? _]]]; [|done|done].
  destruct Hl as [Hl|[Hl|Hl]]; [done| |left; lia]. right. left. split; [done|lia].
Qed.

Lemma read_answer_returns fuel s :
  (length (rest s) + 1 < fuel)%nat → ∃ s', read_answer fuel s = Ret tt s'.
Proof.
  intros Hf. unfold read_answer.
  destruct (read_string_returns [] s) as (v & s1 & E1 & L1). rewrite (bind_eq_ret _ _ _ _ _ E1).
  destruct (read_unsigned_outcomes None s1) as (c & s2 & E2 & Hc & L2).
  rewrite (bind_eq_ret _ _ _ _ _ E2).
  destruct (getline_returns [] s2) as (m & s3 & E3 & _ & H1 & _ & L3).
  rewrite (bind_eq_ret _ _ _ _ _ E3). unfold good. repeat run_step.
  destruct (failbit s3) eqn:Ef; cbn [negb orb]; repeat run_step; [unfold print; by eexists|].
  unfold substr. rewrite decide_True by lia. repeat run_step.
  destruct (bool_decide (take 5 (drop 0 v) ≠ b "HTTP/")); [unfold print; by eexists|].
  destruct c as [c|]; [|by specialize (H1 (Hc eq_refl))]. cbn [or_undef]. repeat run_step.
  destruct (bool_decide (c ≠ 200)); [unfold print; by eexists|].
  destruct (headers_loop_returns fuel [] s3) as [s4 E4]; [left; lia|].
  rewrite (bind_eq_ret _ _ _ _ _ E4). unfold print. repeat run_step. by eexists.
Qed.

(** C23. Whatever the server answers, and whatever the URL, the client comes to
    an end and returns: every loop stops at the end of the stream, no exception
    escapes, and the status code is never used without having been read. *)
Theorem sync_http_full_returns connect url s :
  ∃ s', sync_http_full connect url s = Ret tt s'.
Proof.
  unfold sync_http_full, try_catch. destruct (find (b "//") url 0) as [pos|]; [|by eexists].
  unfold substr_n. destruct (decide _); [|by eexists]. rewrite bind_ret_l.
  destruct (bool_decide _); [by eexists|]. destruct (connect _) as [msg|answer]; [by eexists|].
  unfold set_stream, send. repeat run_step.
  match goal with |- context [read_answer ?f ?st] =>
    destruct (read_answer_returns f st) as [s' ->]; [cbn [rest]; lia|by eexists] end.
Qed.

(** ** A well-formed answer *)

Definition text_line (l : bytes) : bytes := l ++ crlf.

Lemma word_space w l : forallb (λ c, negb (is_space c)) w = true →
  word (w ++ " "%char :: l) = (w, " "%char :: l).
Proof.
  induction w as [|c w IH]; simpl; [done|]. intros [Hc Hw]%andb_true_iff.
  apply negb_true_iff in Hc. by rewrite Hc, IH.
Qed.
Lemma line_ended l r : LF ∉ l → line (l ++ LF :: r) = (l, Some r).
Proof.
  induction l as [|c l IH]; simpl; [done|]. intros [Hc Hl]%not_elem_of_cons.
  rewrite bool_decide_eq_false_2 by done. by rewrite IH.
Qed.
Lemma getline_line old l r s :
  LF ∉ l → eofbit s = false → failbit s = false → rest s = l ++ LF :: r →
  getline old s = Ret l (mkState r false false (sent s) (cout s)).
Proof.
  intros Hl He Hf Hr. unfold getline, sentry, set_stream. repeat run_step. rewrite He, Hf.
  cbn [orb andb]. repeat run_step. unfold bind at 1, get. cbn [rest failbit].
  by rewrite Hr, line_ended.
Qed.
Lemma LF_not_in_cr l : LF ∉ l → LF ∉ l ++ [CR].
Proof. intros H. apply not_elem_of_app. split; [done|]. by intros [=]%list_elem_of_singleton. Qed.
Lemma headers_loop_prints hs body : ∀ fuel old s,
  Forall (λ h, (LF ∉ h) ∧ h ≠ []) hs → eofbit s = false → failbit s = false →
  rest s = flat_map text_line hs ++ crlf ++ body → (length hs < fuel)%nat →
  headers_loop fuel old s =
    Ret tt (mkState body false false (sent s) (cout s ++ flat_map text_line hs)).
Proof.
  induction hs as [|h hs IH]; intros fuel old s Hh He Hf Hr Hn; (destruct fuel as [|fuel]; [simpl in Hn; lia|]);
    cbn [headers_loop].
  - assert (getline old s = Ret [CR] (mkState body false false (sent s) (cout s))) as E.
    { apply getline_line; [|done|done|by rewrite Hr]. by intros [=]%list_elem_of_singleton. }
    rewrite (bind_eq_ret _ _ _ _ _ E). unfold good. repeat run_step. simpl. by rewrite app_nil_r.
  - apply Forall_cons in Hh as [[Hl Hne] Hh].
    assert (getline old s = Ret (h ++ [CR]) (mkState (flat_map text_line hs ++ crlf ++ body) false false
      (sent s) (cout s))) as E.
    { apply getline_line; [by apply LF_not_in_cr|done|done|]. rewrite Hr. cbn [flat_map].
      change (text_line h) with (h ++ [CR] ++ [LF]). by rewrite <-!app_assoc. }
    rewrite (bind_eq_ret _ _ _ _ _ E). unfold good. repeat run_step. cbn [failbit negb andb].
    rewrite bool_decide_eq_true_2.
    2:{ intros H. destruct h as [|c [|]]; simplify_eq/=. }
    unfold print. repeat run_step. rewrite IH; [|done|done|done|done|simpl in Hn; lia].
    cbn [sent cout flat_map]. change (text_line h) with (h ++ [CR] ++ [LF]). by rewrite <-!app_assoc.
Qed.

(** An answer with status 200. *)
Definition ok_answer (version message : bytes) (hs : list bytes) (body : bytes) : bytes :=
  (b "HTTP/" ++ version) ++ " "%char :: b "200" ++ " "%char :: message ++ crlf ++
  flat_map text_line hs ++ crlf ++ body.
Definition request (url hostname : bytes) : bytes :=
  (b "GET " ++ c_str url ++ b " HTTP/1.0" ++ crlf) ++ (b "Host: " ++ c_str hostname ++ crlf) ++
  (b "Accept: */*" ++ crlf) ++ (b "Connection: close" ++ crlf ++ crlf).

Lemma read_ok_answer version message hs body fuel s :
  forallb (λ c, negb (is_space c)) version = true → LF ∉ message →
  Forall (λ h, (LF ∉ h) ∧ h ≠ []) hs → eofbit s = false → failbit s = false →
  rest s = ok_answer version message hs body → (length hs < fuel)%nat →
  read_answer fuel s =
    Ret tt (mkState body false false (sent s) (cout s ++ flat_map text_line hs ++ [LF] ++ body)).
Proof.
  intros Hv Hm Hh He Hf Hr Hfuel. unfold read_answer.
  set (r2 := message ++ crlf ++ flat_map text_line hs ++ crlf ++ body).
  assert (read_string [] s = Ret (b "HTTP/" ++ version)
    (mkState (" "%char :: b "200" ++ " "%char :: r2) false false (sent s) (cout s))) as E1.
  { unfold read_string, sentry, set_stream. repeat run_step. rewrite He, Hf, Hr. cbn [orb].
    unfold ok_answer. fold r2. cbn [skip_spaces b app String.list_ascii_of_string].
    change (is_space "H") with false. cbv match. cbn [andb]. rewrite bool_decide_eq_false_2 by done.
    repeat run_step. unfold bind at 1, get. cbn [rest failbit].
    pose proof (word_space (b "HTTP/" ++ version) (b "200" ++ " "%char :: r2) Hv) as Hw.
    cbn [b app String.list_ascii_of_string] in Hw |- *. rewrite Hw. repeat run_step. done. }
  rewrite (bind_eq_ret _ _ _ _ _ E1).
  set (s1 := mkState (" "%char :: b "200" ++ " "%char :: r2) false false (sent s) (cout s)).
  assert (read_unsigned None s1 = Ret (Some 200) (mkState (" "%char :: r2) false false (sent s) (cout s)))
    as E2 by reflexivity.
  rewrite (bind_eq_ret _ _ _ _ _ E2).
  set (s2 := mkState (" "%char :: r2) false false (sent s) (cout s)).
  assert (getline [] s2 = Ret (" "%char :: message ++ [CR])
    (mkState (flat_map text_line hs ++ crlf ++ body) false false (sent s) (cout s))) as E3.
  { apply (getline_line [] _ _ s2); [|done|done|unfold r2; simpl; by rewrite <-!app_assoc].
    apply not_elem_of_cons. split; [done|]. by apply LF_not_in_cr. }
  rewrite (bind_eq_ret _ _ _ _ _ E3). unfold good. repeat run_step. cbn [failbit negb orb].
  unfold substr. rewrite decide_True by lia. repeat run_step.
  change (take 5 (drop 0 (b "HTTP/" ++ version))) with (b "HTTP/").
  rewrite bool_decide_eq_false_2 by tauto. cbn [or_undef]. repeat run_step.
  rewrite bool_decide_eq_false_2 by tauto.
  match goal with |- context [bind (headers_loop fuel []) _ ?st] =>
    rewrite (bind_eq_ret _ _ _ _ _ (headers_loop_prints hs body fuel [] st Hh eq_refl eq_refl eq_refl Hfuel))
  end.
  unfold print. repeat run_step. unfold modify. cbn [rest eofbit failbit sent cout].
  by rewrite <-!app_assoc.
Qed.

Lemma flat_map_lines_length hs : (length hs ≤ length (flat_map text_line hs))%nat.
Proof.
  induction hs as [|h hs IH]; [done|]. cbn [flat_map]. rewrite length_app.
  change (text_line h) with (h ++ crlf). rewrite length_app. simpl. lia.
Qed.

(** To a URL with a host that answers with status 200, the client sends one
    complete request, and it prints the headers of the answer, an empty line and
    the body, byte for byte. *)
Theorem sync_http_full_prints connect scheme hostname path version message hs body s :
  "/"%char ∉ scheme → "/"%char ∉ hostname → hostname ≠ [] → path = [] ∨ head path = Some "/"%char →
  let url := scheme ++ b "//" ++ hostname ++ path in
  Z.of_nat (length url) < 2 ^ 63 →
  connect (c_str hostname) = inr (ok_answer version message hs body) →
  forallb (λ c, negb (is_space c)) version = true → LF ∉ message →
  Forall (λ h, (LF ∉ h) ∧ h ≠ []) hs →
  ∃ s', sync_http_full connect url s = Ret tt s' ∧
    sent s' = sent s ++ request url hostname ∧
    cout s' = cout s ++ flat_map text_line hs ++ [LF] ++ body.
Proof.
  intros Hs Hh Hne Hp url Hl Hc Hv Hm Hhs.
  destruct (HttpClient.url_host scheme hostname path Hs Hh Hp Hl) as [Hpos Hhost].
  fold url in Hpos, Hhost. unfold sync_http_full, try_catch.
  rewrite Hpos, (bind_eq_ret _ _ _ _ _ (Hhost state s)), bool_decide_eq_false_2, Hc by done.
  unfold set_stream, send. repeat run_step.
  match goal with |- context [read_answer ?f ?st] =>
    rewrite (read_ok_answer version message hs body f st Hv Hm Hhs eq_refl eq_refl eq_refl) end.
  - eexists. split; [reflexivity|]. unfold request. cbn [sent cout]. by rewrite <-!app_assoc.
  - pose proof (flat_map_lines_length hs). unfold ok_answer.
    repeat (rewrite length_app || cbn [length]). lia.
Qed.
Definition demo_answer : bytes :=
  ok_answer (b "1.0") (b "OK") [b "Server: nginx"; b "Content-Type: text/plain"] (b "hello").
Lemma sync_http_full_prints_witness :
  ∃ s', sync_http_full (λ _, inr demo_answer) (b "http:" ++ b "//" ++ b "host" ++ b "/index") (mkState [] false false [] [])
    = Ret tt s' ∧
  cout s' = [] ++ flat_map text_line [b "Server: nginx"; b "Content-Type: text/plain"] ++ [LF] ++ b "hello".
Proof.
  destruct (sync_http_full_prints (λ _, inr demo_answer) (b "http:") (b "host") (b "/index") (b "1.0") (b "OK")
    [b "Server: nginx"; b "Content-Type: text/plain"] (b "hello") (mkState [] false false [] []))
    as (s' & E & _ & Hc).
  - by apply (bool_decide_unpack _).
  - by apply (bool_decide_unpack _).
  - done.
  - by right.
  - by vm_compute.
  - done.
  - done.
  - by apply (bool_decide_unpack _).
  - by apply (bool_decide_unpack _).
  - exists s'. split; [exact E|exact Hc].
Defined.
End HttpStream.

(** The handlers that queue_test posts to an io_service, and what bind_test
    calls. *)
Module IoService.
Abbreviation terminal := (list (out False)).
Record state : Type := mkState { queue : list (M terminal unit); cerr : terminal }.

Definition put (l : terminal) : M terminal unit := modify (λ o, o ++ l).
Definition func : M terminal unit := put [OStr "func1"; OEndl].
Definition lambda : M terminal unit := put [OStr "lambda"; OEndl].
Definition Struct_call : M terminal unit := put [OStr "Struct::operator()"; OEndl].
Definition funcA (arg : Z) : M terminal unit :=
  put [OStr "Class::func().int: "; OInt arg; OEndl].
Definition funcB (arg1 : Z) (arg2 : string) : M terminal unit :=
  put [OStr "Class::func(). arg1: "; OInt arg1; OStr ", arg2: "; OStr arg2; OEndl].
Definition funcC : M terminal unit := put [OStr "Class::func2()"; OEndl].

Definition post (h : M terminal unit) : M state unit :=
  modify (λ s, mkState (queue s ++ [h]) (cerr s)).

(** [pick] is the scheduler: which of a number of ready handlers runs. Without
    any, run_one returns at once. *)
Definition run_one (pick : nat → nat) : M state unit :=
  let! s := get in
  let i := (pick (length (queue s)) `mod` length (queue s))%nat in
  match queue s !! i with
  | None => ret tt
  | Some h =>
      modify (λ s, mkState (base.delete i (queue s)) (cerr s)) ;;
      zoom cerr (λ o s, mkState (queue s) o) h
  end.

Definition queue_test (pick : nat → nat) : M state unit :=
  post func ;; post lambda ;; post Struct_call ;;
  post funcC ;; post funcC ;; post (funcA 10) ;;
  run_one pick ;; run_one pick ;; run_one pick ;;
  run_one pick ;; run_one pick ;; run_one pick.

Definition bind_test : M terminal unit :=
  funcA 123 ;; funcB 456 "abcd" ;; funcB 789 "zxcv" ;; funcC.

(** The lines the posted handlers print. *)
Definition posted : list terminal :=
  [[OStr "func1"; OEndl]; [OStr "lambda"; OEndl]; [OStr "Struct::operator()"; OEndl];
   [OStr "Class::func2()"; OEndl]; [OStr "Class::func2()"; OEndl];
   [OStr "Class::func().int: "; OInt 10; OEndl]].

(** One run_one takes a handler out of a queue of printing handlers. *)
Lemma run_one_prints pick ls o :
  ls ≠ [] →
  ∃ l ls', run_one pick (mkState (put <$> ls) o) = Ret tt (mkState (put <$> ls') (o ++ l)) ∧
    ls ≡ₚ l :: ls'.
Proof.
  intros Hne. unfold run_one. run_step. cbn [queue]. rewrite length_fmap.
  assert (0 < length ls)%nat as Hl by (destruct ls; [done|simpl; lia]).
  pose proof (Nat.mod_upper_bound (pick (length ls)) (length ls) ltac:(lia)) as Hi.
  set (i := (pick (length ls) mod length ls)%nat) in *.
  destruct (lookup_lt_is_Some_2 ls i Hi) as [l El].
  rewrite list_lookup_fmap, El. exists l, (base.delete i ls). split.
  - cbn [fmap option_fmap option_map]. unfold zoom, put at 2. run_step. cbn.
    by rewrite list_fmap_delete.
  - by apply delete_Permutation.
Qed.
Fixpoint run_times (n : nat) (pick : nat → nat) : M state unit :=
  match n with O => ret tt | S n' => run_one pick ;; run_times n' pick end.
Lemma run_times_prints pick n : ∀ ls o, length ls = n →
  ∃ ls', run_times n pick (mkState (put <$> ls) o) = Ret tt (mkState [] (o ++ concat ls')) ∧
    ls ≡ₚ ls'.
Proof.
  induction n as [|n IH]; intros ls o Hn.
  - destruct ls; [|done]. exists []. simpl. by rewrite app_nil_r.
  - destruct (run_one_prints pick ls o) as (l & ls1 & E & Hp); [by destruct ls|].
    destruct (IH ls1 (o ++ l)) as (ls2 & E2 & Hp2).
    { apply Permutation_length in Hp. simpl in Hp. lia. }
    exists (l :: ls2). simpl. rewrite (bind_eq_ret _ _ _ _ _ E), E2, <-app_assoc.
    split; [done|]. by rewrite Hp, Hp2.
Qed.

(** Every handler that queue_test posts runs exactly once, in an order that
    is the io_service's choice, and the queue is empty at the end; with the
    oldest chosen each time they run in the order of posting. *)
Theorem queue_test_runs_all pick :
  (∃ ls, queue_test pick (mkState [] []) = Ret tt (mkState [] (concat ls)) ∧ ls ≡ₚ posted) ∧
  queue_test (λ _, 0%nat) (mkState [] []) = Ret tt (mkState [] (concat posted)).
Proof.
  split; [|reflexivity].
  destruct (run_times_prints pick 6 posted [] eq_refl) as (ls & E & Hp). exists ls.
  split; [|by symmetry]. transitivity (run_times 6 pick (mkState (put <$> posted) [])); [|exact E].
  unfold queue_test, post. repeat run_step.
  cbn [queue cerr app run_times]. change (put <$> posted) with [func; lambda; Struct_call; funcC; funcC; funcA 10].
  unfold bind, ret. repeat (destruct (run_one pick _) as [[]| | | |]; try done).
Qed.
End IoService.
