(* ===== verification/AsioServer.v ===== *)
(** * The asynchronous server over boost::asio

    Models the classes Client and Server and the main function of
    net/asio/main.cpp. Which pending operation completes next, and how, is a
    parameter; the states of the server are those a sequence of such events
    reaches. *)

From S2P Require Import Prelude Posix Text Socket.

(** The asynchronous server: its pending operations, the handlers its threads
    run, and a Client object for as long as an operation or a handler holds a
    shared pointer to it. *)
Module AsyncServer.

Inductive op : Type :=
  | AcceptOp (c : nat)
  | ReadOp (c : nat)
  | WriteOp (c : nat) (buffer : list (option ascii)).
(** error_code: none, boost::asio::error::eof, another one. *)
Inductive error : Type := NoError | Eof | OtherError.
#[export] Instance error_eq_dec : EqDecision error.
Proof. solve_decision. Defined.

(** A handler that a thread is about to run: the operation and its outcome,
    and whether the socket still has a remote endpoint. *)
Record handler : Type := mkHandler {
  of_op : op; outcome : error; transferred : Z; has_peer : bool
}.
Definition owner (o : op) : nat :=
  match o with AcceptOp c | ReadOp c | WriteOp c _ => c end.

Record Client : Type := mkClient { m_SendBuf : list (option ascii) }.
Record server : Type := mkServer {
  pending : list op;
  running : list handler;
  clients : gmap nat Client;
  next : nat;
  cerr : list (out False)
}.
Abbreviation sm := (M server).

(** A new Client: its buffers are indeterminate. *)
Definition new_Client : Client := mkClient (replicate 1024 None).

Definition say (l : list (out False)) : sm unit :=
  modify (λ s, mkServer (pending s) (running s) (clients s) (next s) (cerr s ++ l)).
Definition start (o : op) : sm unit :=
  modify (λ s, mkServer (pending s ++ [o]) (running s) (clients s) (next s) (cerr s)).
Definition set_client (c : nat) (cl : Client) : sm unit :=
  modify (λ s, mkServer (pending s) (running s) (<[c := cl]> (clients s)) (next s) (cerr s)).
(** The last shared pointer to [c] goes. *)
Definition release (c : nat) : sm unit :=
  modify (λ s, mkServer (pending s) (running s) (base.delete c (clients s)) (next s) (cerr s)).
(** remote_endpoint() throws without a peer; nothing catches it in the thread. *)
Definition remote_endpoint (h : handler) : sm unit :=
  if has_peer h then ret tt else exit_with 134.

(** [snprintf(buf + k, sizeof(buf) - k, str)] *)
Definition snprintf (buf : list (option ascii)) (k : nat) (str : bytes) : list (option ascii) * nat :=
  let w := Some <$> (take (length buf - k - 1) str ++ [NUL]) in
  (take (length buf) (take k buf ++ w ++ drop (k + length w) buf), (k + length str)%nat).
Definition response (buf : list (option ascii)) : list (option ascii) :=
  let '(buf, k) := snprintf buf 0 (b "HTTP/1.1 200 OK" ++ crlf) in
  let '(buf, k) := snprintf buf k (b "Content-Length: 26" ++ crlf ++ crlf) in
  (snprintf buf k (b "ready proxy")).1.

Definition read (c : nat) : sm unit := start (ReadOp c).

Definition handleRead (c : nat) (h : handler) : sm unit :=
  (if decide (outcome h = Eof) then
     remote_endpoint h ;; say [OStr "-client: "; OEndl]
   else ret tt) ;;
  if decide (outcome h ≠ NoError) then release c
  else
    say [OStr "read: "; OInt (transferred h); OStr " bytes"; OEndl] ;;
    say [OStr "read thread is "; OEndl] ;;
    let! s := get in
    let! cl := or_undef UseAfterFree (clients s !! c) in
    let buf := response (m_SendBuf cl) in
    set_client c (mkClient buf) ;;
    start (WriteOp c buf).

(** The lambda of async_write_some ignores the outcome. *)
Definition handleWrite (c : nat) (h : handler) : sm unit := read c.

Definition startAccept : sm unit :=
  let! s := get in
  let c := next s in
  modify (λ s, mkServer (pending s) (running s) (<[c := new_Client]> (clients s))
                 (S c) (cerr s)) ;;
  start (AcceptOp c).

Definition onAccept (c : nat) (h : handler) : sm unit :=
  if decide (outcome h ≠ NoError) then release c
  else
    remote_endpoint h ;;
    say [OStr "+client: "; OEndl] ;;
    read c ;;
    startAccept.

Definition call (h : handler) : sm unit :=
  match of_op h with
  | AcceptOp c => onAccept c h
  | ReadOp c => handleRead c h
  | WriteOp c _ => handleWrite c h
  end.

(** What happens next: pending operation [i] completes and one of the four
    threads takes its handler; or the handler [i] runs. *)
Inductive event : Type :=
  | Complete (i : nat) (outcome : error) (transferred : Z) (has_peer : bool)
  | Run (i : nat).
Definition threads : nat := 4.

Definition turn (e : event) : sm unit :=
  let! s := get in
  match e with
  | Complete i r n peer =>
      match pending s !! i with
      | Some o =>
          if decide (length (running s) < threads)%nat then
            modify (λ s, mkServer (base.delete i (pending s)) (running s ++ [mkHandler o r n peer])
                           (clients s) (next s) (cerr s))
          else ret tt
      | None => ret tt
      end
  | Run i =>
      match running s !! i with
      | Some h =>
          modify (λ s, mkServer (pending s) (base.delete i (running s)) (clients s) (next s) (cerr s)) ;;
          call h
      | None => ret tt
      end
  end.

(** The threads return from run() when no operation is left. *)
Definition idle (s : server) : bool :=
  match pending s, running s with [], [] => true | _, _ => false end.
(** [listening] is the error of open, set_option, bind or listen; [l] is what
    happens up to the join of the threads. *)
Definition startServer (listening : option exn) (l : list event) : sm unit :=
  match listening with Some e => throw e | None => ret tt end ;;
  startAccept ;;
  say [OStr "listen on port: "; OInt 5555; OEndl] ;;
  for_each turn l ;;
  let! s := get in
  if idle s then ret tt else no_fuel.
Definition main (listening : option exn) (l : list event) : sm Z :=
  say [OStr "main thread is "; OEndl] ;;
  startServer listening l ;;
  ret 0.

Definition init : server := mkServer [] [] ∅ 0 [].

(** ** Reachable states *)

Inductive step (s : server) : server → Prop :=
  | step_turn e s' : turn e s = Ret tt s' → step s s'.
Definition reachable (s : server) : Prop :=
  ∃ s0, startAccept init = Ret tt s0 ∧ rtc step s0 s.

(** The operations that are pending or whose handler is in a thread, and the
    clients they belong to. *)
Definition ops (s : server) : list op := pending s ++ (of_op <$> running s).
Definition owners (s : server) : list nat := owner <$> ops s.
Definition is_accept (o : op) : Prop := match o with AcceptOp _ => True | _ => False end.
#[export] Instance is_accept_dec o : Decision (is_accept o).
Proof. destruct o; apply _. Defined.
Definition accepts (s : server) : nat := length (filter is_accept (ops s)).

(** The 50 characters of an answer and the zero byte behind them. *)
Definition answer_text : bytes :=
  b "HTTP/1.1 200 OK" ++ crlf ++ b "Content-Length: 26" ++ header_end ++ b "ready proxy" ++ [NUL].
Definition blank (buf : list (option ascii)) : Prop :=
  length buf = 1024%nat ∧ drop 51 buf = replicate 973 None.

(** A table of operations agrees with the clients: one operation for each. *)
Definition consistent (l : list op) (m : gmap nat Client) (n : nat) : Prop :=
  NoDup (owner <$> l) ∧ (∀ c, c ∈ dom m ↔ c ∈ owner <$> l) ∧ (∀ c, c ∈ owner <$> l → (c < n)%nat) ∧
  (length (filter is_accept l) ≤ 1)%nat ∧
  (∀ c cl, m !! c = Some cl → blank (m_SendBuf cl)) ∧
  (∀ c buf, WriteOp c buf ∈ l → buf = (Some <$> answer_text) ++ replicate 973 None).
Definition inv (s : server) : Prop :=
  consistent (ops s) (clients s) (next s) ∧ (length (running s) ≤ threads)%nat.

Lemma consistent_perm l l' m n : l ≡ₚ l' → consistent l m n → consistent l' m n.
Proof.
  intros Hp (H1 & H2 & H3 & H4 & H5 & H6). split; [by rewrite <-Hp|].
  split; [intros c; by rewrite <-Hp|]. split; [intros c; rewrite <-Hp; apply H3|].
  split; [by rewrite <-Hp|]. split; [done|]. intros c buf. rewrite <-Hp. apply H6.
Qed.

(** An operation ends: with its client, or with another operation for it. *)
Lemma consistent_release o l m n :
  consistent (o :: l) m n → consistent l (base.delete (owner o) m) n.
Proof.
  intros (H1 & H2 & H3 & H4 & H5 & H6). rewrite fmap_cons in *. apply NoDup_cons in H1 as [Ho H1].
  split; [done|]. split.
  - intros c. rewrite dom_delete_L, elem_of_difference, H2, elem_of_cons, elem_of_singleton.
    split; [tauto|]. intros Hc. split; [by right|]. by intros ->.
  - split; [intros c Hc; apply H3; by apply elem_of_cons; right|].
    split; [rewrite filter_cons in H4; destruct (decide (is_accept o)); simpl in H4; lia|].
    split; [intros c cl [_ Hc]%lookup_delete_Some; by apply (H5 c)|].
    intros c buf Hc. apply (H6 c). by apply elem_of_cons; right.
Qed.
Lemma consistent_next_op o o' l m n cl :
  consistent (o :: l) m n → owner o' = owner o → ¬ is_accept o' →
  blank (m_SendBuf cl) →
  (∀ c buf, o' = WriteOp c buf → buf = (Some <$> answer_text) ++ replicate 973 None) →
  consistent (l ++ [o']) (<[owner o := cl]> m) n.
Proof.
  intros (H1 & H2 & H3 & H4 & H5 & H6) Ho Ha Hb Hw. apply (consistent_perm (o' :: l)).
  { apply Permutation_cons_append. }
  rewrite fmap_cons in *. split; [by rewrite fmap_cons, Ho|]. rewrite fmap_cons, Ho. split.
  - intros c. rewrite dom_insert_L, elem_of_union, elem_of_singleton, H2, elem_of_cons. tauto.
  - split; [done|]. split.
    { rewrite filter_cons_False by done. rewrite filter_cons in H4.
      destruct (decide (is_accept o)); simpl in H4; lia. }
    split.
    + intros c cl' [[_ <-]|[_ Hc]]%lookup_insert_Some; [done|by apply (H5 c)].
    + intros c buf [Hc|Hc]%elem_of_cons; [by apply (Hw c)|]. apply (H6 c).
      by apply elem_of_cons; right.
Qed.
Lemma consistent_accept l m n :
  consistent l m n → filter is_accept l = [] →
  consistent (l ++ [AcceptOp n]) (<[n := new_Client]> m) (S n).
Proof.
  intros (H1 & H2 & H3 & H4 & H5 & H6) Ha. apply (consistent_perm (AcceptOp n :: l)).
  { apply Permutation_cons_append. }
  split.
  { rewrite fmap_cons. apply NoDup_cons. split; [|done]. intros Hn%H3. simpl in Hn. lia. }
  rewrite fmap_cons. split.
  - intros c. rewrite dom_insert_L, elem_of_union, elem_of_singleton, H2, elem_of_cons. done.
  - split; [intros c [->|Hc%H3]%elem_of_cons; simpl; lia|]. split.
    { rewrite filter_cons_True by done. by rewrite Ha. }
    split.
    + intros c cl [[_ <-]|[_ Hc]]%lookup_insert_Some; [by split|by apply (H5 c)].
    + intros c buf [Hc|Hc]%elem_of_cons; [done|by apply (H6 c)].
Qed.

Lemma snprintf_fits buf k str :
  (k + length str < length buf)%nat →
  snprintf buf k str =
    (take k buf ++ (Some <$> str) ++ Some NUL :: drop (k + length str + 1) buf, (k + length str)%nat).
Proof.
  intros H. unfold snprintf. rewrite (take_ge str) by lia. rewrite fmap_app. cbn [fmap list_fmap].
  rewrite length_app, length_fmap. cbn [length]. rewrite <-app_assoc, (Nat.add_assoc k).
  f_equal. apply take_ge. rewrite !length_app, length_take, length_fmap. cbn [length app].
  rewrite length_drop. lia.
Qed.
Lemma snprintf_append buf old k str str' r :
  buf = (Some <$> old) ++ Some NUL :: r → k = length old → (length str ≤ length r)%nat →
  str' = old ++ str →
  snprintf buf k str = ((Some <$> str') ++ Some NUL :: drop (length str) r, length str').
Proof.
  intros -> -> Hr ->. rewrite snprintf_fits.
  - rewrite take_app_length' by (by rewrite length_fmap).
    rewrite drop_app_ge by (rewrite length_fmap; lia). rewrite length_fmap.
    replace (length old + length str + 1 - length old)%nat with (S (length str)) by lia.
    cbn [drop]. by rewrite fmap_app, <-app_assoc, length_app.
  - rewrite length_app, length_fmap. cbn [length]. lia.
Qed.
Lemma response_blank buf :
  blank buf → response buf = (Some <$> answer_text) ++ replicate 973 None ∧ blank (response buf).
Proof.
  intros [Hl Hd]. assert (response buf = (Some <$> answer_text) ++ drop 51 buf) as E.
  { unfold response. rewrite snprintf_fits by (rewrite Hl; simpl; lia). rewrite take_0. cbn [app].
    erewrite (snprintf_append _ (b "HTTP/1.1 200 OK" ++ crlf)); [|reflexivity|reflexivity| |reflexivity].
    2:{ rewrite length_drop, Hl. simpl. lia. }
    erewrite (snprintf_append _ _ _ (b "ready proxy")); [|reflexivity|reflexivity| |reflexivity].
    2:{ rewrite !length_drop, Hl. simpl. lia. }
    cbn [fst]. rewrite !drop_drop. reflexivity. }
  rewrite E, Hd. split; [done|]. by split.
Qed.

(** ** Turns keep the table *)

Lemma ops_running i h s :
  running s !! i = Some h → ops s ≡ₚ of_op h :: pending s ++ (of_op <$> base.delete i (running s)).
Proof.
  intros Hi. unfold ops. rewrite Permutation_middle. f_equiv.
  rewrite <-fmap_cons. f_equiv. by apply delete_Permutation.
Qed.
Lemma ops_pending i o s l :
  pending s !! i = Some o → o :: base.delete i (pending s) ++ l ≡ₚ pending s ++ l.
Proof. intros Hi. rewrite app_comm_cons. f_equiv. symmetry. by apply delete_Permutation. Qed.

(** A handler runs on a table that still counts its operation. *)
Definition call_post (h : handler) (s : server) (r : result server unit) : Prop :=
  match r with
  | Ret _ s' => consistent (ops s') (clients s') (next s') ∧ running s' = running s
  | Exit code _ => code = 134 ∧ has_peer h = false
  | _ => False
  end.

Lemma ops_start o s :
  ops (mkServer (pending s ++ [o]) (running s) (clients s) (next s) (cerr s)) ≡ₚ ops s ++ [o].
Proof. unfold ops. cbn [pending running]. rewrite <-!app_assoc. f_equiv. apply Permutation_app_comm. Qed.
Lemma consistent_client o l m n :
  consistent (o :: l) m n → ∃ cl, m !! owner o = Some cl ∧ blank (m_SendBuf cl).
Proof.
  intros (_ & H2 & _ & _ & H5 & _). specialize (H2 (owner o)) as [_ H2].
  destruct (m !! owner o) as [cl|] eqn:E; [exists cl; eauto|].
  apply not_elem_of_dom in E. destruct E. apply H2. rewrite fmap_cons. by apply elem_of_cons; left.
Qed.
(** A handler starts a read or a write for its own client. *)
Lemma consistent_start o o' s cl l :
  consistent (o :: ops s) (clients s) (next s) → owner o' = owner o → ¬ is_accept o' →
  blank (m_SendBuf cl) →
  (∀ c buf, o' = WriteOp c buf → buf = (Some <$> answer_text) ++ replicate 973 None) →
  l ≡ₚ ops s ++ [o'] → consistent l (<[owner o := cl]> (clients s)) (next s).
Proof.
  intros Hc Ho Ha Hb Hw Hl. eapply consistent_perm; [symmetry; exact Hl|].
  by eapply consistent_next_op.
Qed.

Lemma onAccept_keeps c h s :
  consistent (AcceptOp c :: ops s) (clients s) (next s) → call_post h s (onAccept c h s).
Proof.
  intros Hc. unfold onAccept. destruct (decide (outcome h ≠ NoError)).
  { split; [|done]. by apply (consistent_release (AcceptOp c)). }
  unfold remote_endpoint. destruct (has_peer h) eqn:Ep; [|by split].
  destruct (consistent_client _ _ _ _ Hc) as (cl & Hcl & Hb).
  unfold say, read, startAccept, start. repeat run_step. split; [|done].
  cbn [pending running clients next cerr].
  assert (consistent (ops s ++ [ReadOp c]) (clients s) (next s)) as H1.
  { rewrite <-(insert_id (clients s) c cl) by done.
    apply (consistent_start (AcceptOp c) (ReadOp c) s cl); [done|done|tauto|done|done|done]. }
  apply consistent_accept in H1.
  - eapply consistent_perm; [|exact H1]. unfold ops. cbn [pending running].
    solve_Permutation.
  - destruct Hc as (_ & _ & _ & H4 & _). rewrite filter_cons_True in H4 by done.
    rewrite filter_app, filter_cons_False by tauto. simpl in H4.
    destruct (filter is_accept (ops s)); [done|simpl in H4; lia].
Qed.
Lemma handleRead_keeps c h s :
  consistent (ReadOp c :: ops s) (clients s) (next s) → call_post h s (handleRead c h s).
Proof.
  intros Hc. unfold handleRead. destruct (outcome h); simpl.
  - destruct (consistent_client _ _ _ _ Hc) as (cl & Hcl & Hb).
    apply response_blank in Hb as [Hr Hb].
    unfold say, set_client, start. repeat run_step. cbn [clients pending running next cerr].
    change (owner (ReadOp c)) with c in Hcl. rewrite Hcl. cbn [or_undef]. repeat run_step.
    split; [|done]. cbn [clients next].
    apply (consistent_start (ReadOp c) (WriteOp c (response (m_SendBuf cl))) s); [done|done|tauto|done| |].
    + by intros ? ? [= _ <-].
    + unfold ops. cbn [pending running]. solve_Permutation.
  - unfold remote_endpoint. destruct (has_peer h) eqn:Ep; [|by split].
    unfold say, release. repeat run_step. split; [|done].
    by apply (consistent_release (ReadOp c)).
  - unfold release. repeat run_step. split; [|done]. by apply (consistent_release (ReadOp c)).
Qed.
Lemma call_keeps h s :
  consistent (of_op h :: ops s) (clients s) (next s) → call_post h s (call h s).
Proof.
  intros Hc. unfold call. destruct (of_op h) as [c|c|c buf].
  - by apply onAccept_keeps.
  - by apply handleRead_keeps.
  - destruct (consistent_client _ _ _ _ Hc) as (cl & Hcl & Hb).
    change (owner (WriteOp c buf)) with c in Hcl.
    unfold handleWrite, read, start. repeat run_step. split; [|done]. cbn [clients next].
    rewrite <-(insert_id (clients s) c cl) by done.
    apply (consistent_start (WriteOp c buf) (ReadOp c) s cl); [done|done|tauto|done|done|apply ops_start].
Qed.

(** One turn from a state whose table is consistent. *)
Lemma turn_keeps e s :
  inv s →
  match turn e s with
  | Ret _ s' => inv s'
  | Exit code _ => code = 134 ∧ ∃ i h, e = Run i ∧ running s !! i = Some h ∧ has_peer h = false
  | _ => False
  end.
Proof.
  intros [Hc Hr]. unfold turn. repeat run_step. destruct e as [i r n peer|i].
  - destruct (pending s !! i) as [o|] eqn:Ei; [|by split]. destruct (decide _) as [Hl|]; [|by split].
    repeat run_step. split.
    + cbn [clients next]. eapply consistent_perm; [|exact Hc]. unfold ops. cbn [pending running].
      rewrite fmap_app, <-(ops_pending i o s) by done. cbn [fmap list_fmap of_op]. solve_Permutation.
    + cbn [running]. rewrite length_app. simpl. lia.
  - destruct (running s !! i) as [h|] eqn:Ei; [|by split]. repeat run_step.
    set (s1 := mkServer _ _ _ _ _).
    assert (consistent (of_op h :: ops s1) (clients s1) (next s1)) as Hc1.
    { eapply consistent_perm; [apply (ops_running i h s Ei)|exact Hc]. }
    apply call_keeps in Hc1. unfold call_post in Hc1.
    destruct (call h s1) as [[] s'| |code s'| |]; try done.
    + destruct Hc1 as [Hc1 E]. split; [done|]. rewrite E. unfold s1. cbn [running].
      rewrite length_delete by done. lia.
    + destruct Hc1 as [-> Hp]. split; [done|]. by exists i, h.
Qed.

Lemma inv_init : inv (mkServer [AcceptOp 0] [] {[0%nat := new_Client]} 1 []).
Proof.
  split; [|simpl; lia]. split; [by apply NoDup_singleton|]. split.
  { intros c. cbn [clients]. rewrite dom_singleton_L, elem_of_singleton. simpl.
    by rewrite list_elem_of_singleton. }
  split; [intros c ->%list_elem_of_singleton; simpl; lia|]. split; [simpl; lia|]. split.
  - cbn [clients]. intros c cl [<- <-]%lookup_singleton_Some. by split.
  - by intros c buf [=]%list_elem_of_singleton.
Qed.
Lemma inv_step s s' : inv s → step s s' → inv s'.
Proof. intros Hi [e s1 E]. pose proof (turn_keeps e s Hi) as H. by rewrite E in H. Qed.
Lemma inv_reachable s : reachable s → inv s.
Proof.
  intros (s0 & E & Hr). assert (inv s0) as Hi by (injection E as <-; exact inv_init). clear E.
  induction Hr as [|x y z Hxy _ IH]; [done|]. apply IH. by eapply inv_step.
Qed.

(** C15. In every state of the server each Client object is held by exactly one
    operation, pending or in a thread, and no operation belongs to a released
    Client; at most one operation accepts, at most four handlers run, and new
    clients get numbers not used before. Whatever completes next, the next turn
    ends in such a state again, or in the terminate of a thread that asked for
    the address of a socket without a peer; never in a use after free. *)
Theorem server_table s e :
  reachable s →
  NoDup (owners s) ∧ (∀ c, c ∈ dom (clients s) ↔ c ∈ owners s) ∧ (accepts s ≤ 1)%nat ∧
  (length (running s) ≤ threads)%nat ∧ (∀ c, c ∈ dom (clients s) → (c < next s)%nat) ∧
  match turn e s with
  | Ret _ s' => reachable s'
  | Exit code _ => code = 134 ∧ ∃ i h, e = Run i ∧ running s !! i = Some h ∧ has_peer h = false
  | _ => False
  end.
Proof.
  intros Hs. pose proof (inv_reachable s Hs) as Hi. pose proof (turn_keeps e s Hi) as Ht.
  destruct Hi as [(H1 & H2 & H3 & H4 & _) Hr]. do 4 (split; [done|]). split.
  { intros c Hc. by apply H3, H2. }
  destruct (turn e s) as [[] s'| | | |] eqn:E; try done.
  destruct Hs as (s0 & E0 & Hs). exists s0. split; [done|].
  eapply rtc_r; [exact Hs|]. by eapply step_turn.
Qed.

(** A first client: its connection, its request and the answer. *)
Definition demo : list event :=
  [Complete 0 NoError 0 true; Run 0; Complete 0 NoError 77 true; Run 0; Complete 1 NoError 1024 true].
Fixpoint after (l : list event) (s : server) : server :=
  match l with
  | [] => s
  | e :: l' => match turn e s with Ret _ s' => after l' s' | _ => s end
  end.
Lemma after_reachable l : ∀ s, reachable s → reachable (after l s).
Proof.
  induction l as [|e l IH]; intros s Hs; simpl; [done|].
  destruct (turn e s) as [[] s'| | | |] eqn:E; try done. apply IH.
  destruct Hs as (s0 & E0 & Hs). exists s0. split; [done|]. eapply rtc_r; [exact Hs|].
  by eapply step_turn.
Qed.
Definition started : server := mkServer [AcceptOp 0] [] {[0%nat := new_Client]} 1 [].
Lemma started_reachable : reachable started.
Proof. exists started. split; [reflexivity|]. done. Qed.
Definition serving : server := after demo started.
Lemma serving_reachable : reachable serving.
Proof. apply after_reachable, started_reachable. Qed.

Lemma server_table_witness : reachable serving ∧ owners serving = [1%nat; 0%nat] ∧ NoDup (owners serving).
Proof.
  split; [apply serving_reachable|]. split; [reflexivity|].
  exact (proj1 (server_table serving (Run 0) serving_reachable)).
Defined.

(** ** After an error of the acceptor *)

Definition no_accept (n : nat) (d : gset nat) (s : server) : Prop :=
  filter is_accept (ops s) = [] ∧ next s = n ∧ dom (clients s) ⊆ d.

Lemma filter_nil_perm (l l' : list op) : l ≡ₚ l' → filter is_accept l = [] → filter is_accept l' = [].
Proof. intros Hp H. apply (filter_Permutation is_accept) in Hp. rewrite H in Hp. symmetry in Hp. by apply Permutation_nil_r. Qed.
Lemma filter_nil_cons o (l : list op) :
  filter is_accept (o :: l) = [] ↔ ¬ is_accept o ∧ filter is_accept l = [].
Proof.
  destruct (decide (is_accept o)); [rewrite filter_cons_True|rewrite filter_cons_False]; try done; naive_solver.
Qed.
(** The handler of a read or a write starts no accept and makes no Client. *)
Lemma call_no_accept n d h s :
  ¬ is_accept (of_op h) → no_accept n d s →
  match call h s with Ret _ s' => no_accept n d s' | _ => True end.
Proof.
  intros Ho (Ha & Hn & Hd).
  assert (∀ o l, ¬ is_accept o → l ≡ₚ o :: ops s → filter is_accept l = []) as Hnil.
  { intros o l Hio Hp. eapply filter_nil_perm; [symmetry; exact Hp|]. by apply filter_nil_cons. }
  assert (ops s ≡ₚ ops s) as Hp by done. unfold ops in Hp at 2.
  unfold call. destruct (of_op h) as [c|c|c buf] eqn:Eo; [by destruct Ho| |].
  - unfold handleRead, remote_endpoint.
    assert (no_accept n d (mkServer (pending s) (running s) (base.delete c (clients s)) (next s) (cerr s))) as Hrel.
    { split; [done|]. split; [done|]. cbn [clients]. rewrite dom_delete_L. set_solver. }
    destruct (outcome h); simpl.
    + unfold say, set_client, start. repeat run_step. cbn [clients pending running next cerr].
      destruct (clients s !! c) as [cl|] eqn:Ec; [|done]. cbn [or_undef]. repeat run_step.
      split; [|split; [done|]].
      * apply (Hnil (WriteOp c (response (m_SendBuf cl)))); [tauto|]. unfold ops. cbn [pending running].
        solve_Permutation.
      * cbn [clients]. apply elem_of_dom_2 in Ec. rewrite dom_insert_L. set_solver.
    + destruct (has_peer h); [|done]. unfold say, release. repeat run_step. exact Hrel.
    + unfold release. repeat run_step. exact Hrel.
  - unfold handleWrite, read, start. repeat run_step. split; [|done].
    apply (Hnil (ReadOp c)); [tauto|]. unfold ops. cbn [pending running]. solve_Permutation.
Qed.
Lemma turn_no_accept n d e s s' :
  no_accept n d s → turn e s = Ret tt s' → no_accept n d s'.
Proof.
  intros (Ha & Hn & Hd). unfold turn. repeat run_step. destruct e as [i r t peer|i].
  - destruct (pending s !! i) as [o|] eqn:Ei; [|by intros [= <-]].
    destruct (decide _); [|by intros [= <-]]. intros [= <-]. split; [|done].
    eapply filter_nil_perm; [|exact Ha]. unfold ops. cbn [pending running].
    rewrite fmap_app, <-(ops_pending i o s) by done. cbn [fmap list_fmap of_op]. solve_Permutation.
  - destruct (running s !! i) as [h|] eqn:Ei; [|by intros [= <-]]. repeat run_step.
    eapply filter_nil_perm in Ha; [|apply (ops_running i h s Ei)].
    apply filter_nil_cons in Ha as [Hh Ha]. intros E.
    pose proof (call_no_accept n d h (mkServer (pending s) (base.delete i (running s)) (clients s) (next s)
      (cerr s)) Hh) as H. rewrite E in H. by apply H.
Qed.

(** C21. One failed accept (a handler with an error code, for instance for want
    of descriptors) ends the accepting for ever: in every later state no
    operation accepts, and every client left was there before. *)
Theorem accept_error_stops_accepting s i h c s1 s2 :
  reachable s → running s !! i = Some h → of_op h = AcceptOp c → outcome h ≠ NoError →
  turn (Run i) s = Ret tt s1 → rtc step s1 s2 →
  accepts s2 = 0%nat ∧ next s2 = next s ∧ dom (clients s2) ⊆ dom (clients s).
Proof.
  intros Hs Hi Ho He E Hr. assert (no_accept (next s) (dom (clients s)) s1) as H1.
  { destruct (inv_reachable s Hs) as [(_ & _ & _ & H4 & _) _]. revert E. unfold turn. repeat run_step.
    rewrite Hi. repeat run_step. unfold call. rewrite Ho. unfold onAccept. rewrite decide_True by done.
    intros [= <-]. split; [|split; [done|]].
    - pose proof (filter_Permutation is_accept _ _ (ops_running i h s Hi)) as Hp.
      apply Permutation_length in Hp. rewrite Ho, filter_cons_True in Hp by done. simpl in Hp.
      apply length_zero_iff_nil. unfold ops at 1. cbn [pending running]. lia.
    - cbn [clients]. rewrite dom_delete_L. set_solver. }
  clear E. induction Hr as [x|x y z [e y' Hxy] _ IH].
  - destruct H1 as (Ha & ? & ?). unfold accepts. by rewrite Ha.
  - apply IH. by eapply turn_no_accept.
Qed.
Definition accept_failed : server := after [Complete 0 OtherError 0 false] started.
Lemma accept_failed_reachable : reachable accept_failed.
Proof. apply after_reachable, started_reachable. Qed.
Lemma accept_error_stops_accepting_witness :
  turn (Run 0) accept_failed = Ret tt (after [Run 0] accept_failed) ∧
  accepts (after [Run 0] accept_failed) = 0%nat.
Proof.
  split; [reflexivity|].
  exact (proj1 (accept_error_stops_accepting accept_failed 0 (mkHandler (AcceptOp 0) OtherError 0 false) 0
    (after [Run 0] accept_failed) (after [Run 0] accept_failed)
    accept_failed_reachable eq_refl eq_refl ltac:(done) eq_refl (rtc_refl _ _))).
Defined.

(** ** The service of one client *)

(** The pending operation completes and the thread that takes its handler runs
    it before anything else happens. *)
Lemma complete_run i o r n peer s :
  pending s !! i = Some o → (length (running s) < threads)%nat →
  for_each turn [Complete i r n peer; Run (length (running s))] s =
    call (mkHandler o r n peer) (mkServer (base.delete i (pending s)) (running s) (clients s) (next s) (cerr s)).
Proof.
  intros Hi Hl. cbn [for_each]. unfold turn at 1. rewrite bind_assoc. repeat run_step.
  rewrite Hi, decide_True by done. repeat run_step. unfold turn. rewrite bind_assoc. repeat run_step.
  cbn [running pending clients next cerr].
  rewrite list_lookup_middle by done. rewrite bind_assoc. repeat run_step.
  cbn [running pending clients next cerr]. rewrite list.delete_middle, app_nil_r. unfold bind at 1.
  destruct (call _ _) as [[] s'| | | |]; done.
Qed.

(** C20. A client whose request has arrived gets its answer and is read again,
    two operations later, whatever becomes of the write: the answer is offered
    to the socket as the whole 1024-byte buffer, of which the program has set
    51 bytes, and its Content-Length announces 26 bytes where the body has 11. *)
Theorem client_served s i c n peer :
  reachable s → pending s !! i = Some (ReadOp c) → (length (running s) < threads)%nat →
  let k := length (running s) in
  ∃ s2 buf, for_each turn [Complete i NoError n peer; Run k] s = Ret tt s2 ∧
    pending s2 = base.delete i (pending s) ++ [WriteOp c buf] ∧
    length buf = 1024%nat ∧ take 51 buf = Some <$> answer_text ∧ drop 51 buf = replicate 973 None ∧
    ∀ r n' peer', ∃ s4,
      for_each turn [Complete (length (base.delete i (pending s))) r n' peer'; Run k] s2 = Ret tt s4 ∧
      pending s4 = base.delete i (pending s) ++ [ReadOp c] ∧ running s4 = running s ∧
      dom (clients s4) = dom (clients s).
Proof.
  intros Hs Hi Hl k. destruct (inv_reachable s Hs) as [Hc _].
  assert (consistent (ReadOp c :: base.delete i (pending s) ++ (of_op <$> running s)) (clients s) (next s)) as Hc'.
  { eapply consistent_perm; [|exact Hc]. symmetry. by apply ops_pending. }
  destruct (consistent_client _ _ _ _ Hc') as (cl & Hcl & Hb). change (owner (ReadOp c)) with c in Hcl.
  destruct (response_blank _ Hb) as [Hr [Hlen Hd]].
  unfold k. rewrite complete_run with (o := ReadOp c) by done.
  set (buf := response (m_SendBuf cl)) in *.
  exists (mkServer (base.delete i (pending s) ++ [WriteOp c buf]) (running s) (<[c := mkClient buf]> (clients s))
    (next s) ((cerr s ++ [OStr "read: "; OInt n; OStr " bytes"; OEndl]) ++ [OStr "read thread is "; OEndl])), buf.
  split.
  { unfold call. cbn [of_op]. unfold handleRead. simpl. unfold say, set_client, start. repeat run_step.
    cbn [clients pending running next cerr]. rewrite Hcl. reflexivity. }
  split; [done|]. split; [done|]. split; [by rewrite Hr|]. split; [done|].
  intros r n' peer'. set (s2 := mkServer _ _ _ _ _). change (running s) with (running s2).
  rewrite complete_run with (o := WriteOp c buf); [|by apply list_lookup_middle|done].
  unfold call. cbn [of_op]. unfold handleWrite, read, start. eexists. split; [reflexivity|].
  unfold s2. cbn [pending running clients]. rewrite list.delete_middle, app_nil_r. split; [done|].
  split; [done|]. rewrite dom_insert_L. apply elem_of_dom_2 in Hcl. set_solver.
Qed.
Definition connected : server := after [Complete 0 NoError 0 true; Run 0] started.
Lemma connected_reachable : reachable connected.
Proof. apply after_reachable, started_reachable. Qed.
Lemma client_served_witness : ∃ s2,
  for_each turn [Complete 0 NoError 77 true; Run 0] connected = Ret tt s2 ∧
  ∃ buf, pending s2 = [AcceptOp 1; WriteOp 0 buf] ∧ length buf = 1024%nat.
Proof.
  destruct (client_served connected 0 0 77 true connected_reachable eq_refl ltac:(vm_compute; lia))
    as (s2 & buf & E & Hp & Hl & _).
  exists s2. split; [exact E|]. exists buf. split; [exact Hp|exact Hl].
Defined.
End AsyncServer.
