(* ===== verification/Singleton.v ===== *)
(** * Singletons

    Models examples/007_private_constructor.cpp: [BadSingleton] (an object made
    on the heap at the first use), [GoodSingleton] (a local static object) and
    the class template [Singleton], whose GetInstance is entered by any number
    of threads. The first two are straight-line code over the objects; the
    threads of the third are a transition system whose steps are the accesses to
    the atomic pointer, the mutex and the allocator. *)

From S2P Require Import Prelude.

(** The static pointer of BadSingleton and the counters of its objects, the
    counter of the local static GoodSingleton once it is constructed, and the
    terminal. *)
Record state : Type := mkState {
  instance_ : option nat;
  counts : gmap nat Z;
  next : nat;
  good : option Z;
  cout : list (out False)
}.
Definition init : state := mkState None ∅ 0 None [].

Definition print_out (l : list (out False)) : M state unit :=
  modify (λ s, mkState (instance_ s) (counts s) (next s) (good s) (cout s ++ l)).

Module BadSingleton.
Section BadSingleton.
(** How [operator<<] writes the address of an object. *)
Context (address : nat → Z).

Definition set_instance (p : option nat) : M state unit :=
  modify (λ s, mkState p (counts s) (next s) (good s) (cout s)).
Definition set_count (p : nat) (n : Z) : M state unit :=
  modify (λ s, mkState (instance_ s) (<[p := n]> (counts s)) (next s) (good s) (cout s)).

(** [new BadSingleton()] *)
Definition new_BadSingleton : M state nat :=
  let! s := get in
  let p := next s in
  modify (λ s, mkState (instance_ s) (<[p := 0]> (counts s)) (S p) (good s) (cout s)) ;;
  print_out [OStr "BadSingleton()"; OEndl] ;;
  ret p.
Definition getInstance : M state nat :=
  let! s := get in
  match instance_ s with
  | Some p => ret p
  | None => let! p := new_BadSingleton in set_instance (Some p) ;; ret p
  end.

(** The member functions of the object at [p]. *)
Definition count (p : nat) : M state Z :=
  let! s := get in or_undef UseAfterFree (counts s !! p).
Definition inc (p : nat) : M state unit :=
  let! n := count p in let! n' := int_arith (n + 1) in set_count p n'.
Definition print (p : nat) : M state unit :=
  let! s := get in
  let! n := count p in
  print_out [OInt (match instance_ s with Some q => address q | None => 0 end);
             OStr " "; OInt n; OEndl].
(** [delete p] *)
Definition delete (p : nat) : M state unit :=
  let! _ := count p in
  print_out [OStr "~BadSingleton()"; OEndl] ;;
  set_instance None ;;
  modify (λ s, mkState (instance_ s) (base.delete p (counts s)) (next s) (good s) (cout s)).

Definition demo : M state (nat * nat) :=
  let! s11 := getInstance in
  let! s12 := getInstance in
  inc s11 ;; inc s11 ;; inc s11 ;;
  print s11 ;; print s12 ;;
  inc s12 ;; inc s12 ;;
  print s12 ;; print s11 ;;
  let! p := getInstance in print p ;;
  let! p := getInstance in delete p ;;
  ret (s11, s12).

(** ** What a client of getInstance sees *)

Inductive op : Type := Inc | Print | Delete.
Definition run_op (o : op) : M state unit :=
  let! p := getInstance in
  match o with Inc => inc p | Print => print p | Delete => delete p end.

(** The specification: one counter, that of the current object. *)
Definition spec_op (o : op) (c : option Z) : option Z :=
  let n := default 0 c in
  match o with Inc => Some (n + 1) | Print => Some n | Delete => None end.
Definition spec (ops : list op) (c : option Z) : option Z := foldl (λ c o, spec_op o c) c ops.

(** The only object alive is the one the static pointer points to. *)
Definition holds (c : option Z) (s : state) : Prop :=
  match c with
  | None => instance_ s = None ∧ counts s = ∅
  | Some n => ∃ p, instance_ s = Some p ∧ counts s = {[p := n]}
  end.

Lemma getInstance_holds c s :
  holds c s → ∃ p s', getInstance s = Ret p s' ∧ instance_ s' = Some p ∧
    counts s' = {[p := default 0 c]}.
Proof.
  unfold getInstance. intros H. repeat run_step. destruct c as [n|]; simpl in H.
  - destruct H as (p & Hi & Hc). exists p, s. by rewrite Hi, Hc.
  - destruct H as [-> Hc]. unfold new_BadSingleton, print_out, set_instance. repeat run_step.
    do 2 eexists. split; [reflexivity|]. cbn [instance_ counts]. by rewrite Hc, insert_empty.
Qed.
Lemma run_op_holds o c s :
  holds c s → (o = Inc → default 0 c < INT_MAX) → (0 ≤ default 0 c) →
  ∃ s', run_op o s = Ret tt s' ∧ holds (spec_op o c) s'.
Proof.
  intros H Hlt H0. destruct (getInstance_holds c s H) as (p & s1 & E & Hi & Hc).
  unfold run_op. rewrite (bind_eq_ret _ _ _ _ _ E). destruct o; simpl.
  - unfold inc, count. repeat run_step. rewrite Hc, lookup_singleton_eq. cbn [or_undef].
    repeat run_step. specialize (Hlt eq_refl). rewrite (bind_eq_ret _ _ _ _ _ (int_arith_small (default 0 c + 1)
      s1 ltac:(unfold INT_MIN, INT_MAX in *; lia))).
    eexists. split; [reflexivity|]. cbn [instance_ counts]. exists p. split; [done|].
    by rewrite Hc, insert_singleton_eq.
  - unfold print, count. repeat run_step. rewrite Hc, lookup_singleton_eq. cbn [or_undef].
    repeat run_step. eexists. split; [reflexivity|]. exists p. by split.
  - unfold delete, count, print_out, set_instance. repeat run_step. rewrite Hc, lookup_singleton_eq.
    cbn [or_undef]. repeat run_step. eexists. split; [reflexivity|]. cbn [instance_ counts].
    by rewrite Hc, delete_singleton_eq.
Qed.


Lemma run_ops_hold ops : ∀ c s,
  holds c s → 0 ≤ default 0 c → default 0 c + Z.of_nat (length ops) ≤ INT_MAX →
  ∃ s', for_each run_op ops s = Ret tt s' ∧ holds (spec ops c) s'.
Proof.
  induction ops as [|o ops IH]; intros c s H H0 Hn; [by exists s|].
  cbn [length] in Hn.
  destruct (run_op_holds o c s H) as (s1 & E & H1); [lia|done|].
  destruct (IH (spec_op o c) s1 H1) as (s2 & E2 & H2).
  - destruct o; simpl; lia.
  - unfold INT_MAX in *. destruct o; simpl; lia.
  - exists s2. by rewrite (for_each_cons _ _ _ _ _ E).
Qed.

(** Clients that reach the object through getInstance each time share one
    counter: whatever they call, and however often the object is deleted in
    between, at most one object is alive and its count is the number of calls of
    inc since it was made. *)
Theorem singleton_counts ops :
  Z.of_nat (length ops) ≤ INT_MAX →
  ∃ s, for_each run_op ops init = Ret tt s ∧ holds (spec ops None) s.
Proof. intros Hn. by apply run_ops_hold. Qed.

(** But the pointers of main outlive the object: after the delete both dangle,
    and a call of the object through them is a use after free, while getInstance
    makes another object with a count of 0. *)
Theorem pointers_dangle :
  ∃ p s, demo init = Ret (p, p) s ∧ counts s = ∅ ∧
    cout s = [OStr "BadSingleton()"; OEndl] ++ concat [
      [OInt (address p); OStr " "; OInt 3; OEndl]; [OInt (address p); OStr " "; OInt 3; OEndl];
      [OInt (address p); OStr " "; OInt 5; OEndl]; [OInt (address p); OStr " "; OInt 5; OEndl];
      [OInt (address p); OStr " "; OInt 5; OEndl]] ++ [OStr "~BadSingleton()"; OEndl] ∧
    inc p s = Undef UseAfterFree ∧ print p s = Undef UseAfterFree ∧
    ∃ q s', getInstance s = Ret q s' ∧ q ≠ p ∧ counts s' = {[q := 0]}.
Proof.
  exists 0%nat. eexists. split; [vm_compute; reflexivity|]. do 4 (split; [reflexivity|]).
  do 2 eexists. split; [vm_compute; reflexivity|]. by split.
Qed.
End BadSingleton.
End BadSingleton.

Module GoodSingleton.
Definition set_good (n : option Z) : M state unit :=
  modify (λ s, mkState (instance_ s) (counts s) (next s) n (cout s)).
(** A reference to the object, which is alive from here to the end of main. *)
Definition getInstance : M state unit :=
  let! s := get in
  match good s with
  | Some _ => ret tt
  | None => set_good (Some 0) ;; print_out [OStr "GoodSingleton()"; OEndl]
  end.
Definition count : M state Z := let! s := get in or_undef UseAfterFree (good s).
Definition inc : M state unit :=
  let! n := count in let! n' := int_arith (n + 1) in set_good (Some n').
Definition print : M state unit := let! n := count in print_out [OInt n; OEndl].
(** The destructor of the local static object, after main. *)
Definition at_exit : M state unit :=
  let! s := get in
  match good s with
  | Some _ => print_out [OStr "~GoodSingleton()"; OEndl] ;; set_good None
  | None => ret tt
  end.

Definition demo : M state unit :=
  getInstance ;; getInstance ;;
  inc ;; inc ;; inc ;;
  print ;; print ;;
  inc ;; inc ;;
  print ;; print ;;
  getInstance ;; print.
End GoodSingleton.

(** main, and the destruction of the static object after it. *)
Definition main (address : nat → Z) : M state Z :=
  BadSingleton.demo address ;;
  GoodSingleton.demo ;;
  GoodSingleton.at_exit ;;
  ret 0.

Example main_prints (address : nat → Z) : ∃ s, main address init = Ret 0 s ∧
  drop 24 (cout s) = [OStr "GoodSingleton()"; OEndl; OInt 3; OEndl; OInt 3; OEndl; OInt 5; OEndl;
                      OInt 5; OEndl; OInt 5; OEndl; OStr "~GoodSingleton()"; OEndl] ∧
  counts s = ∅ ∧ good s = None.
Proof. eexists. split; [vm_compute; reflexivity|]. by split. Qed.

(** The class template: GetInstance with double-checked locking. *)
Module Singleton.

(** Where a thread is in GetInstance; a pointer is an index of the heap. *)
Inductive pc : Type :=
  | Outside
  | AtLock                          (* the first load gave nullptr *)
  | Locked                          (* before the second load *)
  | Creating                        (* before [new Type] *)
  | Constructing (p : nat)          (* in the constructor *)
  | Constructed (p : nat)           (* before the store *)
  | Unlocking (r : option nat)      (* the lock_guard goes; [None]: an exception passes *)
  | Returned (p : nat).

(** [heap]: the objects, and whether their constructor has ended. *)
Record shared : Type := mkShared {
  atomic_instance_ : option nat;
  initialization_mutex_ : option nat;
  heap : gmap nat bool;
  next : nat;
  threads : list pc
}.

(** One step of thread [i]; [ok] tells whether an allocation or a constructor
    succeeds. A thread that has returned may call again. *)
Definition step_of (i : nat) (ok : bool) (s : shared) : option shared :=
  let go pc := mkShared (atomic_instance_ s) (initialization_mutex_ s) (heap s) (next s)
                       (<[i := pc]> (threads s)) in
  match threads s !! i with
  | None => None
  | Some Outside =>
      match atomic_instance_ s with Some p => Some (go (Returned p)) | None => Some (go AtLock) end
  | Some AtLock =>
      match initialization_mutex_ s with
      | Some _ => None
      | None => Some (mkShared (atomic_instance_ s) (Some i) (heap s) (next s) (<[i := Locked]> (threads s)))
      end
  | Some Locked =>
      match atomic_instance_ s with
      | Some p => Some (go (Unlocking (Some p)))
      | None => Some (go Creating)
      end
  | Some Creating =>
      if ok then
        Some (mkShared (atomic_instance_ s) (initialization_mutex_ s) (<[next s := false]> (heap s))
                (S (next s)) (<[i := Constructing (next s)]> (threads s)))
      else Some (go (Unlocking None))
  | Some (Constructing p) =>
      if ok then
        Some (mkShared (atomic_instance_ s) (initialization_mutex_ s) (<[p := true]> (heap s))
                (next s) (<[i := Constructed p]> (threads s)))
      else
        Some (mkShared (atomic_instance_ s) (initialization_mutex_ s) (base.delete p (heap s))
                (next s) (<[i := Unlocking None]> (threads s)))
  | Some (Constructed p) =>
      Some (mkShared (Some p) (initialization_mutex_ s) (heap s) (next s)
              (<[i := Unlocking (Some p)]> (threads s)))
  | Some (Unlocking r) =>
      Some (mkShared (atomic_instance_ s) None (heap s) (next s)
              (<[i := match r with Some p => Returned p | None => Outside end]> (threads s)))
  | Some (Returned _) => Some (go Outside)
  end.

Inductive step (s : shared) : shared → Prop :=
  | step_thread i ok s' : step_of i ok s = Some s' → step s s'.
Definition idle (n : nat) : shared := mkShared None None ∅ 0 (replicate n Outside).
Definition reachable (n : nat) : shared → Prop := rtc step (idle n).

(** The sections of the code that the mutex guards. *)
Definition critical (c : pc) : bool :=
  match c with
  | Locked | Creating | Constructing _ | Constructed _ | Unlocking _ => true
  | Outside | AtLock | Returned _ => false
  end.
(** What the code at [c] knows about the pointer. *)
Definition knows (c : pc) (inst : option nat) : Prop :=
  match c with
  | Creating | Constructing _ | Constructed _ | Unlocking None => inst = None
  | Unlocking (Some p) | Returned p => inst = Some p
  | Outside | AtLock | Locked => True
  end.
(** The heap while nothing is published, by what the holder of the mutex does. *)
Definition building (c : option pc) : gmap nat bool :=
  match c with
  | Some (Constructing p) => {[p := false]}
  | Some (Constructed p) => {[p := true]}
  | _ => ∅
  end.
Definition holder (s : shared) : option pc :=
  match initialization_mutex_ s with Some i => threads s !! i | None => None end.

Record inv (s : shared) : Prop := mkInv {
  inv_lock i c : threads s !! i = Some c → critical c = true → initialization_mutex_ s = Some i;
  inv_holder i : initialization_mutex_ s = Some i → ∃ c, threads s !! i = Some c ∧ critical c = true;
  inv_knows i c : threads s !! i = Some c → knows c (atomic_instance_ s);
  inv_heap : heap s = match atomic_instance_ s with
                      | Some p => {[p := true]}
                      | None => building (holder s)
                      end
}.

Lemma threads_init_inv n : inv (idle n).
Proof.
  split; simpl; try done; intros i c [-> _]%lookup_replicate; done.
Qed.

(** Thread [i] moves from [c] to [c'] and only the fields it owns change. *)
Lemma inv_move s s' i c c' :
  inv s → threads s !! i = Some c → threads s' = <[i := c']> (threads s) →
  (critical c = true → initialization_mutex_ s' = if critical c' then Some i else None) →
  (critical c = false → initialization_mutex_ s' =
     if critical c' then Some i else initialization_mutex_ s) →
  (critical c = false → critical c' = true → initialization_mutex_ s = None) →
  knows c' (atomic_instance_ s') →
  (atomic_instance_ s' = atomic_instance_ s ∨ (critical c = true ∧ atomic_instance_ s = None)) →
  heap s' = match atomic_instance_ s' with
            | Some p => {[p := true]}
            | None => building (holder s')
            end →
  inv s'.
Proof.
  intros Hi Hc Ht Hm1 Hm2 Hm3 Hk Ha Hh.
  pose proof (lookup_lt_Some _ _ _ Hc) as Hlt.
  assert (threads s' !! i = Some c') as Hc' by (by rewrite Ht, list_lookup_insert_eq).
  assert (∀ j, i ≠ j → threads s' !! j = threads s !! j) as Hne.
  { intros j Hj. by rewrite Ht, list_lookup_insert_ne. }
  split; [| | |done].
  - intros j d Hj Hd. destruct (decide (i = j)) as [<-|Hij].
    + simplify_eq. rewrite Hd in *. destruct (critical c); auto.
    + rewrite Hne in Hj by done. pose proof (inv_lock s Hi j d Hj Hd) as E.
      destruct (critical c) eqn:Ec.
      * pose proof (inv_lock s Hi i c Hc Ec). congruence.
      * rewrite Hm2 by done. destruct (critical c'); [|done]. specialize (Hm3 eq_refl eq_refl). congruence.
  - intros j Hj. destruct (critical c) eqn:Ec; [rewrite Hm1 in Hj by done|rewrite Hm2 in Hj by done];
      destruct (critical c') eqn:Ec'; simplify_eq; eauto.
    destruct (decide (i = j)) as [<-|Hij].
    + destruct (inv_holder s Hi i Hj) as (d & Hd & ?). congruence.
    + rewrite Hne by done. by apply (inv_holder s Hi).
  - intros j d Hj. destruct (decide (i = j)) as [<-|Hij]; [by simplify_eq|].
    rewrite Hne in Hj by done. pose proof (inv_knows s Hi j d Hj) as Hd.
    destruct Ha as [->|[Ec En]]; [done|].
    rewrite En in Hd. destruct (critical d) eqn:Ed; [|by destruct d].
    pose proof (inv_lock s Hi i c Hc Ec). pose proof (inv_lock s Hi j d Hj Ed). congruence.
Qed.

Lemma holder_of s i c :
  inv s → threads s !! i = Some c → critical c = true → holder s = Some c.
Proof. intros Hi Hc Ec. unfold holder. by rewrite (inv_lock s Hi i c Hc Ec). Qed.

(** What the heap is when a thread in the guarded section is at [c]. *)
Lemma heap_of s i c :
  inv s → threads s !! i = Some c → critical c = true → atomic_instance_ s = None →
  heap s = building (Some c).
Proof. intros Hi Hc Ec En. rewrite (inv_heap s Hi), En. by rewrite (holder_of s i c). Qed.

Lemma inv_step_of i ok s s' : inv s → step_of i ok s = Some s' → inv s'.
Proof.
  intros Hi. unfold step_of. destruct (threads s !! i) as [c|] eqn:Ec; [|done].
  pose proof (inv_knows s Hi i c Ec) as Hk. pose proof (inv_heap s Hi) as Hh.
  pose proof (lookup_lt_Some _ _ _ Ec) as Hlt.
  assert (∀ c', <[i := c']> (threads s) !! i = Some c') as Hnew by (intros; by apply list_lookup_insert_eq).
  destruct c as [| | | |p|p|r|p]; simpl in Hk.
  - destruct (atomic_instance_ s) as [p|] eqn:Ea; intros [= <-];
      (eapply inv_move; [done|exact Ec|reflexivity|..]; try done; simpl; rewrite ?Ea; auto).
    rewrite Hh. unfold holder. simpl. destruct (initialization_mutex_ s) as [j|] eqn:Em; [|done].
    destruct (decide (i = j)) as [<-|]; [|by rewrite list_lookup_insert_ne].
    destruct (inv_holder s Hi i Em) as (d & Hd & ?). by simplify_eq.
  - destruct (initialization_mutex_ s) as [j|] eqn:Em; [done|]. intros [= <-].
    eapply inv_move; [done|exact Ec|reflexivity|..]; try done; simpl; auto.
    rewrite Hh. destruct (atomic_instance_ s); [done|]. unfold holder. simpl. by rewrite Em, Hnew.
  - pose proof (inv_lock s Hi i _ Ec eq_refl) as Em.
    destruct (atomic_instance_ s) as [p|] eqn:Ea; intros [= <-];
      (eapply inv_move; [done|exact Ec|reflexivity|..]; try done; simpl; rewrite ?Ea; auto).
    rewrite (heap_of s i _ Hi Ec eq_refl Ea). unfold holder. simpl. by rewrite Em, Hnew.
  - pose proof (inv_lock s Hi i _ Ec eq_refl) as Em. pose proof (heap_of s i _ Hi Ec eq_refl Hk) as Hb.
    destruct ok; intros [= <-];
      (eapply inv_move; [done|exact Ec|reflexivity|..]; try done; simpl; auto;
       rewrite Hk, Hb; unfold holder; simpl; by rewrite Em, Hnew, ?insert_empty).
  - pose proof (inv_lock s Hi i _ Ec eq_refl) as Em. pose proof (heap_of s i _ Hi Ec eq_refl Hk) as Hb.
    destruct ok; intros [= <-];
      (eapply inv_move; [done|exact Ec|reflexivity|..]; try done; simpl; auto;
       rewrite Hk, Hb; unfold holder; simpl; rewrite Em, Hnew; simpl).
    + by rewrite insert_singleton_eq.
    + by rewrite delete_singleton_eq.
  - pose proof (inv_lock s Hi i _ Ec eq_refl) as Em. pose proof (heap_of s i _ Hi Ec eq_refl Hk) as Hb.
    intros [= <-]. eapply inv_move; [done|exact Ec|reflexivity|..]; try done; simpl; auto.
  - pose proof (inv_lock s Hi i _ Ec eq_refl) as Em. intros [= <-].
    destruct r as [p|]; (eapply inv_move; [done|exact Ec|reflexivity|..]; try done; simpl; auto).
    + by rewrite Hh, Hk.
    + by rewrite Hk, (heap_of s i _ Hi Ec eq_refl Hk).
  - intros [= <-]. eapply inv_move; [done|exact Ec|reflexivity|..]; try done; simpl; auto.
    by rewrite Hh, Hk.
Qed.
Lemma reachable_inv n s : reachable n s → inv s.
Proof.
  intros H. pose proof (threads_init_inv n) as Hi. unfold reachable in H.
  induction H as [|x y z [i ok y' E] _ IH]; [done|]. apply IH. by eapply inv_step_of.
Qed.

Lemma instance_stays s s' p :
  rtc step s s' → inv s → atomic_instance_ s = Some p → atomic_instance_ s' = Some p.
Proof.
  intros H. induction H as [|x y z [i ok y' E] _ IH]; [done|]. intros Hi Hp.
  apply IH; [by eapply inv_step_of|]. revert E. unfold step_of.
  destruct (threads x !! i) as [c|] eqn:Ec; [|done]. pose proof (inv_knows x Hi i c Ec) as Hk.
  destruct c as [| | | |q|q|r|q]; simpl in Hk; rewrite ?Hp in *; try done;
    repeat case_match; intros [= <-]; done.
Qed.

(** C11. However the threads interleave, and whichever allocations and
    constructors fail, GetInstance makes one object: at most one thread is
    inside the lock, at most one object exists, every thread that has returned
    holds the same, completely constructed object, and it stays the instance for
    ever. *)
Theorem GetInstance_unique n s :
  reachable n s →
  (∀ i j c d, threads s !! i = Some c → threads s !! j = Some d →
     critical c = true → critical d = true → i = j) ∧
  (size (heap s) ≤ 1)%nat ∧
  (∀ i p, threads s !! i = Some (Returned p) →
     heap s = {[p := true]} ∧ ∀ s', rtc step s s' → atomic_instance_ s' = Some p).
Proof.
  intros Hr. pose proof (reachable_inv n s Hr) as Hi. split; [|split].
  - intros i j c d Hc Hd Ec Ed. pose proof (inv_lock s Hi i c Hc Ec). pose proof (inv_lock s Hi j d Hd Ed).
    congruence.
  - rewrite (inv_heap s Hi). destruct (atomic_instance_ s); [by rewrite map_size_singleton|].
    destruct (holder s) as [[]|]; simpl; rewrite ?map_size_empty, ?map_size_singleton; lia.
  - intros i p Hp. pose proof (inv_knows s Hi i _ Hp) as Hk. simpl in Hk. split.
    + by rewrite (inv_heap s Hi), Hk.
    + intros s' Hs. by eapply instance_stays.
Qed.

(** ** Every call can return *)

(** Threads run in the order of the list, with memory and a constructor that
    does not throw. *)
Fixpoint runs (l : list nat) (s : shared) : option shared :=
  match l with
  | [] => Some s
  | i :: l' => match step_of i true s with Some s' => runs l' s' | None => None end
  end.
Definition rank (c : pc) : nat :=
  match c with
  | Unlocking None => 8 | Outside => 7 | AtLock => 6 | Locked => 5 | Creating => 4
  | Constructing _ => 3 | Constructed _ => 2 | Unlocking (Some _) => 1 | Returned _ => 0
  end.
Definition free_for (i : nat) (s : shared) : Prop :=
  initialization_mutex_ s = None ∨ initialization_mutex_ s = Some i.

Lemma runs_app l l' s s' : runs l s = Some s' → runs (l ++ l') s = runs l' s'.
Proof.
  revert s. induction l as [|i l IH]; intros s; simpl; [by intros [= <-]|].
  destruct (step_of i true s) as [s1|]; [|done]. apply IH.
Qed.
(** A thread that has not returned and is not kept waiting takes a step. *)
Lemma advance i c s :
  inv s → threads s !! i = Some c → (∀ p, c ≠ Returned p) → free_for i s →
  ∃ s' c', step_of i true s = Some s' ∧ threads s' = <[i := c']> (threads s) ∧
    (rank c' < rank c)%nat ∧ free_for i s'.
Proof.
  intros Hi Hc Hnr Hf. pose proof (inv_knows s Hi i c Hc) as Hk. unfold step_of. rewrite Hc.
  destruct c as [| | | |p|p|r|p]; simpl in Hk.
  - destruct (atomic_instance_ s) as [p|]; do 2 eexists; (split; [reflexivity|]);
      (split; [reflexivity|]); (split; [simpl; lia|done]).
  - destruct Hf as [Hf|Hf].
    + rewrite Hf. do 2 eexists. split; [reflexivity|]. split; [reflexivity|]. split; [simpl; lia|by right].
    + destruct (inv_holder s Hi i Hf) as (d & Hd & ?). by simplify_eq.
  - destruct (atomic_instance_ s) as [p|]; do 2 eexists; (split; [reflexivity|]);
      (split; [reflexivity|]); (split; [simpl; lia|done]).
  - do 2 eexists. split; [reflexivity|]. split; [reflexivity|]. split; [simpl; lia|done].
  - do 2 eexists. split; [reflexivity|]. split; [reflexivity|]. split; [simpl; lia|done].
  - do 2 eexists. split; [reflexivity|]. split; [reflexivity|]. split; [simpl; lia|done].
  - do 2 eexists. split; [reflexivity|]. split; [reflexivity|].
    split; [destruct r; simpl; lia|by left].
  - by destruct (Hnr p).
Qed.
Lemma returns_alone i : ∀ k c s,
  (rank c ≤ k)%nat → inv s → threads s !! i = Some c → free_for i s →
  ∃ l s' p, (length l ≤ k)%nat ∧ runs l s = Some s' ∧ threads s' !! i = Some (Returned p) ∧
    initialization_mutex_ s' = None ∧ inv s' ∧ (∀ j, i ≠ j → threads s' !! j = threads s !! j).
Proof.
  induction k as [|k IH]; intros c s Hk Hi Hc Hf.
  all: assert ((∃ p, c = Returned p) ∨ (∀ p, c ≠ Returned p)) as [[p ->]|Hnr]
    by (destruct c; eauto; by right).
  all: try (exists [], s, p; split; [simpl; lia|]; do 2 (split; [done|]); split; [|done];
    destruct Hf as [|Hf]; [done|]; destruct (inv_holder s Hi i Hf) as (d & Hd & ?); by simplify_eq).
  - destruct c as [| | | |p|p|[p|]|p]; simpl in Hk; try lia. by destruct (Hnr p).
  - destruct (advance i c s Hi Hc) as (s1 & c1 & E & Ht & Hlt & Hf1); [done|done|].
    pose proof (lookup_lt_Some _ _ _ Hc) as Hl.
    destruct (IH c1 s1) as (l & s' & p & Hn & Er & Hp & Hm & Hi' & Hj).
    + lia.
    + by eapply inv_step_of.
    + rewrite Ht. by apply list_lookup_insert_eq.
    + done.
    + exists (i :: l), s', p. split; [simpl; lia|]. simpl. rewrite E. do 4 (split; [done|]).
      intros j Hij. rewrite Hj by done. rewrite Ht. by apply list_lookup_insert_ne.
Qed.

(** C12. No call of GetInstance is stuck: from every reachable state, whatever
    threads are inside it and wherever they stand, and for any thread, there is
    a schedule of at most sixteen steps after which the thread has returned,
    when memory and the constructor do not fail. *)
Theorem GetInstance_returns n s i :
  reachable n s → (i < n)%nat →
  ∃ l s' p, (length l ≤ 16)%nat ∧ runs l s = Some s' ∧ threads s' !! i = Some (Returned p) ∧
    atomic_instance_ s' = Some p.
Proof.
  intros Hr Hn. pose proof (reachable_inv n s Hr) as Hi.
  assert (length (threads s) = n) as Hlen.
  { clear Hn Hi. unfold reachable in Hr. apply rtc_ind_r with (P := λ s, length (threads s) = n) in Hr; [done| |].
    - simpl. by rewrite length_replicate.
    - intros x y _ [j ok y' E] Hx. revert E. unfold step_of.
      destruct (threads x !! j); [|done]. repeat case_match; intros [= <-]; simpl;
        by rewrite length_insert. }
  assert (∀ c, (rank c ≤ 8)%nat) as Hrank by (intros [| | | | | |[]|]; simpl; lia).
  destruct (lookup_lt_is_Some_2 (threads s) i) as [c Hc]; [lia|].
  assert (∃ l s1, (length l ≤ 8)%nat ∧ runs l s = Some s1 ∧ inv s1 ∧ free_for i s1 ∧
    ∃ c1, threads s1 !! i = Some c1) as (l1 & s1 & Hl1 & E1 & Hi1 & Hf1 & c1 & Hc1).
  { destruct (initialization_mutex_ s) as [j|] eqn:Em.
    - destruct (inv_holder s Hi j Em) as (d & Hd & _).
      destruct (returns_alone j 8 d s (Hrank d) Hi Hd) as (l & s1 & p & Hl & E & Hp & Hm & Hi1 & Hj); [by right|].
      exists l, s1. do 3 (split; [done|]). split; [by left|].
      destruct (decide (j = i)) as [->|]; [by eexists|]. exists c. by rewrite Hj.
    - exists [], s. split; [simpl; lia|]. do 2 (split; [done|]). split; [by left|]. by exists c. }
  destruct (returns_alone i 8 c1 s1 (Hrank c1) Hi1 Hc1 Hf1) as (l2 & s2 & p & Hl2 & E2 & Hp & _ & Hi2 & _).
  exists (l1 ++ l2), s2, p. split; [rewrite length_app; lia|].
  split; [by rewrite (runs_app _ _ _ _ E1)|]. split; [done|]. apply (inv_knows s2 Hi2 i _ Hp).
Qed.

(** Two threads that both saw no instance; the second waits at the lock. *)
Definition race : list nat := [0%nat; 1%nat; 0%nat; 0%nat; 0%nat].
Lemma runs_reachable l n s s' : reachable n s → runs l s = Some s' → reachable n s'.
Proof.
  revert s. induction l as [|i l IH]; intros s Hr; simpl; [by intros [= <-]|].
  destruct (step_of i true s) as [s1|] eqn:E; [|done]. apply IH. eapply rtc_r; [exact Hr|].
  by eapply step_thread.
Qed.
Definition racing : shared := default (idle 2) (runs race (idle 2)).
Lemma racing_reachable : reachable 2 racing.
Proof. eapply (runs_reachable race); [apply rtc_refl|reflexivity]. Qed.
Definition raced : shared := default racing (runs [0%nat; 0%nat; 0%nat; 1%nat; 1%nat; 1%nat] racing).
Lemma raced_reachable : reachable 2 raced.
Proof. eapply (runs_reachable [0%nat; 0%nat; 0%nat; 1%nat; 1%nat; 1%nat]); [apply racing_reachable|reflexivity]. Qed.

Lemma GetInstance_unique_witness :
  threads raced = [Returned 0; Returned 0] ∧ heap raced = {[0%nat := true]}.
Proof.
  split; [reflexivity|].
  exact (proj1 (proj2 (proj2 (GetInstance_unique 2 raced raced_reachable)) 1%nat 0%nat eq_refl)).
Defined.
Lemma GetInstance_returns_witness :
  threads racing = [Constructing 0; AtLock] ∧
  ∃ l s' p, (length l ≤ 16)%nat ∧ runs l racing = Some s' ∧ threads s' !! 1%nat = Some (Returned p) ∧
    atomic_instance_ s' = Some p.
Proof.
  split; [reflexivity|]. apply (GetInstance_returns 2 racing 1 racing_reachable). lia.
Defined.
End Singleton.

Lemma singleton_counts_witness :
  ∃ s, for_each (BadSingleton.run_op (λ _, 4096))
    [BadSingleton.Inc; BadSingleton.Inc; BadSingleton.Delete; BadSingleton.Inc; BadSingleton.Print] init = Ret tt s ∧
  BadSingleton.holds (Some 1) s.
Proof.
  apply (BadSingleton.singleton_counts (λ _, 4096)
    [BadSingleton.Inc; BadSingleton.Inc; BadSingleton.Delete; BadSingleton.Inc; BadSingleton.Print]).
  by vm_compute.
Defined.
