(* ===== verification/Ownership.v ===== *)
(** * Owners of dynamic memory

    Models the examples of one object that owns a block: [Alpha] of
    examples/014_move_constructor.cpp (copy and move constructors), [CString] of
    008_default_copy_constructor_and_assign_operator.cpp, [RAII] of 021_RAII.cpp
    and [Placement] of 012_placement_new.cpp. Objects with automatic storage are
    kept by a name; each Module has the blocks its objects point to. *)

From S2P Require Import Prelude Posix Text.

Module Alpha.
Section Alpha.
Context {V : Type} {Al : Allocator}.

Record Alpha : Type := mkAlpha { sz : Z; d : option nat }.
Record state : Type := mkState {
  blocks : gmap nat (list (option V));
  fresh : nat;
  objs : gmap nat Alpha;
  cout : list (out False)
}.
Abbreviation am := (M state).
Definition init : state := mkState ∅ 0 ∅ [].

Definition say (l : list (out False)) : am unit :=
  modify (λ s, mkState (blocks s) (fresh s) (objs s) (cout s ++ l)).
Definition set_obj (x : nat) (a : Alpha) : am unit :=
  modify (λ s, mkState (blocks s) (fresh s) (<[x := a]> (objs s)) (cout s)).
Definition set_block (p : nat) (b : list (option V)) : am unit :=
  modify (λ s, mkState (<[p := b]> (blocks s)) (fresh s) (objs s) (cout s)).
Definition obj (x : nat) : am Alpha := let! s := get in or_undef UseAfterFree (objs s !! x).
Definition block (p : option nat) : am (list (option V)) :=
  match p with
  | None => undef NullPointer
  | Some p => let! s := get in or_undef UseAfterFree (blocks s !! p)
  end.

(** [new double[n]] and [delete []d] *)
Definition new_doubles (n : Z) : am nat :=
  let! b := new_array n 8 in
  let! s := get in
  let p := fresh s in
  modify (λ s, mkState (<[p := b]> (blocks s)) (S p) (objs s) (cout s)) ;;
  ret p.
Definition delete_doubles (p : option nat) : am unit :=
  match p with
  | None => ret tt
  | Some p =>
      let! _ := block (Some p) in
      modify (λ s, mkState (base.delete p (blocks s)) (fresh s) (objs s) (cout s))
  end.

(** The constructors of the object [x] and its destructor. *)
Definition Alpha_ctor (x : nat) : am unit :=
  say [OStr "Alpha()"; OEndl] ;; set_obj x (mkAlpha 0 None).
(** [d[i] = a.d[i];] *)
Definition copy_cell (dst : nat) (src : option nat) (i : Z) : am unit :=
  let! b := block src in
  let! v := load (Some b) i in
  let! b := block (Some dst) in
  let! b := store (Some b) i v in
  set_block dst b.
Definition Alpha_copy (x y : nat) : am unit :=
  let! a := obj y in
  say [OStr "Alpha(const Alpha &a)"; OEndl] ;;
  let! p := new_doubles (sz a) in
  for_each (copy_cell p (d a)) (seqZ 0 (sz a)) ;;
  set_obj x (mkAlpha (sz a) (Some p)).
Definition Alpha_move (x y : nat) : am unit :=
  let! a := obj y in
  say [OStr "Alpha(Alpha &&a)"; OEndl] ;;
  set_obj x (mkAlpha (sz a) (d a)) ;;
  set_obj y (mkAlpha 0 None).
Definition Alpha_dtor (x : nat) : am unit :=
  let! a := obj x in
  say [OStr "~Alpha()"; OEndl] ;;
  delete_doubles (d a) ;;
  modify (λ s, mkState (blocks s) (fresh s) (base.delete x (objs s)) (cout s)).

(** [return arg;] moves; the caller destroys the result and the argument. *)
Definition foo (result arg : nat) : am unit := Alpha_move result arg.
Definition bar (arg : nat) : am unit := ret tt.

Definition main : am Z :=
  let alp1 := 1%nat in let alp2 := 2%nat in let alp3 := 3%nat in
  let alp4 := 4%nat in let alp5 := 5%nat in let arg := 6%nat in let tmp := 7%nat in
  say [OStr "Alpha alp1 = foo(Alpha())"; OEndl] ;;
  Alpha_ctor arg ;; foo alp1 arg ;; Alpha_dtor arg ;;
  say [OStr "foo(alp1)"; OEndl] ;;
  Alpha_copy arg alp1 ;; foo tmp arg ;; Alpha_dtor tmp ;; Alpha_dtor arg ;;
  say [OStr "foo(std::move(alp1))"; OEndl] ;;
  Alpha_move arg alp1 ;; foo tmp arg ;; Alpha_dtor tmp ;; Alpha_dtor arg ;;
  say [OStr "Alpha alp2 = alp1"; OEndl] ;;
  Alpha_copy alp2 alp1 ;;
  say [OStr "Alpha alp3(alp1)"; OEndl] ;;
  Alpha_copy alp3 alp1 ;;
  say [OStr "Alpha alp4 = std::move(alp1)"; OEndl] ;;
  Alpha_move alp4 alp1 ;;
  say [OStr "Alpha alp5(std::move(alp1))"; OEndl] ;;
  Alpha_move alp5 alp1 ;;
  say [OStr "bar(alp2)"; OEndl] ;;
  Alpha_copy arg alp2 ;; bar arg ;; Alpha_dtor arg ;;
  say [OStr "bar(std::move(alp2))"; OEndl] ;;
  Alpha_move arg alp2 ;; bar arg ;; Alpha_dtor arg ;;
  say [OStr "end of scope"; OEndl] ;;
  Alpha_dtor alp5 ;; Alpha_dtor alp4 ;; Alpha_dtor alp3 ;; Alpha_dtor alp2 ;; Alpha_dtor alp1 ;;
  ret 0.

(** ** Ownership *)

Record inv (s : state) : Prop := mkInv {
  inv_cells x a : objs s !! x = Some a →
    match d a with
    | None => sz a = 0
    | Some p => ∃ cs, blocks s !! p = Some (Some <$> cs) ∧ Z.of_nat (length cs) = sz a
    end;
  inv_one x y a b p : objs s !! x = Some a → objs s !! y = Some b →
    d a = Some p → d b = Some p → x = y;
  inv_owned p : is_Some (blocks s !! p) → ∃ x a, objs s !! x = Some a ∧ d a = Some p;
  inv_fresh p : is_Some (blocks s !! p) → (p < fresh s)%nat
}.

(** The terminal is no part of it. *)
Lemma inv_say s l : inv s → inv (mkState (blocks s) (fresh s) (objs s) (cout s ++ l)).
Proof. by intros [? ? ? ?]. Qed.
Lemma fresh_free s : inv s → blocks s !! fresh s = None.
Proof.
  intros Hs. destruct (blocks s !! fresh s) eqn:E; [|done]. pose proof (inv_fresh s Hs (fresh s) ltac:(by eexists)). lia.
Qed.
Lemma Alpha_init_inv : inv init.
Proof. split; simpl; try done; by intros ? []. Qed.

Lemma Alpha_ctor_inv x s :
  inv s → objs s !! x = None →
  ∃ s', Alpha_ctor x s = Ret tt s' ∧ inv s' ∧ dom (objs s') = {[x]} ∪ dom (objs s).
Proof.
  intros [H1 H2 H3 H4] Hx. unfold Alpha_ctor, say, set_obj. repeat run_step.
  eexists. split; [reflexivity|]. split; [split|]; cbn [objs blocks fresh]; [..|by rewrite dom_insert_L].
  - intros y a [[<- <-]|[_ Hy]]%lookup_insert_Some; [done|by apply (H1 y)].
  - intros y z a b p [[<- <-]|[_ Hy]]%lookup_insert_Some [[<- <-]|[_ Hz]]%lookup_insert_Some; try done.
    by apply H2.
  - intros p (y & a & Hy & Hp)%H3. exists y, a. split; [|done].
    rewrite lookup_insert_ne; [done|congruence].
  - done.
Qed.
Lemma Alpha_move_inv x y a s :
  inv s → objs s !! x = None → objs s !! y = Some a →
  ∃ s', Alpha_move x y s = Ret tt s' ∧ inv s' ∧ dom (objs s') = {[x]} ∪ dom (objs s) ∧
    blocks s' = blocks s ∧ objs s' !! x = Some a ∧ objs s' !! y = Some (mkAlpha 0 None).
Proof.
  intros [H1 H2 H3 H4] Hx Hy. assert (x ≠ y) as Hxy by congruence.
  unfold Alpha_move, obj, say, set_obj. repeat run_step. rewrite Hy. cbn [or_undef]. repeat run_step.
  eexists. split; [reflexivity|]. cbn [objs blocks fresh].
  assert (∀ z c p, <[y := mkAlpha 0 None]> (<[x := mkAlpha (sz a) (d a)]> (objs s)) !! z = Some c → d c = Some p →
    (z = x ∧ c = a) ∨ (z ≠ x ∧ z ≠ y ∧ objs s !! z = Some c)) as Hz.
  { intros z c p [[<- <-]|[? [[<- <-]|[? Hz]]%lookup_insert_Some]]%lookup_insert_Some Hp; [done|..].
    - left. by destruct a.
    - by right. }
  split; [split|]; cbn [objs blocks fresh].
  - intros z c [[<- <-]|[? [[<- <-]|[? Hc]]%lookup_insert_Some]]%lookup_insert_Some; [done| |by apply (H1 z)].
    apply (H1 y a Hy).
  - intros z w c e p Hc He Hpc Hpe.
    destruct (Hz z c p Hc Hpc) as [[-> ->]|(? & Hzy & Hc')], (Hz w e p He Hpe) as [[-> ->]|(? & Hwy & He')]; [done|..].
    + by destruct Hwy; symmetry; apply (H2 y w a e p).
    + by destruct Hzy; apply (H2 z y c a p).
    + by apply (H2 z w c e p).
  - intros p (z & c & Hc & Hp)%H3. destruct (decide (z = y)) as [->|].
    + exists x, a. simplify_eq. split; [|done]. rewrite lookup_insert_ne, lookup_insert_eq by done. by destruct a.
    + exists z, c. split; [|done]. rewrite !lookup_insert_ne; congruence.
  - done.
  - split; [|split; [done|split]].
    + rewrite !dom_insert_L. apply elem_of_dom_2 in Hy. set_solver.
    + rewrite lookup_insert_ne, lookup_insert_eq by done. by destruct a.
    + by rewrite lookup_insert_eq.
Qed.

Lemma Alpha_dtor_inv x a s :
  inv s → objs s !! x = Some a →
  ∃ s', Alpha_dtor x s = Ret tt s' ∧ inv s' ∧ dom (objs s') = dom (objs s) ∖ {[x]}.
Proof.
  intros [H1 H2 H3 H4] Hx. pose proof (H1 x a Hx) as Ha.
  unfold Alpha_dtor, obj, say, delete_doubles. repeat run_step. rewrite Hx. cbn [or_undef]. repeat run_step.
  destruct (d a) as [p|] eqn:Ed.
  - destruct Ha as (cs & Hb & _). unfold block. repeat run_step. cbn [blocks]. rewrite Hb. cbn [or_undef].
    repeat run_step. eexists. split; [reflexivity|]. cbn [objs blocks fresh].
    split; [split|by rewrite dom_delete_L]; cbn [objs blocks fresh].
    + intros y b [Hne Hy]%lookup_delete_Some. pose proof (H1 y b Hy) as Hb'.
      destruct (d b) as [q|] eqn:Eq; [|done]. destruct Hb' as (cs' & Hq & ?). exists cs'.
      split; [|done]. rewrite lookup_delete_ne; [done|]. intros <-. by destruct Hne; apply (H2 x y a b p).
    + intros y z b c q [_ Hy]%lookup_delete_Some [_ Hz]%lookup_delete_Some. by apply H2.
    + intros q [b [Hne Hq]%lookup_delete_Some]. destruct (H3 q) as (y & c & Hy & Hc); [by eexists|].
      exists y, c. split; [|done]. rewrite lookup_delete_ne; [done|congruence].
    + intros q [b [_ Hq]%lookup_delete_Some]. apply H4. by eexists.
  - repeat run_step. eexists. split; [reflexivity|]. cbn [objs blocks fresh].
    split; [split|by rewrite dom_delete_L]; cbn [objs blocks fresh].
    + intros y b [_ Hy]%lookup_delete_Some. by apply (H1 y).
    + intros y z b c q [_ Hy]%lookup_delete_Some [_ Hz]%lookup_delete_Some. by apply H2.
    + intros q (y & c & Hy & Hc)%H3. exists y, c. split; [|done].
      rewrite lookup_delete_ne; [done|congruence].
    + done.
Qed.

(** The loop of the copy constructor. *)
Lemma copy_loop p q todo : ∀ copied s, p ≠ q →
  blocks s !! q = Some (Some <$> (copied ++ todo)) →
  blocks s !! p = Some ((Some <$> copied) ++ replicate (length todo) None) →
  for_each (copy_cell p (Some q)) (seqZ (Z.of_nat (length copied)) (Z.of_nat (length todo))) s =
    Ret tt (mkState (<[p := Some <$> (copied ++ todo)]> (blocks s)) (fresh s) (objs s) (cout s)).
Proof.
  induction todo as [|v todo IH]; intros copied s Hpq Hq Hp.
  - simpl in *. rewrite app_nil_r in *. rewrite insert_id by done. by destruct s.
  - rewrite seqZ_cons by (simpl; lia).
    assert (copy_cell p (Some q) (Z.of_nat (length copied)) s = Ret tt
      (mkState (<[p := (Some <$> copied) ++ Some v :: replicate (length todo) None]> (blocks s)) (fresh s)
        (objs s) (cout s))) as E.
    { unfold copy_cell, block, set_block. repeat run_step. rewrite Hq. cbn [or_undef]. repeat run_step.
      unfold load. rewrite zget_nat, list_lookup_fmap, list_lookup_middle by done. cbn [fmap option_fmap option_map].
      repeat run_step. rewrite Hp. cbn [or_undef]. repeat run_step.
      unfold store. rewrite zset_nat by (rewrite length_app, length_fmap; simpl; lia). cbn [or_undef]. repeat run_step.
      cbn [length replicate]. unfold modify. do 3 f_equal.
      by rewrite insert_app_r_alt, length_fmap, Nat.sub_diag by (by rewrite length_fmap). }
    rewrite (for_each_cons _ _ _ _ _ E).
    replace (Z.succ (Z.of_nat (length copied))) with (Z.of_nat (length (copied ++ [v])))
      by (rewrite length_app; simpl; lia).
    replace (Z.pred (Z.of_nat (length (v :: todo)))) with (Z.of_nat (length todo)) by (simpl; lia).
    rewrite (IH (copied ++ [v])).
    + cbn [blocks fresh objs cout]. by rewrite insert_insert_eq, <-app_assoc.
    + done.
    + cbn [blocks]. rewrite lookup_insert_ne by done. by rewrite <-app_assoc.
    + cbn [blocks]. rewrite lookup_insert_eq, fmap_app, <-app_assoc. done.
Qed.
Lemma new_doubles_outcomes n s :
  (∃ e, new_doubles n s = Exc e s ∧ (can_alloc (n * 8) = true → PTRDIFF_MAX < n * 8)) ∨
  new_doubles n s = Ret (fresh s) (mkState (<[fresh s := replicate (Z.to_nat n) None]> (blocks s)) (S (fresh s))
    (objs s) (cout s)).
Proof.
  unfold new_doubles, new_array. case_bool_decide; [left; by eexists|].
  destruct (can_alloc (n * 8)); [right|left; by eexists]. by repeat run_step.
Qed.

(** A new object with a new block, of which it is the owner. *)
Lemma inv_new_owner x cs s out :
  inv s → objs s !! x = None →
  inv (mkState (<[fresh s := Some <$> cs]> (blocks s)) (S (fresh s))
    (<[x := mkAlpha (Z.of_nat (length cs)) (Some (fresh s))]> (objs s)) out).
Proof.
  intros [H1 H2 H3 H4] Hx. assert (blocks s !! fresh s = None) as Hf by by apply fresh_free, mkInv.
  split; cbn [objs blocks fresh].
  - intros z b [[<- <-]|[_ Hz]]%lookup_insert_Some; simpl.
    + exists cs. by rewrite lookup_insert_eq.
    + specialize (H1 z b Hz). destruct (d b) as [q|]; [|done]. destruct H1 as (cs' & Hq & ?). exists cs'.
      split; [|done]. rewrite lookup_insert_ne; [done|congruence].
  - assert (∀ z b, objs s !! z = Some b → d b ≠ Some (fresh s)) as Hnf.
    { intros z b Hz Eb. specialize (H1 z b Hz). rewrite Eb in H1. destruct H1 as (? & Hq & _).
      congruence. }
    intros z w b c q [[<- <-]|[_ Hz]]%lookup_insert_Some [[<- <-]|[_ Hw]]%lookup_insert_Some; simpl; intros Hb Hd.
    + done.
    + simplify_eq. by destruct (Hnf w c Hw).
    + simplify_eq. by destruct (Hnf z b Hz).
    + by apply (H2 z w b c q).
  - intros q [b [[<- _]|[_ Hq]]%lookup_insert_Some].
    + exists x. eexists. by rewrite lookup_insert_eq.
    + destruct (H3 q) as (z & c & Hz & Hd); [by eexists|]. exists z, c. split; [|done].
      rewrite lookup_insert_ne; [done|congruence].
  - intros q [b [[<- _]|[_ Hq]]%lookup_insert_Some]; [lia|].
    assert (q < fresh s)%nat; [|lia]. apply H4. by eexists.
Qed.

(** The copy constructor makes a block of its own with the same contents, or
    throws and leaves every object and block as it was. *)
Lemma Alpha_copy_inv x y a s :
  inv s → objs s !! x = None → objs s !! y = Some a →
  (∃ e s', Alpha_copy x y s = Exc e s' ∧ blocks s' = blocks s ∧ objs s' = objs s ∧ inv s' ∧
    (can_alloc (sz a * 8) = true → PTRDIFF_MAX < sz a * 8)) ∨
  (∃ s', Alpha_copy x y s = Ret tt s' ∧ inv s' ∧ dom (objs s') = {[x]} ∪ dom (objs s) ∧
    objs s' !! x = Some (mkAlpha (sz a) (Some (fresh s))) ∧ objs s' !! y = Some a ∧
    blocks s' = <[fresh s := default [] (d a ≫= λ p, blocks s !! p)]> (blocks s)).
Proof.
  intros Hi Hx Hy. pose proof (inv_cells s Hi y a Hy) as Hc.
  unfold Alpha_copy, obj, say, set_obj. repeat run_step. rewrite Hy. cbn [or_undef]. repeat run_step.
  set (s1 := mkState _ _ _ _). assert (inv s1) as Hi1 by (by apply inv_say).
  destruct (new_doubles_outcomes (sz a) s1) as [(e & E & Hal)|E].
  { left. exists e, s1. unfold bind. by rewrite E. }
  right. rewrite (bind_eq_ret _ _ _ _ _ E). set (s2 := mkState _ _ _ _).
  pose proof (fresh_free s Hi) as Hf.
  assert (for_each (copy_cell (fresh s1) (d a)) (seqZ 0 (sz a)) s2 = Ret tt
    (mkState (<[fresh s := default [] (d a ≫= λ p, blocks s !! p)]> (blocks s)) (S (fresh s)) (objs s) (cout s1)) ∧
    ∃ cs, default [] (d a ≫= λ p, blocks s !! p) = Some <$> cs ∧ Z.of_nat (length cs) = sz a) as (El & cs & Hcs & Hlen).
  { destruct (d a) as [q|] eqn:Ed; simpl.
    - destruct Hc as (cs & Hq & Hlen). rewrite Hq. simpl. split; [|by exists cs].
      assert (fresh s ≠ q) as Hne by congruence.
      rewrite <-Hlen. refine (eq_trans (copy_loop (fresh s) q cs [] s2 Hne _ _) _);
        unfold s2, s1; cbn [blocks fresh objs cout app].
      + by rewrite lookup_insert_ne.
      + by rewrite lookup_insert_eq, <-Hlen, Nat2Z.id.
      + by rewrite insert_insert_eq.
    - rewrite Hc. simpl. split; [|by exists []]. unfold s2, s1. cbn [blocks fresh objs cout]. by rewrite Hc. }
  rewrite (bind_eq_ret _ _ _ _ _ El). rewrite Hcs. clear Hcs El E.
  eexists. split; [reflexivity|]. cbn [objs blocks fresh] in *.
  split; [|split; [by rewrite dom_insert_L|split; [by rewrite lookup_insert_eq|split;
    [rewrite lookup_insert_ne; [done|congruence]|done]]]].
  rewrite <-Hlen. by apply (inv_new_owner x cs s).
Qed.

(** ** Histories *)

Inductive op : Type := Ctor (x : nat) | Copy (x y : nat) | Move (x y : nat) | Dtor (x : nat).
Definition run_op (o : op) : am unit :=
  match o with
  | Ctor x => Alpha_ctor x
  | Copy x y => Alpha_copy x y
  | Move x y => Alpha_move x y
  | Dtor x => Alpha_dtor x
  end.
(** The scoping of C++: an object is made once, used while it lives and
    destroyed once. *)
Definition legal_op (live : gset nat) (o : op) : bool :=
  match o with
  | Ctor x => bool_decide (x ∉ live)
  | Copy x y | Move x y => bool_decide (x ∉ live) && bool_decide (y ∈ live)
  | Dtor x => bool_decide (x ∈ live)
  end.
Definition live_after (live : gset nat) (o : op) : gset nat :=
  match o with
  | Ctor x | Copy x _ | Move x _ => {[x]} ∪ live
  | Dtor x => live ∖ {[x]}
  end.
Fixpoint legal (live : gset nat) (ops : list op) : bool :=
  match ops with [] => true | o :: ops' => legal_op live o && legal (live_after live o) ops' end.
Definition survivors (ops : list op) : gset nat := foldl live_after ∅ ops.

Lemma run_op_inv o s :
  inv s → legal_op (dom (objs s)) o = true →
  match run_op o s with
  | Ret _ s' => inv s' ∧ dom (objs s') = live_after (dom (objs s)) o
  | Exc _ s' => inv s' ∧ objs s' = objs s
  | _ => False
  end.
Proof.
  intros Hi. destruct o as [x|x y|x y|x]; cbn [run_op legal_op live_after]; rewrite ?andb_true_iff, ?bool_decide_eq_true, ?not_elem_of_dom, ?elem_of_dom.
  - intros Hx. by destruct (Alpha_ctor_inv x s Hi Hx) as (s' & -> & ? & ?).
  - intros [Hx [a Hy]]. destruct (Alpha_copy_inv x y a s Hi Hx Hy) as [(e & s' & -> & ? & ? & ? & _)|(s' & -> & ? & ? & ?)];
      by split.
  - intros [Hx [a Hy]]. by destruct (Alpha_move_inv x y a s Hi Hx Hy) as (s' & -> & ? & ? & ?).
  - intros [a Hx]. by destruct (Alpha_dtor_inv x a s Hi Hx) as (s' & -> & ? & ?).
Qed.
Lemma run_ops_inv ops : ∀ s, inv s → legal (dom (objs s)) ops = true →
  match for_each run_op ops s with
  | Ret _ s' => inv s' ∧ dom (objs s') = foldl live_after (dom (objs s)) ops
  | Exc _ s' => inv s'
  | _ => False
  end.
Proof.
  induction ops as [|o ops IH]; intros s Hi Hl; [done|]. simpl in Hl. apply andb_true_iff in Hl as [Ho Hl].
  pose proof (run_op_inv o s Hi Ho) as H. simpl. unfold bind. destruct (run_op o s) as [[] s1|e s1| | |]; try done.
  - destruct H as [Hi1 Hd]. rewrite <-Hd in Hl |- *. by apply IH.
  - apply H.
Qed.

(** C13. Whatever Alphas a program makes, copies, moves and destroys, within the
    scoping of C++, no block is released twice or used after its release, every
    block has exactly one owner, also when an allocation throws, and once all
    objects are gone no block is left. *)
Theorem Alpha_history ops :
  legal ∅ ops = true →
  match for_each run_op ops init with
  | Ret _ s => inv s ∧ dom (objs s) = survivors ops ∧ (survivors ops = ∅ → blocks s = ∅)
  | Exc _ s => inv s
  | _ => False
  end.
Proof.
  intros Hl. pose proof (run_ops_inv ops init Alpha_init_inv Hl) as H.
  destruct (for_each run_op ops init) as [[] s|e s| | |]; try done.
  destruct H as [Hi Hd]. split; [done|]. split; [done|]. intros He. unfold survivors in He.
  change (dom (objs init)) with (∅ : gset nat) in Hd. rewrite He in Hd. apply dom_empty_inv_L in Hd.
  apply map_empty. intros p. destruct (blocks s !! p) eqn:E; [|done].
  destruct (inv_owned s Hi p) as (x & a & Hx & _); [by eexists|]. by rewrite Hd in Hx.
Qed.

(** A copy is deep: the new object has a block of its own with the same
    numbers, the old one keeps its block. A move takes the block over without an
    allocation and leaves the old object empty. *)
Theorem Alpha_copy_and_move x y a p cs s :
  inv s → objs s !! x = None → objs s !! y = Some a → d a = Some p →
  blocks s !! p = Some cs →
  (can_alloc (sz a * 8) = true → sz a * 8 ≤ PTRDIFF_MAX →
   ∃ s' q, Alpha_copy x y s = Ret tt s' ∧ objs s' !! x = Some (mkAlpha (sz a) (Some q)) ∧
     objs s' !! y = Some a ∧ q ≠ p ∧ blocks s' !! q = Some cs ∧ blocks s' !! p = Some cs) ∧
  (∃ s', Alpha_move x y s = Ret tt s' ∧ objs s' !! x = Some a ∧
     objs s' !! y = Some (mkAlpha 0 None) ∧ blocks s' = blocks s).
Proof.
  intros Hi Hx Hy Hd Hp. split.
  - intros Hal Hsz. destruct (Alpha_copy_inv x y a s Hi Hx Hy) as
      [(e & s' & _ & _ & _ & _ & Hex)|(s' & E & _ & _ & Hx' & Hy' & Hb)].
    + exfalso. specialize (Hex Hal). lia.
    + exists s', (fresh s). rewrite Hd in Hb. simpl in Hb. rewrite Hp in Hb. simpl in Hb.
      assert (fresh s ≠ p) as Hne.
      { intros <-. pose proof (inv_fresh s Hi (fresh s) ltac:(by eexists)). lia. }
      do 3 (split; [done|]). split; [done|]. rewrite Hb, lookup_insert_eq, lookup_insert_ne by done. done.
  - destruct (Alpha_move_inv x y a s Hi Hx Hy) as (s' & E & _ & _ & ? & ? & ?). by exists s'.
Qed.
End Alpha.
Arguments inv {V} s.

(** main with an allocator that serves every request. *)
Example main_leaves_nothing :
  ∃ s, main (V:=Z) (Al:=λ _, true) init = Ret 0 s ∧ objs s = ∅ ∧ blocks s = ∅ ∧ length (cout s) = 68%nat.
Proof. eexists. split; [vm_compute; reflexivity|]. by split. Qed.

(** Two objects, one with two numbers. *)
Definition pair_state : state (V:=Z) :=
  mkState {[3%nat := [Some 7; Some 8]]} 4 {[1%nat := mkAlpha 2 (Some 3%nat)]} [].
Lemma pair_inv : inv pair_state.
Proof.
  split; unfold pair_state; cbn [objs blocks fresh].
  - intros x a [<- <-]%lookup_singleton_Some. by exists [7; 8].
  - by intros x y a b p [<- _]%lookup_singleton_Some [<- _]%lookup_singleton_Some.
  - intros p [b [<- _]%lookup_singleton_Some]. exists 1%nat, (mkAlpha 2 (Some 3%nat)). done.
  - intros p [b [<- _]%lookup_singleton_Some]. lia.
Qed.
Definition history : list op := [Ctor 1; Copy 2 1; Move 3 2; Dtor 2; Dtor 3; Dtor 1].
Lemma Alpha_history_witness :
  legal ∅ history = true ∧
  match for_each (run_op (Al:=λ _, true)) history (init (V:=Z)) with
  | Ret _ s => blocks s = ∅
  | Exc _ s => inv s
  | _ => False
  end.
Proof.
  split; [reflexivity|]. pose proof (Alpha_history (V:=Z) (Al:=λ _, true) history eq_refl) as H.
  destruct (for_each _ history init); try exact H. apply H. reflexivity.
Defined.
Lemma Alpha_copy_and_move_witness :
  ∃ s' q, Alpha_copy (Al:=λ _, true) 2 1 pair_state = Ret tt s' ∧ q ≠ 3%nat ∧
    blocks s' !! q = Some [Some 7; Some 8] ∧ blocks s' !! 3%nat = Some [Some 7; Some 8].
Proof.
  destruct (Alpha_copy_and_move (V:=Z) (Al:=λ _, true) 2 1 (mkAlpha 2 (Some 3%nat)) 3 [Some 7; Some 8] pair_state
    pair_inv eq_refl eq_refl eq_refl eq_refl) as [H _].
  destruct (H eq_refl ltac:(vm_compute; discriminate)) as (s' & q & E & _ & _ & Hq & H1 & H2).
  exists s', q. split; [exact E|]. by split.
Defined.
End Alpha.

(** Objects that own a copy of a C string, with copy and swap. *)
Module CString.
Section CString.
Context {Al : Allocator}.

Record state : Type := mkState {
  blocks : gmap nat (list (option ascii));
  fresh : nat;
  cout : list (out False)
}.
Definition strlen (s : list (option ascii)) : M state Z :=
  let! t := c_string s in ret (Z.of_nat (length t)).
Definition new_chars (n : Z) : M state nat :=
  let! b := new_array n 1 in
  let! s := get in
  let p := fresh s in
  modify (λ s, mkState (<[p := b]> (blocks s)) (S p) (cout s)) ;;
  ret p.
Definition put_char (p : nat) (ic : nat * ascii) : M state unit :=
  let! s := get in
  let! b := or_undef UseAfterFree (blocks s !! p) in
  let! b := store (Some b) (Z.of_nat ic.1) ic.2 in
  modify (λ s, mkState (<[p := b]> (blocks s)) (fresh s) (cout s)).
(** strcpy stores the characters and the terminating zero byte. *)
Definition strcpy (p : nat) (s : list (option ascii)) : M state unit :=
  let! t := c_string s in
  for_each (put_char p) (imap pair (t ++ [NUL])).
Definition say (l : list (out False)) : M state unit :=
  modify (λ s, mkState (blocks s) (fresh s) (cout s ++ l)).
Definition chars (p : nat) : M state (list (option ascii)) :=
  let! s := get in or_undef UseAfterFree (blocks s !! p).
Definition delete_chars (p : nat) : M state unit :=
  let! _ := chars p in
  modify (λ s, mkState (delete p (blocks s)) (fresh s) (cout s)).

(** [A(const char *s) : s(new char[strlen(s)])], with [slack] further bytes;
    the program has none. The object is the pointer to its block. *)
Definition A_ctor (slack : Z) (s : list (option ascii)) : M state nat :=
  let! n := strlen s in
  let! p := new_chars (n + slack) in
  say [OStr "A()"; OEndl] ;;
  strcpy p s ;;
  ret p.
(** [A(const A &a) : A(a.s)] *)
Definition A_copy (slack : Z) (a : nat) : M state nat :=
  let! cs := chars a in
  let! p := A_ctor slack cs in
  say [OStr "A(const &a)"; OEndl] ;;
  ret p.
Definition A_dtor (p : nat) : M state unit := say [OStr "~A()"; OEndl] ;; delete_chars p.
(** Copy and swap: the new pointer of the object. *)
Definition A_assign (slack : Z) (this a : nat) : M state nat :=
  say [OStr "A &operator=(A &a)"; OEndl] ;;
  let! tmp := A_copy slack a in
  let '(this, tmp) := (tmp, this) in
  A_dtor tmp ;;
  ret this.
Definition print (p : nat) : M state unit :=
  let! cs := chars p in
  let! t := c_string cs in
  say [OStr (String.string_of_list_ascii t); OEndl].
Definition B_ctor (slack : Z) (s : list (option ascii)) : M state nat :=
  let! n := strlen s in
  let! p := new_chars (n + slack) in
  say [OStr "B()"; OEndl] ;;
  strcpy p s ;;
  ret p.
Definition B_dtor (p : nat) : M state unit := say [OStr "~B()"; OEndl] ;; delete_chars p.
(** main up to the object of class C, whose constructor calls the copy
    constructor of B: that is declared and not defined, so that the program
    cannot be linked. *)
Definition main (slack : Z) : M state unit :=
  let s := (Some <$> b "Hello") ++ [Some NUL] in
  let! a1 := A_ctor slack s in
  print a1 ;;
  let! a2 := A_copy slack a1 in
  print a2 ;;
  let! a2 := A_assign slack a2 a1 in
  print a2 ;;
  let! b1 := B_ctor slack s in
  print b1.

(** The characters fit, the zero byte does not. *)
Lemma put_chars p t : ∀ copied s,
  blocks s !! p = Some ((Some <$> copied) ++ replicate (length t) None) →
  for_each (put_char p) (imap (λ i c, (length copied + i, c)%nat) (t ++ [NUL])) s = Undef OutOfBounds.
Proof.
  induction t as [|c t IH]; intros copied s Hp; cbn [imap app for_each].
  - unfold bind at 1, put_char. repeat run_step. rewrite Hp. cbn [or_undef fst snd]. repeat run_step.
    unfold store. rewrite zset_None; [done|]. right. rewrite app_nil_r, length_fmap. lia.
  - set (s1 := mkState (<[p := (Some <$> (copied ++ [c])) ++ replicate (length t) None]> (blocks s)) (fresh s) (cout s)).
    assert (put_char p ((length copied + 0)%nat, c) s = Ret tt s1) as E.
    { unfold put_char. repeat run_step. rewrite Hp. cbn [or_undef fst snd]. repeat run_step.
      unfold store. rewrite Nat.add_0_r, zset_nat by (rewrite length_app, length_fmap; simpl; lia).
      cbn [or_undef]. repeat run_step. unfold modify, s1. do 3 f_equal. cbn [length replicate].
      rewrite insert_app_r_alt, length_fmap, Nat.sub_diag by (by rewrite length_fmap).
      by rewrite fmap_app, <-app_assoc. }
    rewrite (bind_eq_ret _ _ _ _ _ E). rewrite <-(IH (copied ++ [c]) s1).
    + f_equal. apply imap_ext. intros i x _. cbn [compose]. f_equal. rewrite length_app. simpl. lia.
    + unfold s1. cbn [blocks]. by rewrite lookup_insert_eq.
Qed.
(** Whatever the string, the constructor of A writes one byte behind the
    block it has just allocated. *)
Theorem A_ctor_overflows t r s :
  NUL ∉ t → Z.of_nat (length t) ≤ PTRDIFF_MAX → can_alloc (Z.of_nat (length t)) = true →
  A_ctor 0 ((Some <$> t) ++ Some NUL :: r) s = Undef OutOfBounds.
Proof.
  intros Ht Hn Hal. unfold A_ctor, strlen, new_chars, say. repeat run_step.
  rewrite (bind_eq_ret _ _ _ _ _ (c_string_terminated t r s Ht)). repeat run_step.
  unfold new_array. rewrite Z.add_0_r, Z.mul_1_r, bool_decide_eq_false_2, Hal, Nat2Z.id by lia. repeat run_step.
  unfold strcpy. repeat run_step. rewrite (bind_eq_ret _ _ _ _ _ (c_string_terminated t r _ Ht)).
  unfold bind. rewrite (put_chars (fresh s) t []); [done|]. cbn [blocks]. by rewrite lookup_insert_eq.
Qed.

(** With one byte more per block the zero byte fits as well. *)
Lemma put_chars_fit p l : ∀ copied k s,
  blocks s !! p = Some ((Some <$> copied) ++ replicate k None) → (length l ≤ k)%nat →
  for_each (put_char p) (imap (λ i c, (length copied + i, c)%nat) l) s =
    Ret tt (mkState (<[p := (Some <$> (copied ++ l)) ++ replicate (k - length l) None]> (blocks s)) (fresh s) (cout s)).
Proof.
  induction l as [|c l IH]; intros copied k s Hp Hk; cbn [imap for_each].
  - rewrite app_nil_r, Nat.sub_0_r, insert_id by done. by destruct s.
  - destruct k as [|k]; [simpl in Hk; lia|]. cbn [length Nat.sub] in *.
    set (s1 := mkState (<[p := (Some <$> (copied ++ [c])) ++ replicate k None]> (blocks s)) (fresh s) (cout s)).
    assert (put_char p ((length copied + 0)%nat, c) s = Ret tt s1) as E.
    { unfold put_char. repeat run_step. rewrite Hp. cbn [or_undef fst snd]. repeat run_step.
      unfold store. rewrite Nat.add_0_r, zset_nat by (rewrite length_app, length_fmap; simpl; lia).
      cbn [or_undef]. repeat run_step. unfold modify, s1. do 3 f_equal. cbn [replicate].
      rewrite insert_app_r_alt, length_fmap, Nat.sub_diag by (by rewrite length_fmap).
      by rewrite fmap_app, <-app_assoc. }
    rewrite (bind_eq_ret _ _ _ _ _ E).
    replace (imap ((λ i c0, (length copied + i, c0)%nat) ∘ S) l) with
      (imap (λ i c0, (length (copied ++ [c]) + i, c0)%nat) l).
    2:{ apply imap_ext. intros i x _. cbn [compose]. f_equal. rewrite length_app. simpl. lia. }
    rewrite (IH (copied ++ [c]) k s1); [|unfold s1; cbn [blocks]; by rewrite lookup_insert_eq|lia].
    unfold s1. cbn [blocks fresh cout]. by rewrite insert_insert_eq, <-app_assoc.
Qed.
(** The string of an object, and the block it owns. *)
Definition holds (s : state) (p : nat) (t : bytes) : Prop :=
  (NUL ∉ t) ∧ blocks s !! p = Some ((Some <$> t) ++ [Some NUL]).
Definition with_block (s : state) (p : nat) (t : bytes) (l : list (out False)) : state :=
  mkState (<[p := (Some <$> t) ++ [Some NUL]]> (blocks s)) (S p) (cout s ++ l).
Lemma A_ctor_fits t r s :
  NUL ∉ t → Z.of_nat (length t) < PTRDIFF_MAX → can_alloc (Z.of_nat (length t) + 1) = true →
  A_ctor 1 ((Some <$> t) ++ Some NUL :: r) s = Ret (fresh s) (with_block s (fresh s) t [OStr "A()"; OEndl]).
Proof.
  intros Ht Hn Hal. unfold A_ctor, strlen, new_chars, say. repeat run_step.
  rewrite (bind_eq_ret _ _ _ _ _ (c_string_terminated t r s Ht)). repeat run_step.
  unfold new_array. rewrite Z.mul_1_r, bool_decide_eq_false_2, Hal by lia. repeat run_step.
  unfold strcpy. repeat run_step. rewrite (bind_eq_ret _ _ _ _ _ (c_string_terminated t r _ Ht)).
  replace (Z.to_nat (Z.of_nat (length t) + 1)) with (length (t ++ [NUL])) by (rewrite length_app; simpl; lia).
  cbn [blocks fresh cout].
  erewrite bind_eq_ret; [|apply (put_chars_fit (fresh s) (t ++ [NUL]) []); [cbn [blocks]; by rewrite lookup_insert_eq|done]].
  cbn [blocks fresh cout app]. rewrite insert_insert_eq, Nat.sub_diag, app_nil_r, fmap_app. reflexivity.
Qed.
(** Copy and swap: given one byte more per block, [a2 = a1] leaves [a2] with
    a block of its own that holds the string of [a1]; the old block of [a2] is
    released and [a1] and all other blocks are untouched, also when [a1] and
    [a2] are the same object. *)
Theorem A_assign_deep s this a t told :
  holds s a t → holds s this told → (∀ p, is_Some (blocks s !! p) → (p < fresh s)%nat) →
  Z.of_nat (length t) < PTRDIFF_MAX → can_alloc (Z.of_nat (length t) + 1) = true →
  ∃ s', A_assign 1 this a s = Ret (fresh s) s' ∧ holds s' (fresh s) t ∧
    blocks s' !! this = None ∧ ∀ p, p ≠ this → p ≠ fresh s → blocks s' !! p = blocks s !! p.
Proof.
  intros [Ht Ha] [_ Hthis] Hfresh Hn Hal.
  assert (this < fresh s)%nat as Hlt by (apply Hfresh; by eexists).
  unfold A_assign, A_copy, chars, say. repeat run_step. cbn [blocks]. rewrite Ha. cbn [or_undef]. repeat run_step.
  rewrite (bind_eq_ret _ _ _ _ _ (A_ctor_fits t [] _ Ht Hn Hal)). repeat run_step.
  unfold A_dtor, delete_chars, chars, say. repeat run_step. unfold with_block. cbn [blocks fresh cout].
  rewrite lookup_insert_ne, Hthis by lia. cbn [or_undef]. repeat run_step. cbn [blocks fresh cout].
  eexists. split; [reflexivity|]. unfold holds. cbn [blocks]. split; [split; [done|]|split].
  - rewrite lookup_delete_ne by lia. by rewrite lookup_insert_eq.
  - by rewrite lookup_delete_eq.
  - intros p H1 H2. by rewrite lookup_delete_ne, lookup_insert_ne by done.
Qed.
End CString.
Lemma A_assign_deep_witness :
  let s := mkState {[ 0%nat := (Some <$> b "one") ++ [Some NUL]; 1%nat := (Some <$> b "two") ++ [Some NUL] ]} 2 [] in
  ∃ s', A_assign (Al:=λ _, true) 1 1 0 s = Ret 2%nat s' ∧ holds s' 2 (b "one") ∧
    blocks s' !! 1%nat = None ∧ ∀ p, p ≠ 1%nat → p ≠ 2%nat → blocks s' !! p = blocks s !! p.
Proof.
  intros s. refine (A_assign_deep (Al:=λ _, true) s 1 0 (b "one") (b "two") _ _ _ _ _).
  - split; [by apply (bool_decide_unpack _)|reflexivity].
  - split; [by apply (bool_decide_unpack _)|reflexivity].
  - cbn [fresh blocks s]. intros p [x [[<- _]|[_ [<- _]%lookup_singleton_Some]]%lookup_insert_Some]; lia.
  - vm_compute. reflexivity.
  - reflexivity.
Defined.
(** The program prints three lines and overflows; with the byte it needs it
    would go on to the line that cannot be linked. *)
Example strings_print :
  main (Al:=λ _, true) 0 (mkState ∅ 0 []) = Undef OutOfBounds ∧
  ∃ s, main (Al:=λ _, true) 1 (mkState ∅ 0 []) = Ret tt s ∧
    cout s = flat_map (λ l, [OStr l; OEndl]) ["A()"; "Hello"; "A()"; "A(const &a)"; "Hello";
      "A &operator=(A &a)"; "A()"; "A(const &a)"; "~A()"; "Hello"; "B()"; "Hello"].
Proof. split; [vm_compute; reflexivity|eexists; split; vm_compute; reflexivity]. Qed.
Lemma A_ctor_overflows_witness :
  A_ctor (Al:=λ _, true) 0 ((Some <$> b "Hello") ++ [Some NUL]) (mkState ∅ 0 []) = Undef OutOfBounds.
Proof.
  apply (A_ctor_overflows (Al:=λ _, true) (b "Hello") [] (mkState ∅ 0 [])).
  - by apply (bool_decide_unpack _).
  - by vm_compute.
  - reflexivity.
Defined.
End CString.

(** A block held by a pointer, and by an object of RAII_str. *)
Module RAII.
Section RAII.
Context {Al : Allocator}.

Record state : Type := mkState { blocks : gset nat; fresh : nat; cout : list (out False) }.
Definition say (l : list (out False)) : M state unit :=
  modify (λ s, mkState (blocks s) (fresh s) (cout s ++ l)).
Definition new_chars (n : Z) : M state nat :=
  let! _ := new_array (A:=ascii) n 1 in
  let! s := get in
  modify (λ s, mkState ({[fresh s]} ∪ blocks s) (S (fresh s)) (cout s)) ;;
  ret (fresh s).
Definition delete_chars (p : nat) : M state unit :=
  let! s := get in
  if decide (p ∈ blocks s) then modify (λ s, mkState (blocks s ∖ {[p]}) (fresh s) (cout s))
  else undef UseAfterFree.
(** [rand() % 2 == 0] for the next number of rand. *)
Definition cond (rand : Z) : bool := bool_decide (rand `rem` 2 = 0).

Definition bad (rand : Z) : M state unit :=
  say [OStr "ALLOCATION"; OEndl] ;;
  let! str := new_chars 10 in
  if cond rand then
    say [OStr "EMERGENCY RETURN"; OEndl] ;;
    say [OStr "LEAK :-("; OEndl]
  else
    say [OStr "CLEANING"; OEndl] ;;
    delete_chars str.

Definition RAII_str_ctor (str : nat) : M state nat :=
  say [OStr "ALLOCATION"; OEndl] ;; say [OStr "RAII_str()"; OEndl] ;; ret str.
Definition RAII_str_dtor (str : nat) : M state unit :=
  say [OStr "~RAII_str()"; OEndl] ;; say [OStr "CLEANING"; OEndl] ;; delete_chars str.
(** Both returns of [good] destroy [r]. *)
Definition good (rand : Z) : M state unit :=
  let! p := new_chars 10 in
  let! r := RAII_str_ctor p in
  (if cond rand then say [OStr "EMERGENCY RETURN"; OEndl] else ret tt) ;;
  RAII_str_dtor r.
(** The two numbers of rand are a parameter. *)
Definition main (rand1 rand2 : Z) : M state Z := bad rand1 ;; good rand2 ;; ret 0.

Lemma cond_even rand : cond rand = Z.even rand.
Proof.
  apply eq_true_iff_eq. unfold cond. rewrite bool_decide_eq_true, Z.even_spec, Z.rem_divide by done.
  split; intros [m ->]; exists m; lia.
Qed.
Lemma good_releases rand s : fresh s ∉ blocks s → can_alloc 10 = true →
  ∃ s', good rand s = Ret tt s' ∧ blocks s' = blocks s.
Proof.
  intros Hf Hal. unfold good, new_chars, new_array. rewrite bool_decide_eq_false_2 by by vm_compute.
  change (10 * 1) with 10. rewrite Hal. repeat run_step. unfold RAII_str_ctor, RAII_str_dtor, delete_chars, say.
  destruct (cond rand); repeat run_step; (rewrite decide_True by set_solver); eexists;
    (split; [reflexivity|]); cbn [blocks]; set_solver.
Qed.
Lemma bad_releases rand s : fresh s ∉ blocks s → can_alloc 10 = true →
  ∃ s', bad rand s = Ret tt s' ∧ fresh s' = S (fresh s) ∧
    blocks s' = (if cond rand then {[fresh s]} else ∅) ∪ blocks s.
Proof.
  intros Hf Hal. unfold bad, new_chars, new_array, say. repeat run_step.
  rewrite bool_decide_eq_false_2 by by vm_compute. change (10 * 1) with 10. rewrite Hal. repeat run_step.
  unfold delete_chars. destruct (cond rand); repeat run_step; [|rewrite decide_True by set_solver]; eexists;
    (split; [reflexivity|]); (split; [done|]); cbn [blocks]; set_solver.
Qed.

(** main leaks the block of [bad] exactly when its random number is even, and
    never that of [good]. *)
Theorem only_bad_leaks rand1 rand2 :
  can_alloc 10 = true →
  ∃ s, main rand1 rand2 (mkState ∅ 0 []) = Ret 0 s ∧
    blocks s = (if Z.even rand1 then {[0%nat]} else ∅).
Proof.
  intros Hal. destruct (bad_releases rand1 (mkState ∅ 0 [])) as (s1 & E1 & Hf1 & H1); [set_solver|done|].
  destruct (good_releases rand2 s1) as (s2 & E2 & H2); [|done|].
  { rewrite Hf1, H1. cbn [fresh blocks]. destruct (cond rand1); set_solver. }
  unfold main. rewrite (bind_eq_ret _ _ _ _ _ E1), (bind_eq_ret _ _ _ _ _ E2). exists s2. split; [done|].
  rewrite H2, H1. cbn [fresh blocks]. rewrite cond_even. destruct (Z.even rand1); set_solver.
Qed.
End RAII.
Lemma only_bad_leaks_witness :
  ∃ s, main (Al:=λ _, true) 4 4 (mkState ∅ 0 []) = Ret 0 s ∧ blocks s = {[0%nat]}.
Proof.
  destruct (only_bad_leaks (Al:=λ _, true) 4 4 eq_refl) as (s & E & Hs). exists s. split; [exact E|exact Hs].
Defined.
End RAII.

(** Two objects made one after the other in the same buffer. *)
Module Placement.
(** The buffer, the counter of the object in it, and the terminal. A buffer of
    sizeof(A) bytes holds one counter. *)
Record state : Type := mkState {
  buffer : bool;
  alive : bool;
  counter : option Z;
  cout : list (out False)
}.
Definition say (l : list (out False)) : M state unit :=
  modify (λ s, mkState (buffer s) (alive s) (counter s) (cout s ++ l)).
Definition set_counter (c : option Z) : M state unit :=
  modify (λ s, mkState (buffer s) (alive s) c (cout s)).
Definition this : M state unit :=
  let! s := get in if buffer s && alive s then ret tt else undef UseAfterFree.

(** [new (buffer) A(n)] and [new (buffer) A()]: the latter leaves the member
    indeterminate, whatever the bytes of the buffer are. *)
Definition place (c : option Z) : M state unit :=
  let! s := get in
  if buffer s then modify (λ s, mkState true true c (cout s)) else undef UseAfterFree.
Definition A_int (n : Z) : M state unit := place (Some n) ;; say [OStr "A(int)"; OEndl].
Definition A_default : M state unit := place None ;; say [OStr "A()"; OEndl].
Definition read_counter : M state Z :=
  this ;; let! s := get in or_undef Indeterminate (counter s).
Definition inc : M state unit :=
  let! n := read_counter in let! n' := int_arith (n + 1) in set_counter (Some n').
Definition print : M state unit := let! n := read_counter in say [OInt n; OEndl].
Definition A_dtor : M state unit :=
  this ;; say [OStr "~A()"; OEndl] ;; modify (λ s, mkState (buffer s) false None (cout s)).

Definition first_object : M state unit := A_int 0 ;; print ;; inc ;; inc ;; print ;; A_dtor.
Definition second_object : M state unit := A_default ;; print ;; inc ;; inc ;; print ;; A_dtor.
Definition main : M state Z :=
  modify (λ s, mkState true (alive s) (counter s) (cout s)) ;;
  first_object ;;
  second_object ;;
  modify (λ s, mkState false (alive s) (counter s) (cout s)) ;;
  ret 0.

(** The first object counts to 2; the count of the second is read without
    having been written, whatever the first has left in the buffer. *)
Lemma second_count_indeterminate s :
  (∃ s', first_object (mkState true false None (cout s)) = Ret tt s' ∧
     cout s' = cout s ++ [OStr "A(int)"; OEndl; OInt 0; OEndl; OInt 2; OEndl; OStr "~A()"; OEndl]) ∧
  (∀ s', buffer s' = true → second_object s' = Undef Indeterminate) ∧
  main s = Undef Indeterminate.
Proof.
  split; [|split].
  - eexists. split; [reflexivity|]. cbn [cout]. by rewrite <-!app_assoc.
  - intros s' Hb. unfold second_object, A_default, place. repeat run_step. by rewrite Hb.
  - reflexivity.
Qed.
End Placement.
