(* ===== verification/Patterns.v ===== *)
(** * Observers and commands

    Models examples/033_observer.cpp (Module [Observers]: a model that notifies
    whoever registered) and examples/032_command.cpp (Module [Commands]: commands
    that wrap a document and a function). The virtual member function of an
    observer is an interface; the three concrete observers implement it. *)

From S2P Require Import Prelude.

Definition newline : string := String (Ascii.ascii_of_nat 10) EmptyString.

Module Observers.

(** What an observer writes when the model has changed. *)
Class Observer (O : Type) := OnModelChanched : O → list (out False).

Inductive ConcreteObserver : Type := ConcreteObserver1 | ConcreteObserver2 | ConcreteObserver3.
#[export] Instance concrete_observer : Observer ConcreteObserver := λ o,
  match o with
  | ConcreteObserver1 => [OStr "hello from model 1"; OStr newline]
  | ConcreteObserver2 => [OStr "hello from model 2"; OStr newline]
  | ConcreteObserver3 => [OStr "hello from model 3"; OStr newline]
  end.

Section Model.
Context {O : Type} `{Observer O}.

(** The observers are objects of others: the model keeps pointers. *)
Record state : Type := mkState {
  observers_ : list nat;
  heap : gmap nat O;
  cout : list (out False)
}.

Definition AddObserver (p : nat) : M state unit :=
  modify (λ s, mkState (observers_ s ++ [p]) (heap s) (cout s)).
(** std::list::remove erases every element equal to [p]. *)
Definition RemoveObserver (p : nat) : M state unit :=
  modify (λ s, mkState (filter (λ q, q ≠ p) (observers_ s)) (heap s) (cout s)).
Definition call (p : nat) : M state unit :=
  let! s := get in
  let! o := or_undef UseAfterFree (heap s !! p) in
  modify (λ s, mkState (observers_ s) (heap s) (cout s ++ OnModelChanched o)).
Definition Notify : M state unit := let! s := get in for_each call (observers_ s).
Definition SetData (new_data : Z) : M state unit := Notify.
Definition Model_dtor : M state unit := modify (λ s, mkState [] (heap s) (cout s)).

(** [delete p] by the owner of the observer. *)
Definition destroy (p : nat) : M state unit :=
  modify (λ s, mkState (observers_ s) (base.delete p (heap s)) (cout s)).

(** ** What a history of registrations comes to *)

Inductive op : Type := Add (p : nat) | Remove (p : nat) | Set_ (d : Z).
Definition run_op (o : op) : M state unit :=
  match o with Add p => AddObserver p | Remove p => RemoveObserver p | Set_ d => SetData d end.
Definition pointer (o : op) : option nat :=
  match o with Add p | Remove p => Some p | Set_ _ => None end.

(** Registrations of [p] since its last removal. *)
Fixpoint registrations_from (n : nat) (p : nat) (ops : list op) : nat :=
  match ops with
  | [] => n
  | Add q :: ops' => registrations_from (if decide (q = p) then S n else n) p ops'
  | Remove q :: ops' => registrations_from (if decide (q = p) then 0%nat else n) p ops'
  | Set_ _ :: ops' => registrations_from n p ops'
  end.
Definition registrations := registrations_from 0.
Definition times (p : nat) (l : list nat) : nat := length (filter (λ q, q = p) l).

Definition alive (s : state) : Prop := Forall (λ p, is_Some (heap s !! p)) (observers_ s).

(** The notification of pointers that are alive. *)
Lemma call_all l : ∀ s, Forall (λ p, is_Some (heap s !! p)) l →
  ∃ os, Forall2 (λ p o, heap s !! p = Some o) l os ∧
    for_each call l s = Ret tt (mkState (observers_ s) (heap s) (cout s ++ concat (OnModelChanched <$> os))).
Proof.
  induction l as [|p l IH]; intros s Hl.
  - exists []. split; [constructor|]. simpl. rewrite app_nil_r. by destruct s.
  - apply Forall_cons in Hl as [[o Ho] Hl].
    set (s1 := mkState (observers_ s) (heap s) (cout s ++ OnModelChanched o)).
    destruct (IH s1 Hl) as (os & Hos & E). exists (o :: os). split; [by constructor|].
    assert (call p s = Ret tt s1) as Ec by (unfold call; repeat run_step; by rewrite Ho).
    rewrite (for_each_cons _ _ _ _ _ Ec), E. by rewrite fmap_cons, concat_cons, app_assoc.
Qed.
Lemma SetData_notifies d s : alive s →
  ∃ os, Forall2 (λ p o, heap s !! p = Some o) (observers_ s) os ∧
    SetData d s = Ret tt (mkState (observers_ s) (heap s) (cout s ++ concat (OnModelChanched <$> os))).
Proof. intros Hs. unfold SetData, Notify. repeat run_step. by apply call_all. Qed.

Lemma times_app p l l' : times p (l ++ l') = (times p l + times p l')%nat.
Proof. unfold times. by rewrite filter_app, length_app. Qed.
Lemma times_removed p q l :
  times p (filter (λ r, r ≠ q) l) = if decide (q = p) then 0%nat else times p l.
Proof.
  unfold times. rewrite list_filter_filter. destruct (decide (q = p)) as [->|Hne].
  - induction l as [|r l IH]; [done|]. rewrite filter_cons_False; [done|naive_solver].
  - f_equal. apply list_filter_iff. intros r. naive_solver.
Qed.

Lemma run_op_counts o s :
  alive s → (∀ p, pointer o = Some p → is_Some (heap s !! p)) →
  ∃ s', run_op o s = Ret tt s' ∧ alive s' ∧ heap s' = heap s ∧
    ∀ p ops, registrations_from (times p (observers_ s')) p ops =
             registrations_from (times p (observers_ s)) p (o :: ops).
Proof.
  intros Hs Hp. destruct o as [p|p|d]; cbn [run_op].
  - eexists. split; [reflexivity|]. split; [|split; [done|]].
    + unfold alive. cbn [observers_ heap]. apply Forall_app. split; [done|]. constructor; [by apply Hp|done].
    + intros q ops. cbn [observers_ registrations_from]. rewrite times_app. f_equal. unfold times at 2.
      destruct (decide (p = q)) as [->|]; [rewrite filter_cons_True by done|rewrite filter_cons_False by done];
        simpl; lia.
  - eexists. split; [reflexivity|]. split; [|split; [done|]].
    + unfold alive. cbn [observers_ heap]. apply Forall_forall. intros q [_ Hq]%list_elem_of_filter.
      by apply (proj1 (Forall_forall _ _) Hs).
    + intros q ops. cbn [observers_ registrations_from]. by rewrite times_removed.
  - destruct (SetData_notifies d s Hs) as (os & _ & E). rewrite E. eexists. split; [reflexivity|].
    split; [done|]. by split.
Qed.
Lemma run_ops_count ops : ∀ s,
  alive s → Forall (λ o, ∀ p, pointer o = Some p → is_Some (heap s !! p)) ops →
  ∃ s', for_each run_op ops s = Ret tt s' ∧ alive s' ∧ heap s' = heap s ∧
    ∀ p, times p (observers_ s') = registrations_from (times p (observers_ s)) p ops.
Proof.
  induction ops as [|o ops IH]; intros s Hs Ho; [by exists s|]. apply Forall_cons in Ho as [Ho Hops].
  destruct (run_op_counts o s Hs Ho) as (s1 & E & Hs1 & Hh & Hr).
  destruct (IH s1 Hs1) as (s2 & E2 & Hs2 & Hh2 & Hr2); [by rewrite Hh|].
  exists s2. rewrite (for_each_cons _ _ _ _ _ E), E2. do 2 (split; [done|]). split; [congruence|].
  intros p. by rewrite Hr2, Hr.
Qed.

(** After any history of registrations, removals and notifications by
    observers that are alive, a change of the data calls each observer exactly
    as often as it was registered since it was last removed, in the order of
    registration, and nobody else. *)
Theorem observers_notified h ops d :
  Forall (λ o, ∀ p, pointer o = Some p → is_Some (h !! p)) ops →
  ∃ s os s', for_each run_op ops (mkState [] h []) = Ret tt s ∧
    (∀ p, times p (observers_ s) = registrations p ops) ∧
    Forall2 (λ p o, h !! p = Some o) (observers_ s) os ∧
    SetData d s = Ret tt s' ∧ observers_ s' = observers_ s ∧
    cout s' = cout s ++ concat (OnModelChanched <$> os).
Proof.
  intros Ho. destruct (run_ops_count ops (mkState [] h [])) as (s & E & Hs & Hh & Hr); [constructor|done|].
  cbn [heap] in Hh. destruct (SetData_notifies d s Hs) as (os & Hos & Es).
  exists s, os. eexists. split; [done|]. split; [done|]. rewrite Hh in Hos. split; [done|]. split; [done|].
  by split.
Qed.
(** An observer destroyed without being removed is called all the same. *)
Lemma destroyed_observer_called p d s :
  alive s → p ∈ observers_ s → (destroy p ;; SetData d) s = Undef UseAfterFree.
Proof.
  intros Hs Hp. unfold destroy, SetData, Notify. repeat run_step. cbn [observers_].
  set (s0 := mkState _ _ _). assert (∀ l s1, heap s1 = base.delete p (heap s) → p ∈ l →
    Forall (λ p, is_Some (heap s !! p)) l → for_each call l s1 = Undef UseAfterFree) as Hl.
  { induction l as [|q l IH]; intros s1 Hh Hin Hl; [by apply not_elem_of_nil in Hin|].
    apply Forall_cons in Hl as [[o Hq] Hl]. cbn [for_each]. unfold bind at 1, call at 1. repeat run_step.
    rewrite Hh. destruct (decide (q = p)) as [->|Hne]; [by rewrite lookup_delete_eq|].
    rewrite lookup_delete_ne, Hq by done. apply IH; [done| |done].
    apply elem_of_cons in Hin as [->|]; done. }
  by apply Hl.
Qed.
End Model.

Definition main : M (state (O:=ConcreteObserver)) Z :=
  modify (λ s, mkState (observers_ s)
    {[1%nat := ConcreteObserver1; 2%nat := ConcreteObserver2; 3%nat := ConcreteObserver3]} (cout s)) ;;
  AddObserver 1 ;; AddObserver 2 ;; AddObserver 3 ;;
  SetData 5 ;;
  Model_dtor ;;
  ret 0.

(** Its three observers are never deleted. *)
Example observer_main_prints : ∃ s, main (mkState [] ∅ []) = Ret 0 s ∧ size (heap s) = 3%nat ∧
  cout s = concat (OnModelChanched <$> [ConcreteObserver1; ConcreteObserver2; ConcreteObserver3]).
Proof. eexists. split; [vm_compute; reflexivity|]. by split. Qed.

Definition two : gmap nat ConcreteObserver := {[1%nat := ConcreteObserver1; 2%nat := ConcreteObserver2]}.
Lemma observers_notified_witness :
  ∃ s os s', for_each run_op [Add 1; Add 2; Add 1; Set_ 3; Remove 2; Add 2] (mkState [] two []) = Ret tt s ∧
    (∀ p, times p (observers_ s) = registrations p [Add 1; Add 2; Add 1; Set_ 3; Remove 2; Add 2]) ∧
    Forall2 (λ p o, two !! p = Some o) (observers_ s) os ∧
    SetData 4 s = Ret tt s' ∧ observers_ s' = observers_ s ∧
    cout s' = cout s ++ concat (OnModelChanched <$> os).
Proof.
  apply (observers_notified two [Add 1; Add 2; Add 1; Set_ 3; Remove 2; Add 2] 4).
  repeat constructor; intros p [=]; subst; by eexists.
Defined.
End Observers.

(** Commands on documents. A document has no data: what its functions do is
    write; a pointer to one is null or points to a document that is alive. *)
Module Commands.
Abbreviation terminal := (list (out False)).
Abbreviation cm := (M terminal).

Definition put (l : terminal) : cm unit := modify (λ t, t ++ l).
Definition insert : cm unit := put [OStr "insert command"; OStr newline].
Definition remove : cm unit := put [OStr "remove command"; OStr newline].
Definition copy : cm unit := put [OStr "copy command"; OStr newline].

(** [Document*], and the two kinds of std::function, which may be empty. *)
Inductive Document : Type := TheDocument.
Abbreviation document := (option Document).
Definition ExCommand : Type := option (Document → cm unit).
Definition AnyCommand : Type := option (cm unit).

Inductive Command : Type :=
  | CopyCommand (doc_ : document)
  | RemoveCommand (doc_ : document)
  | CustomCommand (doc_ : document) (command_ : ExCommand) (any_command_ : AnyCommand).
Definition CustomCommand_ex (doc : document) (command : ExCommand) : Command :=
  CustomCommand doc command None.
Definition CustomCommand_any (command : AnyCommand) : Command := CustomCommand None None command.

Definition execute (c : Command) : cm unit :=
  match c with
  | CopyCommand doc => let! _ := or_undef NullPointer doc in copy
  | RemoveCommand doc => let! _ := or_undef NullPointer doc in remove
  | CustomCommand doc command _ =>
      let! d := or_undef NullPointer doc in
      match command with Some f => f d | None => throw bad_function_call end
  end.
Definition custom_execute (c : Command) : cm unit :=
  match c with
  | CopyCommand _ | RemoveCommand _ => ret tt
  | CustomCommand _ _ any_command =>
      match any_command with Some f => f | None => throw bad_function_call end
  end.

(** A button has no constructor: until setCommand its pointer is indeterminate. *)
Record CopyButton : Type := mkCopyButton { command_ : option (option Command) }.
Definition new_CopyButton : CopyButton := mkCopyButton None.
Definition setCommand (c : option Command) (btn : CopyButton) : CopyButton := mkCopyButton (Some c).
Definition onClick (btn : CopyButton) : cm unit :=
  let! p := or_undef Indeterminate (command_ btn) in
  let! c := or_undef NullPointer p in
  execute c.

Definition main : cm Z :=
  let doc := Some TheDocument in
  let btn := setCommand (Some (CopyCommand doc)) new_CopyButton in
  onClick btn ;;
  put [OStr "Custom command "; OStr newline] ;;
  let copy_function := λ _ : Document, copy in
  let copy_function2 := copy in
  copy_function TheDocument ;;
  copy_function2 ;;
  execute (CustomCommand_ex doc (Some copy_function)) ;;
  custom_execute (CustomCommand_any (Some copy_function2)) ;;
  ret 0.

(** A custom command is two commands in one object, and either constructor
    leaves one of them unusable: made from a document and a function it runs the
    function on the document by execute and throws by custom_execute; made from
    a function only it runs it by custom_execute, and execute goes through a null
    pointer. A command made with a null document is undefined to execute. *)
Lemma custom_commands f g (d : Document) t :
  execute (CustomCommand_ex (Some d) (Some f)) t = f d t ∧
  custom_execute (CustomCommand_ex (Some d) (Some f)) t = Exc bad_function_call t ∧
  custom_execute (CustomCommand_any (Some g)) t = g t ∧
  execute (CustomCommand_any (Some g)) t = Undef NullPointer ∧
  onClick new_CopyButton t = Undef Indeterminate ∧
  (∀ c, onClick (setCommand (Some c) new_CopyButton) t = execute c t).
Proof. done. Qed.
Example command_main_prints :
  main [] = Ret 0 ([OStr "copy command"; OStr newline; OStr "Custom command "; OStr newline] ++
    concat (replicate 4 [OStr "copy command"; OStr newline])).
Proof. reflexivity. Qed.
End Commands.
