(* ===== verification/Lifetimes.v ===== *)
(** * The order of construction and destruction

    Models the examples about the lifetimes of objects with bases and members:
    examples/010_initializer_list_vs_constructor_body.cpp, 011_destructors.cpp,
    025_contr_order.cpp, 026_diamond_inheritance.cpp and 027_RTTI.cpp. A class is
    a row of a class table; an object is the tree of its subobjects in the order
    in which C++ constructs them. *)

From S2P Require Import Prelude.

Abbreviation terminal := (list (out False)).

(** Which constructor runs: the one without arguments, one from an int, the
    copy constructor, or one from several objects. *)
Inductive init : Type := Default | FromInt (n : Z) | Copy | Args.

(** The bases (virtual or not) and the members, in the order of their
    declaration; the mem-initializers of a constructor, by the name of the base
    or member; the bodies, where [None] calls a pure virtual function. *)
Record class : Type := mkClass {
  bases : list (bool * string);
  members : list (string * string);
  inits : init → list (string * init);
  ctor_body : init → option terminal;
  dtor_body : init → terminal
}.
Abbreviation program := (list (string * class)).

Fixpoint assoc {A} (k : string) (l : list (string * A)) : option A :=
  match l with
  | [] => None
  | (k', a) :: l' => if decide (k = k') then Some a else assoc k l'
  end.

(** The subobjects of a part, in the order of construction. *)
Inductive object : Type := Obj (cls : string) (i : init) (subs : list object).

Section Program.
Context (prog : program).

(** The virtual bases of a class: depth first, from left to right, each once. *)
Fixpoint virtual_bases (fuel : nat) (cls : string) : list string :=
  match fuel, assoc cls prog with
  | S fuel', Some c =>
      foldl (λ l b, if decide (b ∈ l) then l else l ++ [b]) []
        (flat_map (λ vb : bool * string,
           virtual_bases fuel' vb.2 ++ (if vb.1 then [vb.2] else [])) (bases c))
  | _, _ => []
  end.

(** The layout of an object of class [cls] made by the constructor [i]; only a
    complete object constructs the virtual bases, with its own initializers. *)
Fixpoint layout (fuel : nat) (complete : bool) (cls : string) (i : init) : option object :=
  match fuel, assoc cls prog with
  | S fuel', Some c =>
      let ini x := default Default (assoc x (inits c i)) in
      let virtual := if complete then virtual_bases (S fuel') cls else [] in
      let direct := flat_map (λ vb : bool * string, if vb.1 then [] else [vb.2]) (bases c) in
      vs ← mapM (λ x, layout fuel' false x (ini x)) virtual;
      bs ← mapM (λ x, layout fuel' false x (ini x)) direct;
      ms ← mapM (λ m : string * string, layout fuel' true m.2 (ini m.1)) (members c);
      Some (Obj cls i (vs ++ bs ++ ms))
  | _, _ => None
  end.
(** A class derives from earlier classes of the table only. *)
Definition make (cls : string) (i : init) : option object := layout (length prog) true cls i.

(** The constructors and destructors that run, in their order. *)
Fixpoint built (o : object) : list (string * init) :=
  let 'Obj cls i subs := o in flat_map built subs ++ [(cls, i)].
Fixpoint destroyed (o : object) : list (string * init) :=
  let 'Obj cls i subs := o in (cls, i) :: concat (rev (map destroyed subs)).

Definition put (l : terminal) : M terminal unit := modify (λ t, t ++ l).
Definition run_ctor (ci : string * init) : M terminal unit :=
  match assoc ci.1 prog with
  | None => ret tt
  | Some c => let! l := or_undef PureVirtualCall (ctor_body c ci.2) in put l
  end.
Definition run_dtor (ci : string * init) : M terminal unit :=
  match assoc ci.1 prog with None => ret tt | Some c => put (dtor_body c ci.2) end.
Definition construct (o : option object) : M terminal unit :=
  match o with Some o => for_each run_ctor (built o) | None => ret tt end.
Definition destroy (o : option object) : M terminal unit :=
  match o with Some o => for_each run_dtor (destroyed o) | None => ret tt end.
End Program.

(** ** Destructors mirror constructors *)

(** Induction over a tree of subobjects. *)
Lemma object_ind' (P : object → Prop) :
  (∀ cls i subs, Forall P subs → P (Obj cls i subs)) → ∀ o, P o.
Proof.
  intros H. fix IH 1. intros [cls i subs]. apply H.
  induction subs as [|o subs IHs]; constructor; [apply IH|exact IHs].
Qed.
(** The destructors of an object run in the reverse order of its constructors:
    each subobject is destroyed exactly once, after everything built on it. *)
Lemma destroyed_mirrors o : destroyed o = rev (built o).
Proof.
  induction o as [cls i subs IH] using object_ind'. simpl. rewrite rev_app_distr. simpl. f_equal.
  induction IH as [|o subs Ho _ IHs]; [done|]. simpl.
  by rewrite concat_app, rev_app_distr, IHs, Ho, concat_cons, app_nil_r.
Qed.
(** The objects of a scope, destroyed in the reverse order of their
    declarations. *)
Lemma scope_mirrors os : flat_map destroyed (rev os) = rev (flat_map built os).
Proof.
  induction os as [|o os IH]; [done|]. simpl. rewrite flat_map_app, rev_app_distr, IH. simpl.
  by rewrite app_nil_r, destroyed_mirrors.
Qed.

Definition line (s : string) : terminal := [OStr s; OEndl].
Definition no_inits : init → list (string * init) := λ _, [].
Definition prints (s : string) : init → option terminal := λ _, Some (line s).
Definition silent : init → terminal := λ _, [].

(** ** 025_contr_order.cpp *)
Module ContrOrder.
(** The int member of A: its constructor from int sets it, it is 0 otherwise. *)
Definition a_ (i : init) : Z := match i with FromInt n => n | _ => 0 end.
Definition A : class := mkClass [] [] no_inits
  (λ i, Some (match i with FromInt _ => line "ctor A() from int" | _ => line "ctor A()" end))
  (λ i, [OStr "dtor ~A() : a_ == "; OInt (a_ i); OEndl]).
Definition B : class := mkClass [(false, "A")] [("a", "A")] (λ _, [("a", FromInt 5)])
  (prints "ctor B()") (λ _, line "dtor ~B()").
Definition Alpha : class := mkClass [] [] no_inits (prints "ctor Alpha()") (λ _, line "dtor ~Alpha()").
Definition C : class := mkClass [(false, "Alpha"); (false, "B")] [] no_inits
  (prints "ctor C()") (λ _, line "dtor ~C()").
Definition D : class := mkClass [] [("c", "C")] no_inits (prints "ctor D()") (λ _, line "dtor ~D()").
(** The constructor of AA calls bar, which is pure in AA; that of BB calls its
    own bar, which does nothing. *)
Definition AA : class := mkClass [] [] no_inits (λ _, None) silent.
Definition BB : class := mkClass [(false, "AA")] [] no_inits (λ _, Some []) silent.
Definition prog : program :=
  [("A", A); ("B", B); ("Alpha", Alpha); ("C", C); ("D", D); ("AA", AA); ("BB", BB)].

Definition first_scope : M terminal unit :=
  let d := make prog "D" Default in construct prog d ;; destroy prog d.
Definition main : M terminal Z :=
  first_scope ;;
  let bb := make prog "BB" Default in
  construct prog bb ;; destroy prog bb ;;
  ret 0.

(** D builds its member from the roots up - Alpha, the base A, the member a of
    B from 5, B, C - and itself last, and is destroyed the other way round; then
    BB calls a pure virtual function. *)
Example contr_order_prints :
  first_scope [] = Ret tt (concat (line <$>
    ["ctor Alpha()"; "ctor A()"; "ctor A() from int"; "ctor B()"; "ctor C()"; "ctor D()";
     "dtor ~D()"; "dtor ~C()"; "dtor ~B()"]) ++
    [OStr "dtor ~A() : a_ == "; OInt 5; OEndl; OStr "dtor ~A() : a_ == "; OInt 0; OEndl] ++
    line "dtor ~Alpha()") ∧
  main [] = Undef PureVirtualCall.
Proof. split; vm_compute; reflexivity. Qed.
End ContrOrder.

(** ** 026_diamond_inheritance.cpp *)
Module Diamond.
Definition from_int (s : string) : init → option terminal := λ i,
  Some (match i with
        | FromInt n => [OStr (String.append s " "); OStr " a = "; OInt n; OEndl]
        | _ => line s
        end).
Definition A : class := mkClass [] [] no_inits (from_int "ctor A()") silent.
Definition Bfirst : class := mkClass [] [] no_inits (prints "ctor Bfirst()") silent.
Definition B : class := mkClass [(false, "Bfirst"); (true, "A")] []
  (λ i, match i with FromInt n => [("A", FromInt n)] | _ => [] end) (from_int "ctor B()") silent.
Definition C : class := mkClass [(true, "A")] [] no_inits (prints "ctor C()") silent.
Definition NonVirtual : class := mkClass [] [] no_inits (prints "ctor Nonvirtual()") silent.
(** [D() : B(5)]; the int is a parameter of the model. *)
Definition D (n : Z) : class := mkClass [(false, "NonVirtual"); (false, "B"); (false, "C")] []
  (λ _, [("B", FromInt n)]) (prints "ctor D()") silent.
Definition prog (n : Z) : program :=
  [("A", A); ("Bfirst", Bfirst); ("B", B); ("C", C); ("NonVirtual", NonVirtual); ("D", D n)].
Definition foo : M terminal unit := put [OStr "foo1"; OEndl; OEndl].
Definition main : M terminal Z :=
  let d1 := make (prog 5) "D" Default in
  construct (prog 5) d1 ;; foo ;; destroy (prog 5) d1 ;; ret 0.

(** The shared base A of a D is built once, first, and without the int that the
    initializer of B passes to it: only the complete object initializes a
    virtual base. A B by itself does pass it on. *)
Lemma virtual_base_once n :
  built <$> make (prog n) "D" Default =
    Some [("A", Default); ("NonVirtual", Default); ("Bfirst", Default); ("B", FromInt n); ("C", Default);
          ("D", Default)] ∧
  built <$> make (prog n) "B" (FromInt n) = Some [("A", FromInt n); ("Bfirst", Default); ("B", FromInt n)].
Proof. split; reflexivity. Qed.
Example diamond_prints :
  main [] = Ret 0 (line "ctor A()" ++ line "ctor Nonvirtual()" ++ line "ctor Bfirst()" ++
    [OStr "ctor B() "; OStr " a = "; OInt 5; OEndl] ++ line "ctor C()" ++ line "ctor D()" ++
    [OStr "foo1"; OEndl; OEndl]).
Proof. vm_compute. reflexivity. Qed.

(** The second namespace, without virtual bases; a D has the [foo] of C, by its
    using declaration. *)
Definition B' : class := mkClass [] [] no_inits (prints "ctor B()") silent.
Definition C' : class := mkClass [] [] no_inits (prints "ctor C()") silent.
Definition D' : class := mkClass [(false, "B"); (false, "C")] [] no_inits (prints "ctor D()") silent.
Definition another_inh_problem : program := [("B", B'); ("C", C'); ("D", D')].
Definition B_foo : M terminal unit := put [OStr "foo2"; OEndl; OEndl].
Definition C_foo : M terminal unit := put [OStr "foo3"; OEndl; OEndl].
Definition D_foo : M terminal unit := C_foo.
Example another_prints :
  (construct another_inh_problem (make another_inh_problem "D" Default) ;; D_foo) [] =
    Ret tt (line "ctor B()" ++ line "ctor C()" ++ line "ctor D()" ++ [OStr "foo3"; OEndl; OEndl]).
Proof. vm_compute. reflexivity. Qed.
End Diamond.

(** ** 011_destructors.cpp *)
Module Destructors.
Definition A : class := mkClass [] [] no_inits
  (λ i, Some (match i with Copy => line "A(const &a)" | _ => line "A()" end)) (λ _, line "~A()").
Definition B : class := mkClass [] [] no_inits
  (λ i, Some (match i with Copy => line "B(const &b)" | _ => line "B()" end)) (λ _, line "~B()").
Definition C : class := mkClass [] [("a", "A"); ("b", "B")] (λ _, [("a", Copy); ("b", Copy)])
  (λ _, Some []) (λ _, line "~C()").
Definition prog : program := [("A", A); ("B", B); ("C", C)].

Definition main : M terminal Z :=
  let a := make prog "A" Default in
  let b := make prog "B" Default in
  let c := make prog "C" Args in
  construct prog a ;; construct prog b ;;
  put (line "C(a, b)") ;; construct prog c ;;
  put (line "C(a, b)") ;; construct prog c ;;
  put (line "C(a, b)") ;; construct prog c ;;
  put (line "end of scope") ;; destroy prog c ;;
  put (line "destructor call") ;; destroy prog c ;;
  put (line "end of scope") ;;
  destroy prog c ;; destroy prog b ;; destroy prog a ;;
  ret 0.

(** Every copy that a C holds is destroyed with it, the copy of b first. *)
Example destructors_prints :
  main [] = Ret 0 (concat (line <$>
    ["A()"; "B()"; "C(a, b)"; "A(const &a)"; "B(const &b)"; "C(a, b)"; "A(const &a)"; "B(const &b)";
     "C(a, b)"; "A(const &a)"; "B(const &b)"; "end of scope"; "~C()"; "~B()"; "~A()";
     "destructor call"; "~C()"; "~B()"; "~A()"; "end of scope"; "~C()"; "~B()"; "~A()"; "~B()"; "~A()"])).
Proof. vm_compute. reflexivity. Qed.

(** The hierarchy that main has commented out: with the virtual destructor of
    Base, deleting a Derived through a pointer to its base destroys all of it. *)
Definition Object : class := mkClass [] [] no_inits (prints "Object::ctor()") (λ _, line "Object::dtor()").
Definition Base : class := mkClass [] [] no_inits (prints "Base::ctor()") (λ _, line "Base::dtor()").
Definition Derived : class := mkClass [(false, "Base")] [("obj", "Object")] no_inits
  (prints "Derived::ctor()") (λ _, line "Derived::dtor()").
Definition hierarchy : program := [("Object", Object); ("Base", Base); ("Derived", Derived)].
Definition delete_base : M terminal unit :=
  let p := make hierarchy "Derived" Default in construct hierarchy p ;; destroy hierarchy p.
Example delete_base_prints :
  delete_base [] = Ret tt (concat (line <$>
    ["Base::ctor()"; "Object::ctor()"; "Derived::ctor()"; "Derived::dtor()"; "Object::dtor()"; "Base::dtor()"])).
Proof. vm_compute. reflexivity. Qed.
End Destructors.

(** ** 010_initializer_list_vs_constructor_body.cpp *)
Module InitLists.
(** Constructors print and, in the body, assign; the copy constructors of C and
    D initialize no member, so that these are made by their default
    constructors. *)
Definition A : class := mkClass [] [] no_inits
  (λ i, Some (match i with Copy => line "A(const A &a)" | _ => line "A()" end)) silent.
Definition B : class := mkClass [] [] no_inits
  (λ i, Some (match i with Copy => line "B(const B &b)" | _ => line "B()" end)) silent.
Definition assign_A : terminal := line "A &operator=(A &a)".
Definition assign_B : terminal := line "B &operator=(B &b)".
Definition assign_C : terminal := line "C &operator=(C &c)".
Definition C : class := mkClass [] [("a", "A"); ("b", "B")] no_inits
  (λ i, Some (match i with
              | Copy => line "C(const C &c)"
              | Args => assign_A ++ assign_B
              | _ => line "C()" end)) silent.
Definition D : class := mkClass [] [("a", "A"); ("b", "B"); ("c", "C")] no_inits
  (λ i, Some (match i with
              | Copy => line "D(const D &d)"
              | Args => assign_A ++ assign_B ++ assign_C
              | _ => line "D()" end)) silent.
Definition E : class := mkClass [] [("a", "A"); ("b", "B"); ("c", "C"); ("d", "D")]
  (λ _, [("a", Copy); ("b", Copy); ("c", Copy); ("d", Copy)]) (λ _, Some []) silent.
Definition prog : program := [("A", A); ("B", B); ("C", C); ("D", D); ("E", E)].

Definition main : M terminal Z :=
  construct prog (make prog "A" Default) ;;
  construct prog (make prog "B" Default) ;;
  put (line "C(a, b)") ;;
  construct prog (make prog "C" Args) ;;
  put (line "D(a, b, c)") ;;
  construct prog (make prog "D" Args) ;;
  put (line "E(a, b, c, d)") ;;
  construct prog (make prog "E" Args) ;;
  ret 0.

(** The initializers of E copy four objects, but the copies of C and D are
    copies in name only: the members inside them are made anew, by default
    constructors. *)
Lemma copies_of_members :
  built <$> make prog "E" Args = Some [("A", Copy); ("B", Copy);
    ("A", Default); ("B", Default); ("C", Copy);
    ("A", Default); ("B", Default); ("A", Default); ("B", Default); ("C", Default); ("D", Copy);
    ("E", Args)].
Proof. reflexivity. Qed.
Example init_lists_prints :
  main [] = Ret 0 (concat (line <$>
    ["A()"; "B()"; "C(a, b)"; "A()"; "B()"; "A &operator=(A &a)"; "B &operator=(B &b)";
     "D(a, b, c)"; "A()"; "B()"; "A()"; "B()"; "C()"; "A &operator=(A &a)"; "B &operator=(B &b)";
     "C &operator=(C &c)"; "E(a, b, c, d)"; "A(const A &a)"; "B(const B &b)"; "A()"; "B()"; "C(const C &c)";
     "A()"; "B()"; "A()"; "B()"; "C()"; "D(const D &d)"])).
Proof. vm_compute. reflexivity. Qed.
End InitLists.

(** ** 027_RTTI.cpp *)
Module RTTI.
Definition A : class := mkClass [] [] no_inits (prints "ctor A()") silent.
Definition B : class := mkClass [(false, "A")] [] no_inits (prints "ctor A()") silent.
Definition C : class := mkClass [] [] no_inits (λ _, Some []) silent.
Definition Base : class := mkClass [] [] no_inits (λ _, Some []) silent.
Definition Derived : class := mkClass [(false, "Base")] [] no_inits (λ _, Some []) silent.
Definition Base2 : class := mkClass [] [] no_inits (λ _, Some []) silent.
Definition Derived2 : class := mkClass [(false, "Base2")] [] no_inits (λ _, Some []) silent.
Definition prog : program :=
  [("A", A); ("B", B); ("C", C); ("Base", Base); ("Derived", Derived); ("Base2", Base2); ("Derived2", Derived2)].
(** The classes with a virtual function of their own or of a base. *)
Definition polymorphic (cls : string) : bool :=
  bool_decide (cls ∈ ["A"; "B"; "C"; "Base2"; "Derived2"]).

(** [cls] is [base] or derives from it. *)
Fixpoint derives (fuel : nat) (cls base : string) : bool :=
  match fuel with
  | O => false
  | S fuel' =>
      bool_decide (cls = base) ||
      match assoc cls prog with
      | None => false
      | Some c => existsb (λ vb : bool * string, derives fuel' vb.2 base) (bases c)
      end
  end.
(** An lvalue or a pointed-to object: its static and its dynamic class. *)
Record lvalue : Type := mkLvalue { static : string; dynamic : string }.
Definition dynamic_cast (target : string) (x : lvalue) : option lvalue :=
  if derives (length prog) (dynamic x) target then Some (mkLvalue target (dynamic x)) else None.
(** typeid looks at the object only for a polymorphic static class; for a
    pointer it is the static type. *)
Definition typeid (x : lvalue) : string := if polymorphic (static x) then dynamic x else static x.
Definition typeid_pointer (x : lvalue) : string := String.append (static x) "*".

Definition foo (a : lvalue) : M terminal unit :=
  match dynamic_cast "B" a with Some _ => ret tt | None => put [OStr "bad cast"] end.
Definition when (c : bool) (l : terminal) : M terminal unit := if c then put l else ret tt.

(** [name] is type_info::name, whose result is up to the implementation. *)
Definition main (name : string → string) : M terminal Z :=
  (construct prog (make prog "B" Default) ;;
   let a := mkLvalue "A" "B" in
   match dynamic_cast "B" a with
   | Some b => put [OStr "b is a child of A"]
   | None => put [OStr "b is not a child of A"]
   end) ;;
  put [OEndl] ;;
  (construct prog (make prog "C" Default) ;;
   let c := mkLvalue "C" "C" in
   match dynamic_cast "B" c with
   | Some b => put [OStr "b is a child of C"]
   | None => put [OStr "b is not a child of C"]
   end) ;;
  put [OEndl] ;;
  (construct prog (make prog "B" Default) ;;
   let a := mkLvalue "B" "B" in
   foo (mkLvalue "A" (dynamic a)) ;;
   destroy prog (make prog "B" Default)) ;;
  put [OEndl] ;;
  (construct prog (make prog "A" Default) ;;
   construct prog (make prog "B" Default) ;;
   let a := mkLvalue "A" "A" in
   let b := mkLvalue "A" "B" in
   when (bool_decide (typeid_pointer a = "A*")) (line "a is A*") ;;
   when (bool_decide (typeid a = "A")) (line "*a is A") ;;
   when (bool_decide (typeid_pointer b = "B*")) (line "b is B*") ;;
   when (bool_decide (typeid_pointer b = "A*")) (line "b is A*") ;;
   when (bool_decide (typeid b = "A")) (line "*b is B") ;;
   when (bool_decide (typeid b = "B")) (line "*b is B")) ;;
  (let b1 := mkLvalue "Base" "Derived" in
   put [OStr "reference to non-polymorphic base: "; OStr (name (typeid b1)); OEndl] ;;
   let b2 := mkLvalue "Base2" "Derived2" in
   put [OStr "reference to polymorphic base: "; OStr (name (typeid b2)); OEndl]) ;;
  ret 0.

(** A dynamic_cast of the program finds a class exactly when the construction
    of the dynamic class builds a part of it. *)
Lemma dynamic_cast_finds_parts c t x :
  c ∈ prog.*1 → t ∈ prog.*1 →
  is_Some (dynamic_cast t (mkLvalue x c)) ↔ t ∈ (from_option built [] (make prog c Default)).*1.
Proof.
  intros Hc Ht. unfold dynamic_cast. cbn [dynamic].
  assert (Forall (λ c, Forall (λ t, derives (length prog) c t =
    bool_decide (t ∈ (from_option built [] (make prog c Default)).*1)) prog.*1) prog.*1) as H.
  { apply (bool_decide_unpack _). by vm_compute. }
  rewrite Forall_forall in H. specialize (H c Hc). rewrite Forall_forall in H. rewrite (H t Ht).
  case_bool_decide as Hd; [split; [done|by eexists]|]. split; [by intros []|done].
Qed.
Example rtti_prints name :
  main name [] = Ret 0 (line "ctor A()" ++ line "ctor A()" ++ line "b is a child of A" ++
    line "b is not a child of C" ++ line "ctor A()" ++ line "ctor A()" ++ [OEndl] ++
    line "ctor A()" ++ line "ctor A()" ++ line "ctor A()" ++
    line "a is A*" ++ line "*a is A" ++ line "b is A*" ++ line "*b is B" ++
    [OStr "reference to non-polymorphic base: "; OStr (name "Base"); OEndl;
     OStr "reference to polymorphic base: "; OStr (name "Derived2"); OEndl]).
Proof. vm_compute. reflexivity. Qed.
End RTTI.
