(* ===== verification/SmallServers.v ===== *)
(** * The small servers and clients over Socket

    Models net/simple_server/simple_server.cpp, net/prefork/prefork.cpp,
    net/multiplexing/multiplex.cpp, net/client_connect_timeout/client_timeouts.cpp
    and net/client_read_timeout/client_timeouts.cpp, a Module each. The loops
    of the servers that only an exception leaves run for a number of rounds. *)

From S2P Require Import Prelude Posix Text Socket.

(** [while (true) try { before; line = client->recv(); client->send(reply); }
    catch (...) { ...; return; }]: the body of the client_work functions. *)
Fixpoint serve_lines `{Os : OS} (before : M sonet unit) (reply_to : bytes → bytes) (fuel n : nat) :
    M sonet unit :=
  match n with
  | O => no_fuel
  | S n' =>
      let! go_on := try_catch (
          before ;;
          let! line := recv in
          send fuel (reply_to line) ;;
          ret true)
        (λ e, say [OStr "exception: "; OStr (what e); OEndl] ;; ret false) in
      if go_on then serve_lines before reply_to fuel n' else ret tt
  end.

(** One round of a server that works for one client at a time; the Socket of
    the client dies at its end. *)
Definition accept_and_work `{Os : OS} (work : M sonet unit) : M sonet unit :=
  let! client := accept in
  let! c := or_undef NullPointer client in
  let! _ := local c (finally work Socket_dtor) in
  ret tt.

(** "usage: " and the name of the program, which may be missing. *)
Definition usage `{Os : OS} {T} (argv : list bytes) (args : string) : M (net T) Z :=
  let! p := or_undef NullPointer (head argv) in
  say [OStr "usage: "; OStr (text p); OStr args; OEndl] ;;
  ret 0.
Definition report_exception {T} (e : exn) : M (net T) unit := say [OStr (what e); OEndl].

Module SimpleServer.
Definition reply_to (line : bytes) : bytes := b "echo: " ++ line ++ [LF].
Definition client_work `{Os : OS} (fuel n : nat) : M sonet unit :=
  setRcvTimeout 120 0 ;;
  serve_lines (say [OStr "start new recv "; OStr newline]) reply_to fuel n.

Definition main `{Os : OS} {T} (argv : list bytes) (rds fuel : nat) : M (net T) Z :=
  match argv with
  | [_; arg] =>
      let! port := stoi arg in
      try_catch (
        let! _ := local Socket_ctor (finally (
            createServerSocket port 5 ;;
            rounds rds (
              say [OStr "start new accept "; OStr newline] ;;
              accept_and_work (client_work fuel fuel)))
          Socket_dtor) in ret tt)
        report_exception ;;
      ret 0
  | _ => usage argv " port"
  end.
End SimpleServer.

Module Prefork.
Definition reply_to (line : bytes) : bytes := b "echo: " ++ line.
Definition client_work `{Os : OS} (fuel n : nat) : M sonet unit :=
  setRcvTimeout 30 0 ;;
  serve_lines (
      let! pid := sys Getpid in
      say [OStr "waiting for bytes, pid = "; OInt (rc pid); OEndl])
    reply_to fuel n.

(** Each of the two processes that fork leaves runs the rest of the model with
    a history of its own. *)
Definition main `{Os : OS} {T} (argv : list bytes) (rds fuel : nat) : M (net T) Z :=
  match argv with
  | [_; arg] =>
      let! port := stoi arg in
      try_catch (
        let! _ := local Socket_ctor (finally (
            createServerSocket port 25 ;;
            (let! pid := sys Fork in
             let! me := sys Getpid in
             if bool_decide (0 < rc pid) then say [OStr "parent: "; OInt (rc me); OEndl]
             else say [OStr "child: "; OInt (rc me); OEndl]) ;;
            rounds rds (accept_and_work (client_work fuel fuel)))
          Socket_dtor) in ret tt)
        report_exception ;;
      ret 0
  | _ => usage argv " port"
  end.
End Prefork.

Module Multiplex.
Definition reply_to (line : bytes) : bytes := b "echo: " ++ line ++ [LF].
(** Not called by [main]. *)
Definition client_work `{Os : OS} (fuel n : nat) : M sonet unit :=
  setRcvTimeout 30 0 ;;
  serve_lines (ret tt) reply_to fuel n.

(** The Socket [s] and the vector [clients] of [main]. *)
Record state : Type := mkState { listener : Socket_object; clients : list Socket_object }.

Definition on_listener `{Os : OS} {A} (m : M sonet A) : M (net state) A :=
  let! l := gets (λ s, listener (own s)) in
  let! r := local l m in
  set_own (λ o, mkState r.2 (clients o)) ;;
  ret r.1.
Definition push_back (c : Socket_object) : M (net state) unit :=
  set_own (λ o, mkState (listener o) (clients o ++ [c])).

(** [while (auto client = s.accept()) ...] *)
Fixpoint accept_clients `{Os : OS} (fuel : nat) : M (net state) unit :=
  match fuel with
  | O => no_fuel
  | S fuel' =>
      let! client := on_listener accept in
      match client with
      | None => ret tt
      | Some c =>
          let! _ := local c (try_catch (setNonBlocked true) (λ e, Socket_dtor ;; throw e)) in
          push_back c ;;
          accept_clients fuel'
      end
  end.

(** The function of for_each. *)
Definition poll_client `{Os : OS} (c : Socket_object) : M (net state) unit :=
  let! _ := local c (
    let! has := hasData in
    if has then let! _ := recv in ret tt else ret tt) in
  ret tt.

Definition round `{Os : OS} (fuel : nat) : M (net state) unit :=
  let! _ := sys (Usleep 1000000) in
  accept_clients fuel ;;
  let! cs := gets (λ s, clients (own s)) in
  for_each poll_client cs.

(** The destructor of the vector. *)
Definition drop_clients `{Os : OS} : M (net state) unit :=
  let! cs := gets (λ s, clients (own s)) in
  for_each (λ c, let! _ := local c Socket_dtor in ret tt) cs.

Definition serve `{Os : OS} (port : Z) (rds fuel : nat) : M (net state) Z :=
  try_catch (
    finally (
      on_listener (createServerSocket port 1) ;;
      on_listener (setNonBlocked true) ;;
      rounds rds (round fuel))
      (on_listener Socket_dtor))
    report_exception ;;
  drop_clients ;;
  ret 0.

Definition main `{Os : OS} {T} (argv : list bytes) (rds fuel : nat) : M (net T) Z :=
  match argv with
  | [_; arg] =>
      let! port := stoi arg in
      let! r := local (mkState Socket_ctor []) (serve port rds fuel) in
      ret r.1
  | _ => usage argv " port"
  end.
End Multiplex.

Module ConnectTimeout.
Definition main `{Os : OS} {T} (argv : list bytes) : M (net T) Z :=
  match argv with
  | [_; host; arg] =>
      try_catch (
        let! port := stoi arg in
        let! _ := local Socket_ctor (finally (connect_timeout host port 10) Socket_dtor) in ret tt)
        report_exception ;;
      ret 0
  | _ => usage argv " host port"
  end.
End ConnectTimeout.

Module ReadTimeout.
Definition main `{Os : OS} {T} (argv : list bytes) : M (net T) Z :=
  match argv with
  | [_; host; arg] =>
      try_catch (
        let! port := stoi arg in
        let! _ := local Socket_ctor (finally (
            connect host port ;;
            setNonBlocked true ;;
            let! _ := recvTimed 3 in ret tt)
          Socket_dtor) in ret tt)
        report_exception ;;
      ret 0
  | _ => usage argv " host port"
  end.
End ReadTimeout.

(** ** Answering *)

Definition is_send (e : call * reply) : Prop := match e.1 with Send _ _ _ => True | _ => False end.
(** What is sent on a descriptor is a piece, up to the end, of the answer to
    the last line received there; nothing but other such pieces was between. *)
Definition answers (f : bytes → bytes) (h : history) : Prop := ∀ h1 x buf fl w h2,
  h = h1 ++ (Send x buf fl, w) :: h2 →
  ∃ h0 r sends, h1 = h0 ++ (Recv x 128 MSG_NOSIGNAL, r) :: sends ∧ Forall is_send sends ∧
    rc r ≠ 0 ∧ rc r ≠ -1 ∧ buf `suffix_of` f (stripped (got r)).

Section Answering.
Context {Os : OS} (f : bytes → bytes).

Lemma answers_snoc h c r : (∀ x buf fl, c ≠ Send x buf fl) → answers f h → answers f (h ++ [(c, r)]).
Proof.
  intros Hc Hh h1 x buf fl w h2 E. destruct h2 as [|y h2 _] using rev_ind.
  - apply app_inj_tail in E as [_ [= E _]]. by destruct (Hc x buf fl).
  - rewrite app_comm_cons, app_assoc in E. apply app_inj_tail in E as [E _]. by apply (Hh _ _ _ _ _ _ E).
Qed.
Lemma answers_sys {T} c :
  (∀ x buf fl, c ≠ Send x buf fl) → keeps (on_trace (T:=T) (answers f)) (sys c).
Proof. intros Hc. apply keeps_sys. intros s Hs. by apply answers_snoc. Qed.

(** The calls of send, after the line was received. *)
Lemma answers_send_loop fuel : ∀ l left sent (s : sonet) h0 r sends,
  trace s = h0 ++ (Recv (m_Sd (own s)) 128 MSG_NOSIGNAL, r) :: sends → Forall is_send sends →
  rc r ≠ 0 → rc r ≠ -1 → l = f (stripped (got r)) → answers f (trace s) →
  match send_loop fuel l left sent s with
  | Ret _ s' | Exc _ s' | Exit _ s' => answers f (trace s')
  | _ => True
  end.
Proof.
  induction fuel as [|fuel IH]; intros l left sent s h0 r sends Ht Hs H0 H1 Hl Ha;
    cbn [send_loop]; [done|]. case_bool_decide; [|done]. unfold sd. srun.
  set (c := Send _ _ _). set (w := answer_to (trace s) c).
  assert (answers f (trace s ++ [(c, w)])) as Ha'.
  { intros h1 x buf fl w' h2 E. destruct h2 as [|y h2 _] using rev_ind.
    - apply app_inj_tail in E as [<- [= <- <- _ _]]. exists h0, r, sends.
      split; [done|]. split; [done|]. split; [done|]. split; [done|]. rewrite <-Hl.
      exists (take (Z.to_nat sent) l). symmetry. apply take_drop.
    - rewrite app_comm_cons, app_assoc in E. apply app_inj_tail in E as [E _].
      by apply (Ha _ _ _ _ _ _ E). }
  case_bool_decide; [exact Ha'|].
  apply (IH _ _ _ (after c s) h0 r (sends ++ [(c, w)])); try done.
  - simpl. fold w. by rewrite Ht, <-app_assoc.
  - apply Forall_app. split; [done|]. by repeat constructor.
Qed.

(** recv, when it returns. *)
Lemma recv_returns (s : sonet) l s' :
  recv s = Ret l s' →
  ∃ r, trace s' = trace s ++ [(Recv (m_Sd (own s)) 128 MSG_NOSIGNAL, r)] ∧ own s' = own s ∧
    rc r ≠ 0 ∧ rc r ≠ -1 ∧ l = stripped (got r).
Proof.
  unfold recv, sd, say. srun. set (c := Recv _ _ _). set (r := answer_to (trace s) c).
  destruct (decide (rc r = -1)) as [H1|H1].
  { rewrite H1. simpl. by destruct (decide (errno_of r = EAGAIN)) as [->|He];
      [|rewrite (bool_decide_eq_true_2 (errno_of r ≠ EAGAIN)) by done]. }
  rewrite (bool_decide_eq_false_2 (rc r = -1)) by done. cbn [andb].
  case_bool_decide as H0; [done|]. unfold bind at 1. rewrite strip_spec.
  destruct (forallb is_crlf (got r)); [done|]. intros [= <- <-]. by exists r.
Qed.

Local Hint Resolve answers_sys : keeps.
Local Hint Extern 1 (∀ x buf fl, _ ≠ Send x buf fl) => discriminate : keeps.

Lemma answers_sd : keeps (on_trace (answers f)) sd.
Proof. apply keeps_gets. Qed.
Local Hint Resolve answers_sd : keeps.
Lemma answers_recv : keeps (on_trace (answers f)) recv.
Proof. unfold recv. auto 20 with keeps. Qed.

Lemma answers_recv_send fuel :
  keeps (on_trace (answers f)) (let! line := recv in send fuel (f line) ;; ret true).
Proof.
  intros s Hs. pose proof (answers_recv s Hs) as Hr. unfold bind at 1.
  destruct (recv s) as [l s1|e s1|? ?|u|] eqn:E; try done.
  destruct (recv_returns s l s1 E) as (r & Ht & Ho & H0 & H1 & ->).
  rewrite <-Ho in Ht. unfold send.
  pose proof (answers_send_loop fuel (f (stripped (got r))) (Z.of_nat (length (f (stripped (got r))))) 0
    s1 (trace s) r [] Ht (Forall_nil_2 _) H0 H1 eq_refl Hr) as H.
  unfold bind. by destruct (send_loop fuel _ _ 0 s1).
Qed.
Lemma answers_serve_lines before fuel n :
  keeps (on_trace (answers f)) before →
  keeps (on_trace (answers f)) (serve_lines before f fuel n).
Proof.
  intros Hb. pose proof (answers_recv_send fuel) as Hrs.
  induction n as [|n IH]; cbn [serve_lines]; [apply keeps_no_fuel|].
  apply keeps_bind; [|intros []; auto with keeps].
  apply keeps_try_catch; [by apply keeps_bind|]. intros e. auto with keeps.
Qed.

Lemma answers_dtor : keeps (on_trace (answers f)) Socket_dtor.
Proof. unfold Socket_dtor. auto 20 with keeps. Qed.
Lemma answers_create port q : keeps (on_trace (answers f)) (createServerSocket port q).
Proof. unfold createServerSocket, setReuseAddr, set_sd. auto 20 with keeps. Qed.
Lemma answers_accept_and_work work :
  keeps (on_trace (answers f)) work → keeps (on_trace (answers f)) (accept_and_work work).
Proof.
  intros Hw. pose proof answers_dtor. unfold accept_and_work, accept.
  apply keeps_bind; [auto 20 with keeps|]. intros c. apply keeps_bind; [auto with keeps|].
  intros c'. apply keeps_bind; [|intros; apply keeps_ret]. apply keeps_local. by apply keeps_finally.
Qed.
End Answering.

Lemma keeps_stoi {S} (P : S → Prop) l : keeps P (stoi l).
Proof.
  intros s Hs. unfold stoi. destruct (signed_number (skip_spaces l)); [|done].
  by destruct (bool_decide _).
Qed.
Lemma keeps_usage `{Os : OS} {T} P argv args : keeps (on_trace (T:=T) P) (usage argv args).
Proof. unfold usage. auto 20 with keeps. Qed.
Lemma keeps_report {T} P e : keeps (on_trace (T:=T) P) (report_exception e).
Proof. apply keeps_say. Qed.
#[local] Hint Resolve keeps_stoi keeps_usage keeps_report answers_sys answers_sd answers_recv
  answers_serve_lines answers_dtor answers_create answers_accept_and_work : keeps.
#[local] Hint Extern 1 (∀ x buf fl, _ ≠ Send x buf fl) => discriminate : keeps.

(** C24. The simple server and the preforking server only ever send what they
    were asked for: whatever the kernel and the clients do, and whatever part of
    a string send takes at a time, each call of send carries the end of the
    answer "echo: line" to the last line received from that client. *)
Theorem servers_only_echo `{Os : OS} {T} argv rds fuel (s : net T) :
  trace s = [] →
  match SimpleServer.main argv rds fuel s with
  | Ret _ s' | Exc _ s' | Exit _ s' => answers SimpleServer.reply_to (trace s')
  | _ => True
  end ∧
  match Prefork.main argv rds fuel s with
  | Ret _ s' | Exc _ s' | Exit _ s' => answers Prefork.reply_to (trace s')
  | _ => True
  end.
Proof.
  intros Ht. assert (∀ f, on_trace (answers f) s) as H0.
  { intros f. unfold on_trace. rewrite Ht. intros [|??] fd buf w h2 ? E; discriminate. }
  split.
  - assert (keeps (on_trace (answers SimpleServer.reply_to)) (SimpleServer.main (T:=T) argv rds fuel))
      as H; [|by apply (H s (H0 _))].
    unfold SimpleServer.main, SimpleServer.client_work, setRcvTimeout.
    destruct argv as [|? [|? [|]]]; auto 30 with keeps.
  - assert (keeps (on_trace (answers Prefork.reply_to)) (Prefork.main (T:=T) argv rds fuel))
      as H; [|by apply (H s (H0 _))].
    unfold Prefork.main, Prefork.client_work, setRcvTimeout.
    destruct argv as [|? [|? [|]]]; auto 30 with keeps.
Qed.

(** ** The multiplexing server *)

Definition silent (h : history) : Prop := Forall (λ e, ¬ is_send e) h.

Section Silent.
Context {Os : OS}.

Lemma silent_sys {U} c : (∀ x buf fl, c ≠ Send x buf fl) → keeps (on_trace (T:=U) silent) (sys c).
Proof.
  intros Hc. apply keeps_sys. intros s' Hs. apply Forall_app. split; [exact Hs|].
  constructor; [|done]. destruct c; try (intros []). by destruct (Hc sd buf flags).
Qed.
Local Hint Resolve silent_sys : keeps.
Local Hint Extern 1 (∀ x buf fl, _ ≠ Send x buf fl) => discriminate : keeps.

Lemma silent_sd : keeps (on_trace silent) sd.
Proof. apply keeps_gets. Qed.
Local Hint Resolve silent_sd : keeps.

Lemma silent_dtor : keeps (on_trace silent) Socket_dtor.
Proof. unfold Socket_dtor. auto 20 with keeps. Qed.
Lemma silent_create port q : keeps (on_trace silent) (createServerSocket port q).
Proof. unfold createServerSocket, setReuseAddr, set_sd. auto 20 with keeps. Qed.
Lemma silent_nonblocked o : keeps (on_trace silent) (setNonBlocked o).
Proof. unfold setNonBlocked, set_non_blocked_impl. auto 20 with keeps. Qed.
Lemma silent_accept : keeps (on_trace silent) accept.
Proof. unfold accept. auto 20 with keeps. Qed.
Local Hint Resolve silent_dtor silent_create silent_nonblocked silent_accept : keeps.

Lemma silent_on_listener {A} (m : M sonet A) :
  keeps (on_trace silent) m → keeps (on_trace silent) (Multiplex.on_listener m).
Proof. intros Hm. unfold Multiplex.on_listener. auto 20 with keeps. Qed.
Local Hint Resolve silent_on_listener : keeps.

Lemma silent_accept_clients fuel : keeps (on_trace silent) (Multiplex.accept_clients fuel).
Proof.
  induction fuel as [|fuel IH]; cbn [Multiplex.accept_clients]; [apply keeps_no_fuel|].
  apply keeps_bind; [auto with keeps|]. intros [c|]; [|apply keeps_ret].
  unfold Multiplex.push_back. auto 20 with keeps.
Qed.
Local Hint Resolve silent_accept_clients : keeps.

Lemma silent_round fuel : keeps (on_trace silent) (Multiplex.round fuel).
Proof.
  unfold Multiplex.round. apply keeps_bind; [auto with keeps|]. intros _.
  apply keeps_bind; [auto with keeps|]. intros _. apply keeps_bind; [auto with keeps|].
  intros cs. apply keeps_for_each. intros c. unfold Multiplex.poll_client, hasData, recv.
  apply keeps_bind; [|auto with keeps]. apply keeps_local. apply keeps_bind; [auto 20 with keeps|].
  intros []; auto 20 with keeps.
Qed.
Local Hint Resolve silent_round : keeps.

(** The multiplexing server never answers: although its client_work echoes
    lines, the program as written sends nothing to anybody. *)
Theorem multiplex_never_answers {T} argv rds fuel (s : net T) :
  silent (trace s) →
  match Multiplex.main argv rds fuel s with
  | Ret _ s' | Exc _ s' | Exit _ s' => silent (trace s')
  | _ => True
  end.
Proof.
  intros H0. assert (keeps (on_trace silent) (Multiplex.main (T:=T) argv rds fuel)) as H;
    [|by apply (H s H0)].
  unfold Multiplex.main, Multiplex.serve, Multiplex.drop_clients.
  destruct argv as [|? [|? [|]]]; auto 30 with keeps.
Qed.
End Silent.

(** ** Descriptors *)

Section Descriptors.
Context {Os : OS}.

(** The end of a client's Socket, whatever accept gave. *)
Lemma client_dtor l h r (s : sonet) :
  m_Sd (own s) = rc r →
  ledger (trace s) = ((zeros h + zero1 (Accept l, r))%nat, hold1 (held h) (Accept l, r)) →
  ∃ s', Socket_dtor s = Ret tt s' ∧ left_with (ledger h) (trace s').
Proof.
  intros Ho Hl. unfold Socket_dtor, sd, hold1, zero1 in *. cbn [fst snd] in Hl. srun. rewrite Ho.
  destruct (decide (0 < rc r)) as [Hp|Hp]; [|destruct (decide (rc r = 0)) as [H0|H0]].
  - rewrite bool_decide_eq_false_2, bool_decide_eq_true_2, Nat.add_0_r in Hl by lia.
    rewrite bool_decide_eq_true_2 by lia. srun. eexists. split; [reflexivity|].
    apply left_with_eq. by apply ledger_close.
  - rewrite H0 in *. eexists. split; [reflexivity|]. exists 1%nat. rewrite Hl. done.
  - rewrite !bool_decide_eq_false_2, Nat.add_0_r in Hl by lia. rewrite bool_decide_eq_false_2 by lia.
    eexists. split; [reflexivity|]. by apply left_with_eq.
Qed.
Lemma client_scope {A} (work : M sonet A) l h r (s : sonet) :
  (∀ x l, steady (holding x l) work) →
  trace s = h ++ [(Accept l, r)] → m_Sd (own s) = rc r →
  released (ledger h) (finally work Socket_dtor s).
Proof.
  intros Hw Ht Ho. specialize (Hw _ _ s (conj Ho eq_refl)). unfold finally, try_catch. unfold bind at 1.
  assert (ledger (trace s) = ((zeros h + zero1 (Accept l, r))%nat, hold1 (held h) (Accept l, r))) as Hl
    by (rewrite Ht; unfold ledger; by rewrite zeros_snoc, held_snoc).
  rewrite Hl in Hw. destruct (work s) as [a s1|e s1|? ?|u|]; try done; destruct Hw as [Ho1 Hh1];
    destruct (client_dtor l h r s1 Ho1 Hh1) as (s2 & E & H); unfold bind; by rewrite E.
Qed.

Lemma accept_and_work_steady work x l :
  (∀ x l, steady (holding x l) work) → steady (keeping x l) (accept_and_work work).
Proof.
  intros Hw s [Ho Hh]. unfold accept_and_work, accept, say, sd. srun.
  set (r := answer_to _ _). case_bool_decide as Hr.
  { done. }
  srun. unfold or_undef. srun. unfold local. unfold bind at 1.
  match goal with |- context [finally work Socket_dtor ?st] => set (s1 := st) end.
  assert (released (ledger (trace s)) (finally work Socket_dtor s1)) as H
    by (by apply (client_scope work (m_Sd (own s)) (trace s) r)).
  destruct (finally work Socket_dtor s1); try done; (split; [done|]); by eapply left_with_trans.
Qed.

Lemma serve_lines_holding before f fuel n x l :
  keeps (holding x l) before → keeps (holding x l) (serve_lines before f fuel n).
Proof.
  intros Hb. pose proof (holding_recv x l). pose proof (holding_send x l fuel).
  pose proof (@holding_say x l). induction n as [|n IH]; cbn [serve_lines]; [apply keeps_no_fuel|].
  apply keeps_bind; [|intros []; auto with keeps].
  apply keeps_try_catch; auto 10 with keeps.
Qed.
Lemma simple_work_steady fuel n x l : steady (holding x l) (SimpleServer.client_work fuel n).
Proof.
  apply keeps_steady, keeps_bind; [apply holding_setRcvTimeout|]. intros _.
  apply serve_lines_holding, holding_say.
Qed.
Lemma prefork_work_steady fuel n x l : steady (holding x l) (Prefork.client_work fuel n).
Proof.
  apply keeps_steady, keeps_bind; [apply holding_setRcvTimeout|]. intros _.
  apply serve_lines_holding. apply keeps_bind; [by apply holding_sys|]. intros pid.
  apply holding_say.
Qed.

(** A main program: the Socket of a scope and the report of its exception. *)
Lemma scope_returns_0 {T A} (m : M sonet A) (s : net T) :
  (∀ s : sonet, own s = Socket_ctor → released (ledger (trace s)) (m s)) →
  match (try_catch (let! _ := local Socket_ctor m in ret tt) report_exception ;; ret 0) s with
  | Ret code s' => code = 0 ∧ left_with (ledger (trace s)) (trace s')
  | Exc _ _ => False
  | _ => True
  end.
Proof.
  intros Hm. specialize (Hm (mkNet Socket_ctor (errno s) (trace s) (cerr s)) eq_refl).
  unfold bind, try_catch, local. by destruct (m _).
Qed.
Lemma stoi_outcomes {S} l (s : S) :
  match stoi l s with Ret _ s' | Exc _ s' => s' = s | _ => False end.
Proof.
  unfold stoi. destruct (signed_number (skip_spaces l)); [|done]. by destruct (bool_decide _).
Qed.

Definition read_client host port : M sonet unit :=
  finally (connect host port ;; setNonBlocked true ;; let! _ := recvTimed 3 in ret tt) Socket_dtor.
Lemma read_client_releases host port (s : sonet) :
  hosts_have_addresses → own s = Socket_ctor → released (ledger (trace s)) (read_client host port s).
Proof.
  intros Hh Ho. apply scope_releases; [done|by apply connect_acquires|]. intros x n l.
  apply steady_keeping. intros l'. apply keeps_steady, keeps_bind; [apply holding_setNonBlocked|]. intros _.
  apply keeps_bind; [apply holding_recvTimed|]. intros ?. apply keeps_ret.
Qed.

(** C25. The simple server, each process of the preforking server and the client
    with a read timeout close what they open, unless it is the descriptor 0:
    however many clients came, in whatever way they left, when the program ends -
    by returning 0 or by the exception of an unreadable port number - it holds
    what it held before, and the descriptor 0 as often as the kernel has given
    it. *)
Theorem servers_close_what_they_open {T} argv argv' rds fuel (s : net T) :
  hosts_have_addresses →
  let closes r := match r with
                  | Ret code s' => code = 0 ∧ left_with (ledger (trace s)) (trace s')
                  | Exc _ s' => left_with (ledger (trace s)) (trace s')
                  | _ => True
                  end in
  closes (SimpleServer.main argv rds fuel s) ∧ closes (Prefork.main argv rds fuel s) ∧
  closes (ReadTimeout.main argv' s).
Proof.
  intros Hh closes.
  pose proof (left_with_same (trace s)) as Hsame.
  assert (∀ m : M sonet unit, (∀ s : sonet, own s = Socket_ctor → released (ledger (trace s)) (m s)) →
    closes ((try_catch (let! _ := local Socket_ctor m in ret tt) report_exception ;; ret 0) s)) as Hmain.
  { intros m Hm. pose proof (scope_returns_0 m s Hm) as H. unfold closes. by destruct (bind (try_catch _ _) _ s). }
  split; [|split].
  - unfold SimpleServer.main. destruct argv as [|p0 [|arg [|]]]; try done.
    pose proof (stoi_outcomes arg s) as Hs. unfold bind at 1.
    destruct (stoi arg s) as [port s1|e s1|? ?|u|]; subst; try done. apply Hmain. intros s1 Ho.
    apply scope_releases; [done|apply createServerSocket_acquires|]. intros x n l.
    apply steady_rounds, steady_bind.
    + apply steady_keeping. intros l'. apply keeps_steady, holding_say.
    + intros _. apply accept_and_work_steady. intros. apply simple_work_steady.
  - unfold Prefork.main. destruct argv as [|p0 [|arg [|]]]; try done.
    pose proof (stoi_outcomes arg s) as Hs. unfold bind at 1.
    destruct (stoi arg s) as [port s1|e s1|? ?|u|]; subst; try done. apply Hmain. intros s1 Ho.
    apply scope_releases; [done|apply createServerSocket_acquires|]. intros x n l.
    apply steady_bind; [|intros _; apply steady_rounds, accept_and_work_steady;
      intros; apply prefork_work_steady].
    apply steady_keeping. intros l'. apply keeps_steady, keeps_bind; [by apply holding_sys|]. intros pid.
    apply keeps_bind; [by apply holding_sys|]. intros me.
    apply keeps_if; apply holding_say.
  - unfold ReadTimeout.main. destruct argv' as [|p0 [|host [|arg [|]]]]; try done.
    pose proof (stoi_outcomes arg s) as Hs. unfold closes, bind, try_catch.
    destruct (stoi arg s) as [port s1|e s1|? ?|u|]; subst; try done.
    pose proof (read_client_releases host port (mkNet Socket_ctor (errno s) (trace s) (cerr s))
      Hh eq_refl) as H. unfold read_client in H. simpl in H. unfold local.
    by destruct (finally _ _ _).
Qed.

(** A connection that cannot be accepted stops both servers: accept returns
    a null pointer for it, and client_work goes through it. *)
Theorem failed_accept_is_undefined {T} prog n rds fuel (s : net T) :
  INT_MIN ≤ n ≤ INT_MAX →
  (∀ h, rc (answer_to h Socket) = 5) → (∀ h, rc (answer_to h (Setsockopt 5 "SO_REUSEADDR")) = 0) →
  (∀ h p, rc (answer_to h (Bind 5 p)) = 0) → (∀ h, rc (answer_to h (Accept 5)) = -1) →
  SimpleServer.main [prog; to_string n] (S rds) fuel s = Undef NullPointer ∧
  Prefork.main [prog; to_string n] (S rds) fuel s = Undef NullPointer.
Proof.
  intros Hn Hs Ho Hb Ha.
  assert (∀ q s, own s = Socket_ctor → ∃ s', createServerSocket n q s = Ret tt s' ∧ own s' = mkSocket 5)
    as Hc.
  { intros q s1 _. unfold createServerSocket, setReuseAddr. rewrite bind_sys, Hs. simpl.
    rewrite bind_assoc, bind_sys, Ho. simpl. rewrite bind_ret_l, bind_sys, Hb. simpl.
    rewrite bind_sys. by eexists. }
  assert (∀ work (s : sonet), own s = mkSocket 5 → accept_and_work work s = Undef NullPointer) as Hw.
  { intros work s1 Ho1. unfold accept_and_work, accept, say, sd. srun. rewrite Ho1. simpl.
    by rewrite Ha. }
  split.
  - unfold SimpleServer.main. rewrite (bind_eq_ret _ _ _ _ _ (stoi_to_string n s Hn)).
    unfold bind at 1, try_catch at 1, local. unfold bind at 1, finally, try_catch. unfold bind at 1 2.
    destruct (Hc 5 (mkNet Socket_ctor (errno s) (trace s) (cerr s)) eq_refl) as (s1 & -> & Ho1).
    cbn [rounds]. rewrite bind_assoc. unfold bind at 1. simpl. unfold bind at 1. by rewrite Hw.
  - unfold Prefork.main. rewrite (bind_eq_ret _ _ _ _ _ (stoi_to_string n s Hn)).
    unfold bind at 1, try_catch at 1, local. unfold bind at 1, finally, try_catch. unfold bind at 1 2.
    destruct (Hc 25 (mkNet Socket_ctor (errno s) (trace s) (cerr s)) eq_refl) as (s1 & -> & Ho1).
    rewrite bind_assoc, bind_sys, bind_assoc, bind_sys.
    cbn [rounds]. destruct (bool_decide _); unfold bind at 1; simpl; unfold bind at 1;
      by rewrite Hw.
Qed.
End Descriptors.

(** ** Witnesses *)

Definition not_started : net unit := mkNet tt 0 [] [].
Definition args : list bytes := [b "server"; to_string 8080].

(** A client that says "hi", and leaves. *)
Definition one_visit : OS := scripted
  [ok 3; ok 0; ok 0; ok 0; ok 5; ok 0; data (b "hi" ++ crlf); ok 9; ok 0; ok 0].
Lemma servers_only_echo_witness :
  match SimpleServer.main (Os:=one_visit) args 1 9 not_started with
  | Ret _ s' | Exc _ s' | Exit _ s' => answers SimpleServer.reply_to (trace s')
  | _ => True
  end ∧
  match Prefork.main (Os:=one_visit) args 1 9 not_started with
  | Ret _ s' | Exc _ s' | Exit _ s' => answers Prefork.reply_to (trace s')
  | _ => True
  end.
Proof. apply (servers_only_echo (Os:=one_visit) args 1 9 not_started). reflexivity. Defined.

Lemma multiplex_never_answers_witness :
  match Multiplex.main (Os:=reading (b "hi") []) args 2 9 not_started with
  | Ret _ s' | Exc _ s' | Exit _ s' => silent (trace s')
  | _ => True
  end.
Proof. apply (multiplex_never_answers (Os:=reading (b "hi") []) args 2 9 not_started). constructor. Defined.

(** Each client gets one answer and leaves. *)
Definition short_visits : OS :=
  {| answer_to h c := match c with
                      | Gethostbyname _ => mkReply 1 0 [] [16777343]
                      | Socket => ok 3
                      | Accept _ => ok 6
                      | Recv _ _ _ => match last (calls_of h) with
                                      | Some (Send _ _ _) => data []
                                      | _ => data (b "hi" ++ crlf)
                                      end
                      | Send _ buf _ => ok (Z.of_nat (length buf))
                      | _ => ok 0
                      end;
     strerror _ := "Success" |}.
Lemma short_visits_address : hosts_have_addresses (H:=short_visits).
Proof. intros h host. by right. Qed.
Lemma servers_close_what_they_open_witness :
  let closes r := match r with
                  | Ret code s' => code = 0 ∧ left_with (0%nat, []) (trace s')
                  | Exc _ s' => left_with (0%nat, []) (trace s')
                  | _ => True
                  end in
  closes (SimpleServer.main (Os:=short_visits) args 3 9 not_started) ∧
  closes (Prefork.main (Os:=short_visits) args 3 9 not_started) ∧
  closes (ReadTimeout.main (Os:=short_visits) [b "client"; b "localhost"; to_string 80] not_started).
Proof.
  apply (servers_close_what_they_open (Os:=short_visits) args
    [b "client"; b "localhost"; to_string 80] 3 9 not_started short_visits_address).
Defined.
(** Three clients are answered; all descriptors are closed. *)
Definition opens_or_closes (c : call) : bool :=
  match c with Socket | Accept _ | Close _ | Send _ _ _ => true | _ => false end.
Example three_visits :
  match SimpleServer.main (Os:=short_visits) args 3 9 not_started with
  | Ret code s' => code = 0 ∧ held (trace s') = [] ∧
      List.filter opens_or_closes (calls_of (trace s')) =
        [Socket] ++ concat (replicate 3 [Accept 3; Send 6 (b "echo: hi" ++ [LF]) 0; Close 6]) ++ [Close 3]
  | _ => False
  end.
Proof. vm_compute. repeat split; reflexivity. Qed.

(** A client that leaves at once, and one on the descriptor 0. *)
Definition two_visits : OS := scripted
  [ok 3; ok 0; ok 0; ok 0; ok 5; ok 0; data []; ok 0; ok 0; ok 0; data []; ok 0].
Example descriptor_zero_stays :
  match SimpleServer.main (Os:=two_visits) args 2 9 not_started with
  | Ret code s' => code = 0 ∧ ledger (trace s') = (1%nat, [0]) ∧
      List.filter opens_or_closes (calls_of (trace s')) = [Socket; Accept 3; Close 5; Accept 3; Close 3]
  | _ => False
  end.
Proof. vm_compute. repeat split; reflexivity. Qed.

Definition no_clients : OS :=
  {| answer_to h c := match c with Socket => ok 5 | Accept _ => failed 24 | _ => ok 0 end;
     strerror _ := "Too many open files" |}.
Lemma failed_accept_is_undefined_witness :
  SimpleServer.main (Os:=no_clients) args 1 9 not_started = Undef NullPointer ∧
  Prefork.main (Os:=no_clients) args 1 9 not_started = Undef NullPointer.
Proof.
  apply (failed_accept_is_undefined (Os:=no_clients) (b "server") 8080 0 9 not_started);
    try reflexivity. vm_compute. split; discriminate.
Defined.
