(* ===== verification/Simplest.v ===== *)
(** * The simplest client and servers

    Models net/simplest_client_server: client.cpp, server_fork.cpp,
    server_poll.cpp and server_select.cpp, a Module each. They use the system
    calls directly, and each server has its own copies of [set_reuse_addr] and
    [make_socket]. *)

From S2P Require Import Prelude Posix Text.

Definition EXIT_FAILURE : Z := 1.
Definition EXIT_SUCCESS : Z := 0.
Definition O_NONBLOCK : Z := 2048.
Definition EAGAIN : Z := 11.
Definition newline : string := String LF EmptyString.

(** [perror(prefix); exit(code);] *)
Definition fail `{Os : OS} {T A} (prefix : string) (code : Z) : M (net T) A :=
  perror prefix ;; exit_with code.
(** "usage: " and the name of the program, which may be missing. *)
Definition usage `{Os : OS} {T} (argv : list bytes) (args : string) : M (net T) Z :=
  let! p := or_undef NullPointer (head argv) in
  say [OStr "usage: "; OStr (text p); OStr args; OEndl] ;;
  ret 0.

Module Client.
Section Client.
Context {Os : OS} {T : Type}.

Definition MESSAGE : bytes := b "This is my first message!".

Definition write_to_server (filedes : Z) : M (net T) unit :=
  let! r := sys (Write filedes (MESSAGE ++ [NUL])) in
  if bool_decide (rc r < 0) then throw_errno "write failed: "
  else say [OStr "write message "; OStr (text MESSAGE); OStr " to socket "; OStr newline].

(** On other systems than __APPLE__ the call names a variable that does not
    exist, [m_Sd]; this is the __APPLE__ branch. *)
Definition read_from_server (filedes : Z) : M (net T) unit :=
  let! r := sys (Recv filedes 1024 0) in
  let n := rc r in
  let! e := gets errno in
  if bool_decide (n = -1) && bool_decide (e ≠ EAGAIN) then throw_errno "read failed: "
  else if bool_decide (n = 0) then
    throw (runtime_error (text (b "client: " ++ to_string filedes ++ b " disconnected")))
  else if bool_decide (n = -1) then
    throw (runtime_error (text (b "client: " ++ to_string filedes ++ b " timeouted")))
  else
    let! l := strip (got r) in
    say [OStr "client: "; OInt filedes; OStr ", recv: "; OStr newline; OStr (text l);
         OStr " ["; OInt n; OStr " bytes]"; OEndl].

(** The address and the port of [name]. *)
Definition init_sockaddr (hostname : bytes) (port : Z) : M (net T) (Z * Z) :=
  let! hostinfo := sys (Gethostbyname (text hostname)) in
  if bool_decide (rc hostinfo = 0) then
    say [OStr "Unknown host "; OStr (text hostname); OStr "."; OStr newline] ;;
    exit_with EXIT_FAILURE
  else
    let! h_addr := or_undef NullPointer (head (numbers hostinfo)) in
    ret (h_addr, u16 port).

Definition main (argv : list bytes) : M (net T) Z :=
  match argv with
  | [_; host; arg] =>
      let! r := sys Socket in
      let sock := rc r in
      if bool_decide (sock < 0) then fail "socket (client)" EXIT_FAILURE
      else
        let! port := stoi arg in
        let! servername := init_sockaddr host (u16 port) in
        let! r := sys (Connect sock servername.1 servername.2) in
        if bool_decide (0 > rc r) then fail "connect (client)" EXIT_FAILURE
        else
          write_to_server sock ;;
          read_from_server sock ;;
          let! _ := sys (Close sock) in
          exit_with EXIT_SUCCESS
  | _ => usage argv " host port"
  end.
End Client.
End Client.

Module ServerFork.
Section ServerFork.
Context {Os : OS} {T : Type}.

Definition set_reuse_addr (sd : Z) : M (net T) unit :=
  let! r := sys (Setsockopt sd "SO_REUSEADDR") in
  if bool_decide (rc r = -1) then let! _ := sys (Close sd) in ret tt else ret tt.

(** Not called by [main]. sun_path has 108 bytes, at offset 2. *)
Definition make_named_socket (filename : bytes) : M (net T) Z :=
  let! r := sys SocketUnix in
  let sock := rc r in
  if bool_decide (sock < 0) then fail "socket" EXIT_FAILURE
  else if bool_decide (108 < Z.of_nat (length filename) + 1) then undef OutOfBounds
  else
    let size := 2 + Z.of_nat (length filename) + 1 in
    let! r := sys (BindUnix sock filename size) in
    if bool_decide (rc r < 0) then fail "bind" EXIT_FAILURE
    else ret sock.

Definition make_socket (port : Z) : M (net T) Z :=
  let! r := sys Socket in
  let sock := rc r in
  if bool_decide (sock < 0) then fail "socket" EXIT_FAILURE
  else
    set_reuse_addr sock ;;
    let! r := sys (Bind sock (u16 port)) in
    if bool_decide (rc r < 0) then fail "bind" EXIT_FAILURE
    else
      let queue_size := 3 in
      let! r := sys (Listen sock queue_size) in
      if bool_decide (rc r < 0) then fail "listen" EXIT_FAILURE
      else
        exit_with (A:=unit) 0 ;;
        ret sock.

Definition getpid : M (net T) Z := let! r := sys Getpid in ret (rc r).

(** The loop of the child. *)
Fixpoint child_loop (fuel : nat) (sock : Z) : M (net T) unit :=
  match fuel with
  | O => no_fuel
  | S fuel' =>
      let! r := sys (Recv sock 1024 0) in
      let bytes_read := rc r in
      let! pid := getpid in
      say [OStr "data received, size == "; OInt bytes_read; OStr " , pid = "; OInt pid;
           OStr " "; OStr newline] ;;
      if bool_decide (bytes_read <= 0) then
        say [OStr "Client disconnected "; OStr newline]
      else
        let! _ := sys (Send sock (take (Z.to_nat bytes_read) (got r)) 0) in
        child_loop fuel' sock
  end.

(** One round of the loop of [main], in the process that goes on. *)
Definition round (fuel : nat) (listener : Z) : M (net T) unit :=
  let! pid := getpid in
  say [OStr "waiting for connection and then accept it, pid = "; OInt pid; OStr " "; OStr newline] ;;
  let! r := sys (Accept listener) in
  let sock := rc r in
  let! pid := getpid in
  say [OStr "request accepted , pid = "; OInt pid; OStr " "; OStr newline] ;;
  if bool_decide (sock < 0) then fail "accept" 3
  else
    let! r := sys Fork in
    let pid := rc r in
    let! me := getpid in
    (if bool_decide (0 < pid) then say [OStr "parent: "; OInt me; OEndl]
     else say [OStr "child: "; OInt me; OEndl]) ;;
    if bool_decide (pid = -1) then perror "fork"
    else if bool_decide (pid = 0) then
      let! _ := sys (Close listener) in
      child_loop fuel sock ;;
      let! _ := sys (Close sock) in ret tt
    else
      let! _ := sys (Close sock) in ret tt.

Definition main (argv : list bytes) (rds fuel : nat) : M (net T) Z :=
  match argv with
  | [_; arg] =>
      let! port := stoi arg in
      let! listener := make_socket (u16 port) in
      rounds rds (round fuel listener) ;;
      ret 0
  | _ => usage argv " port"
  end.
End ServerFork.
End ServerFork.

(** The poll server: the descriptors it waits for are the first [numfds] cells
    of an array of POLL_SIZE, which starts uninitialised. *)
Module ServerPoll.
Record pollfd : Type := mkPollfd { fd : Z; events : Z; revents : Z }.
Record state : Type := mkState { numfds : nat; fds : list (option pollfd) }.

Definition POLL_SIZE : nat := 32.
Definition POLLIN : Z := 1.
Definition POLLOUT : Z := 4.
Definition POLLHUP : Z := 16.
Definition has (revents flag : Z) : bool := bool_decide (Z.land revents flag ≠ 0).
Definition hello : bytes := b "hello" ++ [LF].

Section ServerPoll.
Context {Os : OS}.

Definition set_reuse_addr {T} (sd : Z) : M (net T) unit :=
  let! r := sys (Setsockopt sd "SO_REUSEADDR") in
  if bool_decide (rc r = -1) then let! _ := sys (Close sd) in ret tt else ret tt.

Definition make_socket {T} (port : Z) : M (net T) Z :=
  let! r := sys Socket in
  let sock := rc r in
  set_reuse_addr sock ;;
  if bool_decide (sock < 0) then fail "socket" EXIT_FAILURE
  else
    let! r := sys (Bind sock (u16 port)) in
    if bool_decide (rc r < 0) then fail "bind" EXIT_FAILURE
    else
      let queue_size := 3 in
      let! r := sys (Listen sock queue_size) in
      if bool_decide (rc r < 0) then fail "listen" EXIT_FAILURE
      else ret sock.

Definition set_non_blocked_impl {T} (sd : Z) (opt : bool) : M (net T) unit :=
  let! r := sys (Getfl sd) in
  let flags := rc r in
  let new_flags := if opt then Z.lor flags O_NONBLOCK
                   else Z.land flags (Z.lnot O_NONBLOCK) in
  let! r := sys (Setfl sd new_flags) in
  if bool_decide (rc r = -1) then throw_errno "make nonblocked: " else ret tt.

(** [fds[i]] and its assignment. *)
Definition fd_at (i : nat) : M (net state) pollfd :=
  let! s := get in load (Some (fds (own s))) (Z.of_nat i).
Definition set_fd (i : nat) (f : pollfd) : M (net state) unit :=
  let! s := get in
  let! l := store (Some (fds (own s))) (Z.of_nat i) f in
  set_own (λ o, mkState (numfds o) l).
Definition count : M (net state) nat := gets (λ s, numfds (own s)).
Definition incr : M (net state) unit := set_own (λ o, mkState (S (numfds o)) (fds o)).

(** The first cells as arguments of poll, and with its results. *)
Fixpoint poll_args (l : list (option pollfd)) : option (list (Z * Z)) :=
  match l with
  | [] => Some []
  | None :: _ => None
  | Some f :: l' => l'' ← poll_args l'; Some ((fd f, events f) :: l'')
  end.
Fixpoint with_revents (l : list (option pollfd)) (r : list Z) : list (option pollfd) :=
  match l, r with
  | Some f :: l', v :: r' => Some (mkPollfd (fd f) (events f) v) :: with_revents l' r'
  | _, _ => l
  end.
Definition poll (timeout : Z) : M (net state) Z :=
  let! n := count in
  let! s := get in
  if decide (n ≤ length (fds (own s)))%nat then
    let! args := or_undef Indeterminate (poll_args (take n (fds (own s)))) in
    let! r := sys (Poll args timeout) in
    set_own (λ o, mkState (numfds o) (with_revents (fds o) (numbers r))) ;;
    ret (rc r)
  else undef OutOfBounds.

(** A connection is accepted. *)
Definition accept_client (listener : Z) : M (net state) unit :=
  say [OStr "request received. accept it"; OStr newline] ;;
  let! r := sys (Accept listener) in
  let sock := rc r in
  if bool_decide (sock < 0) then fail "accept" 3
  else
    let! n := count in
    set_fd n (mkPollfd sock POLLIN 0) ;;
    incr ;;
    set_non_blocked_impl sock true ;;
    say [OStr "request accepted"; OStr newline].

(** A client said something. *)
Definition read_client (i : nat) (f : pollfd) : M (net state) unit :=
  set_fd i (mkPollfd (fd f) (events f) 0) ;;
  let! rp := sys (Read (fd f) 256) in
  let r := rc rp in
  if bool_decide (r < 0) then
    say [OStr "some read error!"; OStr newline] ;;
    let! _ := sys (Close (fd f)) in ret tt
  else if bool_decide (r = 0) then
    say [OStr "client disconnected: "; OInt (fd f); OStr newline] ;;
    let! _ := sys (Close (fd f)) in ret tt
  else
    let! tmp := terminated 256 r (got rp) in
    let! tmp := strip tmp in
    say [OStr "read: "; OInt r; OStr " bytes ["; OStr (text (tmp ++ [LF])); OStr "]"; OStr newline] ;;
    set_fd i (mkPollfd (fd f) POLLOUT 0).

(** The body of the loop over the descriptors. *)
Definition serve_fd (listener : Z) (i : nat) : M (net state) unit :=
  let! f := fd_at i in
  if bool_decide (revents f = 0) then ret tt
  else if bool_decide (fd f = listener) then accept_client listener
  else if has (revents f) POLLHUP then say [OStr "client hup"; OStr newline]
  else if has (revents f) POLLIN then read_client i f
  else if has (revents f) POLLOUT then
    let! _ := sys (Send (fd f) hello 0) in
    set_fd i (mkPollfd (fd f) POLLIN (revents f))
  else ret tt.
Fixpoint serve_loop (fuel : nat) (listener : Z) (i : nat) : M (net state) unit :=
  match fuel with
  | O => no_fuel
  | S fuel' =>
      let! n := count in
      if bool_decide (i < n)%nat then
        serve_fd listener i ;;
        serve_loop fuel' listener (S i)
      else ret tt
  end.

(** numfds grows with the array's bound as a limit, so that POLL_SIZE + 1
    steps are enough. *)
Definition round (listener : Z) : M (net state) unit :=
  let! poll_ret := poll 10000 in
  if bool_decide (poll_ret = 0) then ret tt
  else if bool_decide (poll_ret = -1) then throw_errno "poll: "
  else serve_loop (S POLL_SIZE) listener 0.

Definition serve (listener : Z) (rds : nat) : M (net state) unit :=
  set_fd 0 (mkPollfd listener POLLIN 0) ;;
  incr ;;
  rounds rds (round listener).

Definition main {T} (argv : list bytes) (rds : nat) : M (net T) Z :=
  let! arg := or_undef NullPointer (argv !! 1%nat) in
  let! port := stoi arg in
  let! listener := make_socket (u16 port) in
  set_non_blocked_impl listener true ;;
  let! _ := local (mkState 0 (replicate POLL_SIZE None)) (serve listener rds) in
  ret 0.
End ServerPoll.
End ServerPoll.

(** The select server: the set of clients in ascending order, and the buffer
    [buf] that lives as long as [main]. *)
Module ServerSelect.
Record state : Type := mkState { clients : list Z; buf : list (option ascii) }.

Section ServerSelect.
Context {Os : OS}.

Definition set_reuse_addr {T} (sd : Z) : M (net T) unit :=
  let! r := sys (Setsockopt sd "SO_REUSEADDR") in
  if bool_decide (rc r = -1) then let! _ := sys (Close sd) in ret tt else ret tt.

Definition make_socket {T} (port : Z) : M (net T) Z :=
  let! r := sys Socket in
  let sock := rc r in
  set_reuse_addr sock ;;
  if bool_decide (sock < 0) then fail "socket" EXIT_FAILURE
  else
    let! r := sys (Bind sock (u16 port)) in
    if bool_decide (rc r < 0) then fail "bind" EXIT_FAILURE
    else
      let queue_size := 3 in
      let! r := sys (Listen sock queue_size) in
      if bool_decide (rc r < 0) then fail "listen" EXIT_FAILURE
      else ret sock.

Definition set_non_blocked_impl {T} (sd : Z) (opt : bool) : M (net T) unit :=
  let! r := sys (Getfl sd) in
  let flags := rc r in
  let new_flags := if opt then Z.lor flags O_NONBLOCK
                   else Z.land flags (Z.lnot O_NONBLOCK) in
  let! r := sys (Setfl sd new_flags) in
  if bool_decide (rc r = -1) then throw_errno "make nonblocked: " else ret tt.

(** std::set<int>. *)
Fixpoint insert (x : Z) (l : list Z) : list Z :=
  match l with
  | [] => [x]
  | y :: l' => if bool_decide (x < y) then x :: l
               else if bool_decide (x = y) then l else y :: insert x l'
  end.
Definition erase (x : Z) (l : list Z) : list Z := filter (λ y, y ≠ x) l.
Definition set_clients (l : list Z) : M (net state) unit := set_own (λ o, mkState l (buf o)).

(** [recv(sd, buf, 1024, 0)] *)
Definition recv (sd : Z) : M (net state) Z :=
  let! r := sys (Recv sd 1024 0) in
  let d := map Some (take (Z.to_nat (rc r)) (got r)) in
  set_own (λ o, mkState (clients o) (d ++ drop (length d) (buf o))) ;;
  ret (rc r).

(** The loop over the clients that are left in the set; an iterator does not
    survive the removal of its element. *)
Fixpoint serve_clients (readset : list Z) (l : list Z) : M (net state) unit :=
  match l with
  | [] => ret tt
  | x :: l' =>
      fd_in_set x ;;
      if bool_decide (x ∈ readset) then
        let! bytes_read := recv x in
        let! s := get in
        let! t := c_string (buf (own s)) in
        say [OStr "data received, size == "; OInt bytes_read; OStr newline;
             OStr ", data = "; OStr (text t)] ;;
        if bool_decide (bytes_read <= 0) then
          let! _ := sys (Close x) in
          set_clients (erase x (clients (own s))) ;;
          let! s := get in
          if bool_decide (clients (own s) = []) then ret tt
          else undef UseAfterFree
        else
          let! d := or_undef Indeterminate (mapM id (take (Z.to_nat bytes_read) (buf (own s)))) in
          let! line := strip d in
          let! _ := sys (Send x (line ++ b " from server" ++ [LF]) 0) in
          serve_clients readset l'
      else serve_clients readset l'
  end.

Definition accept_client (listener : Z) : M (net state) unit :=
  say [OStr "request received. accept it"; OStr newline] ;;
  let! r := sys (Accept listener) in
  let sock := rc r in
  if bool_decide (sock < 0) then fail "accept" 3
  else
    say [OStr "request accepted"; OStr newline] ;;
    set_non_blocked_impl sock true ;;
    let! s := get in
    set_clients (insert sock (clients (own s))).

(** sizeof(fd_set) is FD_SETSIZE bits. *)
Definition round (listener : Z) : M (net state) unit :=
  say [OStr "sizeof readset = "; OInt (FD_SETSIZE / 8); OEndl] ;;
  fd_in_set listener ;;
  let! s := get in
  for_each fd_in_set (clients (own s)) ;;
  let mx := foldl Z.max listener (clients (own s)) in
  let! r := sys (Select (mx + 1) (listener :: clients (own s)) [] (Some 60)) in
  if bool_decide (rc r <= 0) then fail "select" 3
  else
    let readset := numbers r in
    (if bool_decide (listener ∈ readset) then accept_client listener else ret tt) ;;
    let! s := get in
    serve_clients readset (clients (own s)).

Definition main {T} (argv : list bytes) (rds : nat) : M (net T) Z :=
  let! arg := or_undef NullPointer (argv !! 1%nat) in
  let! port := stoi arg in
  let! listener := make_socket (u16 port) in
  set_non_blocked_impl listener true ;;
  let! _ := local (mkState [] (replicate 1024 None)) (rounds rds (round listener)) in
  ret 0.
End ServerSelect.
End ServerSelect.

Ltac srun := repeat first
  [ rewrite bind_assoc | rewrite bind_sys | rewrite bind_ret_l | progress run_step ];
  cbn [own errno trace cerr after].

(** ** The forking server *)

Definition setup_call (c : call) : Prop :=
  match c with
  | Socket | Setsockopt _ _ | Bind _ _ | Listen _ _ | Close _ => True
  | _ => False
  end.
(** A run that only set sockets up since [h0]. *)
Definition only_setup (h0 : list call) (h : history) : Prop :=
  ∃ cs, calls_of h = h0 ++ cs ∧ Forall setup_call cs.

Section ForkTheorems.
Context {Os : OS}.
Import ServerFork.

Lemma only_setup_sys {T} h0 c :
  setup_call c → keeps (on_trace (T:=T) (only_setup h0)) (sys c).
Proof.
  intros Hc. apply keeps_sys. intros s (cs & E & H). exists (cs ++ [c]).
  unfold after, calls_of in *. simpl. rewrite fmap_app, E, app_assoc. split; [done|].
  apply Forall_app. split; [done|]. by constructor.
Qed.
Local Hint Resolve only_setup_sys : keeps.
Local Hint Extern 1 (setup_call _) => exact I : keeps.

Lemma make_socket_setup {T} h0 port : keeps (on_trace (T:=T) (only_setup h0)) (make_socket port).
Proof. unfold make_socket, set_reuse_addr, fail. auto 20 with keeps. Qed.
Lemma make_socket_exits {T} port (s : net T) :
  match make_socket port s with Exit c _ => c = 0 ∨ c = 1 | _ => False end.
Proof.
  unfold make_socket, set_reuse_addr, fail, perror, EXIT_FAILURE. rewrite bind_sys.
  case_bool_decide; [by right|]. rewrite bind_assoc, bind_sys.
  destruct (bool_decide (rc _ = -1)); srun; case_bool_decide; try (by right); srun;
    case_bool_decide; (by right) || by left.
Qed.

(** The forking server never accepts a connection: whatever it is asked and
    however long it would run, with a port number it ends in make_socket - with
    status 0 when it listens - and has only set its socket up. *)
Theorem fork_server_never_accepts {T} argv rds fuel (s : net T) :
  match main argv rds fuel s with
  | Exit c s' => (c = 0 ∨ c = 1) ∧ only_setup (calls_of (trace s)) (trace s')
  | Ret c s' => c = 0 ∧ length argv ≠ 2%nat ∧ trace s' = trace s
  | Exc e s' => trace s' = trace s
  | Undef _ => argv = []
  | NoFuel => False
  end.
Proof.
  unfold main. destruct argv as [|p0 [|arg [|]]]; try (simpl; done).
  unfold bind at 1, stoi. destruct (signed_number (skip_spaces arg)) as [z|]; [|done].
  destruct (bool_decide _); [|done]. simpl. unfold bind at 1.
  pose proof (make_socket_exits (u16 z) s) as H1.
  pose proof (make_socket_setup (calls_of (trace s)) (u16 z) s) as H2.
  destruct (make_socket (u16 z) s); try done. split; [done|]. apply H2.
  exists []. by rewrite app_nil_r.
Qed.

(** The child hears the chunks [cs] and then the end. *)
Fixpoint hears (h : history) (sock : Z) (cs : list bytes) : Prop :=
  let c := Recv sock 1024 0 in
  let r := answer_to h c in
  let h1 := h ++ [(c, r)] in
  let h2 := h1 ++ [(Getpid, answer_to h1 Getpid)] in
  match cs with
  | [] => rc r <= 0
  | d :: cs' => r = data d ∧ d ≠ [] ∧
      hears (h2 ++ [(Send sock d 0, answer_to h2 (Send sock d 0))]) sock cs'
  end.
Definition sent1 (sock : Z) (c : call) : list bytes :=
  match c with Send x buf _ => if bool_decide (x = sock) then [buf] else [] | _ => [] end.
Definition sent (sock : Z) (h : history) : list bytes := flat_map (sent1 sock) (calls_of h).

Lemma sent_snoc sock h c r : sent sock (h ++ [(c, r)]) = sent sock h ++ sent1 sock c.
Proof. unfold sent, calls_of. rewrite fmap_app, flat_map_app. simpl. by rewrite app_nil_r. Qed.

(** C35. The loop of the child sends back each chunk that it receives, whole and
    in order, and ends when the client disconnects. *)
Theorem child_echoes {T} cs fuel sock (s : net T) :
  hears (trace s) sock cs → (length cs < fuel)%nat →
  ∃ s', child_loop fuel sock s = Ret tt s' ∧ sent sock (trace s') = sent sock (trace s) ++ cs.
Proof.
  revert fuel s. induction cs as [|d cs IH]; intros fuel s Hh Hf;
    (destruct fuel as [|fuel]; [simpl in Hf; lia|]); cbn [child_loop hears] in *;
    unfold getpid, say; srun; set (c := Recv sock 1024 0) in *.
  - rewrite bool_decide_eq_true_2 by done. eexists. split; [reflexivity|]. cbn [trace].
    rewrite !sent_snoc. simpl. by rewrite !app_nil_r.
  - destruct Hh as (Hr & Hd & Hh). rewrite Hr in *. unfold data in *. cbn [rc got] in *.
    assert (length d ≠ 0%nat) by (destruct d; [done|discriminate]).
    rewrite bool_decide_eq_false_2 by lia. srun. rewrite Nat2Z.id, firstn_all.
    match goal with |- ∃ s', child_loop fuel sock ?st = _ ∧ _ =>
      destruct (IH fuel st) as (s' & E & Hs); [exact Hh|simpl in Hf; lia|] end.
    exists s'. split; [exact E|]. rewrite Hs. cbn [trace after]. rewrite !sent_snoc. simpl.
    rewrite bool_decide_eq_true_2 by done. rewrite !app_nil_r. by rewrite <-app_assoc.
Qed.
End ForkTheorems.

(** ** The poll server *)

Section PollTheorems.
Context {Os : OS}.
Import ServerPoll.

(** Since the state [o], no watched descriptor was given up. *)
Definition watches (o : state) (s : net state) : Prop :=
  (numfds o ≤ numfds (own s))%nat ∧ length (fds (own s)) = length (fds o) ∧
  ∀ i f, (i < numfds o)%nat → fds o !! i = Some (Some f) →
    ∃ f', fds (own s) !! i = Some (Some f') ∧ fd f' = fd f.

Lemma watches_sys o c : keeps (watches o) (sys c).
Proof. by apply keeps_sys. Qed.
Lemma watches_say o l : keeps (watches o) (say l).
Proof. by intros s Hs. Qed.
Lemma watches_throw {A} o p : keeps (watches o) (throw_errno (A:=A) p).
Proof. by intros s Hs. Qed.
Lemma watches_fail {A} o p c : keeps (watches o) (fail (A:=A) p c).
Proof. by intros s Hs. Qed.
Lemma watches_incr o : keeps (watches o) incr.
Proof. intros s (H1 & H2 & H3). split; [simpl; lia|]. by split. Qed.
Lemma watches_terminated o z r l : keeps (watches o) (terminated z r l).
Proof. apply keeps_terminated. Qed.
Lemma watches_nonblocked o x b : keeps (watches o) (set_non_blocked_impl x b).
Proof.
  unfold set_non_blocked_impl. apply keeps_bind; [apply watches_sys|]. intros r.
  apply keeps_bind; [apply watches_sys|]. intros r'. apply keeps_if; [apply watches_throw|apply keeps_ret].
Qed.
Local Hint Resolve watches_sys watches_say watches_throw watches_fail watches_incr
  watches_terminated watches_nonblocked : keeps.

(** A cell is written: beyond the watched ones, or with the same descriptor. *)
Lemma watches_set_fd o i f (s : net state) :
  watches o s →
  ((numfds (own s) ≤ i)%nat ∨ ∃ f', fds (own s) !! i = Some (Some f') ∧ fd f' = fd f) →
  match set_fd i f s with
  | Ret _ s' => watches o s' ∧ numfds (own s') = numfds (own s) ∧ fds (own s') !! i = Some (Some f)
  | Undef u => u = OutOfBounds ∧ (length (fds (own s)) ≤ i)%nat
  | _ => False
  end.
Proof.
  intros (H1 & H2 & H3) Hi. unfold set_fd, store. run_step. cbn [or_undef].
  destruct (le_lt_dec (length (fds (own s))) i) as [Hle|Hlt].
  - rewrite zset_None by lia. simpl. done.
  - rewrite zset_nat by done. simpl. split; [|split; [done|by apply list_lookup_insert_eq]].
    split; [done|]. split; [simpl; by rewrite length_insert|]. intros j g Hj Hg. simpl.
    destruct (decide (i = j)) as [<-|Hne].
    + rewrite list_lookup_insert_eq by done. exists f. split; [done|].
      destruct Hi as [Hi|(f' & Hf' & E)]; [lia|]. destruct (H3 i g Hj Hg) as (g' & Hg' & <-).
      rewrite Hf' in Hg'. by injection Hg' as <-.
    + rewrite list_lookup_insert_ne by done. by apply H3.
Qed.

Lemma fd_at_outcomes i (s : net state) :
  match fd_at i s with
  | Ret f s' => s' = s ∧ fds (own s) !! i = Some (Some f)
  | Undef _ => True
  | _ => False
  end.
Proof.
  unfold fd_at, load. run_step. rewrite zget_nat. by destruct (fds (own s) !! i) as [[f|]|] eqn:E.
Qed.

Lemma watches_accept o l : keeps (watches o) (accept_client l).
Proof.
  unfold accept_client. apply keeps_bind; [auto with keeps|]. intros _.
  apply keeps_bind; [auto with keeps|]. intros r. apply keeps_if; [auto with keeps|].
  intros s Hs. unfold count. run_step. unfold bind at 1.
  pose proof (watches_set_fd o (numfds (own s)) (mkPollfd (rc r) POLLIN 0) s Hs ltac:(by left)) as H.
  destruct (set_fd _ _ s) as [u s1|? ?|? ?|u|]; try done. destruct H as [H _].
  assert (keeps (watches o) (incr ;; set_non_blocked_impl (rc r) true ;;
    say [OStr "request accepted"; OStr newline])) as Hk by auto 10 with keeps.
  by apply Hk.
Qed.

(** The calls of a client's round keep its cell. *)
Lemma cell_keeps o i g :
  let P s := watches o s ∧ ∃ f', fds (own s) !! i = Some (Some f') ∧ fd f' = g in
  (∀ c, keeps P (sys c)) ∧ (∀ l, keeps P (say l)) ∧
  (∀ f, fd f = g → keeps P (set_fd i f)).
Proof.
  intros P. split; [|split].
  - intros c s Hs. exact Hs.
  - intros l s Hs. exact Hs.
  - intros f Hf s [Hw (f' & Hf' & E)].
    pose proof (watches_set_fd o i f s Hw) as H. specialize (H ltac:(right; exists f'; split; [done|congruence])).
    destruct (set_fd i f s); try done. destruct H as (H1 & _ & H3). split; [done|]. by exists f.
Qed.
Lemma watches_read_client o i f (s : net state) :
  watches o s → fds (own s) !! i = Some (Some f) →
  match read_client i f s with Ret _ s' | Exc _ s' | Exit _ s' => watches o s' | _ => True end.
Proof.
  intros Hw Hf. destruct (cell_keeps o i (fd f)) as (K1 & K2 & K3).
  set (P := λ s, watches o s ∧ ∃ f', fds (own s) !! i = Some (Some f') ∧ fd f' = fd f) in *.
  assert (keeps P (read_client i f)) as H.
  { pose proof (keeps_terminated P). pose proof (keeps_strip P).
    pose proof (K3 (mkPollfd (fd f) (events f) 0) eq_refl).
    pose proof (K3 (mkPollfd (fd f) POLLOUT 0) eq_refl).
    unfold read_client. auto 20 with keeps. }
  specialize (H s (conj Hw (ex_intro _ f (conj Hf eq_refl)))).
  by destruct (read_client i f s); try apply H.
Qed.
Lemma watches_serve_fd o l i : keeps (watches o) (serve_fd l i).
Proof.
  intros s Hw. unfold serve_fd. unfold bind at 1. pose proof (fd_at_outcomes i s) as H.
  destruct (fd_at i s) as [f s1|? ?|? ?|?|]; try done. destruct H as [-> Hf].
  case_bool_decide; [done|]. case_bool_decide; [by apply watches_accept|].
  destruct (has (revents f) POLLHUP); [done|].
  destruct (has (revents f) POLLIN); [by apply watches_read_client|].
  destruct (has (revents f) POLLOUT); [|done]. rewrite bind_sys.
  pose proof (watches_set_fd o i (mkPollfd (fd f) POLLIN (revents f)) (after (Send (fd f) hello 0) s) Hw)
    as H1. specialize (H1 ltac:(right; by exists f)). by destruct (set_fd i _ _); try apply H1.
Qed.
Lemma watches_serve_loop o fuel l : ∀ i, keeps (watches o) (serve_loop fuel l i).
Proof.
  pose proof (watches_serve_fd o l). induction fuel as [|n IH]; intros i; cbn [serve_loop];
    [apply keeps_no_fuel|]. unfold count. auto 20 with keeps.
Qed.

Lemma poll_with_revents_lookup l : ∀ r i f,
  l !! i = Some (Some f) → ∃ f', with_revents l r !! i = Some (Some f') ∧ fd f' = fd f.
Proof.
  induction l as [|[g|] l IH]; intros r i f Hi; [done|..].
  - destruct r as [|v r]; [by exists f|]. destruct i as [|i]; simpl in *.
    + injection Hi as ->. by eexists.
    + by apply IH.
  - simpl. by exists f.
Qed.
Lemma poll_with_revents_length l : ∀ r, length (with_revents l r) = length l.
Proof.
  induction l as [|[g|] l IH]; intros r; [done|..]; destruct r; simpl; [done| |done|done].
  by rewrite IH.
Qed.
Lemma watches_poll o t : keeps (watches o) (poll t).
Proof.
  intros s Hw. unfold poll, count. run_step. run_step. destruct (decide _); [|done].
  destruct (poll_args _); [|done]. unfold or_undef. srun.
  destruct Hw as (H1 & H2 & H3). simpl. split; [done|].
  split; [simpl; by rewrite poll_with_revents_length|].
  intros i f Hi Hf. simpl. destruct (H3 i f Hi Hf) as (f1 & Hf1 & <-). by apply poll_with_revents_lookup.
Qed.

(** The poll server never stops watching a descriptor: after any number of
    rounds each of the descriptors of the array is still there, in its cell,
    also when its client left and it was closed. *)
Theorem poll_never_forgets rds listener (s : net state) :
  match rounds rds (round listener) s with
  | Ret _ s' | Exc _ s' | Exit _ s' => watches (own s) s'
  | _ => True
  end.
Proof.
  assert (keeps (watches (own s)) (rounds rds (round listener))) as H.
  { pose proof (watches_poll (own s)). pose proof (watches_serve_loop (own s)).
    unfold round. auto 10 with keeps. }
  apply (H s). split; [done|]. split; [done|]. intros i f _ Hf. by exists f.
Qed.

Lemma serve_full_listener l (s : net state) :
  numfds (own s) = length (fds (own s)) →
  (∃ f, fds (own s) !! 0%nat = Some (Some f) ∧ revents f ≠ 0 ∧ fd f = l) →
  (∀ h, 0 ≤ rc (answer_to h (Accept l))) →
  serve_fd l 0 s = Undef OutOfBounds.
Proof.
  intros Hn (f & Hf & Hr & Hl) Ha. unfold serve_fd, fd_at. run_step. srun.
  unfold load. rewrite (zget_nat _ 0), Hf. srun.
  rewrite (bool_decide_eq_false_2 (revents f = 0)), (bool_decide_eq_true_2 (fd f = l)) by done.
  unfold accept_client, say. srun.
  match goal with |- context [answer_to ?h (Accept l)] => specialize (Ha h) end.
  rewrite bool_decide_eq_false_2 by lia. unfold count, set_fd, store. srun.
  rewrite zset_None by (cbn [own numfds fds]; lia). done.
Qed.

(** POLL_SIZE descriptors are watched: the next connection is stored behind
    the array. *)
Theorem poll_array_overflows listener rest v r (s : net state) :
  numfds (own s) = POLL_SIZE → length (fds (own s)) = POLL_SIZE →
  fds (own s) = Some (mkPollfd listener POLLIN 0) :: rest → Forall is_Some rest → v ≠ 0 →
  (∀ h args, answer_to h (Poll args 10000) = mkReply 1 0 [] (v :: r)) →
  (∀ h, 0 ≤ rc (answer_to h (Accept listener))) →
  round listener s = Undef OutOfBounds.
Proof.
  intros Hn Hl Hf Hall Hv Hp Ha. unfold round, poll, count. srun. rewrite Hn, Hl.
  rewrite decide_True by done.
  assert (∃ args, poll_args (take POLL_SIZE (fds (own s))) = Some args) as [args Hargs].
  { rewrite take_ge by lia. rewrite Hf. simpl. clear -Hall.
    assert (∃ a, poll_args rest = Some a) as [a ->]; [|by eexists].
    induction Hall as [|f rest [f' ->] _ [a IH]]; [by eexists|]. simpl. rewrite IH. by eexists. }
  rewrite Hargs. unfold or_undef, set_own. srun. rewrite Hp. cbn [rc numbers].
  rewrite (bool_decide_eq_false_2 (1 = 0)), (bool_decide_eq_false_2 (1 = -1)) by done.
  cbn [serve_loop]. unfold count at 1. srun. rewrite Hn.
  rewrite (bool_decide_eq_true_2 (0 < POLL_SIZE)%nat) by (unfold POLL_SIZE; lia).
  unfold bind at 1. rewrite serve_full_listener; [done|..]; cbn [own numfds fds].
  - rewrite poll_with_revents_length. congruence.
  - exists (mkPollfd listener POLLIN v). by rewrite Hf.
  - done.
Qed.
End PollTheorems.

(** ** The select server *)

Section SelectTheorems.
Context {Os : OS}.
Import ServerSelect.

Lemma fd_in_set_ok {T} x (s : net T) : 0 ≤ x < FD_SETSIZE → fd_in_set x s = Ret tt s.
Proof. intros H. unfold fd_in_set. by rewrite bool_decide_eq_true_2. Qed.
Lemma fd_in_sets {T} l (s : net T) :
  Forall (λ x, 0 ≤ x < FD_SETSIZE) l → for_each fd_in_set l s = Ret tt s.
Proof.
  induction 1 as [|x l Hx _ IH]; [done|]. simpl. unfold bind. by rewrite fd_in_set_ok.
Qed.

Lemma serve_first_data rd l : ∀ s : net state,
  (∀ h x, NUL ∉ got (answer_to h (Recv x 1024 0))) →
  Forall (λ x, 0 ≤ x < FD_SETSIZE) l → (∃ x, x ∈ l ∧ x ∈ rd) →
  buf (own s) = replicate 1024 None → ∃ u, serve_clients rd l s = Undef u.
Proof.
  induction l as [|y l IH]; intros s Hg Hl (x & Hx & Hr) Hb; [by apply elem_of_nil in Hx|].
  apply Forall_cons in Hl as [Hy Hl]. cbn [serve_clients].
  rewrite (bind_eq_ret _ _ _ _ _ (fd_in_set_ok y s Hy)). case_bool_decide as Hd.
  - unfold recv, set_own. srun. rewrite Hb. set (d := take _ _).
    assert (NUL ∉ d) as Hn.
    { intros H. apply (Hg (trace s) y). unfold d in H. apply elem_of_take in H as (i & H & _).
      by apply list_elem_of_lookup_2 in H. }
    destruct (c_string_unterminated d (1024 - length d)
      (mkNet (mkState (clients (own s)) ((map Some d) ++ drop (length (map Some d)) (replicate 1024 None)))
        (errno (after (Recv y 1024 0) s)) (trace (after (Recv y 1024 0) s)) (cerr s)) Hn) as [u E].
    exists u. unfold bind at 1. rewrite drop_replicate, length_map in *. cbn [buf].
    simpl in E |- *. by rewrite E.
  - apply IH; try done. exists x. split; [|done]. by apply elem_of_cons in Hx as [->|].
Qed.

(** The first message that any client sends to the select server, unless it
    holds a zero byte, makes it print a buffer that is not terminated: the
    execution is undefined. So is a disconnect before any message. *)
Theorem select_first_data_undefined listener rd x (s : net state) :
  buf (own s) = replicate 1024 None →
  Forall (λ y, 0 ≤ y < FD_SETSIZE) (listener :: clients (own s)) →
  (∀ h n l, answer_to h (Select n l [] (Some 60)) = ready rd) →
  listener ∉ rd → x ∈ clients (own s) → x ∈ rd →
  (∀ h y, NUL ∉ got (answer_to h (Recv y 1024 0))) →
  ∃ u, round listener s = Undef u.
Proof.
  intros Hb Hf Hs Hl Hx Hr Hg. apply Forall_cons in Hf as [Hf1 Hf]. unfold round, say. srun.
  unfold bind at 1. rewrite fd_in_set_ok by done. srun. unfold bind at 1. rewrite fd_in_sets by done.
  srun. rewrite Hs. unfold ready. cbn [rc numbers].
  destruct rd as [|z rd]; [by apply elem_of_nil in Hr|].
  rewrite (bool_decide_eq_false_2 (_ <= 0)) by (simpl; lia).
  rewrite (bool_decide_eq_false_2 (listener ∈ _)) by done. srun.
  apply serve_first_data; [done|done|by exists x|done].
Qed.

(** When a client disconnects, once the buffer is terminated, its descriptor
    is closed and leaves the set. If it was the last one the round ends; with
    any other client left the loop goes on through an iterator that does not
    exist any more. *)
Theorem select_server_disconnect rd x l t (s : net state) :
  0 ≤ x < FD_SETSIZE → x ∈ rd → rc (answer_to (trace s) (Recv x 1024 0)) <= 0 →
  (∀ s' : net state, c_string (buf (own s)) s' = Ret t s') →
  (x :: l) = clients (own s) →
  match serve_clients rd (x :: l) s with
  | Ret _ s' => (∀ y, y ∈ l → y = x) ∧ clients (own s') = [] ∧
      calls_of (trace s') = calls_of (trace s) ++ [Recv x 1024 0; Close x]
  | Undef u => u = UseAfterFree ∧ ∃ y, y ∈ l ∧ y ≠ x
  | _ => False
  end.
Proof.
  intros Hx Hr Hrc Ht Hc. cbn [serve_clients].
  rewrite (bind_eq_ret _ _ _ _ _ (fd_in_set_ok x s Hx)), bool_decide_eq_true_2 by done.
  unfold recv, set_own. srun. replace (Z.to_nat _) with 0%nat by lia. rewrite take_0. cbn [map length].
  rewrite drop_0. cbn [app buf]. unfold bind at 1. rewrite Ht. unfold say. srun.
  rewrite bool_decide_eq_true_2 by done. unfold set_clients, set_own. srun.
  case_bool_decide as He.
  - simpl in *. split.
    + intros y Hy. destruct (decide (y = x)) as [|Hne]; [done|].
      assert (y ∈ erase x (clients (own s))) as Hin.
      { apply list_elem_of_filter. split; [done|]. rewrite <-Hc. by apply elem_of_cons; right. }
      rewrite He in Hin. by apply elem_of_nil in Hin.
    + split; [done|]. unfold calls_of. by rewrite !fmap_app, <-app_assoc.
  - split; [done|]. simpl in He. rewrite <-Hc in He. unfold erase in He. rewrite filter_cons_False in He by tauto.
    destruct (filter (λ y, y ≠ x) l) as [|y l'] eqn:E; [done|]. exists y.
    assert (y ∈ filter (λ y, y ≠ x) l) as H by (rewrite E; by apply elem_of_cons; left).
    apply list_elem_of_filter in H. tauto.
Qed.
End SelectTheorems.

(** ** The client *)

Section ClientTheorems.
Context {Os : OS} {T : Type}.
Import Client.

(** The client ends with status 0 exactly after one conversation: the name
    resolved, one message written with its zero byte, one answer received, the
    socket closed. In every other ending - status 1 or an exception that
    nothing catches - the message was not answered, and when there is a socket
    it is left open. *)
Theorem client_one_conversation prog host n (s : net T) :
  INT_MIN ≤ n ≤ INT_MAX →
  let x := rc (answer_to (trace s) Socket) in
  let l := if bool_decide (0 ≤ x) then x :: held (trace s) else held (trace s) in
  match main [prog; host; to_string n] s with
  | Exit code s' =>
      code = 0 ∧ held (trace s') = remove_first x l ∧
        (∃ ip, calls_of (trace s') = calls_of (trace s) ++
          [Socket; Gethostbyname (text host); Connect x ip (u16 n);
           Write x (MESSAGE ++ [NUL]); Recv x 1024 0; Close x]) ∨
      code = 1 ∧ held (trace s') = l
  | Exc _ s' => held (trace s') = l
  | Undef u => u = NullPointer ∨ u = OutOfBounds
  | _ => False
  end.
Proof.
  intros Hn x l. unfold main. srun. fold x. set (r0 := answer_to (trace s) Socket) in *.
  assert (held (trace s ++ [(Socket, r0)]) = l) as Hl.
  { rewrite held_snoc. unfold hold1, l. cbn [fst snd]. by fold x. }
  clearbody l.
  case_bool_decide as H0; [right; split; [done|exact Hl]|].
  unfold bind at 1. rewrite stoi_to_string by done. unfold init_sockaddr. srun.
  case_bool_decide as Hh.
  { right. split; [done|]. simpl. by rewrite held_other. }
  destruct (head _) as [ip|]; [|by left]. srun. cbn [or_undef]. srun. cbn [fst snd].
  case_bool_decide as Hc; [right; split; [done|]; simpl; by rewrite !held_other by done|].
  unfold write_to_server. srun.
  case_bool_decide as Hw; [simpl; by rewrite !held_other by done|].
  unfold say at 1. srun. unfold read_from_server. srun.
  match goal with |- context [answer_to ?h (Recv x 1024 0)] =>
    set (r := answer_to h (Recv x 1024 0)) end.
  assert (∀ z, u16 (u16 z) = u16 z) as Hu by (intros z; unfold u16; by rewrite Z.mod_mod).
  destruct (decide (rc r = -1)) as [H1|H1].
  { rewrite H1. simpl.
    destruct (decide (errno_of r = EAGAIN)) as [->|He];
      [|rewrite (bool_decide_eq_true_2 (errno_of r ≠ EAGAIN)) by done];
      simpl; by rewrite !held_other by done. }
  rewrite (bool_decide_eq_false_2 (rc r = -1)) by done. cbn [andb].
  destruct (decide (rc r = 0)) as [H2|H2].
  { rewrite H2. simpl. by rewrite !held_other by done. }
  rewrite (bool_decide_eq_false_2 (rc r = 0)) by done. srun. unfold bind at 1. rewrite strip_spec.
  destruct (forallb is_crlf (got r)); [by right|]. unfold say. srun. left. split; [done|].
  split.
  - simpl. rewrite held_snoc, !held_other by done. fold r0. by rewrite Hl.
  - exists ip. rewrite Hu. unfold calls_of. simpl. by rewrite !fmap_app, <-!app_assoc.
Qed.
End ClientTheorems.

(** ** Witnesses *)

Definition two_words : OS := scripted
  [data (b "one"); ok 7; ok 3; data (b "two"); ok 7; ok 3; ok 0; ok 7].
Lemma child_echoes_witness :
  ∃ s', ServerFork.child_loop (Os:=two_words) 3 5 (mkNet tt 0 [] []) = Ret tt s' ∧
    sent 5 (trace s') = [] ++ [b "one"; b "two"].
Proof.
  apply (child_echoes (Os:=two_words) [b "one"; b "two"] 3 5 (mkNet tt 0 [] [])).
  - vm_compute. repeat split; discriminate.
  - simpl. lia.
Defined.

(** 31 clients wait for messages, and a connection arrives. *)
Definition full_array : net ServerPoll.state :=
  mkNet (ServerPoll.mkState 32 (Some (ServerPoll.mkPollfd 3 ServerPoll.POLLIN 0) ::
    map (λ i, Some (ServerPoll.mkPollfd (Z.of_nat i) ServerPoll.POLLIN 0)) (seq 4 31))) 0 [] [].
Definition arrival : OS :=
  {| answer_to h c := match c with
                      | Poll _ _ => mkReply 1 0 [] [ServerPoll.POLLIN]
                      | _ => ok 40
                      end;
     strerror _ := "error" |}.
Lemma poll_array_overflows_witness :
  ServerPoll.round (Os:=arrival) 3 full_array = Undef OutOfBounds.
Proof.
  apply (poll_array_overflows (Os:=arrival) 3
    (map (λ i, Some (ServerPoll.mkPollfd (Z.of_nat i) ServerPoll.POLLIN 0)) (seq 4 31))
    ServerPoll.POLLIN [] full_array); try reflexivity.
  - apply Forall_map, Forall_forall. intros i _. by eexists.
  - discriminate.
  - intros h. simpl. lia.
Defined.

Definition fresh_select : net ServerSelect.state :=
  mkNet (ServerSelect.mkState [5] (replicate 1024 None)) 0 [] [].
Lemma select_first_data_undefined_witness :
  ∃ u, ServerSelect.round (Os:=reading (b "hi") [5]) 3 fresh_select = Undef u.
Proof.
  apply (select_first_data_undefined (Os:=reading (b "hi") [5]) 3 [5] 5 fresh_select); try reflexivity.
  - by apply (bool_decide_unpack _).
  - by apply (bool_decide_unpack _).
  - by apply (bool_decide_unpack _).
  - by apply (bool_decide_unpack _).
  - intros h y. by apply (bool_decide_unpack _).
Defined.

(** Clients 5 and 6, and 5 leaves. *)
Definition two_left : net ServerSelect.state :=
  mkNet (ServerSelect.mkState [5; 6] (map Some (b "hi" ++ [NUL]) ++ replicate 1021 None)) 0 [] [].
Lemma select_server_disconnect_witness :
  match ServerSelect.serve_clients (Os:=reading [] [5]) [5] [5; 6] two_left with
  | Ret _ s' => (∀ y, y ∈ [6] → y = 5) ∧ ServerSelect.clients (own s') = [] ∧
      calls_of (trace s') = [] ++ [Recv 5 1024 0; Close 5]
  | Undef u => u = UseAfterFree ∧ ∃ y, y ∈ [6] ∧ y ≠ 5
  | _ => False
  end.
Proof.
  apply (select_server_disconnect (Os:=reading [] [5]) [5] 5 [6] (b "hi") two_left); try reflexivity.
  - by apply (bool_decide_unpack _).
  - by apply (bool_decide_unpack _).
Defined.

Definition talk : OS := scripted
  [ok 5; mkReply 1 0 [] [16777343]; ok 0; ok 26; data (b "hello" ++ [LF]); ok 0].
Lemma client_one_conversation_witness :
  match Client.main (Os:=talk) [b "client"; b "localhost"; to_string 8080] (mkNet tt 0 [] []) with
  | Exit code s' =>
      code = 0 ∧ held (trace s') = [] ∧
        (∃ ip, calls_of (trace s') = [] ++
          [Socket; Gethostbyname "localhost"; Connect 5 ip (u16 8080);
           Write 5 (Client.MESSAGE ++ [NUL]); Recv 5 1024 0; Close 5]) ∨
      code = 1 ∧ held (trace s') = [5]
  | Exc _ s' => held (trace s') = [5]
  | Undef u => u = NullPointer ∨ u = OutOfBounds
  | _ => False
  end.
Proof.
  apply (client_one_conversation (Os:=talk) (b "client") (b "localhost") 8080 (mkNet tt 0 [] [])).
  vm_compute. split; discriminate.
Defined.
