(* ===== verification/Vectors.v ===== *)
(** * std::vector, its iterators, and std::set

    Models the examples about the standard containers: [Magic] of
    examples/035_vector.cpp, [Assign] of 036_vector_2.cpp, [Dates] of
    037_vector_3.cpp, [EraseRemove] of 040_erase_remove.cpp and [Equivalence] of
    041_equality_equivalent.cpp. First comes std::vector as they use it: its
    elements, its capacity, and which iterators an operation has invalidated. *)

From stdpp Require Import sorting.
From S2P Require Import Prelude Posix Text.

(** ** std::vector *)

(** How a vector makes an element anew in another place (the move constructor
    when it cannot throw, else the copy constructor), and the capacity it takes
    when it grows from a given size. *)
Class Element (S A : Type) := relocate : A → M S A.
Class Growth := grow : nat → nat.
(** libstdc++ and libc++ double. *)
Definition doubling : Growth := λ n, (if decide (n = 0) then 1 else 2 * n)%nat.

(** An operation that invalidates the iterators from a position on leaves a cut
    there; an iterator remembers how many cuts it has seen. *)
Record vector (A : Type) : Type := mkVector {
  elems : list A;
  capacity : nat;
  cuts : list nat
}.
Arguments mkVector {A} elems capacity cuts.
Arguments elems {A} v.
Arguments capacity {A} v.
Arguments cuts {A} v.
Record iterator : Type := mkIterator { epoch : nat; pos : nat }.

Definition size {A} (v : vector A) : nat := length (elems v).
Definition empty_vector {A} : vector A := mkVector [] 0 [].
Definition at_pos {A} (v : vector A) (k : nat) : iterator := mkIterator (length (cuts v)) k.
Definition begin {A} (v : vector A) : iterator := at_pos v 0.
Definition end_ {A} (v : vector A) : iterator := at_pos v (size v).
Definition valid {A} (v : vector A) (it : iterator) : Prop :=
  Forall (λ c, (pos it < c)%nat) (drop (epoch it) (cuts v)) ∧ (pos it ≤ size v)%nat.
#[export] Instance valid_dec {A} (v : vector A) it : Decision (valid v it).
Proof. unfold valid. apply _. Defined.

Section Vector.
Context {S A : Type} {E : Element S A} {G : Growth}.

Fixpoint relocate_all (l : list A) : M S (list A) :=
  match l with
  | [] => ret []
  | x :: l' => let! y := relocate x in let! r := relocate_all l' in ret (y :: r)
  end.

(** [reserve]: the elements move to a larger block, or nothing happens. *)
Definition reserve (n : nat) (v : vector A) : M S (vector A) :=
  if decide (capacity v < n)%nat then
    let! es := relocate_all (elems v) in ret (mkVector es n (cuts v ++ [0%nat]))
  else ret v.

(** [emplace_back], whose arguments are constructed in place by [mk]; the new
    element is made before the others move, since it may refer to them. *)
Definition emplace_back (mk : M S A) (v : vector A) : M S (vector A) :=
  let! x := mk in
  if decide (size v < capacity v)%nat then
    ret (mkVector (elems v ++ [x]) (capacity v) (cuts v ++ [size v]))
  else
    let! es := relocate_all (elems v) in
    ret (mkVector (es ++ [x]) (grow (size v)) (cuts v ++ [0%nat])).

(** [v[i]] and [v[i] = x], which no one checks: out of range is undefined,
    whatever the capacity. *)
Definition at_index (v : vector A) (i : nat) : M S A := or_undef OutOfBounds (elems v !! i).
Definition assign_index (v : vector A) (i : nat) (x : A) : M S (vector A) :=
  if decide (i < size v)%nat then ret (mkVector (<[i := x]> (elems v)) (capacity v) (cuts v))
  else undef OutOfBounds.

(** [*it] and [*it = x]. *)
Definition deref (v : vector A) (it : iterator) : M S A :=
  if decide (valid v it) then at_index v (pos it) else undef UseAfterFree.
Definition assign (v : vector A) (it : iterator) (x : A) : M S (vector A) :=
  if decide (valid v it) then assign_index v (pos it) x else undef UseAfterFree.

(** [insert(it, x)]: in place, the last element is made anew and those before
    it are assigned one place further. *)
Definition insert (it : iterator) (mk : M S A) (v : vector A) : M S (vector A) :=
  if decide (valid v it) then
    let k := pos it in
    let! x := mk in
    if decide (size v < capacity v)%nat then
      let! tail := (match last (drop k (elems v)) with
                    | None => ret []
                    | Some y => let! z := relocate y in ret (removelast (drop k (elems v)) ++ [z])
                    end) in
      ret (mkVector (take k (elems v) ++ x :: tail) (capacity v) (cuts v ++ [k]))
    else
      let! es := relocate_all (elems v) in
      ret (mkVector (take k es ++ x :: drop k es) (grow (size v)) (cuts v ++ [0%nat]))
  else undef UseAfterFree.

(** [erase(first, last)]. *)
Definition erase (first last : iterator) (v : vector A) : M S (vector A) :=
  if decide (valid v first ∧ valid v last ∧ pos first ≤ pos last)%nat then
    ret (mkVector (take (pos first) (elems v) ++ drop (pos last) (elems v)) (capacity v)
           (cuts v ++ [pos first]))
  else undef UseAfterFree.
End Vector.

(** ** 035_vector.cpp *)
Module Magic.
Record A : Type := mkA { param1 : string; param2 : Z }.
Abbreviation terminal := (list (out False)).
Definition say (l : terminal) : M terminal unit := modify (λ t, t ++ l).

(** The three constructors; what is moved from is a temporary. *)
Definition A_ctor (p_name : string) (p_year : Z) : M terminal A :=
  say [OStr "I am being constructed."; OEndl] ;; ret (mkA p_name p_year).
Definition A_move (other : A) : M terminal A :=
  say [OStr "I am being moved."; OEndl] ;; ret other.
Definition A_copy (other : A) : M terminal A :=
  say [OStr "I am being copied."; OEndl] ;; ret other.
(** The move constructor is not noexcept: a growing vector copies. *)
#[export] Instance A_element : Element terminal A := A_copy.

Section Main.
Context {G : Growth}.
Definition main : M terminal Z :=
  let! some_a := A_ctor "test" 1 in
  let! v := reserve 10 empty_vector in
  say [OEndl; OStr "emplace_back:"; OEndl] ;;
  let! v := emplace_back (A_ctor "String1" 1000) v in
  say [OStr "----"; OEndl] ;;
  let! v := emplace_back (let! t := A_ctor "String1" 1000 in A_move t) v in
  say [OEndl; OStr "push_back:"; OEndl] ;;
  let! v := emplace_back (let! t := A_ctor "String2" 2000 in A_move t) v in
  say [OEndl; OStr "appending existing object:"; OEndl] ;;
  let! v := emplace_back (A_copy some_a) v in
  let! v := emplace_back (A_copy some_a) v in
  ret 0.
End Main.
End Magic.

(** ** 036_vector_2.cpp *)
Module Assign.
Import Magic.
Section Main.
Context {G : Growth}.
Definition assert (c : bool) : M terminal unit := if c then ret tt else exit_with 134.
Definition print (it : iterator) (v : vector A) : M terminal unit :=
  let! a := deref v it in say [OStr (param1 a)].
(** [for (it = v.begin(); it < v.end(); it++) cout << ( *it).param1] *)
Definition print_all (v : vector A) : M terminal unit :=
  for_each (λ k, print (at_pos v k) v) (seq 0 (size v)).
Definition main : M terminal Z :=
  let! some_a := A_ctor "test" 1 in
  let! v := reserve 2 empty_vector in
  assert (bool_decide (capacity v = 2%nat)) ;;
  let! v := assign_index v 0 some_a in
  let! v := assign_index v 1 some_a in
  print_all v ;;
  let! a := at_index v 0 in say [OStr (param1 a)] ;;
  let! v := reserve 100 v in
  assert (bool_decide (capacity v = 100%nat)) ;;
  let! a := at_index v 0 in say [OStr (param1 a)] ;;
  let! v := assign_index v 2 some_a in
  let! v := assign_index v 3 some_a in
  print_all v ;;
  ret 0.
End Main.
End Assign.

(** ** 037_vector_3.cpp *)
Module Dates.
(** A Date is its string [date]; the constructor from a string and the copy
    constructor leave it empty. *)
Record state : Type := mkState { cin : bytes; cout : list (out False) }.
Abbreviation dm := (M state).
Definition Date : Type := bytes.
Definition Date_default : Date := [].
Definition Date_ctor (str : bytes) : Date := [].
Definition Date_copy (rhs : Date) : Date := [].
Definition date_assign (d : Date) (rhs : bytes) : Date := d.
Definition date_eq (d : Date) (rhs : bytes) : bool := true.
Definition TodaysDate : Date := Date_ctor (b "29/04/19").
#[export] Instance Date_element : Element state Date := λ d, ret (Date_copy d).

Definition say (l : list (out False)) : dm unit := modify (λ s, mkState (cin s) (cout s ++ l)).
Definition put_date (c : Date) : dm unit := say [OStr "Date"; OEndl].
Fixpoint word (l : bytes) : bytes * bytes :=
  match l with
  | [] => ([], [])
  | c :: l' => if is_space c then ([], l) else let '(w, r) := word l' in (c :: w, r)
  end.
(** [in >> c]: [None] when no word is left. *)
Definition read_date : dm (option Date) :=
  say [OStr "Date: "; OEndl] ;;
  let! s := get in
  let '(w, r) := word (skip_spaces (cin s)) in
  modify (λ s, mkState r (cout s)) ;;
  ret (if decide (w = []) then None else Some w).

Section Main.
Context {G : Growth}.
(** [copy(istream_iterator<Date>(cin), istream_iterator<Date>(), back_inserter(e))] *)
Fixpoint read_all (fuel : nat) (e : vector Date) : dm (vector Date) :=
  match fuel with
  | O => no_fuel
  | S fuel' =>
      let! d := read_date in
      match d with
      | None => ret e
      | Some d => let! e := emplace_back (ret (Date_copy d)) e in read_all fuel' e
      end
  end.
(** [find(e.begin(), e.end(), value)]: the first place where [p] holds. *)
Fixpoint find_pos (p : Date → bool) (l : list Date) : nat :=
  match l with [] => 0%nat | x :: l' => if p x then 0%nat else S (find_pos p l') end.
Definition find (e : vector Date) (value : bytes) : iterator :=
  at_pos e (find_pos (λ d, date_eq d value) (elems e)).
(** [copy(first, last, ostream_iterator<Date>(cout, "\n"))] *)
Definition copy_out (e : vector Date) (first last : iterator) : dm unit :=
  if decide (valid e first ∧ valid e last) then
    if decide (pos first ≤ pos last)%nat then
      for_each (λ k, let! d := deref e (at_pos e k) in put_date d ;; say [OEndl])
        (seq (pos first) (pos last - pos first))
    else undef OutOfBounds
  else undef UseAfterFree.
(** [--e.end()] *)
Definition before_end (e : vector Date) : dm iterator :=
  match size e with O => undef OutOfBounds | S n => ret (at_pos e n) end.

Definition main : dm Z :=
  let! s := get in
  let! e := read_all (S (length (cin s))) empty_vector in
  let first := find e (b "01/01/95") in
  let last := find e (b "12/31/95") in
  let! d := deref e last in
  let! e := assign e last (date_assign d (b "12/30/95")) in
  copy_out e first last ;;
  let! it := before_end e in
  let! e := insert it (ret (Date_copy TodaysDate)) e in
  copy_out e first last ;;
  ret 0.
End Main.
End Dates.

(** ** 040_erase_remove.cpp *)
Module EraseRemove.
(** std::remove_if: every element the predicate does not select is assigned to
    the next place from the front; the place after the last one is returned. *)
Fixpoint remove_loop {A} (p : A → bool) (n : nat) (l : list A) (i result : nat) : list A * nat :=
  match n with
  | O => (l, result)
  | S n' =>
      match l !! i with
      | None => (l, result)
      | Some x => if p x then remove_loop p n' l (S i) result
                  else remove_loop p n' (<[result := x]> l) (S i) (S result)
      end
  end.
Definition remove_if {A} (p : A → bool) (v : vector A) : vector A * iterator :=
  let '(l, r) := remove_loop p (size v) (elems v) 0 0 in
  let v' := mkVector l (capacity v) (cuts v) in (v', at_pos v' r).

Definition pred (el : Z) : bool := bool_decide (el < 5).
(** The initializer list is a parameter. *)
Definition of_list {A} (l : list A) : vector A := mkVector l (length l) [].
Definition remaining {S} (p : Z → bool) (l : list Z) : M S (vector Z) :=
  let '(e, it) := remove_if p (of_list l) in erase it (end_ e) e.
Definition main (l : list Z) : M (list (out False)) Z :=
  let! e := remaining pred l in
  for_each (λ el, modify (λ t, t ++ [OInt el; OStr " "])) (elems e) ;;
  modify (λ t, t ++ [OEndl]) ;;
  ret 0.
End EraseRemove.

(** ** 041_equality_equivalent.cpp *)
Module Equivalence.
Abbreviation terminal := (list (out False)).
Definition say (l : terminal) : M terminal unit := modify (λ t, t ++ l).
(** std::string::operator<: by the bytes, from the left. *)
Definition lt (x y : string) : Prop := String.compare x y = Lt.
#[export] Instance lt_dec x y : Decision (lt x y).
Proof. unfold lt. apply _. Defined.

(** An A is its string; both comparisons print their operands. *)
Definition less (a rhs : string) : M terminal bool :=
  say [OStr "< called this "; OStr a; OStr " rhs = "; OStr rhs; OEndl] ;; ret (bool_decide (lt a rhs)).
Definition equal (a rhs : string) : M terminal bool :=
  say [OStr " == called this "; OStr a; OStr " rhs = "; OStr rhs; OEndl] ;; ret (bool_decide (a = rhs)).

(** A std::set finds its places by operator< alone. Its elements, in their
    order, are searched as a tree is: with one comparison for a node, which sends
    the search to the nodes after it or before it. Which node is next - the shape
    of the tree - is a parameter. *)
Class Shape := node : list string → nat → nat → nat.
Section Set_.
Context {T : Shape}.
(** The node looked at when the place is from [lo] to [hi]. *)
Definition middle (s : list string) (lo hi : nat) : nat := lo + node s lo hi mod (hi - lo).
Fixpoint search (fuel : nat) (after : string → M terminal bool) (s : list string) (lo hi : nat) :
    M terminal nat :=
  match fuel with
  | O => no_fuel
  | S fuel' =>
      if decide (lo < hi)%nat then
        let m := middle s lo hi in
        let! y := or_undef OutOfBounds (s !! m) in
        let! later := after y in
        if later : bool then search fuel' after s (S m) hi else search fuel' after s lo m
      else ret lo
  end.
(** The place before the first element that is not less than [x], and the one
    before the first element that [x] is less than. *)
Definition lower_bound (s : list string) (x : string) : M terminal nat :=
  search (S (length s)) (λ y, less y x) s 0 (length s).
Definition upper_bound (s : list string) (x : string) : M terminal nat :=
  search (S (length s)) (λ y, let! b := less x y in ret (negb b)) s 0 (length s).

(** [s.insert(x)]: at the upper bound, unless the element before it, if there is
    one, is not less than [x]. *)
Definition set_insert (x : string) (s : list string) : M terminal (list string) :=
  let! p := upper_bound s x in
  let inserted := take p s ++ x :: drop p s in
  match p with
  | O => ret inserted
  | S q =>
      let! y := or_undef OutOfBounds (s !! q) in
      let! b := less y x in
      ret (if b : bool then inserted else s)
  end.
(** [s.find(x)]: the element at the lower bound, if [x] is not less than it;
    [None] is [s.end()]. *)
Definition set_find (s : list string) (x : string) : M terminal (option nat) :=
  let! p := lower_bound s x in
  match s !! p with
  | None => ret None
  | Some y => let! b := less x y in ret (if b : bool then None else Some p)
  end.
(** [std::find(s.begin(), s.end(), x)]: by operator==, from the front. *)
Fixpoint std_find (i : nat) (s : list string) (x : string) : M terminal (option nat) :=
  match s with
  | [] => ret None
  | y :: s' => let! e := equal y x in if e : bool then ret (Some i) else std_find (S i) s' x
  end.

Definition found (it : option nat) : M terminal unit :=
  match it with Some _ => say [OStr "2 has found"; OEndl] | None => ret tt end.
Definition main : M terminal Z :=
  let! s := set_insert "1" [] in
  let! s := set_insert "2" s in
  say [OStr "---"; OEndl] ;;
  let! it := set_find s "2" in
  say [OStr "---"; OEndl] ;;
  found it ;;
  let! it := std_find 0 s "2" in
  found it ;;
  ret 0.
End Set_.
End Equivalence.

(** ** Iterators *)

Section Iterators.
Context {S A : Type} {E : Element S A} {G : Growth}.

(** An append within the capacity has no other effect than the construction of
    the new element, and every iterator to an element goes on denoting it. *)
Lemma emplace_back_in_place mk (v : vector A) (x : A) (s s' : S) :
  (size v < capacity v)%nat → mk s = Ret x s' →
  ∃ v', emplace_back mk v s = Ret v' s' ∧ elems v' = elems v ++ [x] ∧ capacity v' = capacity v ∧
    ∀ it y, valid v it → elems v !! pos it = Some y → deref v' it s' = Ret y s'.
Proof.
  intros Hc Hx. unfold emplace_back. run_step. rewrite decide_True by done.
  eexists. split; [reflexivity|]. split; [done|]. split; [done|]. intros it y [Hv Hs] Hy.
  pose proof (lookup_lt_Some _ _ _ Hy) as Hlt. unfold deref.
  rewrite decide_True; [unfold at_index; simpl; by rewrite (lookup_app_l_Some _ _ _ _ Hy)|].
  split; [|unfold size; cbn [elems]; rewrite length_app; unfold size in Hs; lia].
  cbn [cuts]. destruct (decide (epoch it ≤ length (cuts v))%nat) as [?|?].
  - rewrite drop_app_le by done. apply Forall_app. split; [done|]. by constructor.
  - rewrite drop_ge; [constructor|]. rewrite length_app. simpl. lia.
Qed.
(** An append that grows the vector invalidates every iterator. *)
Lemma emplace_back_grows mk (v v' : vector A) (s s' : S) it :
  (capacity v ≤ size v)%nat → emplace_back mk v s = Ret v' s' → (epoch it ≤ length (cuts v))%nat → ¬ valid v' it.
Proof.
  unfold emplace_back, bind. intros Hc. destruct (mk s); try done. rewrite decide_False by lia.
  destruct (relocate_all (elems v) s0); try done. intros [= <- <-] He [Hv _]. cbn [cuts] in Hv.
  rewrite drop_app_le in Hv by done. apply Forall_app in Hv as [_ Hv]. inversion Hv. lia.
Qed.
End Iterators.

(** ** Appending to a vector with reserved capacity *)
Section Reserved.
Context {S A : Type} {E : Element S A} {G : Growth}.

Fixpoint append_all (mks : list (M S A)) (v : vector A) : M S (vector A) :=
  match mks with
  | [] => ret v
  | mk :: mks' => let! v := emplace_back mk v in append_all mks' v
  end.
(** The constructors alone, one after the other. *)
Fixpoint construct_all (mks : list (M S A)) : M S (list A) :=
  match mks with
  | [] => ret []
  | mk :: mks' => let! x := mk in let! xs := construct_all mks' in ret (x :: xs)
  end.

Lemma append_all_reserved mks : ∀ v s, (size v + length mks ≤ capacity v)%nat →
  append_all mks v s =
  (let! xs := construct_all mks in
   ret (mkVector (elems v ++ xs) (capacity v) (cuts v ++ seq (size v) (length mks)))) s.
Proof.
  induction mks as [|mk mks IH]; intros v s Hc.
  - cbn [append_all construct_all length seq]. run_step. rewrite !app_nil_r. by destruct v.
  - cbn [append_all construct_all]. unfold bind at 1 2 3. unfold emplace_back, bind at 1.
    destruct (mk s) as [x s1|e s1|c s1|u|] eqn:Ex; try done. cbn [length] in Hc. rewrite decide_True by lia.
    unfold ret at 1. rewrite IH; [|unfold size in Hc |- *; cbn [elems capacity]; rewrite length_app; simpl; lia].
    unfold bind. destruct (construct_all mks s1); try done. cbn [elems capacity cuts ret length seq].
    unfold ret, size. cbn [elems]. rewrite length_app, Nat.add_1_r. by rewrite <-!app_assoc.
Qed.
End Reserved.

Lemma construct_all_length {S A} (mks : list (M S A)) : ∀ xs s s',
  construct_all mks s = Ret xs s' → length xs = length mks.
Proof.
  induction mks as [|mk mks IH]; intros xs s s'; [by intros [= <- _]|]. cbn [construct_all]. unfold bind.
  destruct (mk s) as [x s1|e s1|c s1|u|]; try done. destruct (construct_all mks s1) eqn:Ec; try done.
  intros [= <- _]. simpl. f_equal. by eapply IH.
Qed.

(** After [reserve(n)], appending up to [n] elements to an empty vector has
    exactly the effects of their constructors, in order: no element is ever
    copied or moved, also when a constructor throws; and an iterator to the
    [j]-th element obtained after [k] appends denotes it at the end. *)
Theorem reserve_relocates_nothing {S A} {E : Element S A} {G : Growth} (n : nat) (mks : list (M S A)) s :
  (0 < n)%nat → (length mks ≤ n)%nat →
  (let! v := reserve n empty_vector in append_all mks v) s =
    (let! xs := construct_all mks in ret (mkVector xs n (0%nat :: seq 0 (length mks)))) s ∧
  ∀ xs s' j k, construct_all mks s = Ret xs s' → (j < k ≤ length mks)%nat →
    ∃ x, xs !! j = Some x ∧
      deref (mkVector xs n (0%nat :: seq 0 (length mks))) (mkIterator (1 + k) j) s' = Ret x s'.
Proof.
  intros Hn Hm. split.
  - unfold reserve, empty_vector. cbn [capacity elems relocate_all cuts]. rewrite decide_True by done.
    repeat run_step. by apply (append_all_reserved mks (mkVector [] n [0%nat])).
  - intros xs s' j k Hxs Hjk. apply construct_all_length in Hxs.
    destruct (lookup_lt_is_Some_2 xs j) as [x Hx]; [lia|]. exists x. split; [done|].
    unfold deref, at_index. cbn [pos elems]. rewrite decide_True, Hx; [done|].
    split; cbn [pos epoch cuts]; [|unfold size; cbn [elems]; lia]. cbn [drop plus]. apply Forall_forall.
    intros c Hc. rewrite drop_seq in Hc. apply elem_of_seq in Hc. lia.
Qed.

(** ** The dates *)
Module DatesFacts.
Import Dates.

(** The words of the input. *)
Fixpoint words_from (inside : bool) (l : bytes) : nat :=
  match l with
  | [] => 0
  | c :: l' => if is_space c then words_from false l'
               else (if inside then 0 else 1) + words_from true l'
  end.
Definition words : bytes → nat := words_from false.
(** The capacity of a vector after that many appends. *)
Fixpoint cap_after {G : Growth} (n : nat) : nat :=
  match n with
  | O => 0
  | S m => if decide (m < cap_after m)%nat then cap_after m else grow m
  end.
Definition prompts (n : nat) : list (out False) := concat (replicate n [OStr "Date: "; OEndl]).

Lemma words_skip l : words l = words (skip_spaces l).
Proof. unfold words. induction l as [|c l IH]; [done|]. simpl. by destruct (is_space c) eqn:E; [|simpl; rewrite E]. Qed.
Lemma word_rest l : words_from true l = words (word l).2 ∧ (length (word l).2 ≤ length l)%nat.
Proof.
  unfold words. induction l as [|c l [IH IL]]; [done|]. simpl. destruct (is_space c) eqn:E.
  - simpl. rewrite E. split; [done|lia].
  - destruct (word l) as [w r]. simpl in *. split; [done|lia].
Qed.
Lemma skip_spaces_head l c l' : skip_spaces l = c :: l' → is_space c = false ∧ (length l' < length l)%nat.
Proof.
  induction l as [|d l IH]; [done|]. simpl. destruct (is_space d) eqn:E.
  - intros H%IH. intuition lia.
  - intros [= <- <-]. split; [done|lia].
Qed.

Lemma read_date_word s : words (cin s) = 0%nat →
  read_date s = Ret None (mkState [] (cout s ++ [OStr "Date: "; OEndl])).
Proof.
  rewrite words_skip. intros H. unfold read_date, say. repeat run_step. cbn [cin cout].
  destruct (skip_spaces (cin s)) as [|c l'] eqn:E.
  - cbn [word]. repeat run_step. done.
  - apply skip_spaces_head in E as [E _]. unfold words in H. simpl in H. by rewrite E in H.
Qed.
Lemma read_date_some s n : words (cin s) = S n →
  ∃ d r, read_date s = Ret (Some d) (mkState r (cout s ++ [OStr "Date: "; OEndl])) ∧ words r = n ∧
    (length r < length (cin s))%nat.
Proof.
  rewrite words_skip. intros H. unfold read_date, say. repeat run_step. cbn [cin cout].
  destruct (skip_spaces (cin s)) as [|c l'] eqn:E; [done|].
  apply skip_spaces_head in E as [E Hl]. unfold words in H. simpl in H. rewrite E in H.
  destruct (word_rest l') as [Hw Hr]. cbn [word]. rewrite E. destruct (word l') as [w r]. repeat run_step.
  rewrite decide_False by done. exists (c :: w), r. cbn [cout]. simpl in *. repeat split; [|lia].
  unfold words in *. lia.
Qed.

Lemma prompts_S n : prompts (S n) = [OStr "Date: "; OEndl] ++ prompts n.
Proof. done. Qed.

Section Growth_.
Context {G : Growth}.
Lemma relocate_dates k s : relocate_all (replicate k Date_default) s = Ret (replicate k Date_default) s.
Proof.
  induction k as [|k IH]; [done|]. cbn [replicate relocate_all]. unfold relocate, Date_element at 1.
  repeat run_step. done.
Qed.
Lemma append_date e k s : elems e = replicate k Date_default → capacity e = cap_after k →
  ∃ e', emplace_back (ret (Date_copy [])) e s = Ret e' s ∧ elems e' = replicate (S k) Date_default ∧
    capacity e' = cap_after (S k).
Proof.
  intros He Hc. unfold emplace_back. run_step. unfold size. rewrite He, length_replicate, Hc. cbn [cap_after].
  replace (replicate (S k) Date_default) with (replicate k Date_default ++ [Date_default])
    by (rewrite <-(replicate_cons_app k Date_default); done).
  destruct (decide (k < cap_after k)%nat).
  - by eexists.
  - rewrite (bind_eq_ret _ _ _ _ _ (relocate_dates k s)). by eexists.
Qed.
(** The copies of the dates are empty, one for each word. *)
Lemma read_all_dates fuel : ∀ s e k,
  (length (cin s) < fuel)%nat → elems e = replicate k Date_default → capacity e = cap_after k →
  ∃ e', read_all fuel e s = Ret e' (mkState [] (cout s ++ prompts (S (words (cin s))))) ∧
    elems e' = replicate (k + words (cin s)) Date_default ∧ capacity e' = cap_after (k + words (cin s)).
Proof.
  induction fuel as [|fuel IH]; intros s e k Hf He Hc; [lia|]. cbn [read_all].
  destruct (words (cin s)) as [|n] eqn:Ew.
  - rewrite (bind_eq_ret _ _ _ _ _ (read_date_word s Ew)), Nat.add_0_r. by exists e.
  - destruct (read_date_some s n Ew) as (d & r & E & Hr & Hl). rewrite (bind_eq_ret _ _ _ _ _ E).
    set (s1 := mkState r (cout s ++ [OStr "Date: "; OEndl])). destruct (append_date e k s1 He Hc) as (e1 & E1 & He1 & Hc1).
    change (Date_copy d) with (Date_copy []). rewrite (bind_eq_ret _ _ _ _ _ E1).
    destruct (IH s1 e1 (S k)) as (e2 & E2 & He2 & Hc2); [simpl; lia|done|done|].
    exists e2. rewrite E2. cbn [s1 cin cout]. cbn [cin s1] in He2, Hc2. rewrite Hr in *.
    rewrite He2, Hc2, (prompts_S (S n)), app_assoc. replace (k + S n)%nat with (S k + n)%nat by lia. done.
Qed.
Lemma valid_at {A} (v : vector A) k : (k ≤ size v)%nat → valid v (at_pos v k).
Proof. intros H. split; [|done]. simpl. rewrite drop_all. constructor. Qed.
(** After a cut at [c] an iterator to an element before it is still good, and
    no other one is. *)
Lemma valid_cut {A} (es : list A) cap (v : vector A) k c :
  (k ≤ length es)%nat → valid (mkVector es cap (cuts v ++ [c])) (at_pos v k) ↔ (k < c)%nat.
Proof.
  intros Hk. unfold valid, at_pos, size. cbn [cuts epoch pos elems]. rewrite drop_app_length.
  rewrite Forall_singleton. tauto.
Qed.
Lemma drop_replicate_last k : drop k (replicate (S k) Date_default) = [Date_default].
Proof. rewrite drop_replicate. by replace (S k - k)%nat with 1%nat by lia. Qed.

(** The place before the last date: the iterators to the first one survive the
    insertion there only without a larger block and with another date between. *)
Lemma insert_today (e : vector Date) m s :
  elems e = replicate (S m) Date_default →
  (let! it := before_end e in let! e' := insert it (ret (Date_copy TodaysDate)) e in
   copy_out e' (at_pos e 0) (at_pos e 0) ;; ret 0) s =
  (if decide (0 < m ∧ S m < capacity e)%nat then Ret 0 s else Undef UseAfterFree).
Proof.
  intros He. unfold before_end, size. rewrite He, length_replicate. run_step.
  unfold insert. rewrite decide_True by (apply valid_at; unfold size; rewrite He, length_replicate; lia).
  cbn [pos at_pos]. run_step. unfold size. rewrite He, length_replicate, drop_replicate_last. cbn [last removelast].
  destruct (decide (S m < capacity e)%nat) as [Hc|Hc].
  - unfold relocate, Date_element at 1. repeat run_step. unfold copy_out.
    destruct (decide (0 < m)%nat) as [Hm|Hm].
    + rewrite !decide_True; [done..|]. rewrite !valid_cut by (simpl; lia). done.
    + rewrite !decide_False; [done|lia|]. rewrite !valid_cut by (simpl; lia). tauto.
  - do 2 run_step. rewrite (bind_eq_ret _ _ _ _ _ (relocate_dates (S m) s)). repeat run_step. unfold copy_out.
    rewrite !decide_False; [done|lia|].
    intros [[Hv _] _]. cbn [cuts epoch pos at_pos] in Hv. rewrite drop_app_length in Hv. inversion Hv. lia.
Qed.

(** What becomes of the program, by the number of words it reads. *)
Lemma main_dates s :
  main s = match words (cin s) with
           | O => Undef OutOfBounds
           | S m => if decide (0 < m ∧ S m < cap_after (S m))%nat
                    then Ret 0 (mkState [] (cout s ++ prompts (S (S m)))) else Undef UseAfterFree
           end.
Proof.
  unfold main. run_step.
  destruct (read_all_dates (S (length (cin s))) s empty_vector 0) as (e & E & He & Hc); [lia|done|done|].
  rewrite (bind_eq_ret _ _ _ _ _ E). clear E. simpl in He, Hc. destruct (words (cin s)) as [|m].
  - unfold deref. rewrite decide_True by (apply valid_at; unfold find; rewrite He; simpl; lia).
    unfold at_index. by rewrite He.
  - unfold find. rewrite He. cbn [replicate find_pos]. change (date_eq _ _) with true. cbv iota.
    assert (valid e (at_pos e 0)) as Hv by (apply valid_at; lia).
    unfold deref, assign. rewrite !decide_True by done. unfold at_index, assign_index. cbn [pos at_pos].
    rewrite He. cbn [lookup list_lookup replicate or_undef]. run_step.
    rewrite decide_True by done. rewrite decide_True by (unfold size; rewrite He; simpl; lia). run_step.
    set (e1 := mkVector _ (capacity e) (cuts e)). change (at_pos e 0) with (at_pos e1 0).
    unfold copy_out at 1. rewrite !decide_True by (try split; try done; apply valid_at; lia). cbn [pos at_pos Nat.sub seq for_each].
    run_step. rewrite (insert_today e1 m); [|done]. cbn [capacity e1]. by rewrite Hc.
Qed.
End Growth_.

Lemma cap_after_doubling n : (0 < n)%nat → ∃ k, cap_after (G:=doubling) n = (2 ^ k)%nat ∧ (n ≤ 2 ^ k < 2 * n)%nat.
Proof.
  induction n as [|n IH]; [lia|]. intros _. cbn [cap_after]. destruct (decide (n = 0)%nat) as [->|Hn].
  - exists 0%nat. simpl. split; [done|lia].
  - destruct IH as (k & Hk & Hle); [lia|]. rewrite Hk. destruct (decide (n < 2 ^ k)%nat).
    + exists k. split; [done|lia].
    + exists (S k). unfold grow, doubling. rewrite decide_False by done. rewrite Nat.pow_succ_r'. split; lia.
Qed.
Lemma spare_doubling n : (n < cap_after (G:=doubling) n)%nat ↔ n ≠ 0%nat ∧ ∀ k, n ≠ (2 ^ k)%nat.
Proof.
  destruct (decide (n = 0)%nat) as [->|Hn]; [cbn; split; [lia|by intros [? _]]|].
  destruct (cap_after_doubling n) as (k & -> & Hle); [lia|]. split.
  - intros Hlt. split; [done|]. intros j ->. pose proof (Nat.pow_lt_mono_r_iff 2 j k). pose proof (Nat.pow_lt_mono_r_iff 2 k (S j)).
    rewrite Nat.pow_succ_r' in *. lia.
  - intros [_ H]. specialize (H k). lia.
Qed.
End DatesFacts.

(** C36. With the doubling growth of the libraries, the program of
    037_vector_3.cpp is defined exactly when the number of dates it reads is
    neither zero nor a power of two: both searches find the first date, since
    operator== is always true, and only then the block has room for one more, so
    that the iterator to it survives the insertion. What it then prints is the
    prompts alone: the range from the first date to itself is empty. *)
Theorem dates_defined_iff s :
  let n := DatesFacts.words (Dates.cin s) in
  let run := Dates.main (G:=doubling) s in
  (n ≠ 0%nat ∧ (∀ k, n ≠ (2 ^ k)%nat) →
   run = Ret 0 (Dates.mkState [] (Dates.cout s ++ DatesFacts.prompts (S n)))) ∧
  (n = 0%nat → run = Undef OutOfBounds) ∧
  (∀ k, n = (2 ^ k)%nat → run = Undef UseAfterFree).
Proof.
  intros n run. unfold run. rewrite DatesFacts.main_dates. fold n. pose proof (DatesFacts.spare_doubling n) as Hn.
  destruct n as [|m]; [split; [by intros [? _]|split; [done|]]|split; [|split; [done|]]].
  - intros k Hk. pose proof (Nat.pow_nonzero 2 k). lia.
  - intros H. rewrite decide_True; [done|]. split; [|by apply Hn]. destruct H as [_ H]. specialize (H 0%nat). simpl in H. lia.
  - intros k Hk. rewrite decide_False; [done|]. intros [_ Hlt]. apply Hn in Hlt as [_ Hlt]. by apply (Hlt k).
Qed.

(** ** remove_if and erase *)
Module EraseRemoveFacts.
Import EraseRemove.

Lemma filter_all {A} (P : A → Prop) `{∀ x, Decision (P x)} l : Forall P l → filter P l = l.
Proof. induction 1; [done|]. rewrite filter_cons_True by done. by f_equal. Qed.
(** When [i] elements have been seen, those kept are at the front, in order, and
    the rest is as it was. *)
Lemma remove_loop_filter {A} (p : A → bool) n : ∀ (done todo rest : list A) i r,
  length todo = n → length (done ++ rest) = i → length done = r →
  ∃ rest', remove_loop p n (done ++ rest ++ todo) i r =
      (done ++ filter (λ x, negb (p x)) todo ++ rest', (r + length (filter (λ x, negb (p x)) todo))%nat) ∧
    length (filter (λ x, negb (p x)) todo ++ rest') = length (rest ++ todo).
Proof.
  induction n as [|n IH]; intros dn [|x todo] rest i r Hn Hi Hr; try done.
  - exists rest. simpl. rewrite app_nil_r, Nat.add_0_r. done.
  - injection Hn as Hn. cbn [remove_loop].
    assert ((dn ++ rest ++ x :: todo) !! i = Some x) as ->
      by (rewrite app_assoc; by apply list_lookup_middle).
    destruct (p x) eqn:Hp.
    + destruct (IH dn todo (rest ++ [x]) (S i) r) as (rest' & E & HL);
        [done|rewrite !length_app in *; simpl; lia|done|].
      exists rest'. rewrite <-(app_assoc rest) in E. simpl in E. rewrite E.
      rewrite filter_cons_False by (rewrite Hp; simpl; tauto). rewrite HL, !length_app. simpl. split; [done|lia].
    + assert (∃ rest1, <[r := x]> (dn ++ rest ++ x :: todo) = (dn ++ [x]) ++ rest1 ++ todo ∧
        length rest1 = length rest) as (rest1 & -> & Hr1).
      { rewrite insert_app_r_alt by lia. rewrite Hr, Nat.sub_diag. destruct rest as [|y rest].
        - exists []. by rewrite <-app_assoc.
        - exists (rest ++ [x]). rewrite <-!app_assoc. simpl. split; [done|rewrite length_app; simpl; lia]. }
      destruct (IH (dn ++ [x]) todo rest1 (S i) (S r)) as (rest' & E & HL);
        [done|rewrite !length_app in *; simpl; lia|rewrite length_app; simpl; lia|].
      exists rest'. rewrite E. rewrite filter_cons_True by (by rewrite Hp). rewrite <-app_assoc. simpl.
      simpl in HL. rewrite HL, !length_app. simpl. split; [f_equal; lia|lia].
Qed.
End EraseRemoveFacts.

(** The erase-remove idiom of 040_erase_remove.cpp leaves exactly the
    elements the predicate does not select, in their order, in the same block;
    the iterators to the elements before the first selected one stay valid. *)
Theorem erase_remove_filters {T} (p : Z → bool) (l : list Z) (s : T) :
  ∃ e, EraseRemove.remaining p l s = Ret e s ∧
    elems e = filter (λ x, negb (p x)) l ∧ capacity e = length l ∧
    ∀ i x, l !! i = Some x → Forall (λ y, p y = false) (take (S i) l) →
      deref e (at_pos (EraseRemove.of_list l) i) s = Ret x s.
Proof.
  destruct (EraseRemoveFacts.remove_loop_filter p (length l) [] l [] 0 0) as (rest & E & HL); [done..|].
  simpl in E, HL. unfold EraseRemove.remaining, EraseRemove.remove_if, size, EraseRemove.of_list. cbn [elems].
  rewrite E. set (kept := filter (λ x, negb (p x)) l) in *.
  set (v := mkVector (kept ++ rest) (length l) []).
  assert (length kept ≤ size v)%nat as Hk by (unfold size, v; cbn [elems]; rewrite length_app; lia).
  unfold erase. cbn [pos at_pos end_]. rewrite decide_True by (repeat split; done || constructor).
  unfold size, v. cbn [elems cuts capacity]. rewrite drop_all, app_nil_r, take_app_length.
  eexists. split; [reflexivity|]. split; [done|]. split; [done|]. intros i x Hi Hp.
  assert (kept !! i = Some x) as Hx.
  { unfold kept. rewrite <-(take_drop (Datatypes.S i) l), filter_app, EraseRemoveFacts.filter_all.
    - rewrite lookup_app_l, lookup_take_lt by (apply lookup_lt_Some in Hi; rewrite ?length_take; lia). done.
    - eapply Forall_impl; [exact Hp|]. intros y Hy. by rewrite Hy. }
  pose proof (lookup_lt_Some _ _ _ Hx). unfold deref. rewrite decide_True; [unfold at_index; simpl; by rewrite Hx|].
  split; simpl; [by repeat constructor|unfold size; simpl; lia].
Qed.

(** ** Equality and equivalence *)
Module EquivalenceFacts.
Import Equivalence.

Lemma lt_irrefl x : ¬ lt x x.
Proof. unfold lt. pose proof (String.compare_antisym x x). destruct (String.compare x x); done. Qed.
Lemma lt_trichotomy x y : ¬ lt x y → ¬ lt y x → x = y.
Proof.
  unfold lt. rewrite (String.compare_antisym y x). intros H1 H2. apply String.compare_eq_iff.
  by destruct (String.compare x y).
Qed.
Lemma lt_trans x : ∀ y z, lt x y → lt y z → lt x z.
Proof.
  unfold lt. induction x as [|c x IH]; intros [|d y] [|e z]; try done. simpl. unfold Ascii.compare.
  destruct (N.compare_spec (Ascii.N_of_ascii c) (Ascii.N_of_ascii d)) as [E1|E1|E1];
  destruct (N.compare_spec (Ascii.N_of_ascii d) (Ascii.N_of_ascii e)) as [E2|E2|E2]; try done; intros H1 H2;
  destruct (N.compare_spec (Ascii.N_of_ascii c) (Ascii.N_of_ascii e)) as [E3|E3|E3]; try done; try lia.
  by apply (IH y z).
Qed.

Abbreviation sorted := (StronglySorted lt).

(** A comparison answers by the order of its operands, and prints them. *)
Lemma less_eval a r t :
  less a r t = Ret (bool_decide (lt a r)) (t ++ [OStr "< called this "; OStr a; OStr " rhs = "; OStr r; OEndl]).
Proof. reflexivity. Qed.

(** A search whose answers agree with [P], which holds of a front part of the
    elements, ends where that part ends. *)
Lemma search_spec {T : Shape} (after : string → M terminal bool) (P : string → bool) s fuel : ∀ lo hi t,
  (∀ y t, ∃ t', after y t = Ret (P y) t') →
  (∀ i j y z, (i < j)%nat → s !! i = Some y → s !! j = Some z → P z = true → P y = true) →
  (hi - lo < fuel)%nat → (lo ≤ hi ≤ length s)%nat →
  (∀ i y, (i < lo)%nat → s !! i = Some y → P y = true) →
  (∀ i y, (hi ≤ i)%nat → s !! i = Some y → P y = false) →
  ∃ p t', search fuel after s lo hi t = Ret p t' ∧ (p ≤ length s)%nat ∧
    ∀ i y, s !! i = Some y → P y = bool_decide (i < p)%nat.
Proof.
  induction fuel as [|fuel IH]; intros lo hi t Ha Hmono Hf Hb Hlo Hhi; [lia|]. cbn [search]. case_decide as Hlt.
  - assert (lo ≤ middle s lo hi < hi)%nat as Hm.
    { unfold middle. pose proof (Nat.mod_upper_bound (node s lo hi) (hi - lo)). lia. }
    destruct (lookup_lt_is_Some_2 s (middle s lo hi)) as [y Hy]; [lia|].
    rewrite Hy. unfold or_undef. run_step. destruct (Ha y t) as (t1 & E). run_step. destruct (P y) eqn:HP.
    + apply IH; try done; try lia. intros i z Hi Hz. destruct (decide (i = middle s lo hi)) as [->|]; [congruence|].
      apply (Hmono i (middle s lo hi) z y); [lia|done..].
    + apply IH; try done; try lia. intros i z Hi Hz. destruct (P z) eqn:Hz'; [|done].
      destruct (decide (i = middle s lo hi)) as [->|]; [congruence|].
      rewrite <-HP. symmetry. apply (Hmono (middle s lo hi) i y z); [lia|done..].
  - exists lo, t. split; [done|]. split; [lia|]. intros i y Hi. case_bool_decide; [by eapply Hlo|].
    eapply Hhi; [|done]. lia.
Qed.
Lemma sorted_lookup s i j y z : sorted s → (i < j)%nat → s !! i = Some y → s !! j = Some z → lt y z.
Proof.
  intros Hs. revert i j. induction Hs as [|w s _ IH Hw]; intros [|i] [|j] Hij Hi Hj; simpl in *; try done; try lia.
  - injection Hi as ->. by eapply (proj1 (Forall_forall _ _) Hw), list_elem_of_lookup_2.
  - apply (IH i j); [lia|done..].
Qed.
Lemma lower_bound_spec {T : Shape} s x t : sorted s →
  ∃ p t', lower_bound s x t = Ret p t' ∧ (p ≤ length s)%nat ∧ ∀ i y, s !! i = Some y → lt y x ↔ (i < p)%nat.
Proof.
  intros Hs. destruct (search_spec (λ y, less y x) (λ y, bool_decide (lt y x)) s (S (length s)) 0 (length s) t)
    as (p & t' & E & Hp & H); [| |lia|lia|lia| |].
  - intros y t0. rewrite less_eval. by eexists.
  - intros i j y z Hij Hi Hj Hz%bool_decide_eq_true. apply bool_decide_eq_true.
    eapply lt_trans; [|done]. by eapply sorted_lookup.
  - intros i y Hi Hy%lookup_lt_Some. lia.
  - exists p, t'. split; [done|]. split; [done|]. intros i y Hy. apply H in Hy.
    by rewrite <-(bool_decide_eq_true (lt y x)), Hy, bool_decide_eq_true.
Qed.
Lemma upper_bound_spec {T : Shape} s x t : sorted s →
  ∃ p t', upper_bound s x t = Ret p t' ∧ (p ≤ length s)%nat ∧ ∀ i y, s !! i = Some y → ¬ lt x y ↔ (i < p)%nat.
Proof.
  intros Hs. destruct (search_spec (λ y, let! b := less x y in ret (negb b)) (λ y, bool_decide (¬ lt x y))
    s (S (length s)) 0 (length s) t) as (p & t' & E & Hp & H); [| |lia|lia|lia| |].
  - intros y t0. rewrite (bind_eq_ret _ _ _ _ _ (less_eval x y t0)), bool_decide_not. by eexists.
  - intros i j y z Hij Hi Hj Hz%bool_decide_eq_true. apply bool_decide_eq_true. intros Hy. apply Hz.
    eapply lt_trans; [done|]. by eapply sorted_lookup.
  - intros i y Hi Hy%lookup_lt_Some. lia.
  - exists p, t'. split; [done|]. split; [done|]. intros i y Hy. apply H in Hy.
    by rewrite <-(bool_decide_eq_true (¬ lt x y)), Hy, bool_decide_eq_true.
Qed.
Lemma insert_between x l1 l2 :
  sorted (l1 ++ l2) → (∀ y, y ∈ l1 → lt y x) → (∀ y, y ∈ l2 → lt x y) → sorted (l1 ++ x :: l2).
Proof.
  rewrite !StronglySorted_app, StronglySorted_cons, Forall_forall. intros (H12 & H1 & H2) Hx1 Hx2.
  split; [|done]. intros y z Hy [->|Hz]%elem_of_cons; auto.
Qed.
Lemma set_insert_spec {T : Shape} x s t : sorted s →
  ∃ s' t', set_insert x s t = Ret s' t' ∧ sorted s' ∧ ∀ y, y ∈ s' ↔ y = x ∨ y ∈ s.
Proof.
  intros Hs. destruct (upper_bound_spec s x t Hs) as (p & t1 & E & Hp & H). unfold set_insert. run_step.
  set (s' := take p s ++ x :: drop p s).
  assert (∀ y, y ∈ s' ↔ y = x ∨ y ∈ s) as Hin.
  { intros y. unfold s'. rewrite <-(take_drop p s) at 3. rewrite !elem_of_app, elem_of_cons. tauto. }
  assert (∀ y, y ∈ drop p s → lt x y) as Hafter.
  { intros y [i Hi]%list_elem_of_lookup. rewrite lookup_drop in Hi. apply H in Hi.
    destruct (decide (lt x y)); [done|]. apply Hi in n. lia. }
  assert ((∀ y, y ∈ take p s → lt y x) → sorted s') as Hs'.
  { intros Hb. apply insert_between; [by rewrite take_drop|done..]. }
  destruct p as [|q]; [exists s', t1; split; [done|]; split; [apply Hs'; by intros y ?%elem_of_nil|done]|].
  destruct (lookup_lt_is_Some_2 s q) as [y Hy]; [lia|]. rewrite Hy. unfold or_undef. run_step.
  rewrite (bind_eq_ret _ _ _ _ _ (less_eval y x t1)). case_bool_decide as Hyx.
  - eexists s', _. split; [reflexivity|]. split; [|done]. apply Hs'. intros z [i [Hz Hi]%lookup_take_Some]%list_elem_of_lookup.
    destruct (decide (i = q)) as [->|]; [congruence|]. eapply lt_trans; [|done]. eapply (sorted_lookup s i q); [done|lia|done..].
  - eexists s, _. split; [reflexivity|]. split; [done|]. intros z. split; [by right|]. intros [->|?]; [|done].
    assert (x = y) as ->; [|by eapply list_elem_of_lookup_2]. apply lt_trichotomy; [|done]. apply (H q y Hy). lia.
Qed.

(** Insertions into an empty set. *)
Fixpoint insert_all {T : Shape} (ks : list string) (s : list string) : M terminal (list string) :=
  match ks with
  | [] => ret s
  | k :: ks' => let! s := set_insert k s in insert_all ks' s
  end.
Lemma insert_all_set {T : Shape} ks : ∀ s t, sorted s →
  ∃ s' t', insert_all ks s t = Ret s' t' ∧ sorted s' ∧ ∀ x, x ∈ s' ↔ x ∈ ks ∨ x ∈ s.
Proof.
  induction ks as [|k ks IH]; intros s t Hs.
  - exists s, t. split; [done|]. split; [done|]. intros x. by rewrite elem_of_nil; tauto.
  - cbn [insert_all]. destruct (set_insert_spec k s t Hs) as (s1 & t1 & E & Hs1 & Hx1). run_step.
    destruct (IH s1 t1 Hs1) as (s' & t' & E' & Hs' & Hx).
    exists s', t'. split; [done|]. split; [done|]. intros x. rewrite Hx, Hx1, elem_of_cons. tauto.
Qed.

(** Both searches find the place of an element, and only of an element. *)
Definition finds (s : list string) (x : string) (r : option nat) : Prop :=
  match r with Some i => s !! i = Some x | None => x ∉ s end.
Lemma finds_unique s x r r' : sorted s → finds s x r → finds s x r' → r = r'.
Proof.
  intros Hs. destruct r as [i|], r' as [j|]; simpl; try done.
  - intros Hi Hj. f_equal. destruct (Nat.lt_trichotomy i j) as [Hij|[?|Hij]]; [exfalso|done|exfalso];
      by apply (lt_irrefl x); eapply sorted_lookup.
  - by intros ?%list_elem_of_lookup_2.
  - by intros ? ?%list_elem_of_lookup_2.
Qed.
Lemma set_find_finds {T : Shape} s x t : sorted s → ∃ r t', set_find s x t = Ret r t' ∧ finds s x r.
Proof.
  intros Hs. destruct (lower_bound_spec s x t Hs) as (p & t1 & E & Hp & H). unfold set_find. run_step.
  assert (∀ i, s !! i = Some x → (p ≤ i)%nat) as Hx.
  { intros i Hi. destruct (decide (i < p)%nat) as [Hlt|]; [|lia]. apply (H i x Hi) in Hlt. by apply lt_irrefl in Hlt. }
  destruct (s !! p) as [y|] eqn:Hy.
  - rewrite (bind_eq_ret _ _ _ _ _ (less_eval x y t1)). eexists _, _. split; [reflexivity|].
    case_bool_decide as Hxy; simpl.
    + intros [i Hi]%list_elem_of_lookup. specialize (Hx i Hi). apply (lt_irrefl x).
      destruct (decide (i = p)) as [->|]; [congruence|]. eapply lt_trans; [done|]. eapply (sorted_lookup s p i); [done|lia|done..].
    + rewrite Hy. f_equal. symmetry. apply lt_trichotomy; [done|]. intros Hlt%(H p y Hy). lia.
  - eexists _, _. split; [reflexivity|]. simpl. intros [i Hi]%list_elem_of_lookup. specialize (Hx i Hi).
    apply lookup_ge_None in Hy. apply lookup_lt_Some in Hi. lia.
Qed.
Lemma std_find_finds s x : ∀ i t, ∃ r t', std_find i s x t = Ret r t' ∧
  match r with Some j => (i ≤ j)%nat ∧ s !! (j - i)%nat = Some x | None => x ∉ s end.
Proof.
  induction s as [|y s IH]; intros i t; [eexists None, t; split; [done|apply not_elem_of_nil]|].
  cbn [std_find]. unfold equal, say. repeat run_step. case_bool_decide as E.
  - subst y. eexists (Some i), _. split; [reflexivity|]. by rewrite Nat.sub_diag.
  - destruct (IH (S i) (t ++ [OStr " == called this "; OStr y; OStr " rhs = "; OStr x; OEndl])) as (r & t' & -> & H).
    exists r, t'. split; [done|]. destruct r as [j|].
    + destruct H as [? H]. split; [lia|]. by replace (j - i)%nat with (S (j - S i)) by lia.
    + rewrite not_elem_of_cons. split; [by intros ->|done].
Qed.
End EquivalenceFacts.

(** C37. Equality and equivalence agree for the strings of
    041_equality_equivalent.cpp: after any insertions the set holds exactly the
    strings inserted, in order and without repetition, whatever the shape of its
    tree; its own search, which compares by operator<, and std::find, which
    compares by operator==, end at the same element, the end exactly for a key
    that was never inserted. *)
Theorem equality_is_equivalence {T : Equivalence.Shape} (ks : list string) (x : string) t :
  ∃ s r t0 t1 t2, EquivalenceFacts.insert_all ks [] t = Ret s t0 ∧
    StronglySorted Equivalence.lt s ∧ (∀ y, y ∈ s ↔ y ∈ ks) ∧
    Equivalence.set_find s x t0 = Ret r t1 ∧ Equivalence.std_find 0 s x t0 = Ret r t2 ∧
    (r = None ↔ x ∉ ks) ∧ ∀ i, r = Some i → s !! i = Some x.
Proof.
  destruct (EquivalenceFacts.insert_all_set ks [] t) as (s & t0 & E & Hs & Hx); [constructor|].
  assert (∀ y, y ∈ s ↔ y ∈ ks) as Hin by (intros y; rewrite Hx, elem_of_nil; tauto).
  destruct (EquivalenceFacts.set_find_finds s x t0 Hs) as (r & t1 & E1 & H1).
  destruct (EquivalenceFacts.std_find_finds s x 0 t0) as (r' & t2 & E2 & H2).
  assert (r = r') as <-.
  { apply (EquivalenceFacts.finds_unique s x); [done..|]. destruct r' as [j|]; [|done].
    destruct H2 as [_ H2]. by rewrite Nat.sub_0_r in H2. }
  exists s, r, t0, t1, t2. split; [done|]. split; [done|]. split; [done|]. split; [done|]. split; [done|].
  unfold EquivalenceFacts.finds in H1. rewrite <-Hin. split; [|by intros i ->].
  destruct r as [i|]; [|done]. split; [done|]. intros Hn. by apply list_elem_of_lookup_2 in H1.
Qed.

(** ** The programs on concrete input *)

(** 035_vector.cpp: one construction, or a construction and a move, or a copy
    for each append; the ten reserved places are enough for the five. *)
Example magic_prints {G : Growth} :
  Magic.main [] = Ret 0
    ([OStr "I am being constructed."; OEndl; OEndl; OStr "emplace_back:"; OEndl;
      OStr "I am being constructed."; OEndl; OStr "----"; OEndl;
      OStr "I am being constructed."; OEndl; OStr "I am being moved."; OEndl;
      OEndl; OStr "push_back:"; OEndl;
      OStr "I am being constructed."; OEndl; OStr "I am being moved."; OEndl;
      OEndl; OStr "appending existing object:"; OEndl;
      OStr "I am being copied."; OEndl; OStr "I am being copied."; OEndl]).
Proof. vm_compute. reflexivity. Qed.
(** Without [reserve] the third append of three elements copies the first two
    (the second copies the first): they are three copies, and no moves. *)
Example growth_copies :
  (let! v := append_all (E:=Magic.A_element) (G:=doubling) (replicate 3 (ret (Magic.mkA "x" 0))) empty_vector in
   ret (size v, capacity v)) [] =
  Ret (3%nat, 4%nat) (concat (replicate 3 [OStr "I am being copied."; OEndl])).
Proof. vm_compute. reflexivity. Qed.
(** 036_vector_2.cpp: reserved memory holds no elements; the first assignment
    is out of bounds. *)
Lemma reserved_is_not_there {G : Growth} t : Assign.main t = Undef OutOfBounds.
Proof. reflexivity. Qed.
(** 040_erase_remove.cpp. *)
Example erase_remove_prints :
  EraseRemove.main [1; 2; 3; 4; 5; 6] [] = Ret 0 [OInt 5; OStr " "; OInt 6; OStr " "; OEndl].
Proof. vm_compute. reflexivity. Qed.
(** 041_equality_equivalent.cpp, on a tree whose root is the first element: the
    program finds "2" twice. *)
Definition leftmost : Equivalence.Shape := λ _ _ _, 0%nat.
Definition compared (op x y : string) : list (out False) :=
  [OStr op; OStr x; OStr " rhs = "; OStr y; OEndl].
Example equivalence_prints :
  let lt := compared "< called this " in
  let eq := compared " == called this " in
  Equivalence.main (T:=leftmost) [] = Ret 0
    (lt "2" "1" ++ lt "1" "2" ++ [OStr "---"; OEndl] ++
     lt "1" "2" ++ lt "2" "2" ++ lt "2" "2" ++ [OStr "---"; OEndl; OStr "2 has found"; OEndl] ++
     eq "1" "2" ++ eq "2" "2" ++ [OStr "2 has found"; OEndl]).
Proof. vm_compute. reflexivity. Qed.

Lemma reserve_relocates_nothing_witness :
  let mks := [Magic.A_ctor "a" 1; Magic.A_ctor "b" 2] in
  (0 < 2)%nat ∧
  (let! v := reserve (E:=Magic.A_element) 2 empty_vector in append_all (E:=Magic.A_element) (G:=doubling) mks v) [] =
    (let! xs := construct_all mks in ret (mkVector xs 2 (0%nat :: seq 0 (length mks)))) [].
Proof.
  split; [lia|].
  exact (proj1 (reserve_relocates_nothing (E:=Magic.A_element) (G:=doubling) 2 [Magic.A_ctor "a" 1; Magic.A_ctor "b" 2] []
    (le_S 1 1 (le_n 1)) (le_n 2))).
Defined.
