(* ===== verification/Namespaces.v ===== *)
(** * Names, namespaces and overloads

    Models examples/002_namespaces.cpp ([Program]) and 024_using_conflicts.cpp
    ([UsingConflicts]), in which the point is which function a name means. A
    translation unit is the list of its declarations, each with the path of its
    scope, in the order of the source; a call looks its name up among those that
    precede the calling function, as C++ does, and runs what it finds. *)

From S2P Require Import Prelude.
From Stdlib Require Import FunctionalExtensionality.

Abbreviation terminal := (list (out False)).
Abbreviation path := (list string).

(** ** Declarations *)

Inductive type : Type := int | float | class_type (p : path).
(** The members of an object may be indeterminate. *)
Inductive value : Type := VVoid | VInt (z : Z) | VObj (cls : path) (members : list (option Z)).
#[export] Instance type_eq_dec : EqDecision type.
Proof. solve_decision. Defined.
Definition type_of (v : value) : type :=
  match v with VObj p _ => class_type p | _ => int end.

(** [::a::b::f] or [a::b::f]. *)
Record qname : Type := mkName { rooted : bool; quals : path; id : string }.
Definition unqualified (n : string) : qname := mkName false [] n.
Definition qualified (p : path) (n : string) : qname := mkName false p n.
Definition global (p : path) (n : string) : qname := mkName true p n.

(** What a block declares about names: [using ns::f], [using namespace ns], and
    [namespace n = ns]. *)
Inductive local : Type :=
  | UsingName (q : qname)
  | UsingNamespace (p : path)
  | Alias (n : string) (p : path).
(** The body of a function calls others by their names, from a block with the
    given local declarations. *)
Definition caller : Type := list local → qname → list value → M terminal value.
Definition body : Type := caller → list value → M terminal value.

Inductive what : Type :=
  | Function (params : list type) (f : body)
  | Using (q : qname)
  | Directive (p : path).
Record entry : Type := mkEntry { scope : path; name : string; decl : what }.
Abbreviation unit_ := (list entry).

Definition fn (n : string) (params : list type) (f : body) : unit_ := [mkEntry [] n (Function params f)].
Definition using_ (q : qname) : unit_ := [mkEntry [] (id q) (Using q)].
Definition using_namespace (p : path) : unit_ := [mkEntry [] "" (Directive p)].
(** [namespace n { ... }], and the members of a class. *)
Definition within (n : string) (l : unit_) : unit_ :=
  (λ e, mkEntry (n :: scope e) (name e) (decl e)) <$> l.
(** A namespace without a name is open to the scope around it. *)
Definition unnamed (l : unit_) : unit_ := using_namespace ["(unnamed)"] ++ within "(unnamed)" l.

(** ** Lookup *)

(** A prefix of a path, and the scope that two paths share. *)
Fixpoint prefixb (p q : path) : bool :=
  match p, q with
  | [], _ => true
  | a :: p', b :: q' => bool_decide (a = b) && prefixb p' q'
  | _, _ => false
  end.
Fixpoint common (p q : path) : path :=
  match p, q with
  | a :: p', b :: q' => if decide (a = b) then a :: common p' q' else []
  | _, _ => []
  end.
(** A scope and those around it, from the innermost. *)
Fixpoint enclosing (rev_p : path) : list path :=
  match rev_p with [] => [[]] | _ :: r => rev rev_p :: enclosing r end.
Definition scopes (here : path) : list path := enclosing (rev here).

(** The declarations seen from a point, with their places in the unit. *)
Definition seen (tu : unit_) (n : nat) : list (nat * entry) := zip (seq 0 n) (take n tu).
Abbreviation sight := (list (nat * entry)).
Definition is_scope (vis : sight) (p : path) : bool := existsb (λ ie, prefixb p (scope ie.2)) vis.
Definition first_some {A B} (f : A → option B) (l : list A) : option B := head (omap f l).
(** The namespace or class a path names from a scope: its first part is looked
    up from the inside to the outside. *)
Definition find_scope (vis : sight) (here p : path) : option path :=
  first_some (λ s, if is_scope vis (s ++ take 1 p) then Some (s ++ p) else None) (scopes here).
Definition target_scope (vis : sight) (here : path) (q : qname) : option path :=
  if rooted q then Some (quals q) else find_scope vis here (quals q).

(** The scopes whose names appear in [s], for a point in [here], through using
    directives around it: those that share just [s] with the directive's. *)
Definition nominated (vis : sight) (locals : list local) (here s : path) : list path :=
  let opens (from p : path) :=
    match find_scope vis from p with
    | Some t => if bool_decide (common from t = s) then Some t else None
    | None => None
    end in
  omap (λ ie : nat * entry,
    match decl ie.2 with
    | Directive p => if prefixb (scope ie.2) here then opens (scope ie.2) p else None
    | _ => None
    end) vis ++
  omap (λ l, match l with UsingNamespace p => opens here p | _ => None end) locals.

Definition is_function (w : what) : bool := match w with Function _ _ => true | _ => false end.
(** The functions a scope declares under a name, itself or by a using
    declaration, which takes what its target has declared before. *)
Definition direct (vis : sight) (s : path) (n : string) : sight :=
  filter (λ ie : nat * entry, scope ie.2 = s ∧ name ie.2 = n ∧
    is_function (decl ie.2)) vis.
Definition declared (vis : sight) (s : path) (n : string) : sight :=
  flat_map (λ ie : nat * entry,
    if decide (scope ie.2 = s ∧ name ie.2 = n) then
      match decl ie.2 with
      | Function _ _ => [ie]
      | Using q =>
          match target_scope vis s q with
          | Some p => filter (λ je, (je.1 < ie.1)%nat) (direct vis p (id q))
          | None => []
          end
      | Directive _ => []
      end
    else []) vis.

(** Ordinary lookup: the block, then the scopes from the inside to the outside;
    the first that has the name hides the rest. *)
Definition nonempty (l : sight) : option sight := match l with [] => None | _ => Some l end.
Definition ordinary (vis : sight) (locals : list local) (here : path) (n : string) : sight :=
  let block := flat_map (λ l, match l with
    | UsingName q => if decide (id q = n) then from_option (λ p, direct vis p n) [] (target_scope vis here q) else []
    | _ => []
    end) locals in
  let in_scope s := declared vis s n ++ flat_map (λ p, declared vis p n) (nominated vis locals here s) in
  match block with
  | [] => default [] (first_some (λ s, nonempty (in_scope s)) (scopes here))
  | _ => block
  end.
(** A name with qualifiers: the first of them may be an alias. *)
Definition qualified_scope (vis : sight) (locals : list local) (here : path) (q : qname) : option path :=
  let c := take 1 (quals q) in
  let alias := first_some (λ l, match l with
    | Alias n p => if decide (c = [n]) then Some (p ++ drop 1 (quals q)) else None
    | _ => None
    end) locals in
  let inside s := first_some (λ t, if is_scope vis (t ++ c) then Some (t ++ quals q) else None)
                    (s :: nominated vis locals here s) in
  if rooted q then Some (quals q)
  else match alias with Some p => Some p | None => first_some inside (scopes here) end.
(** Lookup by the arguments (ADL): the namespaces of their classes. *)
Definition by_arguments (vis : sight) (n : string) (args : list type) : sight :=
  flat_map (λ t, match t with class_type p => declared vis (removelast p) n | _ => [] end) args.
Definition candidates (vis : sight) (locals : list local) (here : path) (q : qname) (args : list type) : sight :=
  if rooted q || negb (bool_decide (quals q = [])) then
    from_option (λ p, declared vis p (id q)) [] (qualified_scope vis locals here q)
  else ordinary vis locals here (id q) ++ by_arguments vis (id q) args.

(** Overload resolution: the one candidate with exactly these parameters, or
    else the one the arguments convert to; [None] if there is none or several. *)
Definition converts (a p : type) : bool :=
  bool_decide (a = p) || match a, p with int, float | float, int => true | _, _ => false end.
Fixpoint viable (args params : list type) : bool :=
  match args, params with
  | [], [] => true
  | a :: args', p :: params' => converts a p && viable args' params'
  | _, _ => false
  end.
Definition parameters (e : entry) : list type := match decl e with Function ps _ => ps | _ => [] end.
(** A function found on two ways is one candidate. *)
Fixpoint remove_dups_by_place (l : sight) : sight :=
  match l with
  | [] => []
  | ie :: l' => ie :: filter (λ je, je.1 ≠ ie.1) (remove_dups_by_place l')
  end.
Definition select (args : list type) (l : sight) : option (nat * entry) :=
  let l := remove_dups_by_place l in
  match filter (λ ie : nat * entry, parameters ie.2 = args) l with
  | [ie] => Some ie
  | _ => match filter (λ ie : nat * entry, viable args (parameters ie.2)) l with
         | [ie] => Some ie
         | _ => None
         end
  end.
Definition resolve (tu : unit_) (n : nat) (here : path) (locals : list local) (q : qname)
    (args : list type) : option (nat * entry) :=
  select args (candidates (seen tu n) locals here q args).

(** ** Calls *)

(** A call from the scope [here] by the [n]-th declaration; a name that means
    nothing, or more than one thing, is an error of the model. *)
Fixpoint call (fuel : nat) (tu : unit_) (n : nat) (here : path) : caller := λ locals q args,
  match fuel with
  | O => no_fuel
  | S fuel' =>
      match resolve tu n here locals q (type_of <$> args) with
      | Some (k, e) =>
          match decl e with
          | Function _ f => f (call fuel' tu (S k) (scope e)) args
          | _ => throw (logic_error "does not compile")
          end
      | None => throw (logic_error "does not compile")
      end
  end.
Definition say (l : terminal) : M terminal unit := modify (λ t, t ++ l).
(** A function that prints a line. *)
Definition prints (s : string) : body := λ _ _, say [OStr s; OEndl] ;; ret VVoid.

(** ** 002_namespaces.cpp *)
Module Program.
Definition N1 : unit_ :=
  within "N1" (within "A" (
    fn "print" [class_type ["N1"; "A"]] (prints "N1::A") ++
    fn "static_print" [] (prints "N1::A"))).
Definition www : unit_ :=
  within "www" (within "example" (within "com" (
    fn "print" [] (prints "www::example::com::print()")))).
Definition big_1 : unit_ := within "big" (fn "foo1" [] (prints "big::foo1()")).
Definition small : unit_ := within "small" (fn "foo" [] (prints "small::foo()")).
Definition big_2 : unit_ := within "big" (fn "foo2" [] (prints "big::foo2()")).
Definition A : unit_ := within "A" (fn "print" [] (prints "A::print()")).

Definition call_both (p q : qname) (args : list value) : body := λ call _,
  call [] p args ;; call [] q args ;; ret VVoid.
Definition call_one (locals : list local) (q : qname) (args : list value) : body := λ call _,
  call locals q args ;; ret VVoid.

Definition global_from_namespace : unit_ :=
  within "global_from_namespace" (
    within "A" (fn "print" [] (prints "local::A::print()")) ++
    fn "print" [] (call_both (qualified ["A"] "print") (global ["A"] "print") [])).
Definition bar_int : unit_ := fn "bar" [int] (prints "::bar(int)").
Definition inner_names_search : unit_ :=
  within "inner_names_search" (
    fn "foo" [float] (prints "global_names_search::inner_names_search::foo(float)") ++
    fn "print" [] (call_both (unqualified "foo") (unqualified "bar") [VInt 5]) ++
    fn "bar" [float] (prints "global_names_search::inner_names_search::bar(float)")).
Definition global_names_search : unit_ :=
  within "global_names_search" (
    fn "foo" [int] (prints "global_names_search::foo(int)") ++
    fn "print" [] (call_both (unqualified "foo") (unqualified "bar") [VInt 5]) ++
    fn "bar" [float] (prints "global_names_search::bar(float)") ++
    inner_names_search).
Definition foo_int : unit_ := fn "foo" [int] (prints "::foo(int)").
Definition using_example_outer : unit_ :=
  within "using_example_outer" (
    fn "foo" [int] (prints "using_example_outer::foo(int)") ++
    within "using_example_inner" (
      fn "before_print" [] (call_one [] (unqualified "foo") [VInt 5]) ++
      using_ (global [] "foo") ++
      fn "after_print" [] (call_one [] (unqualified "foo") [VInt 5]))).
Definition with_using : unit_ :=
  within "with_using" (
    fn "before_print" [] (prints "using_namespace_example_outer::with_using::before_print()") ++
    within "inner" (
      fn "before_print" [] (prints "using_namepace_example_outer::with_using::inner::before_print()")) ++
    using_namespace ["std"] ++
    within "inner" (
      fn "after_print" [] (prints "using_namepace_example_outer::with_using::inner::after_print()")) ++
    fn "after_print" [] (prints "using_namespace_example_outer::with_using::after_print()")).
Definition using_namespace_example_outer : unit_ :=
  within "using_namespace_example_outer" (
    fn "before_print" [] (prints "using_namespace_example_outer::before_print()") ++
    with_using ++
    fn "after_print" [] (prints "using_namespace_example_outer::after_print()")).
Definition inner1 : unit_ := within "inner1" (fn "foo" [int] (prints "outer::inner1::foo(int)")).
Definition inner2 : unit_ :=
  within "inner2" (
    fn "foo" [float] (prints "outer::inner2::foo(float)") ++
    fn "print_with_using_namespace" [] (call_one [UsingNamespace ["inner1"]] (unqualified "foo") [VInt 42]) ++
    fn "print_with_using_foo" [] (call_one [UsingName (qualified ["inner1"] "foo")] (unqualified "foo") [VInt 42]) ++
    fn "print_with_explicit_foo" []
      (call_both (qualified ["inner1"] "foo") (qualified ["inner2"] "foo") [VInt 42])).
Definition outer : unit_ := within "outer" (inner1 ++ inner2).

(** A SumObject has the members a and b. *)
Definition SumObject : path := ["ADL"; "outer"; "inner"; "SumObject"].
Definition member (v : value) (i : nat) : M terminal Z :=
  match v with VObj _ ms => or_undef Indeterminate (mjoin (ms !! i)) | _ => undef Indeterminate end.
Definition sum_print : body := λ _ args,
  let! a := member (hd VVoid args) 0 in let! b := member (hd VVoid args) 1 in
  say [OInt a; OStr " "; OInt b; OStr " "; OEndl] ;; ret VVoid.
(** operator+ and operator-, member by member. *)
Definition sum_operator (line : string) (op : Z → Z → Z) : body := λ call args,
  say [OStr line; OEndl] ;;
  match args with
  | [x; y] =>
      let! xa := member x 0 in let! ya := member y 0 in let! a := int_arith (op xa ya) in
      let! xb := member x 1 in let! yb := member y 1 in let! b := int_arith (op xb yb) in
      ret (VObj SumObject [Some a; Some b])
  | _ => ret VVoid
  end.
(** The second constructor, and the first one, which leaves the members as they
    are: [garbage] is what they are. *)
Definition sum_ctor : body := λ _ args,
  match args with [VInt a; VInt b] => ret (VObj SumObject [Some a; Some b]) | _ => ret VVoid end.
Definition sum_default (garbage : list (option Z)) : body := λ _ _, ret (VObj SumObject garbage).

Section Main.
Context (garbage : list (option Z)).
Definition adl_inner : unit_ :=
  within "inner" (
    within "SumObject" (
      fn "SumObject" [] (sum_default garbage) ++
      fn "SumObject" [int; int] sum_ctor ++
      fn "print" [class_type SumObject] sum_print) ++
    fn "operator+" [class_type SumObject; class_type SumObject]
      (sum_operator "ADL::outer::inner::operator+" Z.add)).
Definition ADL : unit_ :=
  within "ADL" (within "outer" (
    adl_inner ++
    fn "operator-" [class_type SumObject; class_type SumObject]
      (sum_operator "ADL::outer::operator-" Z.sub))).
Definition anonymous : unit_ :=
  unnamed (within "NotStaticInAnonNamespace" (fn "foo" [] (prints "NotStaticInAnonNamespace::foo()"))).
Definition long_outer : unit_ :=
  within "long_outer" (within "long_middle" (within "long_inner" (
    fn "print" [] (prints "long_outer::long_middle::long_inner::print()")))).

Definition tu : unit_ :=
  N1 ++ www ++ big_1 ++ small ++ big_2 ++ A ++ global_from_namespace ++ bar_int ++ global_names_search ++
  foo_int ++ using_example_outer ++ using_namespace_example_outer ++ outer ++ ADL ++ anonymous ++ long_outer.

(** Calls are at most two deep. *)
Definition here : caller := call 3 tu (length tu) [].
Definition void (q : qname) : M terminal unit := here [] q [] ;; ret tt.
(** [v.print()] *)
Definition print (v : value) : M terminal unit := here [] (global SumObject "print") [v] ;; ret tt.

Definition first_part : M terminal unit :=
  void (qualified ["N1"; "A"] "static_print") ;;
  here [] (qualified ["N1"; "A"] "print") [VObj ["N1"; "A"] []] ;;
  void (qualified ["www"; "example"; "com"] "print") ;;
  void (qualified ["big"] "foo1") ;;
  void (qualified ["big"] "foo2") ;;
  void (qualified ["small"] "foo") ;;
  void (qualified ["global_from_namespace"] "print") ;;
  void (qualified ["global_names_search"] "print") ;;
  void (qualified ["global_names_search"; "inner_names_search"] "print") ;;
  void (qualified ["using_example_outer"; "using_example_inner"] "before_print") ;;
  void (qualified ["using_example_outer"; "using_example_inner"] "after_print") ;;
  void (qualified ["using_namespace_example_outer"] "before_print") ;;
  void (qualified ["using_namespace_example_outer"; "with_using"] "before_print") ;;
  void (qualified ["using_namespace_example_outer"; "with_using"; "inner"] "before_print") ;;
  void (qualified ["using_namespace_example_outer"; "with_using"; "inner"] "after_print") ;;
  void (qualified ["using_namespace_example_outer"; "with_using"] "after_print") ;;
  void (qualified ["using_namespace_example_outer"] "after_print") ;;
  void (qualified ["outer"; "inner2"] "print_with_using_namespace") ;;
  void (qualified ["outer"; "inner2"] "print_with_using_foo") ;;
  void (qualified ["outer"; "inner2"] "print_with_explicit_foo").
(** The objects: an operator in an expression is looked up as a name. *)
Definition adl_part : M terminal unit :=
  let SumObject_ := qualified SumObject "SumObject" in
  let! a := here [] SumObject_ [VInt 1; VInt 2] in
  print a ;;
  let! b := here [] SumObject_ [VInt 3; VInt 4] in
  print b ;;
  let! c := here [] SumObject_ [] in
  print c ;;
  let! c := here [] (unqualified "operator+") [a; b] in
  print c ;;
  let! c := here [] (qualified ["ADL"; "outer"] "operator-") [a; b] in
  print c ;;
  let! d := here [] (unqualified "operator+") [a; b] in
  print d ;;
  let! e := here [] (qualified ["ADL"; "outer"; "inner"] "operator+") [a; b] in
  print e.
Definition last_part : M terminal unit :=
  void (qualified ["NotStaticInAnonNamespace"] "foo") ;;
  void (qualified ["long_outer"; "long_middle"; "long_inner"] "print") ;;
  here [Alias "short_alias" ["long_outer"; "long_middle"; "long_inner"]] (qualified ["short_alias"] "print") [] ;;
  let k := 0 in
  say [OStr "Scope defines new namespace. For example, k = "; OInt k; OEndl] ;;
  (let k := 42 in
   say [OStr "Now we defined new k in inner scope => in inner namespace, so now k = "; OInt k; OEndl]) ;;
  say [OStr "Old k did not change: k = "; OInt k; OEndl] ;;
  say [OStr "At least, prefer explicit namespace prefix or use aliases for long ones"; OEndl] ;;
  say [OStr "And don't use 'using namespace std' etc in header files!!!"; OEndl].
Definition main : M terminal Z := first_part ;; adl_part ;; last_part ;; ret 0.
End Main.
End Program.

(** ** 024_using_conflicts.cpp *)
Module UsingConflicts.
Definition N1 : unit_ := within "N1" (fn "foo" [] (prints "N1::foo()") ++ fn "bar" [] (prints "N1::bar()")).
Definition N2 : unit_ := within "N2" (fn "foo" [] (prints "N2::foo()") ++ fn "baz" [] (prints "N2::baz()")).
Definition tu : unit_ := N1 ++ N2.
(** The declarations in the block of main. *)
Definition locals : list local := [UsingNamespace ["N1"]; UsingName (qualified ["N2"] "baz")].
Definition here (l : list local) (f : string) : M terminal unit :=
  call 2 tu (length tu) [] l (unqualified f) [] ;; ret tt.
Definition main : M terminal Z := here locals "foo" ;; here locals "bar" ;; here locals "baz" ;; ret 0.
End UsingConflicts.

(** ** What is declared later does not matter *)

Lemma declared_seen vis s n ie : ie ∈ declared vis s n → ie ∈ vis.
Proof.
  unfold declared. intros (je & Hje & Hie)%list_elem_of_In%in_flat_map. apply list_elem_of_In in Hje, Hie.
  destruct (decide _); [|by apply elem_of_nil in Hie]. destruct (decl je.2) as [ps f|q|p].
  - apply list_elem_of_singleton in Hie. by subst.
  - destruct (target_scope vis s q); [|by apply elem_of_nil in Hie].
    apply list_elem_of_filter in Hie as [_ Hie]. by apply list_elem_of_filter in Hie as [_ Hie].
  - by apply elem_of_nil in Hie.
Qed.
Lemma flat_map_seen {A} (f : A → sight) (vis : sight) l ie :
  (∀ a, ∀ je, je ∈ f a → je ∈ vis) → ie ∈ flat_map f l → ie ∈ vis.
Proof. intros H (a & _ & Ha)%list_elem_of_In%in_flat_map. apply list_elem_of_In in Ha. by apply (H a). Qed.
Lemma first_some_seen {A} (f : A → option sight) (vis : sight) l ie :
  (∀ a r, f a = Some r → ∀ je, je ∈ r → je ∈ vis) → ie ∈ default [] (first_some f l) → ie ∈ vis.
Proof.
  intros H. unfold first_some. induction l as [|a l IH]; simpl; [by intros ?%elem_of_nil|].
  destruct (f a) as [r|] eqn:E; [|done]. by apply (H a r).
Qed.
Lemma ordinary_seen vis locals here n ie : ie ∈ ordinary vis locals here n → ie ∈ vis.
Proof.
  unfold ordinary. destruct (flat_map _ locals) as [|je l] eqn:E.
  - apply first_some_seen. intros s r Hr je Hje. unfold nonempty in Hr.
    destruct (declared vis s n ++ _) as [|ke l] eqn:E2; [done|]. injection Hr as <-. rewrite <-E2 in Hje.
    apply elem_of_app in Hje as [Hje|Hje]; [by apply declared_seen in Hje|].
    revert Hje. apply flat_map_seen. intros p ke'. apply declared_seen.
  - rewrite <-E. apply flat_map_seen. intros [q|p|m p] ke; try by intros ?%elem_of_nil.
    destruct (decide _); [|by intros ?%elem_of_nil]. destruct (target_scope vis here q); [|by intros ?%elem_of_nil].
    by intros [_ ?]%list_elem_of_filter.
Qed.
Lemma candidates_seen vis locals here q args ie : ie ∈ candidates vis locals here q args → ie ∈ vis.
Proof.
  unfold candidates. destruct (_ || _).
  - destruct (qualified_scope _ _ _ _); [apply declared_seen|by intros ?%elem_of_nil].
  - intros [H|H]%elem_of_app; [by apply ordinary_seen in H|]. revert H. apply flat_map_seen.
    intros [| |p] je; try by intros ?%elem_of_nil. apply declared_seen.
Qed.
Lemma dups_seen l (ie : nat * entry) : ie ∈ remove_dups_by_place l → ie ∈ l.
Proof.
  induction l as [|je l IH]; [done|]. cbn [remove_dups_by_place]. rewrite !elem_of_cons, list_elem_of_filter. tauto.
Qed.
Lemma filter_one (P : nat * entry → Prop) `{∀ x, Decision (P x)} l ie :
  filter P l = [ie] → ie ∈ l.
Proof. intros E. apply (list_elem_of_filter P). rewrite E. by apply list_elem_of_singleton. Qed.
Lemma select_seen args l ie : select args l = Some ie → ie ∈ l.
Proof.
  unfold select. intros H. apply dups_seen.
  destruct (filter (λ ie : nat * entry, parameters ie.2 = args) _) as [|je [|]] eqn:E;
    [|injection H as ->; by eapply filter_one|];
    (destruct (filter (λ ie : nat * entry, viable args (parameters ie.2)) _) as [|ke [|]] eqn:E2;
       [done|injection H as ->; by eapply filter_one|done]).
Qed.
(** A call finds only what precedes the calling function. *)
Lemma resolve_earlier tu n here locals q args k e :
  resolve tu n here locals q args = Some (k, e) → (k < n)%nat.
Proof.
  unfold resolve. intros H%select_seen%candidates_seen. unfold seen in H.
  apply list_elem_of_In, in_combine_l, in_seq in H. lia.
Qed.

(** Appending declarations to the translation unit of 002_namespaces.cpp
    changes no call of the functions already there: each call of a function at
    place [n] runs as it did, however deep, whatever the new declarations are
    called, and so the program prints what it printed. *)
Theorem later_declarations_change_nothing garbage (more : unit_) fuel n here :
  (n ≤ length (Program.tu garbage))%nat →
  call fuel (Program.tu garbage ++ more) n here = call fuel (Program.tu garbage) n here.
Proof.
  generalize (Program.tu garbage) as tu. intros tu. revert n here.
  induction fuel as [|fuel IH]; intros n here Hn; [done|]. cbn [call].
  extensionality locals. extensionality q. extensionality args.
  assert (resolve (tu ++ more) n here locals q (type_of <$> args) = resolve tu n here locals q (type_of <$> args)) as ->.
  { unfold resolve, seen. by rewrite take_app_le. }
  destruct (resolve tu n here locals q (type_of <$> args)) as [[k e]|] eqn:E; [|done].
  apply resolve_earlier in E. rewrite IH by lia. done.
Qed.

(** ** What the programs print *)

Definition print_lines (l : list string) : terminal := flat_map (λ s, [OStr s; OEndl]) l.
Definition print_sum (a b : Z) : terminal := [OInt a; OStr " "; OInt b; OStr " "; OEndl].

Definition first_lines : list string :=
    ["N1::A"; "N1::A"; "www::example::com::print()"; "big::foo1()"; "big::foo2()"; "small::foo()";
     "local::A::print()"; "A::print()";
     "global_names_search::foo(int)"; "::bar(int)";
     "global_names_search::inner_names_search::foo(float)"; "global_names_search::bar(float)";
     "using_example_outer::foo(int)"; "::foo(int)";
     "using_namespace_example_outer::before_print()";
     "using_namespace_example_outer::with_using::before_print()";
     "using_namepace_example_outer::with_using::inner::before_print()";
     "using_namepace_example_outer::with_using::inner::after_print()";
     "using_namespace_example_outer::with_using::after_print()";
     "using_namespace_example_outer::after_print()";
     "outer::inner2::foo(float)"; "outer::inner1::foo(int)"; "outer::inner1::foo(int)"; "outer::inner2::foo(float)"].

(** What every call of 002_namespaces.cpp means: an inner name hides the
    outer ones even where a later or an outer declaration would fit the argument
    better, a using declaration redirects the calls after it, a using directive
    yields to the names of the namespace it stands in, and the operators are
    found by their arguments. But the program is undefined: it prints the
    members of [c], which the constructor without arguments does not set. With
    any numbers there instead, it prints all its lines. *)
Example namespaces_resolve :
  (∀ garbage, Program.first_part garbage [] = Ret tt (print_lines first_lines)) ∧
  Program.main [None; None] [] = Undef Indeterminate ∧
  ∀ x y, Program.main [Some x; Some y] [] = Ret 0 (print_lines first_lines ++
    print_sum 1 2 ++ print_sum 3 4 ++ print_sum x y ++
    print_lines ["ADL::outer::inner::operator+"] ++ print_sum 4 6 ++
    print_lines ["ADL::outer::operator-"] ++ print_sum (-2) (-2) ++
    print_lines ["ADL::outer::inner::operator+"] ++ print_sum 4 6 ++
    print_lines ["ADL::outer::inner::operator+"] ++ print_sum 4 6 ++
    print_lines ["NotStaticInAnonNamespace::foo()"; "long_outer::long_middle::long_inner::print()";
      "long_outer::long_middle::long_inner::print()"] ++
    [OStr "Scope defines new namespace. For example, k = "; OInt 0; OEndl;
     OStr "Now we defined new k in inner scope => in inner namespace, so now k = "; OInt 42; OEndl;
     OStr "Old k did not change: k = "; OInt 0; OEndl;
     OStr "At least, prefer explicit namespace prefix or use aliases for long ones"; OEndl;
     OStr "And don't use 'using namespace std' etc in header files!!!"; OEndl]).
Proof.
  split; [|split].
  - intros garbage. vm_compute. reflexivity.
  - vm_compute. reflexivity.
  - intros x y. vm_compute. reflexivity.
Qed.

Lemma later_declarations_change_nothing_witness :
  (0 ≤ length (Program.tu []))%nat ∧
  call 3 (Program.tu [] ++ fn "bar" [float] (prints "a new bar")) 0 [] = call 3 (Program.tu []) 0 [].
Proof.
  split; [apply Nat.le_0_l|].
  exact (later_declarations_change_nothing [] (fn "bar" [float] (prints "a new bar")) 3 0 [] (Nat.le_0_l _)).
Defined.

(** [c - b] is not found: operator- is neither around main nor in the namespace
    of the operands, as the comment in main says. *)
Example minus_is_not_found garbage a b :
  Program.here garbage [] (unqualified "operator-") [VObj Program.SumObject a; VObj Program.SumObject b] [] =
  Exc (logic_error "does not compile") [].
Proof. vm_compute. reflexivity. Qed.
(** 024_using_conflicts.cpp; with the directive for N2 that the program has
    commented out, foo is ambiguous and bar is not. *)
Example using_conflicts :
  UsingConflicts.main [] = Ret 0 (print_lines ["N1::foo()"; "N1::bar()"; "N2::baz()"]) ∧
  let both := [UsingNamespace ["N1"]; UsingNamespace ["N2"]; UsingName (qualified ["N2"] "baz")] in
  UsingConflicts.here both "foo" [] = Exc (logic_error "does not compile") [] ∧
  UsingConflicts.here both "bar" [] = Ret tt (print_lines ["N1::bar()"]).
Proof. vm_compute. repeat split; reflexivity. Qed.
