(* ===== verification/Problems.v ===== *)
(** * Leaks

    Models cmake_make_gtest_cppunit/val_probs.c, a program for valgrind: the heap
    with the pointers its blocks hold, what each numbered case does when it is
    switched on, and which blocks are lost, and how, when a call returns. *)

From S2P Require Import Prelude.

Inductive val : Type := VChar (c : Z) | VInt (z : Z) | VPtr (p : option nat).
#[export] Instance val_eq_dec : EqDecision val.
Proof. solve_decision. Defined.
Abbreviation cells := (list (option val)).

(** A block is its cells; [asleep] counts the seconds of sleep. *)
Record state : Type := mkState {
  heap : gmap nat cells;
  next : nat;
  stdout : list (out False);
  asleep : nat
}.
Abbreviation cm := (M state).

Section Program.
Context {Al : Allocator}.

Definition put_heap (h : gmap nat cells) (n : nat) : cm unit :=
  modify (λ s, mkState h n (stdout s) (asleep s)).
Definition printf (l : list (out False)) : cm unit :=
  modify (λ s, mkState (heap s) (next s) (stdout s ++ l) (asleep s)).
Definition sleep (n : nat) : cm unit :=
  modify (λ s, mkState (heap s) (next s) (stdout s) (asleep s + n)).
(** [malloc(bytes)] of a block of cells of [size] bytes each. *)
Definition malloc_ (bytes size : Z) : cm (option nat) :=
  match malloc bytes size with
  | None => ret None
  | Some cs =>
      let! s := get in
      put_heap (<[next s := cs]> (heap s)) (S (next s)) ;; ret (Some (next s))
  end.
Definition block (p : option nat) : cm cells :=
  match p with
  | None => undef NullPointer
  | Some p => let! s := get in or_undef UseAfterFree (heap s !! p)
  end.
(** [p[i] = v] and [p[i]]. *)
Definition set_cell (p : option nat) (i : Z) (v : val) : cm unit :=
  let! cs := block p in
  let! cs := store (Some cs) i v in
  let! s := get in
  match p with Some p => put_heap (<[p := cs]> (heap s)) (next s) | None => ret tt end.
Definition get_cell (p : option nat) (i : Z) : cm val :=
  let! cs := block p in load (Some cs) i.
Definition free (p : option nat) : cm unit :=
  match p with
  | None => ret tt
  | Some q => let! _ := block p in let! s := get in put_heap (delete q (heap s)) (next s)
  end.

(** A struct Tree of three cells: value, left, right. *)
Definition sizeof_Tree : Z := 24.
Definition left : Z := 1.
Definition right : Z := 2.

(** [bad_func], on an array of eight chars on the stack. *)
Definition bad_func (p : cells) : cm cells :=
  let! p := store (Some p) 4096 (VChar 97) in
  let! p := store (Some p) 8096 (VChar 98) in
  store (Some p) 16096 (VChar 99).
Definition good_work : cm unit := printf [OStr "good..."; OEndl].

(** The six cases. The signal of the fourth ends the process (137 for the
    shell). *)
Definition directly_lost_case : cm unit := let! p := malloc_ 8 1 in ret tt.
Definition indirectly_lost_case : cm unit :=
  let! root := malloc_ sizeof_Tree 8 in
  let! l := malloc_ sizeof_Tree 8 in
  set_cell root left (VPtr l) ;;
  let! r := malloc_ sizeof_Tree 8 in
  set_cell root right (VPtr r).
Definition possibly_lost_case : cm unit :=
  let! p := malloc_ 4 1 in
  let! tmp := bad_func (replicate 8 None) in
  free p.
Definition still_reachable_case : cm unit :=
  let! p := malloc_ 4 1 in
  (exit_with 137 : cm unit) ;;
  free p.
Definition uninitialised_case : cm unit :=
  let! data := malloc_ 5 1 in
  set_cell data 0 (VChar 97) ;;
  set_cell data 1 (VChar 98) ;;
  set_cell data 1 (VChar 99) ;;
  let! c := get_cell data 2 in
  (if decide (c = VChar 99) then printf [OStr "YES"; OEndl] else ret tt) ;;
  free data.
Definition invalid_read_case : cm unit :=
  let! arr := malloc_ 8 4 in
  let! a := get_cell arr 0 in
  let! b := get_cell arr 1 in
  let! c := get_cell arr 2 in
  free arr.

(** Which of the conditions [if (1)], [if (0)] are true. *)
Definition cases : list (cm unit) :=
  [directly_lost_case; indirectly_lost_case; possibly_lost_case; still_reachable_case; uninitialised_case;
   invalid_read_case].
Definition switches : list bool := [true; true; false; false; false; false].
Definition bad_work : cm unit :=
  for_each (λ c : bool * cm unit, if c.1 then c.2 else ret tt) (zip switches cases).

(** [while (n--)] *)
Fixpoint loop (n : nat) : cm unit :=
  match n with
  | O => ret tt
  | S m => printf [OStr "n = "; OInt (Z.of_nat m); OEndl] ;; bad_work ;; sleep 1 ;; loop m
  end.
Definition main : cm Z :=
  printf [OStr "Hello, TechnoPark!"; OEndl] ;;
  loop 5 ;;
  ret 0.
End Program.

(** ** Lost blocks *)

(** When a function has returned, its blocks can be reached from other blocks at
    most: a block is directly lost if no block points to it, else indirectly. *)
Definition points_to (cs : cells) (q : nat) : Prop := Some (VPtr (Some q)) ∈ cs.
Definition pointed (h : gmap nat cells) (q : nat) : Prop := map_Exists (λ _ cs, points_to cs q) h.
#[export] Instance pointed_dec h q : Decision (pointed h q).
Proof. unfold pointed, points_to. apply _. Defined.
Definition directly_lost (h : gmap nat cells) : gset nat := filter (λ q, ¬ pointed h q) (dom h).
Definition indirectly_lost (h : gmap nat cells) : gset nat := filter (λ q, pointed h q) (dom h).

(** Blocks and pointers to blocks are older than the next one. *)
Record ok (s : state) : Prop := mkOk {
  ok_blocks q : q ∈ dom (heap s) → (q < next s)%nat;
  ok_pointers q : pointed (heap s) q → (q < next s)%nat
}.

Section Leaks.
Context {Al : Allocator}.

(** The blocks that one call of bad_work leaves: eight bytes, and a Tree with
    two subtrees. *)
Definition uninit (n : nat) : cells := replicate n None.
Definition leaves (n : nat) (h : gmap nat cells) : gmap nat cells :=
  <[S n := [None; Some (VPtr (Some (S (S n)))); Some (VPtr (Some (S (S (S n)))))]]>
    (<[S (S (S n)) := uninit 3]> (<[S (S n) := uninit 3]> (<[n := uninit 8]> h))).

Lemma malloc_ret bytes size s :
  can_alloc bytes = true →
  malloc_ bytes size s =
    Ret (Some (next s)) (mkState (<[next s := uninit (Z.to_nat (bytes / size))]> (heap s)) (S (next s)) (stdout s) (asleep s)).
Proof. intros H. unfold malloc_, malloc. rewrite H. done. Qed.

Lemma set_cell_ret p i v s cs cs' :
  heap s !! p = Some cs → zset cs i (Some v) = Some cs' →
  set_cell (Some p) i v s = Ret tt (mkState (<[p := cs']> (heap s)) (next s) (stdout s) (asleep s)).
Proof. intros Hp Hc. unfold set_cell, block, store. repeat run_step. rewrite Hp. cbn [or_undef]. repeat run_step. by rewrite Hc. Qed.

Lemma indirectly_lost_heap s :
  can_alloc 24 = true →
  let n := next s in
  indirectly_lost_case s = Ret tt (mkState
    (<[n := [None; Some (VPtr (Some (S n))); Some (VPtr (Some (S (S n))))]]>
       (<[S (S n) := uninit 3]> (<[S n := uninit 3]> (heap s)))) (S (S (S n))) (stdout s) (asleep s)).
Proof.
  intros H24 n. unfold indirectly_lost_case, sizeof_Tree.
  rewrite (bind_eq_ret _ _ _ _ _ (malloc_ret 24 8 s H24)), (bind_eq_ret _ _ _ _ _ (malloc_ret 24 8 _ H24)).
  cbn [heap next stdout asleep]. change (uninit (Z.to_nat (24 / 8))) with (uninit 3).
  erewrite (bind_eq_ret (set_cell _ _ _)); [|apply set_cell_ret with (cs := uninit 3);
    [cbn [heap]; rewrite lookup_insert_ne by lia; by rewrite lookup_insert_eq|reflexivity]].
  cbn [heap next stdout asleep]. rewrite (bind_eq_ret _ _ _ _ _ (malloc_ret 24 8 _ H24)).
  erewrite set_cell_ret; cbn [heap next stdout asleep];
    [|rewrite lookup_insert_ne, lookup_insert_eq by lia; reflexivity|reflexivity].
  do 2 f_equal. apply map_eq. intros k. rewrite !lookup_insert. repeat case_decide; done || lia.
Qed.
Lemma bad_work_heap s :
  can_alloc 8 = true → can_alloc 24 = true →
  bad_work s = Ret tt (mkState (leaves (next s) (heap s)) (next s + 4) (stdout s) (asleep s)).
Proof.
  intros H8 H24. unfold bad_work, switches, cases. cbn [zip zip_with for_each fst snd]. unfold directly_lost_case.
  run_step. rewrite (bind_eq_ret _ _ _ _ _ (malloc_ret 8 1 s H8)). repeat run_step.
  erewrite (bind_eq_ret indirectly_lost_case); [|by apply indirectly_lost_heap]. repeat run_step.
  cbn [heap next stdout asleep]. unfold leaves. replace (next s + 4)%nat with (S (S (S (S (next s))))) by lia. do 2 f_equal.
Qed.

(** A call loses two more blocks directly and two through the second of them. *)
Lemma uninit_points_nowhere n q : ¬ points_to (uninit n) q.
Proof. unfold points_to, uninit. by intros [? _]%elem_of_replicate. Qed.
Lemma leaves_lookup n h p :
  (∀ q, q ∈ dom h → (q < n)%nat) →
  leaves n h !! p =
    if decide (p < n)%nat then h !! p
    else if decide (p = n) then Some (uninit 8)
    else if decide (p = S n) then Some [None; Some (VPtr (Some (S (S n)))); Some (VPtr (Some (S (S (S n)))))]
    else if decide (p = S (S n) ∨ p = S (S (S n))) then Some (uninit 3)
    else None.
Proof.
  intros Hh. unfold leaves. rewrite !lookup_insert. repeat case_decide; try done; try lia.
  apply not_elem_of_dom. intros ?%Hh. lia.
Qed.
Lemma leaves_pointed n h q :
  (∀ q, q ∈ dom h → (q < n)%nat) →
  pointed (leaves n h) q ↔ q = S (S n) ∨ q = S (S (S n)) ∨ pointed h q.
Proof.
  intros Hh. unfold pointed, map_Exists. setoid_rewrite leaves_lookup; [|done]. split.
  - intros (p & cs & Hp & Hq). repeat case_decide; simplify_eq/=; try (by destruct (uninit_points_nowhere _ _ Hq)).
    + do 2 right. by exists p, cs.
    + unfold points_to in Hq. repeat apply elem_of_cons in Hq as [Hq|Hq]; simplify_eq; [by left|by right; left|by apply elem_of_nil in Hq].
  - intros [->|[->|(p & cs & Hp & Hq)]].
    + exists (S n). eexists. rewrite decide_False, decide_False, decide_True by lia. split; [done|]. by right; left.
    + exists (S n). eexists. rewrite decide_False, decide_False, decide_True by lia. split; [done|]. by right; right; left.
    + exists p, cs. rewrite decide_True; [done|]. apply Hh, elem_of_dom. by eexists.
Qed.
Lemma leaves_dom n h : dom (leaves n h) = {[n; S n; S (S n); S (S (S n))]} ∪ dom h.
Proof. unfold leaves. rewrite !dom_insert_L. apply set_eq. intros q. rewrite !elem_of_union, !elem_of_singleton. tauto. Qed.
Lemma leaves_lost n h :
  (∀ q, q ∈ dom h → (q < n)%nat) → (∀ q, pointed h q → (q < n)%nat) →
  directly_lost (leaves n h) = {[n; S n]} ∪ directly_lost h ∧
  indirectly_lost (leaves n h) = {[S (S n); S (S (S n))]} ∪ indirectly_lost h.
Proof.
  intros Hh Hp. unfold directly_lost, indirectly_lost. rewrite leaves_dom.
  split; apply set_eq; intros q; rewrite elem_of_filter, leaves_pointed by done;
    rewrite !elem_of_union, elem_of_filter, !elem_of_singleton; specialize (Hh q); specialize (Hp q);
    destruct (decide (q < n)%nat) as [|Hq]; [split; intros; intuition lia|..|split; intros; intuition lia|];
    assert (¬ pointed h q) by (intros ?%Hp; lia); assert (q ∉ dom h) by (intros ?%Hh; lia);
    split; intros; intuition (subst; try lia).
Qed.

Lemma leaves_ok s out a : ok s → ok (mkState (leaves (next s) (heap s)) (next s + 4) out a).
Proof.
  intros [Hb Hp]. split; cbn [heap next]; intros q.
  - rewrite leaves_dom, !elem_of_union, !elem_of_singleton. specialize (Hb q). intuition lia.
  - rewrite leaves_pointed by done. specialize (Hp q). intuition lia.
Qed.
Lemma leaves_sizes s : ok s →
  size (directly_lost (leaves (next s) (heap s))) = (2 + size (directly_lost (heap s)))%nat ∧
  size (indirectly_lost (leaves (next s) (heap s))) = (2 + size (indirectly_lost (heap s)))%nat.
Proof.
  intros [Hb Hp]. destruct (leaves_lost (next s) (heap s) Hb Hp) as [-> ->].
  rewrite !size_union, !size_singleton; [done|..]; apply disjoint_singleton_l || apply disjoint_union_l;
    rewrite ?elem_of_singleton; try lia; split; apply disjoint_singleton_l;
    intros [_ H%Hb]%elem_of_filter; lia.
Qed.

(** C39. While malloc has memory, each round of the loop of val_probs.c loses
    four more blocks for good, two directly and two indirectly, and nothing that
    was in memory before changes its place in these sets; the rounds never end
    in undefined behaviour and sleep a second each. *)
Theorem loop_leaks n s :
  ok s → can_alloc 8 = true → can_alloc 24 = true →
  ∃ s', loop n s = Ret tt s' ∧ ok s' ∧ heap s ⊆ heap s' ∧
    size (directly_lost (heap s')) = (2 * n + size (directly_lost (heap s)))%nat ∧
    size (indirectly_lost (heap s')) = (2 * n + size (indirectly_lost (heap s)))%nat ∧
    asleep s' = (n + asleep s)%nat.
Proof.
  intros Hs H8 H24. revert s Hs. induction n as [|n IH]; intros s Hs; [by exists s|].
  cbn [loop]. unfold printf, sleep. repeat run_step. rewrite (bind_eq_ret _ _ _ _ _ (bad_work_heap _ H8 H24)). repeat run_step.
  cbn [heap next stdout asleep]. destruct (leaves_sizes s Hs) as [Hd Hi].
  match goal with |- context [loop n ?t] => destruct (IH t) as (s' & E & Hok & Hsub & Hd' & Hi' & Ha) end;
    [by apply leaves_ok|]. cbn [heap asleep] in *. exists s'. split; [done|]. split; [done|]. split.
  { etrans; [|exact Hsub]. apply map_subseteq_spec. intros p cs Hp. destruct Hs as [Hb _].
    rewrite leaves_lookup, decide_True; [done| |done]. apply Hb. by apply elem_of_dom_2 in Hp. }
  rewrite Hd', Hi', Hd, Hi, Ha. split; [|split]; lia.
Qed.
End Leaks.

(** With memory for all requests. *)
Definition plenty : Allocator := λ _, true.
Definition outside : state := mkState ∅ 0 [] 0.
Lemma outside_ok : ok outside.
Proof. split; intros q; [by intros ?%elem_of_dom%is_Some_None|intros (? & ? & ? & _); done]. Qed.

Lemma loop_leaks_witness :
  ∃ s', loop (Al:=plenty) 5 outside = Ret tt s' ∧ ok s' ∧ heap outside ⊆ heap s' ∧
    size (directly_lost (heap s')) = 10%nat ∧ size (indirectly_lost (heap s')) = 10%nat ∧ asleep s' = 5%nat.
Proof. exact (loop_leaks (Al:=plenty) 5 outside outside_ok eq_refl eq_refl). Defined.
(** The whole program with enough memory: ten blocks are lost directly and ten
    indirectly. Without memory for a Tree it dereferences a null pointer. *)
Example main_leaks :
  ∃ s', main (Al:=plenty) outside = Ret 0 s' ∧
    size (directly_lost (heap s')) = 10%nat ∧ size (indirectly_lost (heap s')) = 10%nat ∧
    stdout s' = [OStr "Hello, TechnoPark!"; OEndl; OStr "n = "; OInt 4; OEndl; OStr "n = "; OInt 3; OEndl;
      OStr "n = "; OInt 2; OEndl; OStr "n = "; OInt 1; OEndl; OStr "n = "; OInt 0; OEndl].
Proof. eexists. split; [vm_compute; reflexivity|]. vm_compute. done. Qed.
Lemma no_memory_for_a_tree {Al : Allocator} s :
  can_alloc 24 = false → indirectly_lost_case s = Undef NullPointer.
Proof.
  intros H. unfold indirectly_lost_case, sizeof_Tree, malloc_, malloc. rewrite H. repeat run_step. done.
Qed.
(** The cases that are switched off: the writes behind an array, the signal
    with a block in hand, the comparison of an uninitialised char, the use of
    uninitialised numbers. *)
Example cases_switched_on :
  possibly_lost_case (Al:=plenty) outside = Undef OutOfBounds ∧
  (∃ s', still_reachable_case (Al:=plenty) outside = Exit 137 s' ∧ dom (heap s') = {[0%nat]}) ∧
  uninitialised_case (Al:=plenty) outside = Undef Indeterminate ∧
  invalid_read_case (Al:=plenty) outside = Undef Indeterminate.
Proof. split; [done|split; [eexists; split; [reflexivity|]; vm_compute; reflexivity|done]]. Qed.
