(* ===== verification/Dispatch.v ===== *)
(** * Virtual functions

    Models the examples about dynamic dispatch: [AbstractFactory] of
    examples/029_abstract_factory.cpp, [Adapter] of 030_adapter.cpp, [Bridge] of
    031_bridge.cpp, [VisitorPattern] of 034_visitor.cpp, [CRTP] of
    042_crtp_class.cpp, [PureVirtual] of 026_1_pure_virt_func_call.cpp and
    [Mocks], the tests of cmake_make_gtest_cppunit/tests_gmock.cpp that use a
    mock object. A class is a row of a table: its bases and its member
    functions, of which some are pure; a call runs the final overrider. *)

From S2P Require Import Prelude.

Inductive value : Type := VNone | VPtr (p : nat) | VStr (s : string) | VBool (b : bool).
(** An object has its dynamic class and the pointers it keeps; nothing here is
    ever deleted. *)
Record state : Type := mkState {
  objects : list (string * list nat);
  cout : list (out False)
}.
Abbreviation vm := (M state).
(** The body of a function calls other functions of objects by name, and has
    [this] and its arguments. *)
Definition caller : Type := nat → string → list nat → vm value.
Definition body : Type := caller → nat → list nat → vm value.

Record class : Type := mkClass {
  bases : list string;
  methods : list (string * option body)   (* [None]: pure virtual *)
}.
Abbreviation table := (list (string * class)).

Fixpoint assoc {A} (k : string) (l : list (string * A)) : option A :=
  match l with
  | [] => None
  | (k', a) :: l' => if decide (k = k') then Some a else assoc k l'
  end.
Definition first_some {A B} (f : A → option B) (l : list A) : option B := head (omap f l).

Section Table.
Context (tbl : table).

(** The function of a class that a name means: its own, or that of a base. *)
Fixpoint overrider (fuel : nat) (cls m : string) : option (option body) :=
  match fuel, assoc cls tbl with
  | S fuel', Some c =>
      match assoc m (methods c) with
      | Some b => Some b
      | None => first_some (λ b, overrider fuel' b m) (bases c)
      end
  | _, _ => None
  end.
Fixpoint all_methods (fuel : nat) (cls : string) : list string :=
  match fuel, assoc cls tbl with
  | S fuel', Some c => (methods c).*1 ++ flat_map (all_methods fuel') (bases c)
  | _, _ => []
  end.
(** A class derives from classes of the table; their number bounds the depth. *)
Definition final_overrider (cls m : string) : option (option body) := overrider (length tbl) cls m.
Definition abstract (cls : string) : bool :=
  existsb (λ m, match final_overrider cls m with Some (Some _) => false | _ => true end)
    (all_methods (length tbl) cls).

(** [p->m(args)] *)
Fixpoint vcall (fuel : nat) : caller := λ p m args,
  match fuel with
  | O => no_fuel
  | S fuel' =>
      let! s := get in
      let! o := or_undef UseAfterFree (objects s !! p) in
      match final_overrider o.1 m with
      | Some (Some f) => f (vcall fuel') p args
      | _ => undef PureVirtualCall
      end
  end.
End Table.

Definition say (l : list (out False)) : vm unit := modify (λ s, mkState (objects s) (cout s ++ l)).
Definition prints (s : string) : body := λ _ _ _, say [OStr s; OEndl] ;; ret VNone.
(** [new cls(fields)], or an object on the stack. *)
Definition new (cls : string) (fields : list nat) : vm nat :=
  let! s := get in
  modify (λ s, mkState (objects s ++ [(cls, fields)]) (cout s)) ;; ret (length (objects s)).
Definition field (p : nat) (i : nat) : vm nat :=
  let! s := get in
  let! o := or_undef UseAfterFree (objects s !! p) in
  or_undef OutOfBounds (o.2 !! i).
Definition pointer (v : value) : vm nat := match v with VPtr p => ret p | _ => undef Indeterminate end.
(** A program compiles if no class it makes objects of is abstract. *)
Definition compiles (tbl : table) (made : list string) : bool := forallb (λ c, negb (abstract tbl c)) made.

(** ** 029_abstract_factory.cpp *)
Module AbstractFactory.
Definition create (cls : string) : body := λ _ _ _, let! p := new cls [] in ret (VPtr p).
Definition Button : class := mkClass [] [("paint", None)].
Definition WinButton : class := mkClass ["Button"] [("paint", Some (prints "WinButton"))].
Definition MacButton : class := mkClass ["Button"] [("paint", Some (prints "MacButton"))].
Definition CheckBox : class := mkClass [] [("paint", None)].
Definition WinCheckBox : class := mkClass ["CheckBox"] [("paint", Some (prints "WinCheckBox"))].
Definition MacCheckBox : class := mkClass ["CheckBox"] [("paint", Some (prints "MacCheckBox"))].
Definition GUIFactory : class := mkClass [] [("createButton", None); ("createCheckBox", None)].
Definition WinGUIFactory : class :=
  mkClass ["GUIFactory"] [("createButton", Some (create "WinButton")); ("createCheckBox", Some (create "WinCheckBox"))].
Definition MacGUIFactory : class :=
  mkClass ["GUIFactory"] [("createButton", Some (create "MacButton")); ("createCheckBox", Some (create "MacCheckBox"))].
Definition tbl : table :=
  [("Button", Button); ("WinButton", WinButton); ("MacButton", MacButton); ("CheckBox", CheckBox);
   ("WinCheckBox", WinCheckBox); ("MacCheckBox", MacCheckBox); ("GUIFactory", GUIFactory);
   ("WinGUIFactory", WinGUIFactory); ("MacGUIFactory", MacGUIFactory)].
Definition call : caller := vcall tbl 2.

(** main, for the factory class it names. *)
Definition client (factory_class : string) : vm Z :=
  let! factory := new factory_class [] in
  let! v := call factory "createButton" [] in
  let! button := pointer v in
  call button "paint" [] ;;
  let! v := call factory "createCheckBox" [] in
  let! checkbox := pointer v in
  call checkbox "paint" [] ;;
  ret 0.
Definition main : vm Z := client "MacGUIFactory".
End AbstractFactory.

(** ** 030_adapter.cpp *)
Module Adapter.
(** fecthJson is not virtual. *)
Definition fecthJson : string := "{}".
Definition XmlReader : class := mkClass [] [("read", Some (λ _ _ _, ret (VStr "<>")))].
Definition JsonReader : class := mkClass [] [].
(** The object adapter keeps a JsonReader, the class adapter is one. *)
Definition JsonToXmlAdapter : class := mkClass ["XmlReader"]
  [("read", Some (λ _ this _,
     let! json_reader_ := field this 0 in
     let! s := get in
     let! o := or_undef UseAfterFree (objects s !! json_reader_) in
     say [OStr fecthJson; OEndl] ;; ret (VStr "<>")))].
Definition JsonToXmlAdapterClass : class := mkClass ["XmlReader"; "JsonReader"]
  [("read", Some (λ _ this _, say [OStr fecthJson; OEndl] ;; ret (VStr "<>")))].
Definition tbl : table :=
  [("XmlReader", XmlReader); ("JsonReader", JsonReader); ("JsonToXmlAdapter", JsonToXmlAdapter);
   ("JsonToXmlAdapterClass", JsonToXmlAdapterClass)].
(** Presentaion::Show, whose argument points to an XmlReader. *)
Definition Show (reader : nat) : vm unit :=
  let! v := vcall tbl 1 reader "read" [] in
  match v with VStr s => say [OStr s; OEndl] | _ => ret tt end.
Definition main : vm Z :=
  let! xml_reader := new "XmlReader" [] in
  Show xml_reader ;;
  let! json_reader := new "JsonReader" [] in
  say [OStr "composition: "; OEndl] ;;
  let! json_to_xml_adater := new "JsonToXmlAdapter" [json_reader] in
  Show json_to_xml_adater ;;
  say [OStr "class: "; OEndl] ;;
  let! json_to_xml_adater := new "JsonToXmlAdapterClass" [] in
  Show json_to_xml_adater ;;
  ret 0.
End Adapter.

(** ** 031_bridge.cpp *)
Module Bridge.
Definition Logger : class := mkClass [] [("log", None)].
Definition LoggerImpl : class := mkClass [] [("console_log", None); ("file_log", None); ("socket_log", None)].
(** The string that the functions get is a parameter of the table; [more] are
    functions that the classes could have besides. *)
Section Table.
Context (more : list (string * option body)) (str : string).
Definition nothing : body := λ _ _ _, ret VNone.
Definition console_log (prefix : string) : body := λ _ _ _, say [OStr prefix; OStr str] ;; ret VNone.
Definition ST_LoggerImpl : class :=
  mkClass ["LoggerImpl"] ([("console_log", Some (console_log "ST == ")); ("file_log", Some nothing)] ++ more).
Definition MT_LoggerImpl : class := mkClass ["LoggerImpl"] ([("console_log", Some (console_log "MT == "))] ++ more).
Definition ConsoleLogger : class := mkClass ["Logger"]
  [("log", Some (λ call this _, let! pimpl := field this 0 in call pimpl "console_log" []))].
Definition tbl : table :=
  [("Logger", Logger); ("LoggerImpl", LoggerImpl); ("ST_LoggerImpl", ST_LoggerImpl);
   ("MT_LoggerImpl", MT_LoggerImpl); ("ConsoleLogger", ConsoleLogger)].
(** The macro MT chooses the implementation. *)
Definition impl (MT : bool) : string := if MT then "MT_LoggerImpl" else "ST_LoggerImpl".
Definition ConsoleLogger_ctor (MT : bool) : vm nat :=
  let! pimpl := new (impl MT) [] in new "ConsoleLogger" [pimpl].
Definition made (MT : bool) : list string := [impl MT; "ConsoleLogger"].
Definition main (MT : bool) : vm Z :=
  let! p := ConsoleLogger_ctor MT in
  vcall tbl 2 p "log" [] ;;
  ret 0.
End Table.
End Bridge.

(** ** 034_visitor.cpp *)
Module VisitorPattern.
(** [accept] of a class passes the object under its own static type. *)
Definition accept (visit visit2 : string) : body := λ call this args,
  match args with
  | [visitor] => call visitor visit [this] ;; call visitor visit2 [this] ;; ret VNone
  | _ => ret VNone
  end.
Definition Building : class := mkClass [] [("accept", None)].
Definition City : class := mkClass ["Building"] [("accept", Some (accept "visit(City&)" "visit2(City*)"))].
Definition Industry : class :=
  mkClass ["Building"] [("accept", Some (accept "visit(Industry&)" "visit2(Industry*)"))].
Definition House : class := mkClass ["Building"] [("accept", Some (accept "visit(House&)" "visit2(House*)"))].
Definition Visitor : class := mkClass []
  [("visit(City&)", None); ("visit(Industry&)", None); ("visit(House&)", None);
   ("visit2(City*)", None); ("visit2(Industry*)", None); ("visit2(House*)", None)].
Definition nothing : body := λ _ _ _, ret VNone.
Definition ExportVisitor : class := mkClass ["Visitor"]
  [("doForCity", Some nothing); ("doForIndustry", Some nothing); ("doForHouse", Some nothing)].
Definition BuildingVisitor : class := mkClass ["Visitor"]
  [("visit(City&)", Some (prints "City visited"));
   ("visit(Industry&)", Some (prints "Industry visited"));
   ("visit(House&)", Some (prints "House visited"));
   ("visit2(City*)", Some (prints "City*"));
   ("visit2(Industry*)", Some (prints "Industry*"));
   ("visit2(House*)", Some (prints "House*"))].
Definition ExportVisitor2 : class := mkClass []
  [("doForBuilding(Building*)", Some (prints "Building*"));
   ("doForBuilding(City*)", Some (prints "City*"));
   ("doForIndustry", Some (prints "Industry*"));
   ("doForHouse", Some (prints "House*"))].
Definition tbl : table :=
  [("Building", Building); ("City", City); ("Industry", Industry); ("House", House); ("Visitor", Visitor);
   ("ExportVisitor", ExportVisitor); ("BuildingVisitor", BuildingVisitor); ("ExportVisitor2", ExportVisitor2)].

(** The loop of main over an array of buildings: a new visitor for each. *)
Definition visit_one (building : nat) : vm unit :=
  let! visitor := new "BuildingVisitor" [] in
  vcall tbl 2 building "accept" [visitor] ;; ret tt.
Definition main : vm Z :=
  let! city := new "City" [] in
  let! house := new "House" [] in
  let! industry := new "Industry" [] in
  for_each visit_one [city; house; industry] ;;
  ret 0.
End VisitorPattern.

(** ** 042_crtp_class.cpp *)
Module CRTP.
(** The calls are bound at compile time: [Base<T>::interface] calls the
    [implementation] that the name means in T. *)
Definition Base : class := mkClass [] [("implementation", Some (prints "Implementation Base"))].
Definition Derived1 : class := mkClass ["Base"] [("implementation", Some (prints "Implementation Derived1"))].
Definition Derived2 : class := mkClass ["Base"] [("implementation", Some (prints "Implementation Derived2"))].
Definition Derived3 : class := mkClass ["Base"] [].
Definition tbl : table := [("Base", Base); ("Derived1", Derived1); ("Derived2", Derived2); ("Derived3", Derived3)].
Definition interface (T : string) (this : nat) : vm unit :=
  match final_overrider tbl T "implementation" with
  | Some (Some f) => f (vcall tbl 0) this [] ;; ret tt
  | _ => throw (logic_error "does not compile")
  end.
Definition execute (T : string) (base : nat) : vm unit := interface T base.
Definition executes : vm unit :=
  let! d1 := new "Derived1" [] in execute "Derived1" d1 ;;
  let! d2 := new "Derived2" [] in execute "Derived2" d2 ;;
  let! d3 := new "Derived3" [] in execute "Derived3" d3.
Definition main : vm Z :=
  executes ;;
  let! i := int_arith (INT_MAX + 100) in
  say [OEndl] ;;
  ret 0.
End CRTP.

(** ** 026_1_pure_virt_func_call.cpp *)
Module PureVirtual.
Definition AA : class := mkClass []
  [("bar", None); ("test", Some (λ _ _ _, say [OStr "test - A"; OEndl] ;; let! p := new "A" [] in ret (VPtr p)))].
Definition BB : class := mkClass ["AA"]
  [("foo", Some (prints "BB")); ("bar", Some (prints "bar"));
   ("test", Some (λ _ _ _, say [OStr "test - B"; OEndl] ;; let! p := new "B" [] in ret (VPtr p)))].
Definition CC : class := mkClass ["BB"] [("foo", Some (prints "CC"))].
Definition tbl : table :=
  [("A", mkClass [] []); ("B", mkClass ["A"] []); ("AA", AA); ("BB", BB); ("CC", CC)].
(** In the constructor of a class the object has this class. *)
Definition during_ctor (cls m : string) : vm unit :=
  match final_overrider tbl cls m with
  | Some (Some f) => f (vcall tbl 1) 0%nat [] ;; ret tt
  | _ => undef PureVirtualCall
  end.
Definition BB_ctor : vm unit := during_ctor "BB" "bar".
Definition main : vm Z := ret 0.
End PureVirtual.

(** ** tests_gmock.cpp *)
Module Mocks.
(** What a mock object has been asked, which gmock compares with the
    expectations of the test. *)
Inductive mock_call : Type := PenDown_called | GetPacket_called (n : Z) | Open_called (mode : Z).
#[export] Instance mock_call_eq_dec : EqDecision mock_call.
Proof. solve_decision. Defined.
Record mocked : Type := mkMocked { asked : list mock_call; printed : list (out False) }.
Abbreviation gm := (M mocked).
Definition ask (c : mock_call) : gm unit := modify (λ s, mkMocked (asked s ++ [c]) (printed s)).
Definition times (c : mock_call) (s : mocked) : nat := length (filter (λ d, d = c) (asked s)).

(** The interfaces, and the code under test. *)
Class Turtle S := PenDown : M S unit.
Definition DrawCircle {S} {T : Turtle S} (x y r : Z) : M S bool := PenDown ;; ret true.
Class PacketStream S := GetPacket : Z → M S (option nat).
Definition ReadPackets {S} {P : PacketStream S} (packet_num : Z) : M S unit :=
  let! _ := GetPacket packet_num in ret tt.
(** The path is a literal, known by its identity. *)
Class FileInterface S := Open : nat → Z → M S (bool * Z).
Definition DoRead {S} {F : FileInterface S} (empty_path : nat) : M S bool :=
  let mode := 0 in
  let! answer := Open empty_path mode in
  ret answer.1.

Definition ConcretePacketStream {S} : PacketStream S := λ packet_number, ret None.
Definition OpenFile {S} (path : nat) (mode : Z) : M S (bool * Z) := ret (false, mode).
Definition File {S} : FileInterface S := λ path mode, OpenFile path mode.
Definition MockTurtle : Turtle mocked := ask PenDown_called.
Definition MockPacketStream : PacketStream mocked := λ n, ask (GetPacket_called n) ;; ret None.
(** [EXPECT_CALL(fi, Open(path, mode)).WillOnce(DoAll(SetArgReferee<1>(0), Return(true)))]:
    the path is compared as a pointer; another call fails the test and returns
    false. *)
Definition MockFI (path : nat) (mode : Z) : FileInterface mocked := λ path' mode',
  ask (Open_called mode') ;;
  ret (if decide (path = path' ∧ mode = mode') then (true, 0) else (false, mode')).

(** The tests: whether they pass. *)
Definition CanDrawSomething : gm bool :=
  let! r := DrawCircle (T:=MockTurtle) 0 0 10 in
  let! s := get in
  ret (r && bool_decide (1 ≤ times PenDown_called s)%nat).
Definition TestNonVirtual : gm bool :=
  ReadPackets (P:=MockPacketStream) 1 ;;
  let! s := get in
  ret (bool_decide (1 ≤ times (GetPacket_called 1) s)%nat).
(** The two literals of the test and of DoRead may be one object or two. *)
Definition TestStatic (literal literal' : nat) : gm bool :=
  let! r := DoRead (F:=MockFI literal 0) literal' in
  (if r : bool then modify (λ s, mkMocked (asked s) (printed s ++ [OStr " Return value is true"; OEndl])) else ret tt) ;;
  let! s := get in
  ret (r && bool_decide (times (Open_called 0) s = 1)%nat).
End Mocks.

(** ** What the dispatch finds *)

(** 034_visitor.cpp: the classes of buildings, and what a visitor prints of
    each. *)
Definition building_class (c : string) : Prop := c ∈ ["City"; "House"; "Industry"].
Definition visited (c : string) : list (out False) :=
  [OStr (String.append c " visited"); OEndl; OStr (String.append c "*"); OEndl].

Lemma vcall_found tbl fuel p m args s cls fs f :
  objects s !! p = Some (cls, fs) → final_overrider tbl cls m = Some (Some f) →
  vcall tbl (S fuel) p m args s = f (vcall tbl fuel) p args s.
Proof.
  intros Hp Hf. cbn [vcall]. unfold bind, get, or_undef. rewrite Hp. cbn [ret fst]. unfold ret. by rewrite Hf.
Qed.
Lemma visit_one_prints p c fs s :
  objects s !! p = Some (c, fs) → building_class c →
  VisitorPattern.visit_one p s =
    Ret tt (mkState (objects s ++ [("BuildingVisitor", [])]) (cout s ++ visited c)).
Proof.
  intros Hp Hc. unfold VisitorPattern.visit_one, new. repeat run_step.
  set (s1 := mkState (objects s ++ [("BuildingVisitor", [])]) (cout s)).
  assert (objects s1 !! p = Some (c, fs)) as Hp' by apply (lookup_app_l_Some _ _ _ _ Hp).
  assert (∀ l, objects (mkState (objects s1) l) !! length (objects s) = Some ("BuildingVisitor", [])) as Hv
    by (intros l; by apply list_lookup_middle).
  unfold building_class in Hc. rewrite !elem_of_cons in Hc.
  destruct Hc as [->|[->|[->|H]]]; [..|by apply elem_of_nil in H];
  (unfold bind at 1; erewrite (vcall_found _ _ _ _ _ _ _ _ _ Hp') by reflexivity;
   unfold VisitorPattern.accept, bind;
   do 2 (erewrite (vcall_found VisitorPattern.tbl 0) by (apply Hv || reflexivity); cbn [prints say bind modify ret objects cout]);
   unfold prints, say, bind, modify, ret; cbn [objects cout]; unfold visited; by rewrite <-app_assoc).
Qed.

(** C40. Double dispatch in 034_visitor.cpp: for any array of buildings, in any
    order and with repetitions, the visitors print for each building, in the
    order of the array, the line of its dynamic class from [visit] and then from
    [visit2]; no call ever reaches a pure virtual function. *)
Theorem visitors_dispatch (ps : list nat) (cs : list string) s :
  Forall2 (λ p c, building_class c ∧ ∃ fs, objects s !! p = Some (c, fs)) ps cs →
  for_each VisitorPattern.visit_one ps s =
    Ret tt (mkState (objects s ++ replicate (length ps) ("BuildingVisitor", []))
              (cout s ++ concat (visited <$> cs))).
Proof.
  revert cs s. induction ps as [|p ps IH]; intros cs s H.
  - apply Forall2_nil_inv_l in H as ->. simpl. rewrite !app_nil_r. by destruct s.
  - apply Forall2_cons_inv_l in H as (c & cs' & [Hc (fs & Hp)] & Hps & ->).
    rewrite (for_each_cons _ _ _ _ _ (visit_one_prints p c fs s Hp Hc)), (IH cs'); cbn [objects cout].
    + cbn [length replicate fmap list_fmap concat]. by rewrite <-!app_assoc.
    + eapply Forall2_impl; [exact Hps|]. intros q d [Hd (gs & Hq)]. split; [done|]. exists gs.
      by apply lookup_app_l_Some.
Qed.

(** Where an object is among those made so far. *)
Ltac found := cbn [objects]; first [by apply list_lookup_middle | apply lookup_app_l_Some; found].
Lemma vcall_creates p m s cls fs c :
  objects s !! p = Some (cls, fs) → final_overrider AbstractFactory.tbl cls m = Some (Some (AbstractFactory.create c)) →
  AbstractFactory.call p m [] s = Ret (VPtr (length (objects s))) (mkState (objects s ++ [(c, [])]) (cout s)).
Proof. intros Hp Hf. unfold AbstractFactory.call. by rewrite (vcall_found _ _ _ _ _ _ _ _ _ Hp Hf). Qed.
Lemma vcall_paints p m s cls fs l :
  objects s !! p = Some (cls, fs) → final_overrider AbstractFactory.tbl cls m = Some (Some (prints l)) →
  AbstractFactory.call p m [] s = Ret VNone (mkState (objects s) (cout s ++ [OStr l; OEndl])).
Proof. intros Hp Hf. unfold AbstractFactory.call. by rewrite (vcall_found _ _ _ _ _ _ _ _ _ Hp Hf). Qed.

(** 029_abstract_factory.cpp: with either factory class the client, which
    names no product class, paints a button and a check box of the same family,
    and leaves its three objects undeleted. *)
Theorem factory_family (fam : string) s :
  fam ∈ ["Win"; "Mac"] →
  AbstractFactory.client (String.append fam "GUIFactory") s =
    Ret 0 (mkState (objects s ++ [(String.append fam "GUIFactory", []); (String.append fam "Button", []);
                                  (String.append fam "CheckBox", [])])
             (cout s ++ [OStr (String.append fam "Button"); OEndl; OStr (String.append fam "CheckBox"); OEndl])).
Proof.
  intros Hf. rewrite !elem_of_cons in Hf. destruct Hf as [->|[->|H]]; [..|by apply elem_of_nil in H];
  (unfold AbstractFactory.client, new; repeat run_step;
   erewrite (bind_eq_ret (AbstractFactory.call _ "createButton" _)); [|eapply vcall_creates; [found|reflexivity]];
   cbn [pointer objects cout]; repeat run_step;
   erewrite (bind_eq_ret (AbstractFactory.call _ "paint" _)); [|eapply vcall_paints; [found|reflexivity]];
   cbn [pointer objects cout];
   erewrite (bind_eq_ret (AbstractFactory.call _ "createCheckBox" _)); [|eapply vcall_creates; [found|reflexivity]];
   cbn [pointer objects cout]; repeat run_step;
   erewrite (bind_eq_ret (AbstractFactory.call _ "paint" _)); [|eapply vcall_paints; [found|reflexivity]];
   cbn [objects cout]; unfold ret; by rewrite <-!app_assoc).
Qed.

(** ** The programs *)
Definition start : state := mkState [] [].
Definition plain (l : list string) : list (out False) := flat_map (λ s, [OStr s; OEndl]) l.

Lemma visitors_dispatch_witness :
  let s := mkState [("House", []); ("City", [])] [] in
  Forall2 (λ p c, building_class c ∧ ∃ fs, objects s !! p = Some (c, fs)) [1; 0; 1]%nat ["City"; "House"; "City"] ∧
  for_each VisitorPattern.visit_one [1; 0; 1]%nat s =
    Ret tt (mkState (objects s ++ replicate 3 ("BuildingVisitor", []))
              (concat (visited <$> ["City"; "House"; "City"]))).
Proof.
  assert (Forall2 (λ p c, building_class c ∧ ∃ fs, objects (mkState [("House", []); ("City", [])] []) !! p = Some (c, fs))
    [1; 0; 1]%nat ["City"; "House"; "City"]) as H.
  { repeat constructor; try (unfold building_class; rewrite !elem_of_cons; tauto); by exists []. }
  split; [exact H|]. exact (visitors_dispatch [1; 0; 1]%nat ["City"; "House"; "City"] _ H).
Defined.
Lemma factory_family_witness :
  "Mac" ∈ ["Win"; "Mac"] ∧
  AbstractFactory.client "MacGUIFactory" start =
    Ret 0 (mkState [("MacGUIFactory", []); ("MacButton", []); ("MacCheckBox", [])] (plain ["MacButton"; "MacCheckBox"])).
Proof.
  assert ("Mac" ∈ ["Win"; "Mac"]) as H by (rewrite !elem_of_cons; tauto).
  split; [exact H|]. exact (factory_family "Mac" start H).
Defined.

(** main of 029, 034 and 030: the adapters print the JSON and read as XML. *)
Example programs_print :
  (∃ s, AbstractFactory.main start = Ret 0 s ∧ cout s = plain ["MacButton"; "MacCheckBox"]) ∧
  (∃ s, VisitorPattern.main start = Ret 0 s ∧
    cout s = plain ["City visited"; "City*"; "House visited"; "House*"; "Industry visited"; "Industry*"]) ∧
  (∃ s, Adapter.main start = Ret 0 s ∧
    cout s = plain ["<>"; "composition: "; "{}"; "<>"; "class: "; "{}"; "<>"]).
Proof. repeat split; eexists; (split; [vm_compute; reflexivity|reflexivity]). Qed.
(** Which classes may have objects: ExportVisitor overrides nothing, so it stays
    abstract; the programs make objects of concrete classes only. *)
Example concrete_classes :
  abstract VisitorPattern.tbl "ExportVisitor" = true ∧
  compiles VisitorPattern.tbl ["City"; "House"; "Industry"; "BuildingVisitor"] = true ∧
  compiles AbstractFactory.tbl ["MacGUIFactory"; "MacButton"; "MacCheckBox"] = true ∧
  compiles Adapter.tbl ["XmlReader"; "JsonReader"; "JsonToXmlAdapter"; "JsonToXmlAdapterClass"] = true ∧
  abstract PureVirtual.tbl "AA" = true ∧ compiles PureVirtual.tbl ["BB"; "CC"] = true.
Proof. vm_compute. done. Qed.

(** 031_bridge.cpp does not compile, whatever the macro MT: both
    implementations of the logger leave a function pure. With the two missing
    overriders the program would log through the chosen one. *)
Lemma bridge_does_not_compile str MT :
  compiles (Bridge.tbl [] str) (Bridge.made MT) = false ∧
  let more := [("file_log", Some Bridge.nothing); ("socket_log", Some Bridge.nothing)] in
  compiles (Bridge.tbl more str) (Bridge.made MT) = true ∧
  ∃ s, Bridge.main more str MT start = Ret 0 s ∧
    cout s = [OStr (if MT then "MT == " else "ST == "); OStr str].
Proof.
  destruct MT; (split; [vm_compute; reflexivity|split; [vm_compute; reflexivity|]];
    eexists; split; [vm_compute; reflexivity|reflexivity]).
Qed.
(** 042_crtp_class.cpp: the two classes with an implementation of their own
    call it, the third calls that of the base; then main overflows an int. *)
Lemma crtp_prints :
  (∃ s, CRTP.executes start = Ret tt s ∧
    cout s = plain ["Implementation Derived1"; "Implementation Derived2"; "Implementation Base"]) ∧
  CRTP.main start = Undef SignedOverflow.
Proof. split; [eexists; split; [vm_compute; reflexivity|reflexivity]|vm_compute; reflexivity]. Qed.
(** 026_1_pure_virt_func_call.cpp: the constructor of BB, also for a CC, calls
    the bar of BB; that of AA, were it to call bar as its comment would, would
    call a pure virtual function. *)
Example constructors_call_bar :
  PureVirtual.BB_ctor start = Ret tt (mkState [] (plain ["bar"])) ∧
  PureVirtual.during_ctor "AA" "bar" start = Undef PureVirtualCall ∧
  PureVirtual.main start = Ret 0 start.
Proof. vm_compute. done. Qed.
(** tests_gmock.cpp: the tests pass; that of the file interface only if the
    compiler gives the two empty string literals one address, since gmock
    compares a [const char *] as a pointer. *)
Example mock_tests l l' :
  let run (m : Mocks.gm bool) := match m (Mocks.mkMocked [] []) with Ret r _ => Some r | _ => None end in
  run Mocks.CanDrawSomething = Some true ∧ run Mocks.TestNonVirtual = Some true ∧
  run (Mocks.TestStatic l l') = Some (bool_decide (l = l')).
Proof.
  split; [reflexivity|split; [reflexivity|]]. unfold Mocks.TestStatic, Mocks.DoRead, Mocks.MockFI, Mocks.Open, Mocks.ask.
  unfold bind, modify, get, ret. cbn. destruct (decide (l = l')) as [->|].
  - rewrite decide_True, (bool_decide_eq_true_2 (l' = l')) by done. vm_compute. done.
  - rewrite decide_False by (by intros [? _]). cbn. by rewrite (bool_decide_eq_false_2 (l = l')).
Qed.
