(* ===== verification/Members.v ===== *)
(** * Special members and initialisation

    Models the examples about how objects come into being, are assigned and
    converted: examples/001_encapsulation.cpp ([Encapsulation]),
    003_initialization_without_constructor.cpp ([Aggregate]),
    004_default_contructor.cpp ([DefaultArguments]),
    006_constructor_with_one_argument.cpp ([OneArgument]),
    009_transform_constuctors_and_operations.cpp ([Conversions]),
    013_simple_initializers_in_cpp11.cpp ([Initializers]), 015_move_assignment.cpp
    ([MoveAssignment]), 016_assignment_via_constructor.cpp ([ViaConstructor]),
    016_1_rvalue_methods.cpp ([RefQualified]), 017_defaults_constructors.cpp
    ([DefaultMembers]), 018_trivial_constructors.cpp ([Trivial]),
    019_delete_and_default_methods.cpp ([Defaulted]), 020_RVO_NRVO.cpp
    ([Elision]), 022_undefined_sizeof.cpp ([Unevaluated]),
    023_noexcept_destructor.cpp ([Noexcept]) and 028_elimination.cpp
    ([EmptyBases]). An object is the record of its members; an uninitialised one
    is [None]. The constants of type double are parameters. *)

From S2P Require Import Prelude Posix Text.

Definition put {D} (l : list (out D)) : M (list (out D)) unit := modify (λ t, t ++ l).
Abbreviation terminal := (list (out False)).
Definition read {S A} (o : option A) : M S A := or_undef Indeterminate o.

(** ** 001_encapsulation.cpp *)
Module Encapsulation.
(** Both classes have three ints; they differ in who may name them. *)
Record ABC : Type := mkABC { a : option Z; b : option Z; c : option Z }.
Definition uninitialised : ABC := mkABC None None None.
Definition print (name : string) (x : ABC) : M terminal unit :=
  let! a := read (a x) in let! b := read (b x) in let! c := read (c x) in
  put [OStr name; OInt a; OStr " "; OInt b; OStr " "; OInt c; OEndl].
Definition A_print : ABC → M terminal unit := print "A: ".
Definition B_print : ABC → M terminal unit := print "B: ".
Definition set_a (x : ABC) (v : Z) : ABC := mkABC (Some v) (b x) (c x).
Definition set_c (x : ABC) (v : Z) : ABC := mkABC (a x) (b x) (Some v).
(** A const method may change a mutable member. *)
Definition MutableClass : Z := 2.
Definition method (a : Z) : Z := 5.
(** main up to its object of a class C, which no one declares. *)
Definition main : M terminal unit :=
  let a := uninitialised in
  A_print a ;;
  let a := set_c a 3 in
  A_print a ;;
  let b := uninitialised in
  B_print b ;;
  let b := set_a b 1 in
  B_print b ;;
  let b := set_c b 3 in
  B_print b.
End Encapsulation.

(** ** 003_initialization_without_constructor.cpp *)
Module Aggregate.
Record Sample (D : Type) : Type := mkSample { int_prm : Z; dbl_prm : D; std_prm : string }.
Arguments mkSample {D} _ _ _.
Definition print {D} (s : Sample D) : M (list (out D)) unit :=
  put [OInt (int_prm _ s); OStr " "; ODbl (dbl_prm _ s); OStr " "; OStr (std_prm _ s); OEndl].
Definition main {D} (minus_pi : D) : M (list (out D)) Z :=
  let sample := mkSample 1 minus_pi "dictum factum" in
  print sample ;;
  let cpp11sample := mkSample 1 minus_pi "dictum factum" in
  print sample ;;
  ret 0.
End Aggregate.

(** ** 004_default_contructor.cpp *)
Module DefaultArguments.
Record Sample (D : Type) : Type := mkSample { ipr : Z; dpr : D }.
Arguments mkSample {D} _ _.
Section Main.
Context {D : Type} (zero five : D).
(** The arguments that are given; the others are 0 and 0.0. *)
Definition Sample_ctor (i : option Z) (d : option D) : Sample D := mkSample (default 0 i) (default zero d).
Definition print (s : Sample D) : M (list (out D)) unit :=
  put [OInt (ipr _ s); OStr " "; ODbl (dpr _ s); OStr " "; OEndl].
Definition main : M (list (out D)) Z :=
  print (Sample_ctor None None) ;;
  print (Sample_ctor (Some 10) None) ;;
  print (Sample_ctor (Some 10) (Some five)) ;;
  ret 0.
End Main.
End DefaultArguments.

(** ** 006_constructor_with_one_argument.cpp *)
Module OneArgument.
(** The double is never read; the copy constructor sets no member. *)
Record Sample : Type := mkSample { prm_ : option Z }.
Definition Sample_ctor (prm : Z) : M terminal Sample :=
  put [OStr "ctor "; OInt prm; OEndl] ;; ret (mkSample (Some prm)).
Definition Sample_copy (rhs : Sample) : M terminal Sample :=
  put [OStr "copy ctor "; OEndl] ;; ret (mkSample None).
Definition print (s : Sample) : M terminal unit := let! p := read (prm_ s) in put [OInt p; OEndl].
Fixpoint make_array (l : list Z) : M terminal (list Sample) :=
  match l with
  | [] => ret []
  | z :: l' => let! s := Sample_ctor z in let! r := make_array l' in ret (s :: r)
  end.
Definition main : M terminal Z :=
  let! sample1 := Sample_ctor 10 in
  let! sample2 := Sample_ctor 10 in
  let! sample3 := Sample_ctor 10 in
  let! sample4 := Sample_copy sample1 in
  print sample1 ;; print sample2 ;; print sample3 ;;
  let! array1 := make_array [10; -5; 0; 127] in
  put [OStr "array1[]"; OEndl] ;;
  for_each print array1 ;;
  let N := 5 in
  let! array2 := make_array [10; -5; 0; 0; 0] in
  put [OStr "array2["; OInt N; OStr "]"; OEndl] ;;
  for_each print array2 ;;
  ret 0.
End OneArgument.

(** ** 009_transform_constuctors_and_operations.cpp *)
Module Conversions.
(** The time and the text of a time are the library's. *)
Section Main.
Context (time_NULL : Z) (asctime : Z → string).
Record Sample : Type := mkSample { int_prm : Z; dbl_prm : Z }.
Definition from_chars (s : bytes) : M terminal Sample :=
  let x := mkSample (s32 (Z.of_nat (length s))) time_NULL in
  put [OStr "Sample(const char *s)"; OEndl] ;; ret x.
Definition from_string (s : bytes) : M terminal Sample :=
  let x := mkSample (s32 (Z.of_nat (length s))) time_NULL in
  put [OStr "Sample(std::string &s)"; OEndl] ;; ret x.
Definition to_int (x : Sample) : M terminal Z := put [OStr "int()"; OEndl] ;; ret (int_prm x).
Definition to_double (x : Sample) : M terminal Z := put [OStr "double()"; OEndl] ;; ret (dbl_prm x).
Definition to_chars (x : Sample) : M terminal string :=
  put [OStr "char *()"; OEndl] ;;
  let! time := to_double x in
  ret (asctime time).
(** [std::cout << s[i]] for one index of the string with its terminating zero. *)
Definition print_char (s : bytes) (i : Z) : M terminal unit :=
  let! c := or_undef OutOfBounds (zget (s ++ [NUL]) i) in
  put [OStr (String.string_of_list_ascii [c])].
Definition main (s : bytes) : M terminal Z :=
  let ss := s in
  let! s1 := from_chars s in
  let! s2 := from_string ss in
  let! len := to_int s1 in
  for_each (print_char s) (seqZ 0 len) ;;
  put [OEndl] ;;
  let! t := to_chars s2 in
  put [OStr t; OEndl] ;;
  ret 0.
End Main.
End Conversions.

(** ** 013_simple_initializers_in_cpp11.cpp *)
Module Initializers.
Record Sample : Type := mkSample { msg : string; id : Z; n : Z }.
(** The global [counter], and the terminal. *)
Record state : Type := mkState { counter : Z; cout : terminal }.
Definition say (l : terminal) : M state unit := modify (λ s, mkState (counter s) (cout s ++ l)).
(** The initializers in the class, of which a constructor may replace that of [n]. *)
Definition init (n : Z) : M state Sample :=
  let! s := get in
  let! k := int_arith (counter s + 1) in
  modify (λ s, mkState k (cout s)) ;;
  ret (mkSample "Abeunt studia in mores" k n).
Definition Sample_ctor : M state Sample := let! x := init 42 in say [OStr "Sample()"; OEndl] ;; ret x.
Definition Sample_int (n : Z) : M state Sample := let! x := init n in say [OStr "Sample(int)"; OEndl] ;; ret x.
Definition Sample_copy (s : Sample) : M state Sample :=
  let! x := init 42 in say [OStr "Sample(const Sample &s)"; OEndl] ;; ret x.
Definition print (x : Sample) : M state unit :=
  say [OInt (id x); OStr " "; OInt (n x); OStr " "; OStr (msg x); OEndl].

(** Three cells; [std::copy] does not ask how many numbers there are. *)
Definition Coord3D : Type := list (option Z).
Definition copy_int (iz : nat * Z) (c : Coord3D) : M state Coord3D := store (Some c) (Z.of_nat iz.1) iz.2.
Fixpoint copy_all (l : list (nat * Z)) (c : Coord3D) : M state Coord3D :=
  match l with [] => ret c | iz :: l' => let! c := copy_int iz c in copy_all l' c end.
Definition Coord3D_ctor (l : list Z) : M state Coord3D :=
  say [OStr "Coord3D(std::initializer_list<int>)"; OEndl] ;;
  copy_all (imap pair l) (replicate 3 None).
Definition print_coords (c : Coord3D) : M state unit :=
  let! x := load (Some c) 0 in let! y := load (Some c) 1 in let! z := load (Some c) 2 in
  say [OInt x; OStr " "; OInt y; OStr " "; OInt z; OEndl].

Definition main : M state Z :=
  let! s1 := Sample_ctor in
  let! s2 := Sample_int 10 in
  let! s3 := Sample_int 1 in
  let! s4 := Sample_int 2 in
  let! s5 := Sample_copy s4 in
  for_each print [s1; s2; s3; s4; s5] ;;
  let! a := Coord3D_ctor [1; 2; 3] in
  let! b := Coord3D_ctor [4; 5; 6] in
  let c := a in
  for_each print_coords [a; b; c] ;;
  ret 0.
End Initializers.

(** ** 015_move_assignment.cpp *)
Module MoveAssignment.
(** What a moved-from std::string holds is not specified. *)
Section Main.
Context (left_behind : string → string).
Definition Beta : Type := string.
Definition Beta_string (s : string) : M terminal Beta := put [OStr "Beta(std::string)"; OEndl] ;; ret s.
Definition Beta_default : M terminal Beta := put [OStr "Beta()"; OEndl] ;; ret "".
(** The copy and the move constructor leave [msg] empty. *)
Definition Beta_copy (x : Beta) : M terminal Beta := put [OStr "Beta(const Beta&)"; OEndl] ;; ret "".
Definition Beta_move (x : Beta) : M terminal Beta := put [OStr "Beta(Beta &&b)"; OEndl] ;; ret "".
Definition copy_assign (x : Beta) : M terminal Beta := put [OStr "operator=(Beta const &)"; OEndl] ;; ret x.
(** The new values of the left and of the right side. *)
Definition move_assign (rhs : Beta) : M terminal (Beta * Beta) :=
  put [OStr "operator=(Beta &&)"; OEndl] ;; ret (rhs, left_behind rhs).
Definition main : M terminal Z :=
  let! beta := Beta_string "Per aspera ad astra" in
  let! gamma := Beta_default in
  let! gamma := copy_assign beta in
  let! moved := move_assign beta in
  put [OStr moved.1; OEndl; OStr moved.2; OEndl] ;;
  ret 0.
End Main.
End MoveAssignment.

(** ** 016_assignment_via_constructor.cpp *)
Module ViaConstructor.
(** Objects by their names, each with its handle ([None]: nullptr), and the
    handles released so far. *)
Record state : Type := mkState {
  handles : gmap nat (option nat);
  released : list nat;
  cout : terminal
}.
Abbreviation tm := (M state).
Definition say (l : terminal) : tm unit := modify (λ s, mkState (handles s) (released s) (cout s ++ l)).
Definition handle (x : nat) : tm (option nat) := let! s := get in or_undef UseAfterFree (handles s !! x).
Definition set_handle (x : nat) (h : option nat) : tm unit :=
  modify (λ s, mkState (<[x := h]> (handles s)) (released s) (cout s)).
Definition acquire (name : string) : option nat := None.
Definition release (h : option nat) : tm unit :=
  modify (λ s, mkState (handles s) (released s ++ option_list h) (cout s)).
Definition T_ctor (x : nat) (name : string) : tm unit :=
  set_handle x (acquire name) ;; say [OStr "T()"; OEndl].
Definition T_move (x rhs : nat) : tm unit :=
  let! h := handle rhs in
  set_handle x h ;; say [OStr "T(T &&)"; OEndl] ;; set_handle rhs None.
Definition T_dtor (x : nat) : tm unit :=
  say [OStr "~T()"; OEndl] ;;
  let! h := handle x in
  release h ;;
  modify (λ s, mkState (delete x (handles s)) (released s) (cout s)).
Definition swap (x y : nat) : tm unit :=
  let! h := handle x in let! k := handle y in set_handle x k ;; set_handle y h.
(** [copy] is the name of the local object. *)
Definition T_assign (copy this rhs : nat) : tm unit :=
  say [OStr "T &operator(T &&)"; OEndl] ;;
  T_move copy rhs ;;
  swap this copy ;;
  T_dtor copy.
Definition main : tm Z :=
  let a := 1%nat in let b := 2%nat in let copy := 3%nat in
  T_ctor a "string" ;;
  T_move b a ;;
  T_assign copy b a ;;
  say [OStr "end of scope"; OEndl] ;;
  T_dtor b ;; T_dtor a ;;
  ret 0.
End ViaConstructor.

(** ** 016_1_rvalue_methods.cpp *)
Module RefQualified.
Inductive category : Type := lvalue | rvalue.
(** Overload resolution by the value category of the object. *)
Definition f (k : category) : M terminal unit :=
  match k with lvalue => put [OStr "lvalue"; OEndl] | rvalue => put [OStr "rvalue"; OEndl] end.
Definition main : M terminal Z := f lvalue ;; f rvalue ;; f rvalue ;; ret 0.
End RefQualified.

(** ** 017_defaults_constructors.cpp *)
Module DefaultMembers.
Definition A_ctor : M terminal unit := put [OStr "A()"; OEndl].
Definition A_move : M terminal unit := put [OStr "A(A &&a)"; OEndl].
Definition B_ctor : M terminal unit := put [OStr "B()"; OEndl].
Definition B_move : M terminal unit := put [OStr "B(B &&b)"; OEndl].
(** The constructors that the compiler writes for C: member by member. *)
Definition C_ctor : M terminal unit := A_ctor ;; B_ctor.
Definition C_move : M terminal unit := A_move ;; B_move.
Definition main : M terminal Z := C_ctor ;; C_move ;; ret 0.
End DefaultMembers.

(** ** 018_trivial_constructors.cpp *)
Module Trivial.
(** The ints of the buffer seen as a C. *)
Definition A_print (a : option Z) : M terminal unit :=
  let! a := read a in put [OStr "A::print("; OInt a; OStr ")"; OEndl].
Definition B_print (b : option Z) : M terminal unit :=
  let! b := read b in put [OStr "B::print("; OInt b; OStr ")"; OEndl].
Definition C_print (c : option Z * option Z) : M terminal unit := A_print c.1 ;; B_print c.2.
Definition main (buffer : option Z * option Z) : M terminal Z := C_print buffer ;; ret 0.
End Trivial.

(** ** 019_delete_and_default_methods.cpp *)
Module Defaulted.
Record A (D : Type) : Type := mkA { ipr : Z; dpr : D }.
Arguments mkA {D} _ _.
(** Defaulted copies and moves of an int and a double are copies. *)
Definition A_move {D} (x : A D) : A D := x.
Definition A_copy {D} (x : A D) : A D := x.
Definition main {D} (d : D) : Z * A D :=
  let a2 := mkA 1 d in
  let a3 := A_move a2 in
  let a4 := A_copy a2 in
  let a4 := a3 in
  (0, a4).
End Defaulted.

(** ** 020_RVO_NRVO.cpp *)
Module Elision.
(** With C++17 a prvalue is constructed in its place; whether a returned local
    object is, is up to the compiler ([nrvo]). An object is its address: those
    of [a3] and of a local object are parameters. *)
Section Main.
Context (nrvo : bool) (addr_a3 addr_local : Z).
Definition A_ctor : M terminal unit := put [OStr "A()"; OEndl].
Definition A_move : M terminal unit := put [OStr "A(A &&)"; OEndl].
Definition A_copy : M terminal unit := put [OStr "A(A const &)"; OEndl].
(** The parameters are copied by the caller. *)
Definition example_RVO : M terminal unit :=
  put [OStr "inside example_RVO"; OEndl] ;;
  A_copy.
Definition example_NRVO : M terminal unit :=
  put [OStr "inside example_NRVO"; OEndl] ;;
  A_copy ;;
  put [OInt (if nrvo then addr_a3 else addr_local); OEndl] ;;
  if nrvo then ret tt else A_move.
Definition main : M terminal Z :=
  A_ctor ;;
  put [OStr "before example_RVO"; OEndl] ;;
  A_copy ;; example_RVO ;;
  put [OStr "between example_RVO and example_NRVO"; OEndl] ;;
  A_copy ;; example_NRVO ;;
  put [OInt addr_a3; OEndl] ;;
  put [OStr "after example_NRVO"; OEndl] ;;
  ret 0.
End Main.
End Elision.

(** ** 022_undefined_sizeof.cpp *)
Module Unevaluated.
(** [sizeof] of an expression looks at its type only: the expression, a program
    on the variable [i], does not run. *)
Definition sizeof_int : Z := 4.
Definition sizeof (e : M Z Z) (size : Z) : Z := size.
Definition assign_i (v : Z) : M Z Z := λ _, Ret v v.
Definition post_increment : M Z Z := λ i, Ret i (i + 1).
Definition show (i j : Z) : M terminal unit := put [OInt i; OStr " "; OInt j; OEndl].
Definition main : M terminal Z :=
  let i := 0 in
  let j := sizeof (assign_i 1234) sizeof_int in
  show i j ;;
  let j := sizeof post_increment sizeof_int in
  show i j ;;
  let i := 1234 in let j := sizeof (gets (λ i, i)) sizeof_int in
  show i j ;;
  let! i := int_arith (i + 1) in
  let j := sizeof (gets (λ i, i)) sizeof_int in
  show i j ;;
  ret 0.
End Unevaluated.

(** ** 023_noexcept_destructor.cpp *)
Module Noexcept.
(** An exception that leaves a noexcept function calls std::terminate, which
    aborts: no handler around it sees it. (The exception here is a C string.) *)
Definition noexcept {A} (m : M terminal A) : M terminal A := λ s,
  match m s with Exc _ s' => Exit 134 s' | r => r end.
Definition A_dtor : M terminal unit := noexcept (throw (runtime_error "Exception")).
Definition B_dtor : M terminal unit := noexcept (ret tt).
Definition main : M terminal Z :=
  try_catch A_dtor (λ _, put [OStr "catched"]) ;;
  B_dtor ;;
  ret 0.
End Noexcept.

(** ** 028_elimination.cpp *)
Module EmptyBases.
(** Layout as in the Itanium C++ ABI: an empty base shares an address with what
    follows, unless that is, or begins with, an object of the same class. *)
Inductive type : Type := int | Cls (name : string).
Record class : Type := mkClass { bases : list string; members : list type }.
Abbreviation table := (list (string * class)).
Fixpoint assoc {A} (k : string) (l : list (string * A)) : option A :=
  match l with
  | [] => None
  | (k', a) :: l' => if decide (k = k') then Some a else assoc k l'
  end.
(** The size so far, the alignment, and where objects of empty classes are. *)
Record layout : Type := mkLayout { bytes_ : Z; align : Z; empties : list (string * Z) }.
Definition round_up (z a : Z) : Z := (z + a - 1) / a * a.
Definition shifted (o : Z) (l : layout) : list (string * Z) := (λ e : string * Z, (e.1, e.2 + o)) <$> empties l.
Definition clash (o : Z) (l acc : layout) : bool :=
  existsb (λ e : string * Z, bool_decide (e ∈ empties acc)) (shifted o l).
(** The first place from [o] on, in steps of the alignment, without a clash. *)
Fixpoint free_place (fuel : nat) (o : Z) (l acc : layout) : Z :=
  match fuel with
  | O => o
  | S fuel' => if clash o l acc then free_place fuel' (o + align l) l acc else o
  end.
Definition put_at (o : Z) (grows : bool) (l acc : layout) : layout :=
  mkLayout (if grows then Z.max (bytes_ acc) (o + bytes_ l) else bytes_ acc) (Z.max (align acc) (align l))
    (empties acc ++ shifted o l).
Definition add_member (acc l : layout) : layout :=
  put_at (free_place (S (length (empties acc))) (round_up (bytes_ acc) (align l)) l acc) true l acc.
Definition int_layout : layout := mkLayout 4 4 [].
Section Table.
Context (tbl : table).
Fixpoint is_empty (fuel : nat) (cls : string) : bool :=
  match fuel, assoc cls tbl with
  | S f, Some c => bool_decide (members c = []) && forallb (is_empty f) (bases c)
  | _, _ => false
  end.
Definition add_base (empty : bool) (acc l : layout) : layout :=
  if empty && negb (clash 0 l acc) then put_at 0 false l acc else add_member acc l.
Fixpoint class_layout (fuel : nat) (cls : string) : layout :=
  match fuel, assoc cls tbl with
  | S f, Some c =>
      let acc := foldl (λ acc b, add_base (is_empty f b) acc (class_layout f b)) (mkLayout 0 1 []) (bases c) in
      let acc := foldl (λ acc t, add_member acc (match t with int => int_layout | Cls n => class_layout f n end))
                   acc (members c) in
      mkLayout (round_up (Z.max 1 (bytes_ acc)) (align acc)) (align acc)
        (empties acc ++ (if is_empty (S f) cls then [(cls, 0)] else []))
  | _, _ => mkLayout 0 1 []
  end.
Definition sizeof (cls : string) : Z := bytes_ (class_layout (length tbl) cls).
End Table.
Definition A : class := mkClass [] [].
Definition B : class := mkClass ["A"] [int].
Definition C : class := mkClass ["A"] [Cls "A"; int].
Definition D : class := mkClass ["A"] [int; Cls "B"].
Definition tbl : table := [("A", A); ("B", B); ("C", C); ("D", D)].
Definition main : M terminal Z :=
  for_each (λ c, put [OInt (sizeof tbl c); OEndl]) ["A"; "B"; "C"; "D"] ;; ret 0.
End EmptyBases.

(** ** Move assignment by a local object *)
Section ViaConstructor_.
Import ViaConstructor.

(** Assignment by a temporary object and a swap: the object takes the handle
    of the right side over, which is left empty, and its own old handle is
    released, once; every other object keeps its handle. An object assigned to
    itself keeps its handle, and nothing is released. *)
Theorem T_assign_moves copy this rhs h k s :
  handles s !! this = Some h → handles s !! rhs = Some k → handles s !! copy = None →
  ∃ s', T_assign copy this rhs s = Ret tt s' ∧
    (this ≠ rhs → handles s' = <[rhs := None]> (<[this := k]> (handles s)) ∧ released s' = released s ++ option_list h) ∧
    (this = rhs → handles s' = handles s ∧ released s' = released s).
Proof.
  intros Hh Hk Hc. assert (copy ≠ this) as H1 by congruence. assert (copy ≠ rhs) as H2 by congruence.
  unfold T_assign, T_move, swap, T_dtor, say, set_handle, handle, release. repeat run_step. cbn [handles released cout]. rewrite Hk. cbn [or_undef].
  repeat run_step. cbn [handles released cout].
  assert (∃ l, <[rhs := None]> (<[copy := k]> (handles s)) !! this = Some l ∧
    (this ≠ rhs → l = h) ∧ (this = rhs → l = None)) as (l & Hl & Hne & Heq).
  { destruct (decide (this = rhs)) as [->|Hne].
    - rewrite lookup_insert_eq. by eexists.
    - rewrite !lookup_insert_ne by congruence. rewrite Hh. by eexists. }
  rewrite Hl. cbn [or_undef]. repeat run_step. cbn [handles released cout].
  rewrite lookup_insert_ne, lookup_insert_eq by congruence. cbn [or_undef]. repeat run_step. cbn [handles released cout].
  rewrite lookup_insert_eq. cbn [or_undef]. repeat run_step. cbn [handles released cout].
  eexists. split; [reflexivity|]. cbn [handles released]. split.
  - intros Hn. rewrite (Hne Hn). split; [|done]. apply map_eq. intros x.
    destruct (decide (x = copy)) as [->|Hx]; [rewrite lookup_delete_eq, !lookup_insert_ne by congruence; done|].
    rewrite lookup_delete_ne by congruence. rewrite !lookup_insert. repeat case_decide; congruence.
  - intros ->. rewrite (Heq eq_refl). cbn [option_list]. rewrite app_nil_r. split; [|done]. apply map_eq. intros x.
    destruct (decide (x = copy)) as [->|Hx]; [by rewrite lookup_delete_eq|].
    rewrite lookup_delete_ne by congruence. rewrite !lookup_insert. repeat case_decide; congruence.
Qed.
End ViaConstructor_.

Definition two_handles : ViaConstructor.state :=
  ViaConstructor.mkState {[ 1%nat := Some 10%nat; 2%nat := Some 20%nat ]} [] [].
Lemma T_assign_moves_witness :
  ∃ s', ViaConstructor.T_assign 3 1 2 two_handles = Ret tt s' ∧
    (1%nat ≠ 2%nat → ViaConstructor.handles s' = <[2%nat := None]> (<[1%nat := Some 20%nat]> (ViaConstructor.handles two_handles)) ∧
       ViaConstructor.released s' = [10%nat]) ∧
    (1%nat = 2%nat → ViaConstructor.handles s' = ViaConstructor.handles two_handles ∧ ViaConstructor.released s' = []).
Proof. exact (T_assign_moves 3 1 2 (Some 10%nat) (Some 20%nat) two_handles eq_refl eq_refl eq_refl). Defined.

(** ** Three coordinates *)
Section Coordinates.
Import Initializers.

Lemma copy_all_spec l : ∀ done k (s : state),
  (length l ≤ k)%nat →
  copy_all (imap (λ i z, (length done + i, z)%nat) l) ((Some <$> done) ++ replicate k None) s =
    Ret ((Some <$> (done ++ l)) ++ replicate (k - length l) None) s.
Proof.
  induction l as [|z l IH]; intros dn k s Hk; cbn [imap copy_all].
  - rewrite app_nil_r, Nat.sub_0_r. done.
  - destruct k as [|k]; [simpl in Hk; lia|]. unfold bind at 1, copy_int, store. cbn [fst snd].
    rewrite Nat.add_0_r, zset_nat by (rewrite length_app, length_fmap; simpl; lia). cbn [or_undef ret].
    rewrite insert_app_r_alt, length_fmap, Nat.sub_diag by (by rewrite length_fmap). cbn [replicate].
    change (<[0%nat := Some z]> (None :: replicate k None)) with (Some z :: replicate k None).
    specialize (IH (dn ++ [z]) k s). rewrite fmap_app, <-!app_assoc in IH. simpl in IH.
    cbn [length Nat.sub]. rewrite <-IH by (simpl in Hk; lia). f_equal. apply imap_ext. intros i x _. cbn [compose].
    f_equal. rewrite length_app. simpl. lia.
Qed.
Lemma copy_all_overflows l : ∀ done k (s : state),
  (k < length l)%nat →
  copy_all (imap (λ i z, (length done + i, z)%nat) l) ((Some <$> done) ++ replicate k None) s = Undef OutOfBounds.
Proof.
  induction l as [|z l IH]; intros dn k s Hk; [simpl in Hk; lia|]. cbn [imap copy_all].
  unfold bind at 1, copy_int, store. cbn [fst snd]. destruct k as [|k].
  - rewrite zset_None; [done|]. right. rewrite app_nil_r, length_fmap. lia.
  - rewrite Nat.add_0_r, zset_nat by (rewrite length_app, length_fmap; simpl; lia). cbn [or_undef ret].
    rewrite insert_app_r_alt, length_fmap, Nat.sub_diag by (by rewrite length_fmap). cbn [replicate].
    change (<[0%nat := Some z]> (None :: replicate k None)) with (Some z :: replicate k None).
    specialize (IH (dn ++ [z]) k s). rewrite fmap_app, <-!app_assoc in IH. simpl in IH.
    rewrite <-IH by (simpl in Hk; lia). f_equal. apply imap_ext. intros i x _. cbn [compose].
    f_equal. rewrite length_app. simpl. lia.
Qed.
(** A Coord3D made of a list and printed at once is defined for exactly three
    numbers: with more the constructor writes behind its array, with fewer
    print reads what it has not written. *)
Lemma Coord3D_three l s :
  (let! c := Coord3D_ctor l in print_coords c) s =
  match l with
  | [x; y; z] => Ret tt (mkState (counter s) (cout s ++ [OStr "Coord3D(std::initializer_list<int>)"; OEndl;
                     OInt x; OStr " "; OInt y; OStr " "; OInt z; OEndl]))
  | _ => Undef (if decide (3 < length l)%nat then OutOfBounds else Indeterminate)
  end.
Proof.
  unfold Coord3D_ctor, say. repeat run_step.
  destruct (decide (3 < length l)%nat) as [Hl|Hl].
  - unfold bind at 1. rewrite (copy_all_overflows l [] 3); [|done]. by destruct l as [|x [|y [|z [|w l]]]]; simpl in Hl; try lia.
  - unfold bind at 1. rewrite (copy_all_spec l [] 3); [|lia].
    destruct l as [|x [|y [|z [|w l]]]]; simpl in Hl; try lia; try reflexivity.
    assert (∀ l m n : terminal, Ret tt (mkState (counter s) (l ++ m ++ n)) = Ret tt (mkState (counter s) ((l ++ m) ++ n))) as E
      by (intros; by rewrite app_assoc).
    symmetry. apply (E (cout s) [OStr "Coord3D(std::initializer_list<int>)"; OEndl]).
Qed.
End Coordinates.

(** ** Conversions *)
(** 009: whatever the string, the loop over the converted length prints it. *)
Lemma print_chars (s : bytes) : ∀ (p r : bytes) t, s = p ++ r →
  for_each (Conversions.print_char s) (seqZ (Z.of_nat (length p)) (Z.of_nat (length r))) t =
    Ret tt (t ++ map (λ c, OStr (String.string_of_list_ascii [c])) r).
Proof.
  intros p r. revert p. induction r as [|c r IH]; intros p t ->.
  - cbn [map]. by rewrite !app_nil_r.
  - rewrite seqZ_cons by (simpl; lia).
    assert (Conversions.print_char (p ++ c :: r) (Z.of_nat (length p)) t =
      Ret tt (t ++ [OStr (String.string_of_list_ascii [c])])) as E.
    { unfold Conversions.print_char, put. rewrite zget_nat, <-app_assoc. cbn [app].
      rewrite list_lookup_middle by done. reflexivity. }
    rewrite (for_each_cons _ _ _ _ _ E).
    replace (Z.succ (Z.of_nat (length p))) with (Z.of_nat (length (p ++ [c]))) by (rewrite length_app; simpl; lia).
    replace (Z.pred (Z.of_nat (length (c :: r)))) with (Z.of_nat (length r)) by (simpl; lia).
    rewrite (IH (p ++ [c])); [|by rewrite <-app_assoc]. cbn [map]. by rewrite <-app_assoc.
Qed.
Lemma conversions_print time_NULL asctime (s : bytes) :
  Z.of_nat (length s) ≤ INT_MAX →
  Conversions.main time_NULL asctime s [] =
    Ret 0 ([OStr "Sample(const char *s)"; OEndl; OStr "Sample(std::string &s)"; OEndl; OStr "int()"; OEndl] ++
      map (λ c, OStr (String.string_of_list_ascii [c])) s ++
      [OEndl; OStr "char *()"; OEndl; OStr "double()"; OEndl; OStr (asctime time_NULL); OEndl]).
Proof.
  intros Hs. unfold Conversions.main, Conversions.from_chars, Conversions.from_string, Conversions.to_int, put.
  repeat run_step. cbn [Conversions.int_prm]. rewrite s32_small by (unfold INT_MIN, INT_MAX in *; lia).
  erewrite (bind_eq_ret (for_each _ _)); [|apply (print_chars s [] s); done].
  unfold Conversions.to_chars, Conversions.to_double, put. repeat run_step. cbn [Conversions.dbl_prm].
  by rewrite <-!app_assoc.
Qed.

(** ** The programs *)
Definition lines {D} (l : list string) : list (out D) := flat_map (λ s, [OStr s; OEndl]) l.

(** 001 and 018 print members that no one has set; with the members set, 018
    prints them. 001 also names a class C that does not exist. *)
Example uninitialised_members t x y :
  Encapsulation.main t = Undef Indeterminate ∧
  Trivial.main (None, None) t = Undef Indeterminate ∧
  Trivial.main (Some x, Some y) t =
    Ret 0 (t ++ [OStr "A::print("; OInt x; OStr ")"; OEndl; OStr "B::print("; OInt y; OStr ")"; OEndl]).
Proof.
  split; [reflexivity|]. split; [reflexivity|]. cbn. unfold bind, modify. cbn. by rewrite <-app_assoc.
Qed.
(** 003 prints its first object twice; 004 the arguments or their defaults. *)
Example aggregates_and_defaults {D} (d zero five : D) :
  Aggregate.main d [] =
    Ret 0 (concat (replicate 2 [OInt 1; OStr " "; ODbl d; OStr " "; OStr "dictum factum"; OEndl])) ∧
  DefaultArguments.main zero five [] =
    Ret 0 [OInt 0; OStr " "; ODbl zero; OStr " "; OEndl; OInt 10; OStr " "; ODbl zero; OStr " "; OEndl;
           OInt 10; OStr " "; ODbl five; OStr " "; OEndl].
Proof. split; reflexivity. Qed.
(** 006: the copy is never printed: its members are not set. *)
Example one_argument t :
  (∃ l, OneArgument.main [] = Ret 0 l) ∧
  (let! s := OneArgument.Sample_ctor 10 in let! s := OneArgument.Sample_copy s in OneArgument.print s) t =
    Undef Indeterminate.
Proof. split; [eexists; vm_compute; reflexivity|reflexivity]. Qed.
(** 013: the objects number themselves, also the copy, which is otherwise
    made anew. *)
Example initializers_print :
  ∃ s, Initializers.main (Initializers.mkState 0 []) = Ret 0 s ∧ Initializers.counter s = 5 ∧
    Initializers.cout s =
      lines ["Sample()"; "Sample(int)"; "Sample(int)"; "Sample(int)"; "Sample(const Sample &s)"] ++
      concat (imap (λ i n, [OInt (Z.of_nat i + 1); OStr " "; OInt n; OStr " "; OStr "Abeunt studia in mores"; OEndl])
        [42; 10; 1; 2; 42]) ++
      lines ["Coord3D(std::initializer_list<int>)"; "Coord3D(std::initializer_list<int>)"] ++
      [OInt 1; OStr " "; OInt 2; OStr " "; OInt 3; OEndl; OInt 4; OStr " "; OInt 5; OStr " "; OInt 6; OEndl;
       OInt 1; OStr " "; OInt 2; OStr " "; OInt 3; OEndl].
Proof. eexists. split; [vm_compute; reflexivity|]. split; vm_compute; reflexivity. Qed.
(** 015: after a copy and a move assignment gamma holds the string; 016: four
    objects with null handles, the local one of the assignment included. *)
Example assignments_print left_behind :
  MoveAssignment.main left_behind [] =
    Ret 0 (lines ["Beta(std::string)"; "Beta()"; "operator=(Beta const &)"; "operator=(Beta &&)";
      "Per aspera ad astra"; left_behind "Per aspera ad astra"]) ∧
  ∃ s, ViaConstructor.main (ViaConstructor.mkState ∅ [] []) = Ret 0 s ∧ ViaConstructor.released s = [] ∧
    ViaConstructor.handles s = ∅ ∧
    ViaConstructor.cout s = lines ["T()"; "T(T &&)"; "T &operator(T &&)"; "T(T &&)"; "~T()"; "end of scope"; "~T()"; "~T()"].
Proof. split; [reflexivity|]. eexists. split; [vm_compute; reflexivity|]. split; [|split]; vm_compute; reflexivity. Qed.
Example small_programs {D} (d : D) t :
  RefQualified.main [] = Ret 0 (lines ["lvalue"; "rvalue"; "rvalue"]) ∧
  DefaultMembers.main [] = Ret 0 (lines ["A()"; "B()"; "A(A &&a)"; "B(B &&b)"]) ∧
  Defaulted.main d = (0, Defaulted.mkA 1 d) ∧
  Noexcept.main t = Exit 134 t ∧
  Unevaluated.main [] = Ret 0 [OInt 0; OStr " "; OInt 4; OEndl; OInt 0; OStr " "; OInt 4; OEndl;
    OInt 1234; OStr " "; OInt 4; OEndl; OInt 1235; OStr " "; OInt 4; OEndl] ∧
  EmptyBases.main [] = Ret 0 [OInt 1; OEndl; OInt 4; OEndl; OInt 8; OEndl; OInt 8; OEndl].
Proof. repeat split; vm_compute; reflexivity. Qed.
(** 020: the object that example_NRVO returns has one address in and outside of
    it exactly if it is not moved. *)
Example elision_prints nrvo a3 local :
  Elision.main nrvo a3 local [] = Ret 0 (
    lines ["A()"; "before example_RVO"; "A(A const &)"; "inside example_RVO"; "A(A const &)";
      "between example_RVO and example_NRVO"; "A(A const &)"; "inside example_NRVO"; "A(A const &)"] ++
    [OInt (if nrvo then a3 else local); OEndl] ++ (if nrvo then [] else lines ["A(A &&)"]) ++
    [OInt a3; OEndl] ++ lines ["after example_NRVO"]).
Proof. destruct nrvo; reflexivity. Qed.
