(* ===== verification/Skia.v ===== *)
(** * A window with a drawing

    Models skia_sdl_example/main.cpp: the drawing as the list of the operations
    that reach the canvas, with the paint of each; main as a program that
    creates and destroys the objects of SDL, which may refuse to create them and
    which chooses the events. *)

From S2P Require Import Prelude.

(** ** The drawing *)

Definition SK_ColorWHITE : Z := 0xffffffff.
Inductive style : Type := kFill_Style | kStroke_Style.
(** An SkPaint and an SkRect; the coordinates of this drawing are integers. *)
Record paint : Type := mkPaint {
  paint_style : style;
  anti_alias : bool;
  stroke_width : Z;
  color : Z
}.
Definition default_paint : paint := mkPaint kFill_Style false 0 0xff000000.
Record rect : Type := mkRect { left : Z; top : Z; width : Z; height : Z }.
Definition offset (r : rect) (dx dy : Z) : rect := mkRect (left r + dx) (top r + dy) (width r) (height r).
Definition set_style (p : paint) (s : style) : paint := mkPaint s (anti_alias p) (stroke_width p) (color p).
Definition set_anti_alias (p : paint) : paint := mkPaint (paint_style p) true (stroke_width p) (color p).
Definition set_stroke_width (p : paint) (w : Z) : paint := mkPaint (paint_style p) (anti_alias p) w (color p).
Definition set_color (p : paint) (c : Z) : paint := mkPaint (paint_style p) (anti_alias p) (stroke_width p) c.

Inductive draw_op : Type :=
  | drawColor (c : Z)
  | drawRect (r : rect) (p : paint)
  | drawOval (r : rect) (p : paint)         (* drawRRect of an oval *)
  | drawCircle (x y r : Z) (p : paint)
  | drawRoundRect (r : rect) (rx ry : Z) (p : paint).

(** Every operation has the paint and the rectangle of its moment. *)
Definition draw_canvas : list draw_op :=
  let paint := default_paint in
  let paint := set_style paint kFill_Style in
  let paint := set_anti_alias paint in
  let paint := set_stroke_width paint 4 in
  let paint := set_color paint 0xff4285F4 in
  let rect := mkRect 10 10 100 160 in
  let op1 := drawRect rect paint in
  let oval := rect in
  let oval := offset oval 40 80 in
  let paint := set_color paint 0xffDB4437 in
  let op2 := drawOval oval paint in
  let paint := set_color paint 0xff0F9D58 in
  let op3 := drawCircle 180 50 25 paint in
  let rect := offset rect 80 50 in
  let paint := set_color paint 0xffF4B400 in
  let paint := set_style paint kStroke_Style in
  let op4 := drawRoundRect rect 10 10 paint in
  [drawColor SK_ColorWHITE; op1; op2; op3; op4].

(** The star, over any numbers with a sine and a cosine. *)
Section Star.
Context {F : Type} (of_Z : Z → F) (add mul : F → F → F) (cos sin : F → F) (step : F).
Definition R : F := of_Z 60.
Definition C : F := of_Z 128.
Definition vertex (i : nat) : F * F :=
  let a := mul step (of_Z (Z.of_nat i)) in
  let r := add R (mul R (of_Z (Z.of_nat i `rem` 2))) in
  (add C (mul r (cos a)), add C (mul r (sin a))).
(** The point of moveTo and those of lineTo. *)
Definition star : (F * F) * list (F * F) := ((add C R, C), map vertex (seq 1 14)).
End Star.

(** ** main *)

Definition rmask : Z := 0x00ff0000.
Definition gmask : Z := 0x0000ff00.
Definition bmask : Z := 0x000000ff.
Definition amask : Z := 0xff000000.

Inductive sdl_object : Type := Window | Surface | Renderer | Texture.
#[export] Instance sdl_object_eq_dec : EqDecision sdl_object.
Proof. solve_decision. Defined.
(** What main asks of SDL. [Create] notes whether it succeeded. *)
Inductive sdl_call : Type :=
  | Init
  | Create (o : sdl_object) (made : bool)
  | RenderClear | RenderCopy | RenderPresent
  | PollEvent
  | Destroy (o : sdl_object) (made : bool)
  | Quit.
Definition SDL_QUIT : Z := 0x100.

(** SDL answers from the history of calls: whether an object can be made, and
    which event is pending. *)
Class SDL := mkSDL {
  can_make : list sdl_call → sdl_object → bool;
  pending : list sdl_call → option Z
}.
Section Main.
Context {Sdl : SDL}.
Abbreviation sm := (M (list sdl_call)).
Definition ask (c : sdl_call) : sm unit := modify (λ s, s ++ [c]).
(** A pointer is whether it points to an object. *)
Definition create (o : sdl_object) : sm bool :=
  let! s := get in
  let made := can_make s o in
  ask (Create o made) ;; ret made.
Definition SDL_PollEvent : sm (option Z) := let! s := get in ask PollEvent ;; ret (pending s).

Definition draw (w h : Z) : list draw_op := draw_canvas.
(** [create_rect] reads the size from the surface. *)
Definition create_rect (surface : bool) : sm rect :=
  if surface then ret (mkRect 0 0 800 480) else undef NullPointer.
Fixpoint event_loop (fuel : nat) : sm unit :=
  match fuel with
  | O => no_fuel
  | S fuel' =>
      let! e := SDL_PollEvent in
      match e with
      | Some t => if decide (SDL_QUIT = t) then ret tt else event_loop fuel'
      | None => event_loop fuel'
      end
  end.
Definition main (fuel : nat) : sm Z :=
  let width := 800 in
  let height := 480 in
  ask Init ;;
  let! window := create Window in
  if negb window then ret (-1)
  else
    let bitmap := draw width height in
    let! surface := create Surface in
    let! rect := create_rect surface in
    let! renderer := create Renderer in
    ask RenderClear ;;
    let! texture := create Texture in
    ask RenderCopy ;;
    ask RenderPresent ;;
    event_loop fuel ;;
    ask (Destroy Surface surface) ;;
    ask (Destroy Texture texture) ;;
    ask (Destroy Renderer renderer) ;;
    ask (Destroy Window window) ;;
    ask Quit ;;
    ret 0.

(** ** What is made is destroyed *)
Definition polls (n : nat) : list sdl_call := replicate n PollEvent.

Lemma event_loop_next fuel s :
  event_loop (S fuel) s = if decide (pending s = Some SDL_QUIT) then Ret tt (s ++ [PollEvent])
                          else event_loop fuel (s ++ [PollEvent]).
Proof.
  cbn [event_loop]. unfold SDL_PollEvent, ask. repeat run_step. destruct (pending s) as [t|]; [|done].
  destruct (decide (SDL_QUIT = t)) as [->|Ht]; [by rewrite decide_True|]. rewrite decide_False; [done|congruence].
Qed.
(** The loop ends with the first SDL_QUIT, and as long as there is none it goes
    on. *)
Lemma event_loop_quits n : ∀ fuel s,
  (n < fuel)%nat → pending (s ++ polls n) = Some SDL_QUIT →
  (∀ m, (m < n)%nat → pending (s ++ polls m) ≠ Some SDL_QUIT) →
  event_loop fuel s = Ret tt (s ++ polls (S n)).
Proof.
  induction n as [|n IH]; intros [|fuel] s Hn Hq Hb; try lia; rewrite event_loop_next.
  - simpl in Hq. rewrite app_nil_r in Hq. by rewrite decide_True.
  - specialize (Hb 0%nat) as Hb0. simpl in Hb0. rewrite app_nil_r in Hb0. rewrite decide_False by (apply Hb0; lia).
    rewrite (IH fuel (s ++ [PollEvent])).
    + by rewrite <-app_assoc.
    + lia.
    + by rewrite <-app_assoc.
    + intros m Hm. rewrite <-app_assoc. apply (Hb (S m)). lia.
Qed.
Lemma event_loop_waits fuel : ∀ s,
  (∀ m, (m < fuel)%nat → pending (s ++ polls m) ≠ Some SDL_QUIT) → event_loop fuel s = NoFuel.
Proof.
  induction fuel as [|fuel IH]; intros s Hb; [done|]. rewrite event_loop_next.
  specialize (Hb 0%nat) as Hb0. simpl in Hb0. rewrite app_nil_r in Hb0. rewrite decide_False by (apply Hb0; lia).
  apply IH. intros m Hm. rewrite <-app_assoc. apply (Hb (S m)). lia.
Qed.

(** What becomes of skia_sdl_example/main.cpp for any answers of SDL: -1
    without a window, SDL being left initialised; a null dereference without a
    surface, although without a renderer or a texture it goes on; otherwise it
    polls until the first SDL_QUIT and then releases the four objects, each
    once and with the surface first, and ends SDL with status 0. *)
Theorem main_outcomes fuel :
  let window := can_make [Init] Window in
  let surface := can_make [Init; Create Window true] Surface in
  let s1 := [Init; Create Window true; Create Surface true] in
  let renderer := can_make s1 Renderer in
  let s2 := s1 ++ [Create Renderer renderer; RenderClear] in
  let texture := can_make s2 Texture in
  let s3 := s2 ++ [Create Texture texture; RenderCopy; RenderPresent] in
  (window = false → main fuel [] = Ret (-1) [Init; Create Window false]) ∧
  (window = true → surface = false → main fuel [] = Undef NullPointer) ∧
  (window = true → surface = true →
   (∀ n, (n < fuel)%nat → pending (s3 ++ polls n) = Some SDL_QUIT →
      (∀ m, (m < n)%nat → pending (s3 ++ polls m) ≠ Some SDL_QUIT) →
      main fuel [] = Ret 0 (s3 ++ polls (S n) ++
        [Destroy Surface true; Destroy Texture texture; Destroy Renderer renderer; Destroy Window true; Quit])) ∧
   ((∀ m, (m < fuel)%nat → pending (s3 ++ polls m) ≠ Some SDL_QUIT) → main fuel [] = NoFuel)).
Proof.
  intros window surface s1 renderer s2 texture s3. unfold main, create, ask. repeat run_step. cbn [app]. fold window.
  split; [intros ->; reflexivity|]. split; intros -> H; cbn [negb]; repeat run_step; cbn [app]; fold surface; rewrite H.
  - reflexivity.
  - unfold create_rect. repeat run_step. cbn [app]. change [Init; Create Window true; Create Surface true] with s1.
    fold renderer. change [Init; Create Window true; Create Surface true; Create Renderer renderer; RenderClear] with s2.
    fold texture. change [Init; _; _; _; _; _; _; _] with s3. split.
    + intros n Hn Hq Hb. rewrite (bind_eq_ret _ _ _ _ _ (event_loop_quits n fuel s3 Hn Hq Hb)). repeat run_step.
      unfold ret. by rewrite <-!app_assoc.
    + intros Hb. unfold bind at 1. by rewrite (event_loop_waits fuel s3 Hb).
Qed.
End Main.

(** ** The drawing and the masks *)
(** The four masks name each bit of a pixel once. *)
Lemma masks_partition :
  Z.lor (Z.lor rmask gmask) (Z.lor bmask amask) = 2 ^ 32 - 1 ∧
  Z.land rmask gmask = 0 ∧ Z.land (Z.lor rmask gmask) bmask = 0 ∧ Z.land (Z.lor (Z.lor rmask gmask) bmask) amask = 0.
Proof. vm_compute. done. Qed.
(** Four shapes in four opaque colours on white; the last one is an outline. *)
Example drawing :
  let filled := mkPaint kFill_Style true 4 in
  draw_canvas =
    [drawColor SK_ColorWHITE;
     drawRect (mkRect 10 10 100 160) (filled 0xff4285F4);
     drawOval (mkRect 50 90 100 160) (filled 0xffDB4437);
     drawCircle 180 50 25 (filled 0xff0F9D58);
     drawRoundRect (mkRect 90 60 100 160) 10 10 (mkPaint kStroke_Style true 4 0xffF4B400)].
Proof. reflexivity. Qed.
(** SDL that makes everything, and quits at the third event. *)
Definition willing : SDL :=
  {| can_make := λ _ _, true; pending := λ s, if decide (length s < 10)%nat then None else Some SDL_QUIT |}.
Example main_destroys :
  ∃ s, main (Sdl:=willing) 5 [] = Ret 0 s ∧
    drop 8 s = polls 3 ++ [Destroy Surface true; Destroy Texture true; Destroy Renderer true; Destroy Window true; Quit].
Proof. eexists. split; [vm_compute; reflexivity|]. reflexivity. Qed.
